(** * KzAlloc: a shallow embedding of the allocator core and its properties

    The development follows the layering of the C++ sources:
    [Common] (constants, machine arithmetic, raw memory), [SizeUtils]
    (size-class tables), [PageMap] (radix tree), [FreeList]
    (thread-cache lists), then the span store with [PageCacheShard] and
    [PageHeap], [CentralCache], [ThreadCache] and the [malloc] facade.

    Conventions.  A [size_t] or pointer is a [Z] in [0, 2^64) and every
    arithmetic operation of the source that may wrap is written with
    [wrap64].  [nullptr] is [0].  C arrays are lists read with [!!] and
    written with [<[_:=_]>]; the large lookup table and raw memory are
    finite maps, an absent key standing for a zero-initialised cell. *)

From stdpp Require Import gmap list.
From Stdlib Require Import ZArith Lia.
Local Open Scope Z_scope.

(** ** Common.h *)

Module Common.

Definition wrap64 (x : Z) : Z := x mod 2 ^ 64.

Definition PAGE_SHIFT : Z := 13.
Definition PAGE_SIZE : Z := Z.shiftl 1 PAGE_SHIFT.
Definition PAGE_ROUND_UP_NUM : Z := PAGE_SIZE - 1.
Definition PAGE_ROUND_UP_NUM_NEGATE : Z := wrap64 (Z.lnot PAGE_ROUND_UP_NUM).

Definition MAX_NFREELISTS : Z := 264.
Definition MAX_BYTES : Z := 256 * 1024.

(** [for (size_t i = lo; ...; ++i) body] with [count] iterations. *)
Fixpoint for_up {S : Type} (count : nat) (i : Z) (body : Z → S → S) (s : S) : S :=
  match count with
  | O => s
  | S count' => for_up count' (i + 1) body (body i s)
  end.

(** [NextObj(obj)]: the first word of the object at address [obj]. *)
Definition NextObj (m : gmap Z Z) (obj : Z) : Z := default 0 (m !! obj).

End Common.
Import Common.

(** ** SizeUtils (Common.h) *)

Module SizeUtils.

(** The two global arrays [_size_lookup_table[MAX_BYTES + 1]] and
    [_class_to_size[MAX_NFREELISTS]]. *)
Record SizeTables := {
  _size_lookup_table : gmap Z Z;
  _class_to_size : list Z
}.

Definition zero_tables : SizeTables :=
  {| _size_lookup_table := ∅;
     _class_to_size := replicate (Z.to_nat MAX_NFREELISTS) 0 |}.

Definition RoundUpToPage (size : Z) : Z :=
  Z.land (wrap64 (size + PAGE_ROUND_UP_NUM)) PAGE_ROUND_UP_NUM_NEGATE.

Definition _CalculateNextBlockSize (current_size : Z) : Z :=
  if current_size <? 128 then wrap64 (current_size + 8)
  else if current_size <? 1024 then wrap64 (current_size + 16)
  else if current_size <? 8 * 1024 then wrap64 (current_size + 128)
  else if current_size <? 64 * 1024 then wrap64 (current_size + 512)
  else wrap64 (current_size + 8 * 1024).

(** [Index]: the source asserts [size <= MAX_BYTES]; every caller in this
    development guards the call accordingly. *)
Definition Index (t : SizeTables) (size : Z) : Z :=
  default 0 (_size_lookup_table t !! size).

Definition Size (t : SizeTables) (index : Z) : Z :=
  default 0 (_class_to_size t !! Z.to_nat index).

Definition RoundUp (t : SizeTables) (size : Z) : Z :=
  if MAX_BYTES <? size then RoundUpToPage size
  else Size t (Index t size).

Definition NumMoveSize (t : SizeTables) (index : Z) : Z :=
  let num := MAX_BYTES / Size t index in
  let num := if num <? 2 then 2 else num in
  let num := if 32768 <? num then 32768 else num in
  num.

(** State of the loop in [Init]: the locals [index] and [block_size] and
    the two tables being filled. *)
Record InitLoop := {
  il_index : Z;
  il_block_size : Z;
  il_tables : SizeTables
}.

Definition Init_body (i : Z) (s : InitLoop) : InitLoop :=
  let bump := il_block_size s <? i in
  let index := if bump then il_index s + 1 else il_index s in
  let block_size :=
    if bump then _CalculateNextBlockSize (il_block_size s) else il_block_size s in
  let lut := <[ i := index mod 2 ^ 16 ]> (_size_lookup_table (il_tables s)) in
  let cts :=
    if index <? MAX_NFREELISTS
    then <[ Z.to_nat index := block_size ]> (_class_to_size (il_tables s))
    else _class_to_size (il_tables s) in
  {| il_index := index; il_block_size := block_size;
     il_tables := {| _size_lookup_table := lut; _class_to_size := cts |} |}.

Definition Init_loop (count : nat) (t : SizeTables) : InitLoop :=
  for_up count 1 Init_body {| il_index := 0; il_block_size := 8; il_tables := t |}.

(** After the loop: [_size_lookup_table[0] = 0]. *)
Definition Init_finish (s : InitLoop) : SizeTables :=
  {| _size_lookup_table := <[ 0 := 0 ]> (_size_lookup_table (il_tables s));
     _class_to_size := _class_to_size (il_tables s) |}.

Definition Init (t : SizeTables) : SizeTables :=
  Init_finish (Init_loop (Z.to_nat MAX_BYTES) t).

(** The tables every other component reads: [Init] run once on the
    zero-initialised globals. *)
Definition tables : SizeTables := Init zero_tables.

End SizeUtils.

(** ** PageMap.h: the three-level radix tree of 64-bit targets *)

Module PageMap.

Definition BITS_ROOT : Z := 12.
Definition BITS_INTERNAL : Z := 12.
Definition BITS_LEAF : Z := 11.

Definition LEN_ROOT : Z := Z.shiftl 1 BITS_ROOT.
Definition LEN_INTERNAL : Z := Z.shiftl 1 BITS_INTERNAL.
Definition LEN_LEAF : Z := Z.shiftl 1 BITS_LEAF.

(** A [PageMapLeaf] is its array [values] of [Span*]; a
    [PageMapInternal] is its array [leafs], [None] being a null child.
    Nodes are never shared nor freed, so the tree owns them by value. *)
Record PageMap := {
  _root : list (option (list (option (list Z))))
}.

(** The constructor: [memset(_root, 0, sizeof(_root))]. *)
Definition empty : PageMap :=
  {| _root := replicate (Z.to_nat LEN_ROOT) None |}.

Definition get (pm : PageMap) (id : Z) : Z :=
  let iRoot := Z.shiftr id (BITS_INTERNAL + BITS_LEAF) in
  if LEN_ROOT <=? iRoot then 0
  else
    match _root pm !! Z.to_nat iRoot with
    | Some (Some rootNode) =>
        let iInternal := Z.land (Z.shiftr id BITS_LEAF) (LEN_INTERNAL - 1) in
        match rootNode !! Z.to_nat iInternal with
        | Some (Some leafNode) =>
            let iLeaf := Z.land id (LEN_LEAF - 1) in
            default 0 (leafNode !! Z.to_nat iLeaf)
        | _ => 0
        end
    | _ => 0
    end.

(** [AllocNode<NodeType>()]: a node of zero-filled pages.  The source
    takes these pages from [SystemAlloc]; the model builds the node in
    place, so that a [set] never fails with [std::bad_alloc] and leaves
    no trace in the requests to the operating system. *)
Definition AllocNode_Internal : list (option (list Z)) :=
  replicate (Z.to_nat LEN_INTERNAL) None.
Definition AllocNode_Leaf : list Z :=
  replicate (Z.to_nat LEN_LEAF) 0.

Definition EnsureRoot (pm : PageMap) (index : Z) : PageMap :=
  if LEN_ROOT <=? index then pm
  else
    match _root pm !! Z.to_nat index with
    | Some None => {| _root := <[ Z.to_nat index := Some AllocNode_Internal ]> (_root pm) |}
    | _ => pm
    end.

(** [EnsureInternal] dereferences [_root[iRoot]] unchecked: [None] is the
    undefined behaviour of an index past an array or of a null node. *)
Definition EnsureInternal (pm : PageMap) (iRoot iInternal : Z) : option PageMap :=
  if LEN_ROOT <=? iRoot then None
  else
    match _root pm !! Z.to_nat iRoot with
    | Some (Some rootNode) =>
        match rootNode !! Z.to_nat iInternal with
        | Some None =>
            Some {| _root := <[ Z.to_nat iRoot :=
                                 Some (<[ Z.to_nat iInternal := Some AllocNode_Leaf ]> rootNode) ]>
                               (_root pm) |}
        | Some (Some _) => Some pm
        | None => None
        end
    | _ => None
    end.

Definition set (pm : PageMap) (id span : Z) : option PageMap :=
  let iRoot := Z.shiftr id (BITS_INTERNAL + BITS_LEAF) in
  let pm := EnsureRoot pm iRoot in
  let iInternal := Z.land (Z.shiftr id BITS_LEAF) (LEN_INTERNAL - 1) in
  match EnsureInternal pm iRoot iInternal with
  | None => None
  | Some pm =>
      let iLeaf := Z.land id (LEN_LEAF - 1) in
      match _root pm !! Z.to_nat iRoot with
      | Some (Some rootNode) =>
          match rootNode !! Z.to_nat iInternal with
          | Some (Some leafNode) =>
              match leafNode !! Z.to_nat iLeaf with
              | Some _ =>
                  Some {| _root := <[ Z.to_nat iRoot :=
                                       Some (<[ Z.to_nat iInternal :=
                                                 Some (<[ Z.to_nat iLeaf := span ]> leafNode) ]>
                                               rootNode) ]>
                                     (_root pm) |}
              | None => None
              end
          | _ => None
          end
      | _ => None
      end
  end.

(** A run of [set] calls from the first pair on. *)
Fixpoint set_all (pm : PageMap) (sets : list (Z * Z)) : option PageMap :=
  match sets with
  | [] => Some pm
  | (id, span) :: rest =>
      match set pm id span with
      | Some pm' => set_all pm' rest
      | None => None
      end
  end.

End PageMap.

(** ** ThreadCache.h: FreeList *)

Module FreeList.

Record FreeList := {
  _head : Z;
  _tail : Z;
  _size : Z;
  _maxSize : Z;
  _maxNum : Z
}.

(** A default-constructed list whose [_maxNum] the owner sets next. *)
Definition fresh (maxNum : Z) : FreeList :=
  {| _head := 0; _tail := 0; _size := 0; _maxSize := 1; _maxNum := maxNum |}.

Definition Empty (l : FreeList) : bool := _head l =? 0.
Definition Size (l : FreeList) : Z := _size l.
Definition MaxSize (l : FreeList) : Z := _maxSize l.
Definition MaxNum (l : FreeList) : Z := _maxNum l.

Definition SetMaxSize (l : FreeList) (maxSize : Z) : FreeList :=
  {| _head := _head l; _tail := _tail l; _size := _size l;
     _maxSize := maxSize; _maxNum := _maxNum l |}.

Definition SetMaxNum (l : FreeList) (maxNum : Z) : FreeList :=
  {| _head := _head l; _tail := _tail l; _size := _size l;
     _maxSize := _maxSize l; _maxNum := maxNum |}.

(** Each operation returns [None] where an [assert] of the source fails. *)
Definition Push (l : FreeList) (m : gmap Z Z) (obj : Z) : option (FreeList * gmap Z Z) :=
  if obj =? 0 then None
  else
    let m := <[ obj := _head l ]> m in
    let tail := if _tail l =? 0 then obj else _tail l in
    Some ({| _head := obj; _tail := tail; _size := wrap64 (_size l + 1);
             _maxSize := _maxSize l; _maxNum := _maxNum l |}, m).

Definition Pop (l : FreeList) (m : gmap Z Z) : option (Z * FreeList) :=
  if _head l =? 0 then None
  else
    let obj := _head l in
    let head := NextObj m (_head l) in
    let tail := if head =? 0 then 0 else _tail l in
    Some (obj, {| _head := head; _tail := tail; _size := wrap64 (_size l - 1);
                  _maxSize := _maxSize l; _maxNum := _maxNum l |}).

Definition PushRange (l : FreeList) (m : gmap Z Z) (start end_ n : Z)
  : option (FreeList * gmap Z Z) :=
  if (start =? 0) || (end_ =? 0) then None
  else
    let m := <[ end_ := _head l ]> m in
    let tail := if _tail l =? 0 then end_ else _tail l in
    Some ({| _head := start; _tail := tail; _size := wrap64 (_size l + n);
             _maxSize := _maxSize l; _maxNum := _maxNum l |}, m).

(** The walk [for (i = 0; i < n - 1; ++i) end = NextObj(end)]. *)
Fixpoint walk (m : gmap Z Z) (steps : nat) (end_ : Z) : Z :=
  match steps with
  | O => end_
  | S steps' => walk m steps' (NextObj m end_)
  end.

(** [PopRange(start, end, n)] returns the two output parameters. *)
Definition PopRange (l : FreeList) (m : gmap Z Z) (n : Z)
  : option (Z * Z * FreeList * gmap Z Z) :=
  if _size l <? n then None
  else
    let start := _head l in
    let end_ := walk m (Z.to_nat (wrap64 (n - 1))) (_head l) in
    let head := NextObj m end_ in
    let m := <[ end_ := 0 ]> m in
    let tail := if head =? 0 then 0 else _tail l in
    Some (start, end_,
          {| _head := head; _tail := tail; _size := wrap64 (_size l - n);
             _maxSize := _maxSize l; _maxNum := _maxNum l |}, m).

End FreeList.

(** ** Span.h *)

Module Span.

(** The links [_next]/[_prev] of [SpanLink] are represented by the
    position of the span's address in the [SpanList] that holds it. *)
Record Span := {
  _pageId : Z;
  _n : Z;
  _objSize : Z;
  _useCount : Z;
  _freeList : Z;
  _isUse : bool;
  _isCold : bool;
  _shardId : Z
}.

(** The default member initialisers, as run by [ObjectPool::New]. *)
Definition init : Span :=
  {| _pageId := 0; _n := 0; _objSize := 0; _useCount := 0; _freeList := 0;
     _isUse := false; _isCold := false; _shardId := 0 |}.

Definition set_pageId (v : Z) (s : Span) : Span :=
  {| _pageId := v; _n := _n s; _objSize := _objSize s; _useCount := _useCount s;
     _freeList := _freeList s; _isUse := _isUse s; _isCold := _isCold s;
     _shardId := _shardId s |}.
Definition set_n (v : Z) (s : Span) : Span :=
  {| _pageId := _pageId s; _n := v; _objSize := _objSize s; _useCount := _useCount s;
     _freeList := _freeList s; _isUse := _isUse s; _isCold := _isCold s;
     _shardId := _shardId s |}.
Definition set_objSize (v : Z) (s : Span) : Span :=
  {| _pageId := _pageId s; _n := _n s; _objSize := v; _useCount := _useCount s;
     _freeList := _freeList s; _isUse := _isUse s; _isCold := _isCold s;
     _shardId := _shardId s |}.
Definition set_useCount (v : Z) (s : Span) : Span :=
  {| _pageId := _pageId s; _n := _n s; _objSize := _objSize s; _useCount := v;
     _freeList := _freeList s; _isUse := _isUse s; _isCold := _isCold s;
     _shardId := _shardId s |}.
Definition set_freeList (v : Z) (s : Span) : Span :=
  {| _pageId := _pageId s; _n := _n s; _objSize := _objSize s; _useCount := _useCount s;
     _freeList := v; _isUse := _isUse s; _isCold := _isCold s;
     _shardId := _shardId s |}.
Definition set_isUse (v : bool) (s : Span) : Span :=
  {| _pageId := _pageId s; _n := _n s; _objSize := _objSize s; _useCount := _useCount s;
     _freeList := _freeList s; _isUse := v; _isCold := _isCold s;
     _shardId := _shardId s |}.
Definition set_isCold (v : bool) (s : Span) : Span :=
  {| _pageId := _pageId s; _n := _n s; _objSize := _objSize s; _useCount := _useCount s;
     _freeList := _freeList s; _isUse := _isUse s; _isCold := v;
     _shardId := _shardId s |}.
Definition set_shardId (v : Z) (s : Span) : Span :=
  {| _pageId := _pageId s; _n := _n s; _objSize := _objSize s; _useCount := _useCount s;
     _freeList := _freeList s; _isUse := _isUse s; _isCold := _isCold s;
     _shardId := v |}.

(** [SpanList]: the ring with its sentinel, as the list of the member
    spans' addresses from [Begin()] to [End()]. *)
Definition Empty (l : list Z) : bool :=
  match l with [] => true | _ => false end.

Definition PushFront (l : list Z) (span : Z) : list Z := span :: l.

(** [PopFront] returns [nullptr] on an empty list. *)
Definition PopFront (l : list Z) : Z * list Z :=
  match l with
  | [] => (0, [])
  | front :: rest => (front, rest)
  end.

(** [Erase(span)] and [Span::Remove()] unlink one node. *)
Definition Erase (l : list Z) (span : Z) : list Z :=
  filter (λ x, x ≠ span) l.

End Span.

(** ** PageCache.h: the state of a shard, and the state of the process *)

Module State.

Definition NPAGES : Z := 129.

(** [_spanPool] is the pool's [_freeList] of recycled [Span] records,
    most recent first; see [SpanPool_New] for fresh ones.  A
    [LargeSpanMap] is a finite map from page counts to [SpanList]s. *)
Record PageCacheShard := {
  _spanLists : list (list Z);
  _largeSpanLists : gmap Z (list Z);
  _releasedSpanLists : list (list Z);
  _releasedLargeSpanLists : gmap Z (list Z);
  _spanPool : list Z;
  _totalFreePages : Z;
  _releaseThreshold : Z;
  _shardId : Z
}.

(** A shard after the [PageHeap] constructor has run on it. *)
Definition new_shard (threshold id : Z) : PageCacheShard :=
  {| _spanLists := replicate (Z.to_nat NPAGES) [];
     _largeSpanLists := ∅;
     _releasedSpanLists := replicate (Z.to_nat NPAGES) [];
     _releasedLargeSpanLists := ∅;
     _spanPool := [];
     _totalFreePages := 0;
     _releaseThreshold := threshold;
     _shardId := id mod 2 ^ 8 |}.

(** The process state.
    - [memory]: the first word of every object, as written through [NextObj];
    - [spans]: the live [Span] records by address;
    - [pagemap]: the [PageMap] singleton;
    - [shards]: [PageHeap::_shards];
    - [buckets]: [CentralCache::_spanLists], one [SpanList] per class;
    - [os_answers]: what the next calls of [mmap] will return;
    - [os_requests]: the page counts [SystemAlloc] was called with for
      span memory, most recent first;
    - [fetch_requests]: the [(n, size)] arguments [FetchRangeObj] was
      called with, most recent first;
    - [span_arena]: the address of the next never-used [Span] record. *)
Record World := {
  memory : gmap Z Z;
  spans : gmap Z Span.Span;
  pagemap : PageMap.PageMap;
  shards : list PageCacheShard;
  buckets : list (list Z);
  os_answers : list Z;
  os_requests : list Z;
  fetch_requests : list (Z * Z);
  span_arena : Z
}.

Definition new_world (nshards : nat) (threshold : Z) (answers : list Z) : World :=
  {| memory := ∅;
     spans := ∅;
     pagemap := PageMap.empty;
     shards := (λ i, new_shard threshold (Z.of_nat i)) <$> seq 0 nshards;
     buckets := replicate (Z.to_nat MAX_NFREELISTS) [];
     os_answers := answers;
     os_requests := [];
     fetch_requests := [];
     span_arena := 64 |}.

(** Computations on the process state that may fail: [BadAlloc] is
    [std::bad_alloc], [Undefined] an undefined behaviour of the source (a
    wild or null dereference, an index past an array, a failed [assert]),
    [OutOfFuel] an unbounded loop cut short. *)
Inductive error := BadAlloc | Undefined | OutOfFuel.

Inductive outcome (A : Type) :=
| Done (a : A) (w : World)
| Raise (e : error).
Arguments Done {A} a w.
Arguments Raise {A} e.

Definition M (A : Type) : Type := World → outcome A.

#[global] Instance M_ret : MRet M := λ A a w, Done a w.
#[global] Instance M_bind : MBind M := λ A B f m w,
  match m w with
  | Done a w' => f a w'
  | Raise e => Raise e
  end.

Definition raise {A : Type} (e : error) : M A := λ _, Raise e.
Definition get_world : M World := λ w, Done w w.
Definition put_world (w : World) : M unit := λ _, Done tt w.

Definition from_option {A : Type} (o : option A) : M A :=
  match o with
  | Some a => mret a
  | None => raise Undefined
  end.

(** [while (true) { body }]: [body] answers [Some a] to return [a] and
    [None] to go round again. *)
Fixpoint loop {A : Type} (fuel : nat) (body : M (option A)) : M A :=
  match fuel with
  | O => raise OutOfFuel
  | S fuel' =>
      r ← body;
      match r with
      | Some a => mret a
      | None => loop fuel' body
      end
  end.

(** [for (size_t i = lo; i < lo + count; ++i) body(i)]. *)
Fixpoint for_each (count : nat) (i : Z) (body : Z → M unit) : M unit :=
  match count with
  | O => mret tt
  | S count' => body i;; for_each count' (i + 1) body
  end.

End State.

(** ** Primitive steps on the process state *)

Module Machine.
Import State.

Definition with_memory (v : gmap Z Z) (w : World) : World :=
  {| memory := v; spans := spans w; pagemap := pagemap w; shards := shards w;
     buckets := buckets w; os_answers := os_answers w; os_requests := os_requests w;
     fetch_requests := fetch_requests w; span_arena := span_arena w |}.
Definition with_spans (v : gmap Z Span.Span) (w : World) : World :=
  {| memory := memory w; spans := v; pagemap := pagemap w; shards := shards w;
     buckets := buckets w; os_answers := os_answers w; os_requests := os_requests w;
     fetch_requests := fetch_requests w; span_arena := span_arena w |}.
Definition with_pagemap (v : PageMap.PageMap) (w : World) : World :=
  {| memory := memory w; spans := spans w; pagemap := v; shards := shards w;
     buckets := buckets w; os_answers := os_answers w; os_requests := os_requests w;
     fetch_requests := fetch_requests w; span_arena := span_arena w |}.
Definition with_shards (v : list PageCacheShard) (w : World) : World :=
  {| memory := memory w; spans := spans w; pagemap := pagemap w; shards := v;
     buckets := buckets w; os_answers := os_answers w; os_requests := os_requests w;
     fetch_requests := fetch_requests w; span_arena := span_arena w |}.
Definition with_buckets (v : list (list Z)) (w : World) : World :=
  {| memory := memory w; spans := spans w; pagemap := pagemap w; shards := shards w;
     buckets := v; os_answers := os_answers w; os_requests := os_requests w;
     fetch_requests := fetch_requests w; span_arena := span_arena w |}.
Definition with_os (answers requests : list Z) (w : World) : World :=
  {| memory := memory w; spans := spans w; pagemap := pagemap w; shards := shards w;
     buckets := buckets w; os_answers := answers; os_requests := requests;
     fetch_requests := fetch_requests w; span_arena := span_arena w |}.
Definition with_fetch_requests (v : list (Z * Z)) (w : World) : World :=
  {| memory := memory w; spans := spans w; pagemap := pagemap w; shards := shards w;
     buckets := buckets w; os_answers := os_answers w; os_requests := os_requests w;
     fetch_requests := v; span_arena := span_arena w |}.
Definition with_span_arena (v : Z) (w : World) : World :=
  {| memory := memory w; spans := spans w; pagemap := pagemap w; shards := shards w;
     buckets := buckets w; os_answers := os_answers w; os_requests := os_requests w;
     fetch_requests := fetch_requests w; span_arena := v |}.

(** The hot ([cold = false]) or cold ([cold = true]) containers of a shard. *)
Definition small (cold : bool) (sh : PageCacheShard) : list (list Z) :=
  if cold then _releasedSpanLists sh else _spanLists sh.
Definition large (cold : bool) (sh : PageCacheShard) : gmap Z (list Z) :=
  if cold then _releasedLargeSpanLists sh else _largeSpanLists sh.

Definition with_small (cold : bool) (v : list (list Z)) (sh : PageCacheShard)
  : PageCacheShard :=
  {| _spanLists := if cold then _spanLists sh else v;
     _largeSpanLists := _largeSpanLists sh;
     _releasedSpanLists := if cold then v else _releasedSpanLists sh;
     _releasedLargeSpanLists := _releasedLargeSpanLists sh;
     _spanPool := _spanPool sh; _totalFreePages := _totalFreePages sh;
     _releaseThreshold := _releaseThreshold sh; _shardId := _shardId sh |}.
Definition with_large (cold : bool) (v : gmap Z (list Z)) (sh : PageCacheShard)
  : PageCacheShard :=
  {| _spanLists := _spanLists sh;
     _largeSpanLists := if cold then _largeSpanLists sh else v;
     _releasedSpanLists := _releasedSpanLists sh;
     _releasedLargeSpanLists := if cold then v else _releasedLargeSpanLists sh;
     _spanPool := _spanPool sh; _totalFreePages := _totalFreePages sh;
     _releaseThreshold := _releaseThreshold sh; _shardId := _shardId sh |}.
Definition with_spanPool (v : list Z) (sh : PageCacheShard) : PageCacheShard :=
  {| _spanLists := _spanLists sh; _largeSpanLists := _largeSpanLists sh;
     _releasedSpanLists := _releasedSpanLists sh;
     _releasedLargeSpanLists := _releasedLargeSpanLists sh;
     _spanPool := v; _totalFreePages := _totalFreePages sh;
     _releaseThreshold := _releaseThreshold sh; _shardId := _shardId sh |}.
Definition with_totalFreePages (v : Z) (sh : PageCacheShard) : PageCacheShard :=
  {| _spanLists := _spanLists sh; _largeSpanLists := _largeSpanLists sh;
     _releasedSpanLists := _releasedSpanLists sh;
     _releasedLargeSpanLists := _releasedLargeSpanLists sh;
     _spanPool := _spanPool sh; _totalFreePages := v;
     _releaseThreshold := _releaseThreshold sh; _shardId := _shardId sh |}.

(** [MAP_FAILED] is [(void* )-1]. *)
Definition MAP_FAILED : Z := 2 ^ 64 - 1.

(** [SystemAlloc(kpage)]: the operating system answers with the next
    address of [os_answers]; no answer left, a null answer or
    [MAP_FAILED] throws [std::bad_alloc]. *)
Definition SystemAlloc (kpage : Z) : M Z := λ w,
  match os_answers w with
  | [] => Raise BadAlloc
  | ptr :: rest =>
      if (ptr =? 0) || (ptr =? MAP_FAILED) then Raise BadAlloc
      else Done ptr (with_os rest (kpage :: os_requests w) w)
  end.

(** Reading and writing a field through a [Span*]; the record must be live. *)
Definition rd {A : Type} (span : Z) (field : Span.Span → A) : M A := λ w,
  match spans w !! span with
  | Some s => Done (field s) w
  | None => Raise Undefined
  end.

Definition wr (span : Z) (assign : Span.Span → Span.Span) : M unit := λ w,
  match spans w !! span with
  | Some s => Done tt (with_spans (<[ span := assign s ]> (spans w)) w)
  | None => Raise Undefined
  end.

(** [PageMap::GetInstance()->get(id)] and [->set(id, span)]. *)
Definition PageMap_get (id : Z) : M Z := λ w,
  Done (PageMap.get (pagemap w) id) w.

Definition PageMap_set (id span : Z) : M unit := λ w,
  match PageMap.set (pagemap w) id span with
  | Some pm => Done tt (with_pagemap pm w)
  | None => Raise Undefined
  end.

(** The shard [this] of [PageHeap::_shards]. *)
Definition this_shard (this : Z) : M PageCacheShard := λ w,
  match shards w !! Z.to_nat this with
  | Some sh => Done sh w
  | None => Raise Undefined
  end.

Definition modify_shard (this : Z) (f : PageCacheShard → PageCacheShard) : M unit := λ w,
  match shards w !! Z.to_nat this with
  | Some sh => Done tt (with_shards (<[ Z.to_nat this := f sh ]> (shards w)) w)
  | None => Raise Undefined
  end.

(** [_totalFreePages += n] and [-= n] on [size_t]. *)
Definition add_totalFreePages (this n : Z) : M unit :=
  modify_shard this (λ sh, with_totalFreePages (wrap64 (_totalFreePages sh + n)) sh).
Definition sub_totalFreePages (this n : Z) : M unit :=
  modify_shard this (λ sh, with_totalFreePages (wrap64 (_totalFreePages sh - n)) sh).

(** [_spanLists[i]] or [_releasedSpanLists[i]]; an index past the array
    is undefined. *)
Definition small_list (this : Z) (cold : bool) (i : Z) : M (list Z) :=
  sh ← this_shard this;
  from_option (small cold sh !! Z.to_nat i).

Definition set_small_list (this : Z) (cold : bool) (i : Z) (l : list Z) : M unit :=
  small_list this cold i;;
  modify_shard this (λ sh, with_small cold (<[ Z.to_nat i := l ]> (small cold sh)) sh).

Definition small_PushFront (this : Z) (cold : bool) (i span : Z) : M unit :=
  l ← small_list this cold i;
  set_small_list this cold i (Span.PushFront l span).

Definition small_PopFront (this : Z) (cold : bool) (i : Z) : M Z :=
  l ← small_list this cold i;
  set_small_list this cold i (Span.PopFront l).2;;
  mret (Span.PopFront l).1.

(** [std::map]: [operator[]] creates an empty list under a new key. *)
Definition map_at (m : gmap Z (list Z)) (key : Z) : list Z :=
  default [] (m !! key).

Definition lower_bound (m : gmap Z (list Z)) (k : Z) : option Z :=
  foldr (λ key acc,
           if k <=? key
           then match acc with Some b => Some (Z.min key b) | None => Some key end
           else acc)
        None (map_to_list m).*1.

Definition rbegin (m : gmap Z (list Z)) : option Z :=
  foldr (λ key acc,
           match acc with Some b => Some (Z.max key b) | None => Some key end)
        None (map_to_list m).*1.

Definition map_empty (m : gmap Z (list Z)) : bool :=
  match map_to_list m with [] => true | _ => false end.

Definition large_PushFront (this : Z) (cold : bool) (key span : Z) : M unit :=
  modify_shard this
    (λ sh, with_large cold
             (<[ key := Span.PushFront (map_at (large cold sh) key) span ]> (large cold sh)) sh).

(** [it->second.PopFront()] for the iterator at [key]. *)
Definition large_PopFront (this : Z) (cold : bool) (key : Z) : M Z :=
  sh ← this_shard this;
  l ← from_option (large cold sh !! key);
  modify_shard this
    (λ sh, with_large cold (<[ key := (Span.PopFront l).2 ]> (large cold sh)) sh);;
  mret (Span.PopFront l).1.

Definition large_erase (this : Z) (cold : bool) (key : Z) : M unit :=
  modify_shard this (λ sh, with_large cold (delete key (large cold sh)) sh).

(** [ObjectPool<Span>].  [New] reuses the most recently deleted record
    or carves a fresh one; fresh records come from blocks the pool takes
    from the operating system, which the model replaces by a cursor
    shared by all pools (so that their records are distinct), without
    logging those block requests and without their [std::bad_alloc]. *)
Definition sizeof_Span : Z := 64.

(** Placement [new(obj) T]: the record at [obj] becomes live with its
    default member initialisers. *)
Definition construct_Span (obj : Z) : M unit := λ w,
  Done tt (with_spans (<[ obj := Span.init ]> (spans w)) w).

Definition destroy_Span (obj : Z) : M unit := λ w,
  match spans w !! obj with
  | Some _ => Done tt (with_spans (delete obj (spans w)) w)
  | None => Raise Undefined
  end.

Definition carve_Span : M Z := λ w,
  Done (span_arena w) (with_span_arena (span_arena w + sizeof_Span) w).

Definition SpanPool_New (this : Z) : M Z :=
  sh ← this_shard this;
  match _spanPool sh with
  | obj :: rest =>
      modify_shard this (with_spanPool rest);;
      construct_Span obj;;
      mret obj
  | [] =>
      obj ← carve_Span;
      construct_Span obj;;
      mret obj
  end.

Definition SpanPool_Delete (this obj : Z) : M unit :=
  if obj =? 0 then mret tt
  else
    destroy_Span obj;;
    modify_shard this (λ sh, with_spanPool (obj :: _spanPool sh) sh).

(** All spans linked in the lists of a shard, and of the page heap. *)
Definition shard_listed (sh : PageCacheShard) : list Z :=
  concat (_spanLists sh) ++ concat (map_to_list (_largeSpanLists sh)).*2
  ++ concat (_releasedSpanLists sh) ++ concat (map_to_list (_releasedLargeSpanLists sh)).*2.

Definition listed (w : World) : list Z :=
  concat (shard_listed <$> shards w).

Definition shard_erase (span : Z) (sh : PageCacheShard) : PageCacheShard :=
  {| _spanLists := (λ l, Span.Erase l span) <$> _spanLists sh;
     _largeSpanLists := (λ l, Span.Erase l span) <$> _largeSpanLists sh;
     _releasedSpanLists := (λ l, Span.Erase l span) <$> _releasedSpanLists sh;
     _releasedLargeSpanLists := (λ l, Span.Erase l span) <$> _releasedLargeSpanLists sh;
     _spanPool := _spanPool sh; _totalFreePages := _totalFreePages sh;
     _releaseThreshold := _releaseThreshold sh; _shardId := _shardId sh |}.

(** [span->Remove()]: the span leaves the ring its links are in, be it a
    list of any shard or a central bucket; a span linked nowhere has null
    links, and unlinking it is undefined. *)
Definition Span_Remove (span : Z) : M unit := λ w,
  if bool_decide (span ∈ listed w ++ concat (buckets w))
  then Done tt (with_buckets ((λ l, Span.Erase l span) <$> buckets w)
                  (with_shards (shard_erase span <$> shards w) w))
  else Raise Undefined.

End Machine.

(** ** PageCache.cpp: PageCacheShard *)

Module PageCacheShard.
Import State Machine.

(** The shard a method runs on is named by its index [this] in
    [PageHeap::_shards]; a [SpanList&] argument by the index of the list
    in its array; a map iterator by its key. *)

Definition AllocFromHotList (this list k : Z) : M Z :=
  span ← small_PopFront this false list;
  n ← rd span Span._n;
  sub_totalFreePages this n;;
  n ← rd span Span._n;
  (if k <? n then
     split ← SpanPool_New this;
     pid ← rd span Span._pageId;
     wr split (Span.set_pageId (wrap64 (pid + k)));;
     n ← rd span Span._n;
     wr split (Span.set_n (wrap64 (n - k)));;
     wr split (Span.set_isCold false);;
     wr span (Span.set_n k);;
     sn ← rd split Span._n;
     small_PushFront this false sn split;;
     sn ← rd split Span._n;
     add_totalFreePages this sn;;
     spid ← rd split Span._pageId;
     PageMap_set spid split;;
     spid ← rd split Span._pageId;
     sn ← rd split Span._n;
     PageMap_set (wrap64 (wrap64 (spid + sn) - 1)) split
   else mret tt);;
  for_each (Z.to_nat k) 0
    (λ i, pid ← rd span Span._pageId; PageMap_set (wrap64 (pid + i)) span);;
  wr span (Span.set_isUse true);;
  wr span (Span.set_isCold false);;
  mret span.

Definition AllocFromColdList (this list k : Z) : M Z :=
  span ← small_PopFront this true list;
  n ← rd span Span._n;
  (if k <? n then
     split ← SpanPool_New this;
     pid ← rd span Span._pageId;
     wr split (Span.set_pageId (wrap64 (pid + k)));;
     n ← rd span Span._n;
     wr split (Span.set_n (wrap64 (n - k)));;
     wr split (Span.set_isCold true);;
     wr span (Span.set_n k);;
     sn ← rd split Span._n;
     small_PushFront this true sn split;;
     spid ← rd split Span._pageId;
     PageMap_set spid split;;
     spid ← rd split Span._pageId;
     sn ← rd split Span._n;
     PageMap_set (wrap64 (wrap64 (spid + sn) - 1)) split
   else mret tt);;
  for_each (Z.to_nat k) 0
    (λ i, pid ← rd span Span._pageId; PageMap_set (wrap64 (pid + i)) span);;
  wr span (Span.set_isUse true);;
  wr span (Span.set_isCold false);;
  mret span.

(** [map] tells which map the iterator [it] ranges over: [false] for
    [_largeSpanLists], [true] for [_releasedLargeSpanLists]. *)
Definition AllocFromMap (this : Z) (map : bool) (it k : Z) (isCold : bool) : M Z :=
  span ← large_PopFront this map it;
  if span =? 0 then
    large_erase this map it;;
    mret 0
  else
    (if negb isCold then
       n ← rd span Span._n;
       sub_totalFreePages this n
     else mret tt);;
    n ← rd span Span._n;
    (if k <? n then
       split ← SpanPool_New this;
       pid ← rd span Span._pageId;
       wr split (Span.set_pageId (wrap64 (pid + k)));;
       n ← rd span Span._n;
       wr split (Span.set_n (wrap64 (n - k)));;
       wr split (Span.set_isCold isCold);;
       wr span (Span.set_n k);;
       (if isCold then
          sn ← rd split Span._n;
          large_PushFront this true sn split
        else
          sn ← rd split Span._n;
          large_PushFront this false sn split;;
          sn ← rd split Span._n;
          add_totalFreePages this sn);;
       spid ← rd split Span._pageId;
       PageMap_set spid split;;
       spid ← rd split Span._pageId;
       sn ← rd split Span._n;
       PageMap_set (wrap64 (wrap64 (spid + sn) - 1)) split
     else mret tt);;
    for_each (Z.to_nat k) 0
      (λ i, pid ← rd span Span._pageId; PageMap_set (wrap64 (pid + i)) span);;
    wr span (Span.set_isUse true);;
    wr span (Span.set_isCold false);;
    mret span.

(** [for (i = from; i < NPAGES; ++i) if (!lists[i].Empty()) ...]: the
    first index with a non-empty list. *)
Fixpoint first_nonempty (this : Z) (cold : bool) (count : nat) (i : Z) : M (option Z) :=
  match count with
  | O => mret None
  | S count' =>
      l ← small_list this cold i;
      if Span.Empty l then first_nonempty this cold count' (i + 1)
      else mret (Some i)
  end.

(** How a phase of the loop body of [NewSpan] ends: with [return span],
    with [continue], or by falling through to the next phase. *)
Inductive phase_end :=
| Returns (span : Z)
| Continues
| FallsThrough.

Definition NewSpan_hot (this k : Z) : M phase_end :=
  if k <? NPAGES then
    l ← small_list this false k;
    if negb (Span.Empty l) then
      span ← AllocFromHotList this k k;
      mret (Returns span)
    else
      found ← first_nonempty this false (Z.to_nat (NPAGES - (k + 1))) (k + 1);
      match found with
      | Some i =>
          span ← AllocFromHotList this i k;
          mret (Returns span)
      | None => mret FallsThrough
      end
  else
    sh ← this_shard this;
    match lower_bound (_largeSpanLists sh) k with
    | Some it =>
        ret ← AllocFromMap this false it k false;
        if ret =? 0 then mret Continues else mret (Returns ret)
    | None => mret FallsThrough
    end.

Definition NewSpan_cold (this k : Z) : M phase_end :=
  r ← (if k <? NPAGES then
         l ← small_list this true k;
         if negb (Span.Empty l) then
           span ← AllocFromColdList this k k;
           mret (Returns span)
         else
           found ← first_nonempty this true (Z.to_nat (NPAGES - (k + 1))) (k + 1);
           match found with
           | Some i =>
               span ← AllocFromColdList this i k;
               mret (Returns span)
           | None => mret FallsThrough
           end
       else mret FallsThrough);
  match r with
  | FallsThrough =>
      sh ← this_shard this;
      if negb (map_empty (_releasedLargeSpanLists sh)) then
        match lower_bound (_releasedLargeSpanLists sh) k with
        | Some it =>
            ret ← AllocFromMap this true it k true;
            if ret =? 0 then mret Continues else mret (Returns ret)
        | None => mret FallsThrough
        end
      else mret FallsThrough
  | _ => mret r
  end.

Definition NewSpan_system (this k : Z) : M phase_end :=
  if NPAGES <=? k then
    ptr ← SystemAlloc k;
    span ← SpanPool_New this;
    wr span (Span.set_pageId (Z.shiftr ptr PAGE_SHIFT));;
    wr span (Span.set_n k);;
    wr span (Span.set_isUse true);;
    wr span (Span.set_isCold false);;
    sh ← this_shard this;
    wr span (Span.set_shardId (_shardId sh));;
    for_each (Z.to_nat k) 0
      (λ i, pid ← rd span Span._pageId; PageMap_set (wrap64 (pid + i)) span);;
    mret (Returns span)
  else
    ptr ← SystemAlloc (NPAGES - 1);
    bigSpan ← SpanPool_New this;
    wr bigSpan (Span.set_pageId (Z.shiftr ptr PAGE_SHIFT));;
    wr bigSpan (Span.set_n (NPAGES - 1));;
    wr bigSpan (Span.set_isCold false);;
    sh ← this_shard this;
    wr bigSpan (Span.set_shardId (_shardId sh));;
    pid ← rd bigSpan Span._pageId;
    PageMap_set pid bigSpan;;
    pid ← rd bigSpan Span._pageId;
    n ← rd bigSpan Span._n;
    PageMap_set (wrap64 (wrap64 (pid + n) - 1)) bigSpan;;
    n ← rd bigSpan Span._n;
    small_PushFront this false n bigSpan;;
    n ← rd bigSpan Span._n;
    add_totalFreePages this n;;
    mret Continues.

Definition NewSpan_body (this k : Z) : M (option Z) :=
  hot ← NewSpan_hot this k;
  match hot with
  | Returns span => mret (Some span)
  | Continues => mret None
  | FallsThrough =>
      cold ← NewSpan_cold this k;
      match cold with
      | Returns span => mret (Some span)
      | Continues => mret None
      | FallsThrough =>
          sys ← NewSpan_system this k;
          match sys with
          | Returns span => mret (Some span)
          | _ => mret None
          end
      end
  end.

Definition NewSpan (fuel : nat) (this k : Z) : M Z :=
  loop fuel (NewSpan_body this k).

(** [madvise(ptr, len, MADV_DONTNEED)]: the range reads as zero again. *)
Definition decommit (ptr len : Z) : M unit := λ w,
  Done tt (with_memory (filter (λ kv, ¬ (ptr ≤ kv.1 < ptr + len)) (memory w)) w).

Definition ReleaseSpanToCold (this span : Z) : M unit :=
  n ← rd span Span._n;
  sub_totalFreePages this n;;
  wr span (Span.set_isCold true);;
  pid ← rd span Span._pageId;
  n ← rd span Span._n;
  decommit (wrap64 (Z.shiftl pid PAGE_SHIFT)) (wrap64 (Z.shiftl n PAGE_SHIFT));;
  n ← rd span Span._n;
  if n <? NPAGES then
    n ← rd span Span._n;
    small_PushFront this true n span
  else
    n ← rd span Span._n;
    large_PushFront this true n span.

(** Body of the first loop of [ReleaseSomeSpansToSystem]; [Some tt] when
    the loop condition fails. *)
Definition reclaim_large_body (this : Z) : M (option unit) :=
  sh ← this_shard this;
  if (_releaseThreshold sh <? _totalFreePages sh) && negb (map_empty (_largeSpanLists sh))
  then
    it ← from_option (rbegin (_largeSpanLists sh));
    if Span.Empty (map_at (_largeSpanLists sh) it) then
      large_erase this false it;;
      mret None
    else
      span ← large_PopFront this false it;
      if span =? 0 then mret None
      else
        ReleaseSpanToCold this span;;
        mret None
  else mret (Some tt).

Definition reclaim_small_body (this i : Z) : M (option unit) :=
  sh ← this_shard this;
  l ← small_list this false i;
  if (_releaseThreshold sh <? _totalFreePages sh) && negb (Span.Empty l)
  then
    span ← small_PopFront this false i;
    ReleaseSpanToCold this span;;
    mret None
  else mret (Some tt).

(** [for (size_t i = NPAGES - 1; i > 0; --i)] with its [break]. *)
Fixpoint reclaim_small (fuel count : nat) (this i : Z) : M unit :=
  match count with
  | O => mret tt
  | S count' =>
      loop fuel (reclaim_small_body this i);;
      sh ← this_shard this;
      if _totalFreePages sh <=? _releaseThreshold sh then mret tt
      else reclaim_small fuel count' this (i - 1)
  end.

Definition ReleaseSomeSpansToSystem (fuel : nat) (this : Z) : M unit :=
  loop fuel (reclaim_large_body this);;
  sh ← this_shard this;
  if _releaseThreshold sh <? _totalFreePages sh
  then reclaim_small fuel (Z.to_nat (NPAGES - 1)) this (NPAGES - 1)
  else mret tt.

(** Bodies of the two coalescing loops; [Some tt] is [break]. *)
Definition coalesce_left (this span : Z) : M (option unit) :=
  pid ← rd span Span._pageId;
  leftSpan ← PageMap_get (wrap64 (pid - 1));
  if leftSpan =? 0 then mret (Some tt)
  else
    use ← rd leftSpan Span._isUse;
    if use : bool then mret (Some tt)
    else
      sid ← rd leftSpan Span._shardId;
      sh ← this_shard this;
      if negb (sid =? _shardId sh) then mret (Some tt)
      else
        Span_Remove leftSpan;;
        cold ← rd leftSpan Span._isCold;
        (if negb cold then
           n ← rd leftSpan Span._n;
           sub_totalFreePages this n
         else mret tt);;
        lpid ← rd leftSpan Span._pageId;
        wr span (Span.set_pageId lpid);;
        n ← rd span Span._n;
        ln ← rd leftSpan Span._n;
        wr span (Span.set_n (wrap64 (n + ln)));;
        SpanPool_Delete this leftSpan;;
        mret None.

Definition coalesce_right (this span : Z) : M (option unit) :=
  pid ← rd span Span._pageId;
  n ← rd span Span._n;
  rightSpan ← PageMap_get (wrap64 (pid + n));
  if rightSpan =? 0 then mret (Some tt)
  else
    use ← rd rightSpan Span._isUse;
    if use : bool then mret (Some tt)
    else
      sid ← rd rightSpan Span._shardId;
      sh ← this_shard this;
      if negb (sid =? _shardId sh) then mret (Some tt)
      else
        Span_Remove rightSpan;;
        cold ← rd rightSpan Span._isCold;
        (if negb cold then
           n ← rd rightSpan Span._n;
           sub_totalFreePages this n
         else mret tt);;
        n ← rd span Span._n;
        rn ← rd rightSpan Span._n;
        wr span (Span.set_n (wrap64 (n + rn)));;
        SpanPool_Delete this rightSpan;;
        mret None.

Definition ReleaseSpan (fuel : nat) (this span : Z) : M unit :=
  loop fuel (coalesce_left this span);;
  loop fuel (coalesce_right this span);;
  wr span (Span.set_isUse false);;
  wr span (Span.set_isCold false);;
  pid ← rd span Span._pageId;
  PageMap_set pid span;;
  pid ← rd span Span._pageId;
  n ← rd span Span._n;
  PageMap_set (wrap64 (wrap64 (pid + n) - 1)) span;;
  n ← rd span Span._n;
  (if n <? NPAGES then
     n ← rd span Span._n;
     small_PushFront this false n span
   else
     n ← rd span Span._n;
     large_PushFront this false n span);;
  n ← rd span Span._n;
  add_totalFreePages this n;;
  sh ← this_shard this;
  if _releaseThreshold sh <? _totalFreePages sh
  then ReleaseSomeSpansToSystem fuel this
  else mret tt.

End PageCacheShard.

(** ** PageCache.cpp: PageHeap *)

Module PageHeap.
Import State Machine.

(** The constructor.  [cores] is what [hardware_concurrency()] answers,
    an [unsigned int], whose products wrap at 32 bits. *)
Definition target_shards (cores : Z) : Z :=
  let cores := if cores =? 0 then 8 else cores in
  if 32 <=? cores then (cores * 4) mod 2 ^ 32 else (cores * 2) mod 2 ^ 32.

(** [while (_shardCount < target_shards) _shardCount <<= 1]. *)
Fixpoint grow_shardCount (fuel : nat) (_shardCount target : Z) : option Z :=
  match fuel with
  | O => None
  | S fuel' =>
      if _shardCount <? target
      then grow_shardCount fuel' (wrap64 (Z.shiftl _shardCount 1)) target
      else Some _shardCount
  end.

(** The release threshold of each shard.  [totalRam] is what
    [GetSystemPhysicalMemory()] answers; [env] is the number read from
    [KZALLOC_SHARD_THRESHOLD_PAGES], [None] when the variable is unset. *)
Definition shardThreshold (totalRam _shardCount : Z) (env : option Z) : option Z :=
  let maxCacheBytes := totalRam / 4 in
  let hardLimit := 4 * 1024 * 1024 * 1024 in
  let maxCacheBytes := if hardLimit <? maxCacheBytes then hardLimit else maxCacheBytes in
  let totalThresholdPages := Z.shiftr maxCacheBytes PAGE_SHIFT in
  if _shardCount =? 0 then None
  else
    let shardThreshold := totalThresholdPages / _shardCount in
    let shardThreshold := if shardThreshold <? 4096 then 4096 else shardThreshold in
    match env with
    | Some val => Some (if 0 <? val then val else shardThreshold)
    | None => Some shardThreshold
    end.

(** What the constructor leaves: [_shardCount], [_shardMask] and the
    array [_shards].  The pages that hold the array itself are not part
    of the state. *)
Definition PageHeap (fuel : nat) (cores totalRam : Z) (env : option Z)
  : option (Z * Z * list PageCacheShard) :=
  _shardCount ← grow_shardCount fuel 1 (target_shards cores);
  let _shardMask := wrap64 (_shardCount - 1) in
  threshold ← shardThreshold totalRam _shardCount env;
  Some (_shardCount, _shardMask,
        (λ i, new_shard threshold (Z.of_nat i)) <$> seq 0 (Z.to_nat _shardCount)).

(** [tidHash] is the hash of the calling thread's id. *)
Definition GetShardIndex (tidHash _shardMask : Z) : Z :=
  Z.land tidHash _shardMask.

(** [idx] is [GetShardIndex()], the shard of the calling thread. *)
Definition NewSpan (fuel : nat) (idx k : Z) : M Z :=
  span ← PageCacheShard.NewSpan fuel idx k;
  (if span =? 0 then mret tt
   else wr span (Span.set_shardId (idx mod 2 ^ 8)));;
  mret span.

Definition ReleaseSpan (fuel : nat) (span : Z) : M unit :=
  if span =? 0 then mret tt
  else
    idx ← rd span Span._shardId;
    w ← get_world;
    if Z.of_nat (length (shards w)) <=? idx then raise Undefined
    else PageCacheShard.ReleaseSpan fuel idx span.

End PageHeap.

(** ** CentralCache.cpp *)

Module CentralCache.
Import State Machine.

(** [MAX_BYTES / aligned_size] is undefined for a zero divisor. *)
Definition CalculateFetchBatchSize (aligned_size : Z) : option Z :=
  if aligned_size =? 0 then None
  else
    let num := MAX_BYTES / aligned_size in
    let num := if num =? 0 then 1 else num in
    let num := if 512 <? num then 512 else num in
    Some num.

Definition CalculatePageNeed (aligned_size : Z) : option Z :=
  num ← CalculateFetchBatchSize aligned_size;
  let npage := Z.shiftr (wrap64 (num * aligned_size)) PAGE_SHIFT in
  Some (if npage =? 0 then 1 else npage).

(** [NextObj(obj) = v]. *)
Definition set_NextObj (obj v : Z) : M unit := λ w,
  if obj =? 0 then Raise Undefined
  else Done tt (with_memory (<[ obj := v ]> (memory w)) w).

(** The search of the bucket for a span with a non-empty [_freeList]. *)
Fixpoint find_span (bucket : list Z) : M (option Z) :=
  match bucket with
  | [] => mret None
  | it :: rest =>
      fl ← rd it Span._freeList;
      if negb (fl =? 0) then mret (Some it) else find_span rest
  end.

(** [while (cur <= end) { NextObj(tail) = cur; tail = cur; cur += aligned_size; }] *)
Fixpoint slice (fuel : nat) (aligned_size end_ tail cur : Z) : M Z :=
  match fuel with
  | O => raise OutOfFuel
  | S fuel' =>
      if cur <=? end_ then
        set_NextObj tail cur;;
        slice fuel' aligned_size end_ cur (wrap64 (cur + aligned_size))
      else mret tail
  end.

Definition bucket_PushFront (bucket span : Z) : M unit := λ w,
  match buckets w !! Z.to_nat bucket with
  | Some l => Done tt (with_buckets (<[ Z.to_nat bucket := Span.PushFront l span ]> (buckets w)) w)
  | None => Raise Undefined
  end.

(** [bucket] is the index of the bucket in [_spanLists]; [idx] the page
    heap shard of the calling thread. *)
Definition GetOneSpan (fuel : nat) (t : SizeUtils.SizeTables) (idx bucket size : Z) : M Z :=
  w ← get_world;
  l ← from_option (buckets w !! Z.to_nat bucket);
  found ← find_span l;
  match found with
  | Some it => mret it
  | None =>
      let aligned_size := SizeUtils.RoundUp t size in
      kPages ← from_option (CalculatePageNeed aligned_size);
      span ← PageHeap.NewSpan fuel idx kPages;
      wr span (Span.set_isUse true);;
      wr span (Span.set_objSize aligned_size);;
      pid ← rd span Span._pageId;
      let start := wrap64 (Z.shiftl pid PAGE_SHIFT) in
      n ← rd span Span._n;
      let bytes := wrap64 (Z.shiftl n PAGE_SHIFT) in
      let end_ := wrap64 (wrap64 (start + bytes) - aligned_size) in
      wr span (Span.set_freeList start);;
      tail ← slice fuel aligned_size end_ start (wrap64 (start + aligned_size));
      set_NextObj tail 0;;
      bucket_PushFront bucket span;;
      mret span
  end.

(** [while (actualNum < n && NextObj(end) != nullptr)]: at most [n]
    rounds, [steps] bounding them. *)
Fixpoint collect (m : gmap Z Z) (steps : nat) (n end_ actualNum : Z) : Z * Z :=
  match steps with
  | O => (end_, actualNum)
  | S steps' =>
      if (actualNum <? n) && negb (NextObj m end_ =? 0)
      then collect m steps' n (NextObj m end_) (wrap64 (actualNum + 1))
      else (end_, actualNum)
  end.

Definition log_fetch (n size : Z) : M unit := λ w,
  Done tt (with_fetch_requests ((n, size) :: fetch_requests w) w).

(** [FetchRangeObj(start, end, n, size)] returns its two output
    parameters and [actualNum]. *)
Definition FetchRangeObj (fuel : nat) (t : SizeUtils.SizeTables) (idx n size : Z)
  : M (Z * Z * Z) :=
  log_fetch n size;;
  let index := SizeUtils.Index t size in
  span ← GetOneSpan fuel t idx index size;
  if span =? 0 then raise Undefined
  else
    start ← rd span Span._freeList;
    if start =? 0 then raise Undefined
    else
      w ← get_world;
      let r := collect (memory w) (Z.to_nat n) n start 1 in
      wr span (Span.set_freeList (NextObj (memory w) r.1));;
      set_NextObj r.1 0;;
      uc ← rd span Span._useCount;
      wr span (Span.set_useCount (wrap64 (uc + r.2)));;
      mret (start, r.1, r.2).

(** One round of the loop of [ReleaseListToSpans] on the object [start];
    it answers [next].  [bucket.Erase(span)] unlinks the span from the
    ring its links are in. *)
Definition release_object (fuel : nat) (start : Z) : M Z :=
  w ← get_world;
  let next := NextObj (memory w) start in
  let id := Z.shiftr start PAGE_SHIFT in
  span ← PageMap_get id;
  fl ← rd span Span._freeList;
  set_NextObj start fl;;
  wr span (Span.set_freeList start);;
  uc ← rd span Span._useCount;
  wr span (Span.set_useCount (wrap64 (uc - 1)));;
  uc ← rd span Span._useCount;
  (if uc =? 0 then
     Span_Remove span;;
     wr span (Span.set_freeList 0);;
     PageHeap.ReleaseSpan fuel span
   else mret tt);;
  mret next.

(** [while (start) { ...; start = next; }] *)
Fixpoint release_objects (fuel rounds : nat) (start : Z) : M unit :=
  match rounds with
  | O => raise OutOfFuel
  | S rounds' =>
      if start =? 0 then mret tt
      else
        next ← release_object fuel start;
        release_objects fuel rounds' next
  end.

Definition ReleaseListToSpans (fuel : nat) (t : SizeUtils.SizeTables) (start size : Z)
  : M unit :=
  let index := SizeUtils.Index t size in
  w ← get_world;
  from_option (buckets w !! Z.to_nat index);;
  release_objects fuel fuel start.

End CentralCache.

(** ** ThreadCache.h, ThreadCache.cpp *)

Module ThreadCache.
Import State Machine.

(** The constructor: one list per class, [_maxNum] set from [NumMoveSize]. *)
Definition ThreadCache (t : SizeUtils.SizeTables) : list FreeList.FreeList :=
  (λ i, FreeList.SetMaxNum (FreeList.fresh 0) (SizeUtils.NumMoveSize t (Z.of_nat i)))
    <$> seq 0 (Z.to_nat MAX_NFREELISTS).

(** The batch the slow start asks for: [min(list.MaxSize() << 1, list.MaxNum())]. *)
Definition batchNum (list : FreeList.FreeList) : Z :=
  Z.min (wrap64 (Z.shiftl (FreeList.MaxSize list) 1)) (FreeList.MaxNum list).

(** The thread's cache [_freeLists] is passed in and returned. *)
Definition FetchFromCentralCache (fuel : nat) (t : SizeUtils.SizeTables) (idx : Z)
    (_freeLists : list FreeList.FreeList) (index size : Z)
  : M (Z * list FreeList.FreeList) :=
  list ← from_option (_freeLists !! Z.to_nat index);
  let batch := batchNum list in
  let list := FreeList.SetMaxSize list batch in
  r ← CentralCache.FetchRangeObj fuel t idx batch size;
  let '(start, end_, fetchNum) := r in
  if fetchNum <? 1 then raise Undefined
  else if 1 <? fetchNum then
    w ← get_world;
    pushed ← from_option
      (FreeList.PushRange list (memory w) (NextObj (memory w) start) end_
         (wrap64 (fetchNum - 1)));
    put_world (with_memory pushed.2 w);;
    mret (start, <[ Z.to_nat index := pushed.1 ]> _freeLists)
  else mret (start, <[ Z.to_nat index := list ]> _freeLists).

Definition Allocate (fuel : nat) (t : SizeUtils.SizeTables) (idx : Z)
    (_freeLists : list FreeList.FreeList) (size : Z)
  : M (Z * list FreeList.FreeList) :=
  let index := SizeUtils.Index t size in
  list ← from_option (_freeLists !! Z.to_nat index);
  if negb (FreeList.Empty list) then
    w ← get_world;
    popped ← from_option (FreeList.Pop list (memory w));
    mret (popped.1, <[ Z.to_nat index := popped.2 ]> _freeLists)
  else FetchFromCentralCache fuel t idx _freeLists index size.

(** [ListTooLong(list, size)] answers the list it leaves. *)
Definition ListTooLong (fuel : nat) (t : SizeUtils.SizeTables) (list : FreeList.FreeList)
    (size : Z) : M FreeList.FreeList :=
  let popNum := FreeList.MaxNum list in
  w ← get_world;
  popped ← from_option (FreeList.PopRange list (memory w) popNum);
  let '(start, _, list, m) := popped in
  put_world (with_memory m w);;
  CentralCache.ReleaseListToSpans fuel t start size;;
  mret list.

Definition Deallocate (fuel : nat) (t : SizeUtils.SizeTables)
    (_freeLists : list FreeList.FreeList) (ptr size : Z)
  : M (list FreeList.FreeList) :=
  if ptr =? 0 then raise Undefined
  else
    let index := SizeUtils.Index t size in
    list ← from_option (_freeLists !! Z.to_nat index);
    w ← get_world;
    pushed ← from_option (FreeList.Push list (memory w) ptr);
    put_world (with_memory pushed.2 w);;
    let list := pushed.1 in
    if wrap64 (FreeList.MaxSize list + FreeList.MaxNum list) <=? FreeList.Size list then
      list ← ListTooLong fuel t list size;
      mret (<[ Z.to_nat index := list ]> _freeLists)
    else mret (<[ Z.to_nat index := list ]> _freeLists).

End ThreadCache.

(** ** ConcurrentAlloc.h *)

Module ConcurrentAlloc.
Import State Machine.

(** [tls] is the thread's [ThreadCacheManager::_tlsCache], [None] until
    [Get()] creates it. *)
Definition malloc (fuel : nat) (t : SizeUtils.SizeTables) (idx : Z)
    (tls : option (list FreeList.FreeList)) (size : Z)
  : M (Z * option (list FreeList.FreeList)) :=
  if MAX_BYTES <? size then
    let alignSize := SizeUtils.RoundUp t size in
    let kPages := Z.shiftr alignSize PAGE_SHIFT in
    span ← PageHeap.NewSpan fuel idx kPages;
    wr span (Span.set_objSize alignSize);;
    wr span (Span.set_isUse true);;
    pid ← rd span Span._pageId;
    mret (wrap64 (Z.shiftl pid PAGE_SHIFT), tls)
  else
    let cache := match tls with
                 | Some cache => cache
                 | None => ThreadCache.ThreadCache t
                 end in
    r ← ThreadCache.Allocate fuel t idx cache size;
    mret (r.1, Some r.2).

(** [free(ptr)]; a pointer whose page has no span fails the [assert]. *)
Definition free (fuel : nat) (t : SizeUtils.SizeTables)
    (tls : option (list FreeList.FreeList)) (ptr : Z)
  : M (option (list FreeList.FreeList)) :=
  if ptr =? 0 then mret tls
  else
    let id := Z.shiftr ptr PAGE_SHIFT in
    span ← PageMap_get id;
    if negb (span =? 0) then
      size ← rd span Span._objSize;
      if MAX_BYTES <? size then
        PageHeap.ReleaseSpan fuel span;;
        mret tls
      else
        let cache := match tls with
                     | Some cache => cache
                     | None => ThreadCache.ThreadCache t
                     end in
        cache ← ThreadCache.Deallocate fuel t cache ptr size;
        mret (Some cache)
    else raise Undefined.

(** [free(ptr, size)]. *)
Definition free_sized (fuel : nat) (t : SizeUtils.SizeTables)
    (tls : option (list FreeList.FreeList)) (ptr size : Z)
  : M (option (list FreeList.FreeList)) :=
  if MAX_BYTES <? size then free fuel t tls ptr
  else
    let cache := match tls with
                 | Some cache => cache
                 | None => ThreadCache.ThreadCache t
                 end in
    cache ← ThreadCache.Deallocate fuel t cache ptr size;
    mret (Some cache).

End ConcurrentAlloc.

(** ** SpinLock.h *)

Module SpinMutex.

(** Where a thread stands with respect to the mutex: outside, at one of
    the three atomic operations of [lock()] on [_flag] (with the local
    [spin_count] once on the slow path), or past [lock()] and before
    [unlock()]. *)
Inductive pc : Type :=
| Out
| Fast
| Spin (spin_count : Z)
| Retry (spin_count : Z)
| Held.

(** The [atomic_flag] and the threads using the mutex. *)
Record state : Type := {
  _flag : bool;
  threads : list pc
}.

Definition INT_MAX : Z := 2 ^ 31 - 1.

(** One atomic operation of [lock()]: the fast [test_and_set], the
    [test] of the inner loop, or the second [test_and_set] followed, when
    it fails, by [if (++spin_count > 1024) { yield(); spin_count = 0; }].
    It answers the flag and the place of the thread afterwards; the
    increment of an [int] at [INT_MAX] is undefined. *)
Definition lock (p : pc) (flag : bool) : option (bool * pc) :=
  match p with
  | Fast => Some (true, if flag then Spin 0 else Held)
  | Spin spin_count => Some (flag, if flag then Spin spin_count else Retry spin_count)
  | Retry spin_count =>
      if flag then
        if INT_MAX <=? spin_count then None
        else
          let spin_count := spin_count + 1 in
          Some (true, Spin (if 1024 <? spin_count then 0 else spin_count))
      else Some (true, Held)
  | Out | Held => None
  end.

(** [_flag.clear(release)]. *)
Definition unlock (flag : bool) : bool := false.

(** One step of the thread [tid]: a thread outside calls [lock()], a
    thread in [lock()] does its next atomic operation, and a thread that
    holds the mutex calls [unlock()], as [std::lock_guard] and the paired
    calls of the central cache do. *)
Definition step (tid : nat) (s : state) : option state :=
  match threads s !! tid with
  | None => None
  | Some Out => Some {| _flag := _flag s; threads := <[ tid := Fast ]> (threads s) |}
  | Some Held => Some {| _flag := unlock (_flag s); threads := <[ tid := Out ]> (threads s) |}
  | Some p =>
      match lock p (_flag s) with
      | Some r => Some {| _flag := r.1; threads := <[ tid := r.2 ]> (threads s) |}
      | None => None
      end
  end.

(** The threads take their steps in the order of the schedule. *)
Fixpoint run (sched : list nat) (s : state) : option state :=
  match sched with
  | [] => Some s
  | tid :: rest =>
      match step tid s with
      | Some s' => run rest s'
      | None => None
      end
  end.

(** [ATOMIC_FLAG_INIT], and [n] threads outside. *)
Definition init (n : nat) : state := {| _flag := false; threads := replicate n Out |}.

End SpinMutex.

(** ** ObjectPool.h *)

Module ObjectPool.
Import State Machine.

(** The pool's fields; [_mtx] guards every method and has no part in
    what one call computes. *)
Record ObjectPool : Type := {
  _memory : Z;
  _leftBytes : Z;
  _freeList : Z;
  _currentBlock : Z
}.

Definition _blockSize : Z := 128 * 1024.

(** A default-constructed pool. *)
Definition empty : ObjectPool :=
  {| _memory := 0; _leftBytes := 0; _freeList := 0; _currentBlock := 0 |}.

(** [AllocateMemory()] of a pool of objects of [sizeofT] bytes; the pool
    is passed in and returned with the object. *)
Definition AllocateMemory (sizeofT : Z) (this : ObjectPool) : M (Z * ObjectPool) :=
  if negb (_freeList this =? 0) then
    w ← get_world;
    let next := NextObj (memory w) (_freeList this) in
    mret (_freeList this,
          {| _memory := _memory this; _leftBytes := _leftBytes this;
             _freeList := next; _currentBlock := _currentBlock this |})
  else
    this ← (if _leftBytes this <? sizeofT then
              newBlock ← SystemAlloc (Z.shiftr _blockSize PAGE_SHIFT);
              CentralCache.set_NextObj newBlock (_currentBlock this);;
              mret {| _memory := wrap64 (newBlock + 8);
                      _leftBytes := wrap64 (_blockSize - 8);
                      _freeList := _freeList this;
                      _currentBlock := newBlock |}
            else mret this);
    mret (_memory this,
          {| _memory := wrap64 (_memory this + sizeofT);
             _leftBytes := wrap64 (_leftBytes this - sizeofT);
             _freeList := _freeList this; _currentBlock := _currentBlock this |}).

(** [FreeMemory(obj)]. *)
Definition FreeMemory (this : ObjectPool) (obj : Z) : M ObjectPool :=
  CentralCache.set_NextObj obj (_freeList this);;
  mret {| _memory := _memory this; _leftBytes := _leftBytes this;
          _freeList := obj; _currentBlock := _currentBlock this |}.

(** [Delete(obj)]; the destructor of the object leaves the pool alone. *)
Definition Delete (this : ObjectPool) (obj : Z) : M ObjectPool :=
  if negb (obj =? 0) then FreeMemory this obj else mret this.

End ObjectPool.

(** * Specification vocabulary *)

Module SizeClasses.
Import SizeUtils.

(** The size of class [c], following [_CalculateNextBlockSize] from 8. *)
Fixpoint class_size (c : nat) : Z :=
  match c with
  | O => 8
  | S c' => _CalculateNextBlockSize (class_size c')
  end.

(** [c] is the class of the byte count [n]: the first class that holds it. *)
Definition in_class (c n : Z) : Prop :=
  0 ≤ c ∧ n ≤ class_size (Z.to_nat c) ∧ (c = 0 ∨ class_size (Z.to_nat (c - 1)) < n).

(** What [Init] has established after the rounds [i = 1 .. m]. *)
Record Init_inv (m : Z) (s : InitLoop) : Prop := {
  inv_index : 0 ≤ il_index s < MAX_NFREELISTS;
  inv_block : il_block_size s = class_size (Z.to_nat (il_index s));
  inv_current : in_class (il_index s) m;
  inv_lut : ∀ j, 1 ≤ j ≤ m →
      ∃ c, _size_lookup_table (il_tables s) !! j = Some c ∧ c ≤ il_index s ∧ in_class c j;
  inv_cts_len : length (_class_to_size (il_tables s)) = Z.to_nat MAX_NFREELISTS;
  inv_cts : ∀ c, 0 ≤ c ≤ il_index s →
      _class_to_size (il_tables s) !! Z.to_nat c = Some (class_size (Z.to_nat c))
}.

End SizeClasses.

(** The representation invariant of a [FreeList]. *)
Module FreeListSpec.
Import FreeList.

(** [chain m p nodes]: following [NextObj] from [p] visits exactly
    [nodes], in order, and then reaches [nullptr]. *)
Fixpoint chain (m : gmap Z Z) (p : Z) (nodes : list Z) : Prop :=
  match nodes with
  | [] => p = 0
  | x :: rest => p = x ∧ 0 < x < 2 ^ 64 ∧ chain m (NextObj m x) rest
  end.

(** [_size] counts the nodes reachable from [_head], and [_tail] is the
    last of them, or null when there is none. *)
Definition FreeList_repr (m : gmap Z Z) (l : FreeList) (nodes : list Z) : Prop :=
  chain m (_head l) nodes ∧
  _size l = Z.of_nat (length nodes) ∧
  _tail l = default 0 (last nodes).

Definition FreeList_inv (m : gmap Z Z) (l : FreeList) : Prop :=
  ∃ nodes, FreeList_repr m l nodes.

End FreeListSpec.

(** Reasoning about computations on the process state. *)
Module Logic.
Import State Machine.

(** [wp m Q w]: if [m] completes from [w], its result and final state
    satisfy [Q]. *)
Definition wp {A : Type} (m : M A) (Q : A → World → Prop) (w : World) : Prop :=
  match m w with
  | Done a w' => Q a w'
  | Raise _ => True
  end.

(** [m] leaves the component [proj] of the state as it found it. *)
Definition preserves {A X : Type} (proj : World → X) (m : M A) : Prop :=
  ∀ w a w', m w = Done a w' → proj w' = proj w.

(** A field of the record at [span], and a view of the shard [this]. *)
Definition field_of {A : Type} (w : World) (span : Z) (field : Span.Span → A) : option A :=
  field <$> (spans w !! span).
Definition of_shard {A : Type} (w : World) (this : Z) (f : PageCacheShard → A) : option A :=
  f <$> (shards w !! Z.to_nat this).

(** Every page of the span at [span] maps back to it. *)
Definition pages_mapped (w : World) (span : Z) : Prop :=
  ∃ s, spans w !! span = Some s ∧
       ∀ p, 0 ≤ p < 2 ^ 64 → Span._pageId s ≤ p < Span._pageId s + Span._n s →
            PageMap.get (pagemap w) p = span.

(** The span just issued for a request of [k] pages has at most [k]
    pages, and its first [k] page ids map to it. *)
Definition issued_mapped (k span : Z) (w : World) : Prop :=
  ∃ s, spans w !! span = Some s ∧ Span._n s ≤ k ∧
       ∀ j, 0 ≤ j < k → PageMap.get (pagemap w) (wrap64 (Span._pageId s + j)) = span.

End Logic.

(** Well-formed page maps. *)
Module PageMapSpec.
Import PageMap.

(** Every array of the tree has the length of its node type. *)
Definition wf (pm : PageMap) : Prop :=
  length (_root pm) = Z.to_nat LEN_ROOT ∧
  ∀ r node, _root pm !! r = Some (Some node) →
    length node = Z.to_nat LEN_INTERNAL ∧
    ∀ i leaf, node !! i = Some (Some leaf) → length leaf = Z.to_nat LEN_LEAF.

End PageMapSpec.

(** The slow start of a thread cache, as seen by the central cache. *)
Module SlowStart.
Import State Machine.

(** A thread that allocates [count] objects of [size] bytes, one after
    the other, through its cache [_freeLists]. *)
Fixpoint allocations (fuel : nat) (t : SizeUtils.SizeTables) (idx : Z) (count : nat)
    (_freeLists : list FreeList.FreeList) (size : Z) : M (list FreeList.FreeList) :=
  match count with
  | O => mret _freeLists
  | S count' =>
      r ← ThreadCache.Allocate fuel t idx _freeLists size;
      allocations fuel t idx count' r.2 size
  end.

(** The requests made of [FetchRangeObj] so far, oldest first. *)
Definition fetched (w : World) : list (Z * Z) := reverse (fetch_requests w).

(** [refills] batches for objects of [size] bytes that double from 2 on
    up to the bound [cap]. *)
Definition doubling_batches (cap size : Z) (refills : nat) : list (Z * Z) :=
  (λ j : nat, (Z.min (2 ^ (Z.of_nat j + 1)) cap, size)) <$> seq 0 refills.

(** The slow-start state of the list of a class after [m] refills. *)
Definition refilled (cap : Z) (index : Z) (m : nat) (cache : list FreeList.FreeList) : Prop :=
  ∃ l, cache !! Z.to_nat index = Some l ∧
       FreeList._maxNum l = cap ∧ FreeList._maxSize l = Z.min (2 ^ Z.of_nat m) cap.

End SlowStart.

(** The page heap as a collection of span records, each either linked in
    one list of one shard or held by a caller. *)
Module HeapSpec.
Import State Machine Logic.

(** The free records of all span pools. *)
Definition pools (w : World) : list Z := concat (_spanPool <$> shards w).

(** What the invariant reads of a state: the live records, the linked
    spans, the pooled records and the arena cursor. *)
Definition view (w : World) : gmap Z Span.Span * list Z * list Z * Z :=
  (spans w, listed w, pools w, span_arena w).

(** A cold span is not in use. *)
Definition cold_idle (s : Span.Span) : Prop :=
  Span._isCold s = true → Span._isUse s = false.

(** The heap is in order: no live record is cold and in use; the linked
    spans are live, idle and linked once; the pooled records are dead,
    distinct and below the arena cursor, as are the live ones. *)
Record ok (S : gmap Z Span.Span) (L P : list Z) (A : Z) : Prop := {
  ok_cold : ∀ x s, S !! x = Some s → cold_idle s;
  ok_listed : ∀ x, x ∈ L → ∃ s, S !! x = Some s ∧ Span._isUse s = false;
  ok_nodup : NoDup L;
  ok_pool : ∀ x, x ∈ P → S !! x = None ∧ 0 < x < A;
  ok_pool_nodup : NoDup P;
  ok_live : ∀ x s, S !! x = Some s → 0 < x < A;
  ok_arena : 0 < A
}.

Definition heap_ok (w : World) : Prop :=
  ok (spans w) (listed w) (pools w) (span_arena w).

(** The spans of a large span map. *)
Definition values (m : gmap Z (list Z)) : list Z := concat (map_to_list m).*2.

(** A span in the hands of a caller: live and in no list. *)
Definition held (span : Z) (w : World) : Prop :=
  heap_ok w ∧ (span ∉ listed w) ∧ is_Some (spans w !! span).

(** While a span is split: the remainder [split] is a second record,
    idle and not yet linked. *)
Definition held2 (span split : Z) (w : World) : Prop :=
  held span w ∧ (split ∉ listed w) ∧ split ≠ span ∧
  field_of w split Span._isUse = Some false.

(** An idle unlinked record stays so under any write that keeps [_isUse]. *)
Definition idle (x : Z) (w : World) : Prop :=
  heap_ok w ∧ (x ∉ listed w) ∧ field_of w x Span._isUse = Some false.

(** A span in use by the caller that releases it. *)
Definition inuse (span : Z) (w : World) : Prop :=
  heap_ok w ∧ (span ∉ listed w) ∧ field_of w span Span._isUse = Some true.

(** ... and a free neighbour, unlinked and about to be merged into it. *)
Definition merging (span left : Z) (w : World) : Prop :=
  inuse span w ∧ (left ∉ listed w) ∧ left ≠ span ∧ is_Some (spans w !! left).

(** How a phase of [NewSpan] leaves the heap: in order, and with the
    span it returns, if any, in use. *)
Definition issued (r : PageCacheShard.phase_end) (w : World) : Prop :=
  heap_ok w ∧
  ∀ span, r = PageCacheShard.Returns span →
          span = 0 ∨ field_of w span Span._isUse = Some true.

(** The states of the page heap in use, from the constructor on: spans
    are issued by [NewSpan] and released by [ReleaseSpan] while in use;
    outside these two, a span record is written without a change of its
    two flags, and the other tiers act on the rest of the state (the
    memory, the central buckets, the page map, the operating system). *)
Inductive reachable : World → Prop :=
| reach_init nshards threshold answers :
    reachable (new_world nshards threshold answers)
| reach_NewSpan w fuel idx k span w' :
    reachable w →
    PageHeap.NewSpan fuel idx k w = Done span w' →
    reachable w'
| reach_ReleaseSpan w fuel span w' :
    reachable w →
    field_of w span Span._isUse = Some true →
    PageHeap.ReleaseSpan fuel span w = Done tt w' →
    reachable w'
| reach_write w span assign w' :
    reachable w →
    (∀ s, spans w !! span = Some s →
          Span._isUse (assign s) = Span._isUse s ∧ Span._isCold (assign s) = Span._isCold s) →
    wr span assign w = Done tt w' →
    reachable w'
| reach_elsewhere w w' :
    reachable w →
    spans w' = spans w → shards w' = shards w → span_arena w' = span_arena w →
    reachable w'.

End HeapSpec.

(** The objects a span is sliced into. *)
Module CentralSpec.

(** The [count] objects of [size] bytes from the address [start] on. *)
Definition objects (start size : Z) (count : nat) : list Z :=
  (λ i : nat, start + Z.of_nat i * size) <$> seq 0 count.

End CentralSpec.


(** Spans and the buckets of the central cache. *)
Module BucketSpec.
Import State Machine.

(** The span is linked in no bucket of the central cache. *)
Definition off_buckets (span : Z) (w : World) : Prop :=
  span ∉ concat (buckets w).

(** [m] keeps the property [P] of the state. *)
Definition keeps {A : Type} (P : World → Prop) (m : M A) : Prop :=
  ∀ w a w', P w → m w = Done a w' → P w'.

End BucketSpec.


(** The holders of a mutex. *)
Module SpinMutexSpec.
Import SpinMutex.

Definition is_Held (p : pc) : bool := match p with Held => true | _ => false end.

(** The number of threads between [lock()] and [unlock()]. *)
Definition holders (l : list pc) : nat := length (List.filter is_Held l).

(** The local counter of a spinning thread is within its bounds. *)
Definition bounded (p : pc) : Prop :=
  match p with
  | Spin c | Retry c => 0 ≤ c ≤ 1024
  | _ => True
  end.

End SpinMutexSpec.


(** The cursor of an object pool. *)
Module ObjectPoolSpec.
Import ObjectPool.

(** The cursor of the pool is in order: no block yet and nothing left,
    or [_memory] and [_leftBytes] delimit the unused end of the current
    block, past the word that links the blocks. *)
Definition pool_ok (this : ObjectPool) : Prop :=
  (_currentBlock this = 0 ∧ _leftBytes this = 0) ∨
  (0 < _currentBlock this ∧ _currentBlock this + 8 ≤ _memory this ∧
   0 ≤ _leftBytes this ∧
   _memory this + _leftBytes this = _currentBlock this + _blockSize ∧
   _currentBlock this + _blockSize < 2 ^ 64).

End ObjectPoolSpec.

(** * Properties *)

(** ** Machine arithmetic and loops *)

Lemma wrap64_small x : 0 ≤ x < 2 ^ 64 → wrap64 x = x.
Proof. intros H. unfold wrap64. by apply Z.mod_small. Qed.

Lemma wrap64_range x : 0 ≤ wrap64 x < 2 ^ 64.
Proof. unfold wrap64. apply Z.mod_pos_bound. lia. Qed.

Lemma for_up_app {S : Type} (a b : nat) i (body : Z → S → S) s :
  for_up (a + b) i body s = for_up b (i + Z.of_nat a) body (for_up a i body s).
Proof.
  revert i s. induction a as [|a IH]; intros i s; simpl.
  - f_equal. lia.
  - rewrite IH. f_equal. lia.
Qed.

Lemma for_up_S {S : Type} (a : nat) i (body : Z → S → S) s :
  for_up (Datatypes.S a) i body s = body (i + Z.of_nat a) (for_up a i body s).
Proof.
  replace (Datatypes.S a) with (a + 1)%nat by lia.
  rewrite for_up_app. reflexivity.
Qed.

(** ** SizeUtils: the tables built by [Init] *)

Module SizeUtilsFacts.
Import SizeUtils SizeClasses.

Lemma next_block_bounds x :
  0 ≤ x < 2 ^ 62 →
  x + 8 ≤ _CalculateNextBlockSize x ≤ x + 8192.
Proof.
  intros Hx. unfold _CalculateNextBlockSize.
  repeat case_match; rewrite wrap64_small; lia.
Qed.

Lemma class_size_bounds (c : nat) :
  (c ≤ 1000)%nat → 8 + 8 * Z.of_nat c ≤ class_size c ≤ 8 + 8192 * Z.of_nat c.
Proof.
  induction c as [|c IH]; intros Hc; simpl; [lia|].
  pose proof (next_block_bounds (class_size c)). lia.
Qed.

Lemma class_size_step (c : nat) :
  (c < 1000)%nat → class_size c < class_size (S c).
Proof.
  intros Hc. simpl.
  pose proof (class_size_bounds c).
  pose proof (next_block_bounds (class_size c)). lia.
Qed.

Lemma class_size_mono (a b : nat) :
  (a < b)%nat → (b ≤ 1000)%nat → class_size a < class_size b.
Proof.
  induction 1 as [|b Hab IH]; intros Hb.
  - apply class_size_step. lia.
  - pose proof (class_size_step b). lia.
Qed.

Lemma class_size_mono_le (a b : nat) :
  (a ≤ b)%nat → (b ≤ 1000)%nat → class_size a ≤ class_size b.
Proof.
  intros Hab Hb. destruct (decide (a = b)) as [->|]; [lia|].
  pose proof (class_size_mono a b). lia.
Qed.

Lemma class_size_last : class_size 263 = MAX_BYTES.
Proof. vm_compute. reflexivity. Qed.

Lemma in_class_unique c c' n :
  in_class c n → in_class c' n → c < 1000 → c' < 1000 → c = c'.
Proof.
  intros (Hc0 & Hcu & Hcl) (Hc0' & Hcu' & Hcl') Hc Hc'.
  destruct (Z.lt_trichotomy c c') as [Hlt|[?|Hlt]]; [|done|]; exfalso.
  - destruct Hcl' as [->|Hcl']; [lia|].
    pose proof (class_size_mono_le (Z.to_nat c) (Z.to_nat (c' - 1))). lia.
  - destruct Hcl as [->|Hcl]; [lia|].
    pose proof (class_size_mono_le (Z.to_nat c') (Z.to_nat (c - 1))). lia.
Qed.

Lemma in_class_self c : 0 ≤ c < 1000 → in_class c (class_size (Z.to_nat c)).
Proof.
  intros Hc. split; [lia|]. split; [lia|].
  destruct (decide (c = 0)) as [|Hne]; [by left|right].
  apply class_size_mono; lia.
Qed.

Lemma in_class_lt_classes c n :
  in_class c n → n ≤ MAX_BYTES → c < 1000 → c < MAX_NFREELISTS.
Proof.
  intros (Hc0 & Hcu & Hcl) Hn Hc.
  destruct Hcl as [->|Hcl]; [done|].
  destruct (decide (c < MAX_NFREELISTS)) as [|Hge]; [done|exfalso].
  pose proof (class_size_mono_le 263 (Z.to_nat (c - 1))) as Hm.
  rewrite class_size_last in Hm. unfold MAX_NFREELISTS in Hge. lia.
Qed.

Lemma Init_body_inv m s :
  1 ≤ m < MAX_BYTES → Init_inv m s → Init_inv (m + 1) (Init_body (m + 1) s).
Proof.
  intros Hm [Hidx Hblk Hcur Hlut Hlen Hcts].
  destruct Hcur as (_ & Hup & Hlow).
  unfold Init_body.
  destruct (il_block_size s <? m + 1) eqn:Hbump.
  - (* the class is full: move to the next one *)
    apply Z.ltb_lt in Hbump.
    assert (Hnext : _CalculateNextBlockSize (il_block_size s)
                    = class_size (Z.to_nat (il_index s + 1))).
    { rewrite Hblk. by replace (Z.to_nat (il_index s + 1)) with (S (Z.to_nat (il_index s))) by lia. }
    assert (Hin : in_class (il_index s + 1) (m + 1)).
    { split; [lia|]. split.
      - rewrite <- Hnext.
        pose proof (class_size_bounds (Z.to_nat (il_index s))) as Hb.
        pose proof (next_block_bounds (il_block_size s)) as Hn.
        unfold MAX_NFREELISTS in Hidx. lia.
      - right. replace (il_index s + 1 - 1) with (il_index s) by lia. lia. }
    assert (Hidx' : il_index s + 1 < MAX_NFREELISTS).
    { eapply in_class_lt_classes; [exact Hin| |]; unfold MAX_NFREELISTS in *; lia. }
    assert (Hltb : (il_index s + 1 <? MAX_NFREELISTS) = true) by by apply Z.ltb_lt.
    rewrite Hltb.
    split; simpl.
    + lia.
    + done.
    + done.
    + intros j Hj. destruct (decide (j = m + 1)) as [->|Hne].
      * exists (il_index s + 1). rewrite lookup_insert_eq.
        split; [|split; [lia|done]].
        f_equal. apply Z.mod_small. unfold MAX_NFREELISTS in *. lia.
      * rewrite lookup_insert_ne by done.
        destruct (Hlut j) as (c & Hc & Hle & Hcin); [lia|].
        exists c. split; [done|]. split; [lia|done].
    + by rewrite length_insert.
    + intros c Hc. destruct (decide (c = il_index s + 1)) as [->|Hne].
      * rewrite list_lookup_insert_eq; [by rewrite Hnext|]. lia.
      * rewrite list_lookup_insert_ne by lia. apply Hcts. lia.
  - (* the byte count still fits the current class *)
    apply Z.ltb_ge in Hbump.
    assert (Hltb : (il_index s <? MAX_NFREELISTS) = true) by (apply Z.ltb_lt; lia).
    rewrite Hltb.
    split; simpl.
    + done.
    + done.
    + split; [lia|]. split; [lia|]. destruct Hlow as [?|?]; [by left|right; lia].
    + intros j Hj. destruct (decide (j = m + 1)) as [->|Hne].
      * exists (il_index s). rewrite lookup_insert_eq.
        split; [|split; [lia|]].
        -- f_equal. apply Z.mod_small. unfold MAX_NFREELISTS in *. lia.
        -- split; [lia|]. split; [lia|]. destruct Hlow as [?|?]; [by left|right; lia].
      * rewrite lookup_insert_ne by done. apply Hlut. lia.
    + by rewrite length_insert.
    + intros c Hc. destruct (decide (c = il_index s)) as [->|Hne].
      * rewrite list_lookup_insert_eq; [by rewrite Hblk|]. lia.
      * rewrite list_lookup_insert_ne by lia. apply Hcts. lia.
Qed.

Lemma Init_loop_first t :
  length (_class_to_size t) = Z.to_nat MAX_NFREELISTS →
  Init_inv 1 (Init_loop 1 t).
Proof.
  intros Hlen. unfold Init_loop. simpl. unfold Init_body. simpl.
  split; simpl.
  - done.
  - done.
  - split; [done|]. split; [done|by left].
  - intros j Hj. assert (j = 1) as -> by lia. exists 0.
    rewrite lookup_insert_eq. split; [done|]. split; [done|].
    split; [done|]. split; [done|by left].
  - by rewrite length_insert.
  - intros c Hc. assert (c = 0) as -> by lia.
    rewrite list_lookup_insert_eq; [done|]. rewrite Hlen. unfold MAX_NFREELISTS. lia.
Qed.

Lemma Init_loop_inv t (m : nat) :
  length (_class_to_size t) = Z.to_nat MAX_NFREELISTS →
  (1 ≤ m)%nat → Z.of_nat m ≤ MAX_BYTES →
  Init_inv (Z.of_nat m) (Init_loop m t).
Proof.
  intros Hlen Hm. induction Hm as [|m Hm IH]; intros Hle.
  - by apply Init_loop_first.
  - unfold Init_loop. rewrite for_up_S.
    replace (1 + Z.of_nat m) with (Z.of_nat m + 1) by lia.
    replace (Z.of_nat (S m)) with (Z.of_nat m + 1) by lia.
    apply Init_body_inv; [lia|]. apply IH. lia.
Qed.

(** What the initialised tables hold. *)
Lemma Init_final :
  Init_inv MAX_BYTES (Init_loop (Z.to_nat MAX_BYTES) zero_tables).
Proof.
  pose proof (Init_loop_inv zero_tables (Z.to_nat MAX_BYTES)) as H.
  rewrite Z2Nat.id in H by done. apply H.
  - exact (length_replicate _ _).
  - unfold MAX_BYTES. lia.
  - done.
Qed.

Lemma tables_eq : tables = Init_finish (Init_loop (Z.to_nat MAX_BYTES) zero_tables).
Proof. reflexivity. Qed.

(** The tables are only reasoned about through the invariant of the
    loop that built them. *)
Section Finish.
Variable s : InitLoop.
Hypothesis Hs : Init_inv MAX_BYTES s.

Lemma finish_index : il_index s = 263.
Proof.
  destruct Hs as [Hidx _ Hcur _ _ _].
  apply (in_class_unique _ 263 MAX_BYTES);
    [exact Hcur| |unfold MAX_NFREELISTS in Hidx; lia|lia].
  rewrite <- class_size_last. apply (in_class_self 263). lia.
Qed.

Lemma finish_Index n :
  1 ≤ n ≤ MAX_BYTES →
  in_class (Index (Init_finish s) n) n ∧ Index (Init_finish s) n < MAX_NFREELISTS.
Proof.
  intros Hn. destruct Hs as [Hidx _ _ Hlut _ _].
  destruct (Hlut n Hn) as (c & Hc & Hle & Hin).
  unfold Index, Init_finish. simpl.
  rewrite lookup_insert_ne, Hc by lia. simpl. split; [exact Hin|lia].
Qed.

Lemma finish_Index_0 : Index (Init_finish s) 0 = 0.
Proof. unfold Index, Init_finish. simpl. by rewrite lookup_insert_eq. Qed.

Lemma finish_Size c :
  0 ≤ c < MAX_NFREELISTS → Size (Init_finish s) c = class_size (Z.to_nat c).
Proof.
  intros Hc. pose proof finish_index as Hi. destruct Hs as [_ _ _ _ _ Hcts].
  unfold Size, Init_finish. simpl. rewrite Hcts; [reflexivity|].
  unfold MAX_NFREELISTS in Hc. lia.
Qed.

End Finish.

Lemma Index_tables n :
  1 ≤ n ≤ MAX_BYTES → in_class (Index tables n) n ∧ Index tables n < MAX_NFREELISTS.
Proof. rewrite tables_eq. apply finish_Index, Init_final. Qed.

Lemma Index_tables_0 : Index tables 0 = 0.
Proof. rewrite tables_eq. apply finish_Index_0. Qed.

Lemma Size_tables c :
  0 ≤ c < MAX_NFREELISTS → Size tables c = class_size (Z.to_nat c).
Proof. rewrite tables_eq. apply finish_Size, Init_final. Qed.

#[global] Opaque tables.

Lemma Index_tables_eq n c :
  1 ≤ n ≤ MAX_BYTES → 0 ≤ c < MAX_NFREELISTS → in_class c n → Index tables n = c.
Proof.
  intros Hn Hc Hin. destruct (Index_tables n Hn) as [Hin' Hlt].
  apply (in_class_unique _ _ n); [exact Hin'|exact Hin|unfold MAX_NFREELISTS in *; lia..].
Qed.

Lemma Size_tables_range c :
  0 ≤ c < MAX_NFREELISTS → 8 ≤ Size tables c ≤ MAX_BYTES.
Proof.
  intros Hc. rewrite Size_tables by done.
  pose proof (class_size_bounds (Z.to_nat c)).
  pose proof (class_size_mono_le (Z.to_nat c) 263) as Hm.
  rewrite class_size_last in Hm. unfold MAX_NFREELISTS in Hc. lia.
Qed.

Lemma Index_Size_tables i :
  0 ≤ i < MAX_NFREELISTS → Index tables (Size tables i) = i.
Proof.
  intros Hi. pose proof (Size_tables_range i Hi).
  apply Index_tables_eq; [lia|done|].
  rewrite Size_tables by done. apply in_class_self. unfold MAX_NFREELISTS in Hi. lia.
Qed.

(** C8. Once [Init] has filled the tables, the class of the size of
    class [i] is [i] again for each of the 264 classes, and rounding a
    byte count of [1 .. MAX_BYTES] up twice is rounding it up once. *)
Theorem size_class_roundtrip :
  (∀ i, 0 ≤ i < 264 → Index tables (Size tables i) = i) ∧
  (∀ n, 1 ≤ n ≤ MAX_BYTES → RoundUp tables (RoundUp tables n) = RoundUp tables n).
Proof.
  split.
  - intros i Hi. by apply Index_Size_tables.
  - intros n Hn. unfold RoundUp.
    assert (Hn' : (MAX_BYTES <? n) = false) by (apply Z.ltb_ge; lia).
    rewrite Hn'.
    destruct (Index_tables n Hn) as [[H0 _] Hlt].
    pose proof (Size_tables_range (Index tables n)) as Hr.
    assert (Hs : (MAX_BYTES <? Size tables (Index tables n)) = false)
      by (apply Z.ltb_ge; lia).
    rewrite Hs. rewrite Index_Size_tables; [reflexivity|lia].
Qed.

Lemma size_class_roundtrip_witness :
  Index tables (Size tables 5) = 5 ∧ RoundUp tables (RoundUp tables 100) = RoundUp tables 100.
Proof.
  destruct size_class_roundtrip as [Hi Hr].
  split; [apply (Hi 5); lia | apply (Hr 100); unfold MAX_BYTES; lia].
Defined.

Lemma Index_tables_16 : Index tables 16 = 1.
Proof.
  apply Index_tables_eq; [unfold MAX_BYTES; lia|unfold MAX_NFREELISTS; lia|].
  split; [lia|]. split; [reflexivity|right; reflexivity].
Qed.

Lemma RoundUp_tables_16 : RoundUp tables 16 = 16.
Proof.
  unfold RoundUp. change (MAX_BYTES <? 16) with false. cbv iota.
  rewrite Index_tables_16. rewrite Size_tables by (unfold MAX_NFREELISTS; lia).
  reflexivity.
Qed.

End SizeUtilsFacts.

(** ** PageMap: lookups and updates of the radix tree *)

Module PageMapFacts.
Import PageMap PageMapSpec.

Lemma iRoot_eq id : Z.shiftr id (BITS_INTERNAL + BITS_LEAF) = id / 2 ^ 23.
Proof. by rewrite Z.shiftr_div_pow2. Qed.

Lemma iInternal_eq id :
  Z.land (Z.shiftr id BITS_LEAF) (LEN_INTERNAL - 1) = (id / 2 ^ 11) mod 2 ^ 12.
Proof.
  rewrite Z.shiftr_div_pow2 by done.
  change (LEN_INTERNAL - 1) with (Z.ones 12). by rewrite Z.land_ones.
Qed.

Lemma iLeaf_eq id : Z.land id (LEN_LEAF - 1) = id mod 2 ^ 11.
Proof. change (LEN_LEAF - 1) with (Z.ones 11). by rewrite Z.land_ones. Qed.

Lemma index_inj id id' :
  0 ≤ id → 0 ≤ id' →
  id / 2 ^ 23 = id' / 2 ^ 23 →
  (id / 2 ^ 11) mod 2 ^ 12 = (id' / 2 ^ 11) mod 2 ^ 12 →
  id mod 2 ^ 11 = id' mod 2 ^ 11 →
  id = id'.
Proof.
  intros H0 H0' HR HI HL.
  assert (Hd : ∀ x, 0 ≤ x → x / 2 ^ 23 = x / 2 ^ 11 / 2 ^ 12).
  { intros x Hx. rewrite Z.div_div by lia. reflexivity. }
  rewrite (Hd id), (Hd id') in HR by done.
  pose proof (Z.div_mod (id / 2 ^ 11) (2 ^ 12)).
  pose proof (Z.div_mod (id' / 2 ^ 11) (2 ^ 12)).
  pose proof (Z.div_mod id (2 ^ 11)).
  pose proof (Z.div_mod id' (2 ^ 11)).
  lia.
Qed.

Lemma index_bounds id :
  0 ≤ id →
  0 ≤ id / 2 ^ 23 ∧ 0 ≤ (id / 2 ^ 11) mod 2 ^ 12 < 4096 ∧ 0 ≤ id mod 2 ^ 11 < 2048.
Proof.
  intros H. split; [apply Z.div_pos; lia|].
  split; apply Z.mod_pos_bound; lia.
Qed.

Lemma get_unfold pm id :
  get pm id =
  if 4096 <=? id / 2 ^ 23 then 0
  else match _root pm !! Z.to_nat (id / 2 ^ 23) with
       | Some (Some rootNode) =>
           match rootNode !! Z.to_nat ((id / 2 ^ 11) mod 2 ^ 12) with
           | Some (Some leafNode) => default 0 (leafNode !! Z.to_nat (id mod 2 ^ 11))
           | _ => 0
           end
       | _ => 0
       end.
Proof. unfold get. by rewrite iRoot_eq, iInternal_eq, iLeaf_eq. Qed.

(** The shape of a successful [set]: the node and the leaf that are
    found or created, and the one slot that changes. *)
Lemma set_Some pm id span pm' :
  set pm id span = Some pm' →
  ∃ node leaf,
    id / 2 ^ 23 < 4096 ∧
    (_root pm !! Z.to_nat (id / 2 ^ 23) = Some (Some node) ∨
     _root pm !! Z.to_nat (id / 2 ^ 23) = Some None ∧ node = AllocNode_Internal) ∧
    (node !! Z.to_nat ((id / 2 ^ 11) mod 2 ^ 12) = Some (Some leaf) ∨
     node !! Z.to_nat ((id / 2 ^ 11) mod 2 ^ 12) = Some None ∧ leaf = AllocNode_Leaf) ∧
    is_Some (leaf !! Z.to_nat (id mod 2 ^ 11)) ∧
    _root pm' = <[ Z.to_nat (id / 2 ^ 23) :=
                   Some (<[ Z.to_nat ((id / 2 ^ 11) mod 2 ^ 12) :=
                            Some (<[ Z.to_nat (id mod 2 ^ 11) := span ]> leaf) ]> node) ]>
                 (_root pm).
Proof.
  unfold set, EnsureInternal, EnsureRoot.
  rewrite iRoot_eq, iInternal_eq, iLeaf_eq.
  change LEN_ROOT with 4096.
  set (r := Z.to_nat (id / 2 ^ 23)).
  set (i := Z.to_nat ((id / 2 ^ 11) mod 2 ^ 12)).
  set (l := Z.to_nat (id mod 2 ^ 11)).
  destruct (4096 <=? id / 2 ^ 23) eqn:E1; [done|].
  apply Z.leb_gt in E1.
  destruct (_root pm !! r) as [[nd|]|] eqn:E2; simpl; try done.
  - pose proof (lookup_lt_Some _ _ _ E2) as Hr.
    rewrite E2. destruct (nd !! i) as [[lf|]|] eqn:E3; simpl; try done.
    + rewrite E2, E3. destruct (lf !! l) eqn:E4; [|done].
      intros [= <-]. exists nd, lf. simpl. split_and!; eauto.
    + pose proof (lookup_lt_Some _ _ _ E3) as Hi.
      rewrite list_lookup_insert_eq by done.
      rewrite list_lookup_insert_eq by done.
      destruct (AllocNode_Leaf !! l) eqn:E4; [|done].
      intros [= <-]. exists nd, AllocNode_Leaf. simpl.
      rewrite !list_insert_insert_eq. split_and!; eauto.
  - pose proof (lookup_lt_Some _ _ _ E2) as Hr.
    rewrite list_lookup_insert_eq by done.
    destruct (AllocNode_Internal !! i) as [[lf|]|] eqn:E3; simpl; try done.
    + exfalso. apply lookup_replicate in E3 as [? _]. done.
    + pose proof (lookup_lt_Some _ _ _ E3) as Hi.
      rewrite list_lookup_insert_eq by (by rewrite length_insert).
      rewrite list_lookup_insert_eq by done.
      destruct (AllocNode_Leaf !! l) eqn:E4; [|done].
      intros [= <-]. exists AllocNode_Internal, AllocNode_Leaf. simpl.
      rewrite !list_insert_insert_eq. split_and!; eauto.
  - by rewrite E2.
Qed.

Lemma get_set_eq pm id span pm' :
  set pm id span = Some pm' → get pm' id = span.
Proof.
  intros (node & leaf & HR & Hnode & Hleaf & Hl & Hroot)%set_Some.
  rewrite get_unfold, Hroot.
  assert ((4096 <=? id / 2 ^ 23) = false) as -> by (apply Z.leb_gt; lia).
  rewrite list_lookup_insert_eq
    by (destruct Hnode as [Hx|[Hx _]]; by eapply lookup_lt_Some).
  rewrite list_lookup_insert_eq
    by (destruct Hleaf as [Hx|[Hx _]]; by eapply lookup_lt_Some).
  rewrite list_lookup_insert_eq by (by apply lookup_lt_is_Some).
  done.
Qed.

Lemma AllocNode_Leaf_lookup l : default 0 (AllocNode_Leaf !! l) = 0.
Proof.
  destruct (AllocNode_Leaf !! l) eqn:E; [|done].
  by apply lookup_replicate in E as [-> _].
Qed.

Lemma AllocNode_Internal_lookup i :
  AllocNode_Internal !! i = Some None ∨ AllocNode_Internal !! i = None.
Proof.
  destruct (AllocNode_Internal !! i) eqn:E; [|by right].
  apply lookup_replicate in E as [-> _]. by left.
Qed.

Lemma get_set_ne pm id span pm' id' :
  set pm id span = Some pm' → 0 ≤ id → 0 ≤ id' → id' ≠ id →
  get pm' id' = get pm id'.
Proof.
  intros (node & leaf & HR & Hnode & Hleaf & Hl & Hroot)%set_Some H0 H0' Hne.
  rewrite !get_unfold, Hroot.
  destruct (4096 <=? id' / 2 ^ 23) eqn:E1; [done|].
  destruct (index_bounds id H0) as (? & ? & ?).
  destruct (index_bounds id' H0') as (? & ? & ?).
  destruct (decide (id' / 2 ^ 23 = id / 2 ^ 23)) as [ER|ER]; cycle 1.
  { rewrite list_lookup_insert_ne by lia. done. }
  rewrite ER.
  rewrite list_lookup_insert_eq
    by (destruct Hnode as [Hx|[Hx _]]; by eapply lookup_lt_Some).
  destruct (decide ((id' / 2 ^ 11) mod 2 ^ 12 = (id / 2 ^ 11) mod 2 ^ 12)) as [EI|EI]; cycle 1.
  { rewrite list_lookup_insert_ne by lia.
    destruct Hnode as [->|[-> ->]]; [done|].
    by destruct (AllocNode_Internal_lookup (Z.to_nat ((id' / 2 ^ 11) mod 2 ^ 12))) as [->| ->]. }
  rewrite EI.
  rewrite list_lookup_insert_eq
    by (destruct Hleaf as [Hx|[Hx _]]; by eapply lookup_lt_Some).
  assert (id' mod 2 ^ 11 ≠ id mod 2 ^ 11) as EL.
  { intros EL. apply Hne. by apply index_inj. }
  rewrite list_lookup_insert_ne by lia.
  destruct Hnode as [->|[-> ->]], Hleaf as [Hlf|[Hlf ->]].
  - by rewrite Hlf.
  - by rewrite Hlf, AllocNode_Leaf_lookup.
  - by apply lookup_replicate in Hlf as [? _].
  - by rewrite AllocNode_Leaf_lookup.
Qed.

Lemma get_empty id : get empty id = 0.
Proof.
  rewrite get_unfold. case_match; [done|].
  change (_root empty) with (replicate (Z.to_nat LEN_ROOT) (@None (list (option (list Z))))).
  destruct (_ !! _) as [o|] eqn:E; [|done].
  by apply lookup_replicate in E as [-> _].
Qed.

Lemma get_set_all pm sets pm' id :
  set_all pm sets = Some pm' →
  Forall (λ kv, 0 ≤ kv.1) sets → 0 ≤ id → id ∉ sets.*1 →
  get pm' id = get pm id.
Proof.
  revert pm. induction sets as [|[id0 v] sets IH]; intros pm Hrun Hall Hid Hnot.
  - by injection Hrun as ->.
  - cbn [set_all] in Hrun.
    destruct (set pm id0 v) as [pm1|] eqn:E; [|done].
    apply Forall_cons in Hall as [H0 Hall]. cbn [fst] in H0.
    rewrite fmap_cons in Hnot. cbn [fst] in Hnot.
    apply not_elem_of_cons in Hnot as [Hne Hnot].
    rewrite (IH pm1) by done. by eapply get_set_ne.
Qed.

(** C10. [get] answers for every 64-bit page id: null when the id lies
    beyond the 35-bit page-id space (its root index is out of range),
    null when the root slot or the leaf slot on its path holds no node,
    and otherwise the value of the leaf slot; in particular a page id that
    no [set] since the empty map has named reads as null. *)
Theorem get_total (pm : PageMap) (id : Z) :
  0 ≤ id < 2 ^ 64 →
  (2 ^ 35 ≤ id → get pm id = 0) ∧
  (id < 2 ^ 35 →
   _root pm !! Z.to_nat (id / 2 ^ 23) = Some None →
   get pm id = 0) ∧
  (∀ node, id < 2 ^ 35 →
   _root pm !! Z.to_nat (id / 2 ^ 23) = Some (Some node) →
   node !! Z.to_nat ((id / 2 ^ 11) mod 2 ^ 12) = Some None →
   get pm id = 0) ∧
  (∀ node leaf span, id < 2 ^ 35 →
   _root pm !! Z.to_nat (id / 2 ^ 23) = Some (Some node) →
   node !! Z.to_nat ((id / 2 ^ 11) mod 2 ^ 12) = Some (Some leaf) →
   leaf !! Z.to_nat (id mod 2 ^ 11) = Some span →
   get pm id = span) ∧
  (∀ sets pm', set_all empty sets = Some pm' →
   Forall (λ kv, 0 ≤ kv.1) sets → id ∉ sets.*1 →
   get pm' id = 0).
Proof.
  intros Hid.
  assert (Hin : id < 2 ^ 35 → (4096 <=? id / 2 ^ 23) = false).
  { intros Hlt. apply Z.leb_gt. apply Z.div_lt_upper_bound; lia. }
  split_and!.
  - intros Hbig. rewrite get_unfold.
    assert ((4096 <=? id / 2 ^ 23) = true) as ->; [|done].
    apply Z.leb_le. apply Z.div_le_lower_bound; lia.
  - intros Hlt Hroot. by rewrite get_unfold, Hin, Hroot.
  - intros node Hlt Hroot Hnode. by rewrite get_unfold, Hin, Hroot, Hnode.
  - intros node leaf span Hlt Hroot Hnode Hleaf.
    by rewrite get_unfold, Hin, Hroot, Hnode, Hleaf.
  - intros sets pm' Hrun Hall Hnot.
    rewrite (get_set_all empty sets pm' id) by (done || lia).
    apply get_empty.
Qed.

Lemma get_total_witness :
  get empty 8 = 0 ∧ get empty 34359738368 = 0 ∧
  ∀ pm', set_all empty [(7, 64)] = Some pm' → get pm' 8 = 0.
Proof.
  split_and!.
  - destruct (get_total empty 8) as (_ & Habsent & _); [lia|].
    apply Habsent; [lia|reflexivity].
  - destruct (get_total empty 34359738368) as (Hbeyond & _); [lia|].
    apply Hbeyond. lia.
  - intros pm' Hrun.
    destruct (get_total pm' 8) as (_ & _ & _ & _ & Hunset); [lia|].
    apply (Hunset [(7, 64)]).
    + exact Hrun.
    + repeat constructor. cbn [fst]. lia.
    + rewrite list_fmap_singleton. cbn [fst]. rewrite list_elem_of_singleton. lia.
Defined.

(** *** Well-formedness *)

Lemma wf_empty : wf empty.
Proof.
  split; [apply length_replicate|]. intros r node Hr.
  change (_root empty) with (replicate (Z.to_nat LEN_ROOT) (@None (list (option (list Z))))) in Hr.
  by apply lookup_replicate in Hr as [? _].
Qed.

Lemma wf_AllocNode_Internal :
  length AllocNode_Internal = Z.to_nat LEN_INTERNAL ∧
  ∀ i leaf, AllocNode_Internal !! i = Some (Some leaf) → length leaf = Z.to_nat LEN_LEAF.
Proof.
  split; [apply length_replicate|]. intros i leaf Hi.
  by apply lookup_replicate in Hi as [? _].
Qed.

(** On a well-formed tree [set] succeeds for every page id of the
    35-bit space, and leaves the tree well-formed. *)
Lemma set_total pm id span :
  wf pm → 0 ≤ id < 2 ^ 35 →
  ∃ pm', set pm id span = Some pm' ∧ wf pm'.
Proof.
  intros [Hlen Hnodes] Hid.
  destruct (index_bounds id) as (HR0 & HI & HL); [lia|].
  assert (HR : id / 2 ^ 23 < 4096) by (apply Z.div_lt_upper_bound; lia).
  unfold set, EnsureInternal, EnsureRoot.
  rewrite iRoot_eq, iInternal_eq, iLeaf_eq.
  change LEN_ROOT with 4096 in *. change LEN_INTERNAL with 4096 in *.
  change LEN_LEAF with 2048 in *.
  set (r := Z.to_nat (id / 2 ^ 23)).
  set (i := Z.to_nat ((id / 2 ^ 11) mod 2 ^ 12)).
  set (l := Z.to_nat (id mod 2 ^ 11)).
  assert ((4096 <=? id / 2 ^ 23) = false) as -> by (by apply Z.leb_gt).
  assert (Hr : (r < length (_root pm))%nat) by lia.
  (* the node and the leaf under the id, found or created *)
  assert (∃ node pm1,
    match _root pm !! r with
    | Some None => {| _root := <[ r := Some AllocNode_Internal ]> (_root pm) |}
    | _ => pm
    end = pm1 ∧ _root pm1 !! r = Some (Some node) ∧ wf pm1 ∧
    length node = Z.to_nat 4096 ∧
    (∀ j lf, node !! j = Some (Some lf) → length lf = Z.to_nat 2048))
    as (node & pm1 & -> & Hnode & [Hlen1 Hnodes1] & Hnl & Hleafs).
  { destruct (lookup_lt_is_Some_2 _ _ Hr) as [[node|] Hn]; rewrite Hn.
    - destruct (Hnodes _ _ Hn) as [? ?]. exists node, pm. split_and!; try done.
    - destruct wf_AllocNode_Internal as [? ?].
      exists AllocNode_Internal, {| _root := <[ r := Some AllocNode_Internal ]> (_root pm) |}.
      split_and!; [reflexivity| | |assumption..].
      + cbn [_root]. by rewrite list_lookup_insert_eq.
      + split; cbn [_root]; [by rewrite length_insert|]. intros r' node'.
        destruct (decide (r' = r)) as [->|Hne].
        * rewrite list_lookup_insert_eq by done. intros [= <-].
          exact wf_AllocNode_Internal.
        * rewrite list_lookup_insert_ne by done. apply Hnodes. }
  change LEN_ROOT with 4096 in *. change LEN_INTERNAL with 4096 in *.
  change LEN_LEAF with 2048 in *.
  rewrite Hnode.
  assert (Hi : (i < length node)%nat) by lia.
  destruct (lookup_lt_is_Some_2 _ _ Hi) as [[leaf|] Hlf]; rewrite Hlf.
  - rewrite Hnode, Hlf.
    pose proof (Hleafs _ _ Hlf) as Hll.
    assert (Hl : (l < length leaf)%nat) by lia.
    destruct (lookup_lt_is_Some_2 _ _ Hl) as [v ->].
    eexists. split; [done|]. split; cbn [_root].
    + by rewrite length_insert.
    + intros r' node'. destruct (decide (r' = r)) as [->|Hne].
      * rewrite list_lookup_insert_eq by lia. intros [= <-].
        rewrite length_insert. split; [done|]. intros j lf.
        destruct (decide (j = i)) as [->|Hnj].
        -- rewrite list_lookup_insert_eq by lia. intros [= <-]. by rewrite length_insert.
        -- rewrite list_lookup_insert_ne by done. apply Hleafs.
      * rewrite list_lookup_insert_ne by done. apply Hnodes1.
  - cbn [_root]. rewrite list_lookup_insert_eq by lia.
    rewrite list_lookup_insert_eq by lia.
    assert (Hl : (l < length AllocNode_Leaf)%nat).
    { unfold AllocNode_Leaf. rewrite length_replicate. change LEN_LEAF with 2048. lia. }
    destruct (lookup_lt_is_Some_2 _ _ Hl) as [v ->].
    eexists. split; [done|]. split; cbn [_root].
    + by rewrite !length_insert.
    + intros r' node'. destruct (decide (r' = r)) as [->|Hne].
      * rewrite list_lookup_insert_eq by (rewrite length_insert; lia). intros [= <-].
        rewrite !length_insert. split; [done|]. intros j lf.
        destruct (decide (j = i)) as [->|Hnj].
        -- rewrite list_lookup_insert_eq by (rewrite length_insert; lia).
           intros [= <-]. rewrite length_insert. apply length_replicate.
        -- rewrite list_lookup_insert_ne by done. rewrite list_lookup_insert_ne by done.
           apply Hleafs.
      * rewrite list_lookup_insert_ne by done. rewrite list_lookup_insert_ne by done.
        apply Hnodes1.
Qed.

End PageMapFacts.

(** ** FreeList: the list a thread cache keeps per class *)

Module FreeListFacts.
Import FreeList FreeListSpec.

Lemma NextObj_insert_eq m a v : NextObj (<[ a := v ]> m) a = v.
Proof. unfold NextObj. by rewrite lookup_insert_eq. Qed.

Lemma NextObj_insert_ne m a v b : a ≠ b → NextObj (<[ a := v ]> m) b = NextObj m b.
Proof. intros H. unfold NextObj. by rewrite lookup_insert_ne. Qed.

Lemma chain_nodes_ptr m p nodes x :
  chain m p nodes → x ∈ nodes → 0 < x < 2 ^ 64.
Proof.
  revert p. induction nodes as [|y rest IH]; intros p Hc Hx.
  - by apply elem_of_nil in Hx.
  - destruct Hc as (-> & Hy & Hc). apply elem_of_cons in Hx as [->|Hx]; [done|].
    by eapply IH.
Qed.

Lemma chain_frame m p nodes a v :
  chain m p nodes → a ∉ nodes → chain (<[ a := v ]> m) p nodes.
Proof.
  revert p. induction nodes as [|y rest IH]; intros p Hc Ha; [done|].
  destruct Hc as (-> & Hy & Hc). apply not_elem_of_cons in Ha as [Hne Ha].
  split; [done|]. split; [done|].
  rewrite NextObj_insert_ne by done. by apply IH.
Qed.

Lemma chain_det m p l1 l2 : chain m p l1 → chain m p l2 → l1 = l2.
Proof.
  revert p l2. induction l1 as [|x l1 IH]; intros p [|y l2] H1 H2; simpl in *.
  - done.
  - destruct H2 as (-> & Hy & _). lia.
  - destruct H1 as (-> & Hx & _). lia.
  - destruct H1 as (-> & _ & H1), H2 as (<- & _ & H2). f_equal. by eapply IH.
Qed.

Lemma chain_suffix m p l1 x l2 :
  chain m p (l1 ++ x :: l2) → chain m x (x :: l2).
Proof.
  revert p. induction l1 as [|y l1 IH]; intros p Hc; simpl in *.
  - by destruct Hc as (-> & ? & ?).
  - destruct Hc as (-> & _ & Hc). by eapply IH.
Qed.

Lemma chain_NoDup m p nodes : chain m p nodes → NoDup nodes.
Proof.
  revert p. induction nodes as [|x rest IH]; intros p Hc; [constructor|].
  pose proof Hc as (-> & Hx & Hrest). constructor; [|by eapply IH].
  intros (l1 & l2 & ->)%list_elem_of_split.
  pose proof (chain_suffix m _ l1 x l2 Hrest) as Hs.
  pose proof (chain_det _ _ _ _ Hc Hs) as Heq.
  apply (f_equal length) in Heq. simpl in Heq. rewrite length_app in Heq.
  simpl in Heq. lia.
Qed.

(** All nodes are distinct 64-bit addresses, so there are fewer than 2^64. *)
Lemma chain_length m p nodes : chain m p nodes → Z.of_nat (length nodes) < 2 ^ 64.
Proof.
  intros Hc.
  assert (Hsub : nodes ⊆+ seqZ 1 (2 ^ 64 - 1)).
  { apply NoDup_submseteq; [by eapply chain_NoDup|].
    intros x Hx. apply elem_of_seqZ.
    pose proof (chain_nodes_ptr _ _ _ _ Hc Hx). lia. }
  apply submseteq_length in Hsub. rewrite length_seqZ in Hsub. lia.
Qed.

Lemma chain_head_null m nodes : chain m 0 nodes → nodes = [].
Proof. destruct nodes as [|x rest]; [done|]. intros (<- & ? & _). lia. Qed.

Lemma chain_head_nonnull m p nodes :
  chain m p nodes → p ≠ 0 → ∃ rest, nodes = p :: rest.
Proof.
  destruct nodes as [|x rest]; simpl; [done|]. intros (-> & _ & _) _. by eexists.
Qed.

(** Redirecting the last link of a chain to the head of another one. *)
Lemma chain_splice m start seg e h nodes :
  chain m start seg → last seg = Some e →
  chain m h nodes → (∀ x, x ∈ seg → x ∉ nodes) →
  chain (<[ e := h ]> m) start (seg ++ nodes).
Proof.
  intros Hseg Hlast Hnodes Hdisj.
  pose proof (chain_NoDup _ _ _ Hseg) as Hnd.
  revert start Hseg Hlast Hdisj Hnd.
  induction seg as [|x seg IH]; intros start Hseg Hlast Hdisj Hnd; [done|].
  destruct Hseg as (-> & Hx & Hseg). apply NoDup_cons in Hnd as [Hxn Hnd].
  simpl. split; [done|]. split; [done|].
  destruct seg as [|y seg].
  - injection Hlast as ->. rewrite NextObj_insert_eq. simpl.
    apply chain_frame; [done|]. apply Hdisj. by left.
  - rewrite last_cons_cons in Hlast.
    assert (e ≠ x).
    { intros ->. apply Hxn. by apply last_Some_elem_of. }
    rewrite NextObj_insert_ne by done.
    apply IH; try done. intros z Hz. apply Hdisj. by right.
Qed.

(** Cutting a chain after the node [e]. *)
Lemma chain_cut m p l1 e l2 :
  chain m p (l1 ++ l2) → last l1 = Some e →
  chain (<[ e := 0 ]> m) p l1 ∧
  chain (<[ e := 0 ]> m) (NextObj m e) l2.
Proof.
  intros Hc Hlast. pose proof (chain_NoDup _ _ _ Hc) as Hnd.
  revert p Hc Hlast Hnd. induction l1 as [|x l1 IH]; intros p Hc Hlast Hnd; [done|].
  destruct Hc as (-> & Hx & Hc). simpl in Hnd. apply NoDup_cons in Hnd as [Hxn Hnd].
  destruct l1 as [|y l1].
  - injection Hlast as ->. simpl in *. rewrite NextObj_insert_eq.
    split; [done|]. by apply chain_frame.
  - rewrite last_cons_cons in Hlast.
    assert (e ≠ x).
    { intros ->. apply Hxn. apply elem_of_app. left. by apply last_Some_elem_of. }
    destruct (IH _ Hc Hlast Hnd) as [H1 H2].
    split; [|done]. split; [done|]. split; [done|].
    by rewrite NextObj_insert_ne.
Qed.

Lemma walk_chain m p nodes (k : nat) x :
  chain m p nodes → nodes !! k = Some x → walk m k p = x.
Proof.
  revert p nodes. induction k as [|k IH]; intros p [|y rest] Hc Hk; try done.
  - destruct Hc as (-> & _). by injection Hk.
  - destruct Hc as (-> & _ & Hc). simpl in *. by eapply IH.
Qed.


Lemma last_nonnull m p nodes e : chain m p nodes → last nodes = Some e → e ≠ 0.
Proof.
  intros Hc Hl. apply last_Some_elem_of in Hl.
  pose proof (chain_nodes_ptr _ _ _ _ Hc Hl). lia.
Qed.

Lemma tail_after_push m p nodes (t x : Z) :
  chain m p nodes → t = default 0 (last nodes) →
  (if t =? 0 then x else t) = default 0 (last (x :: nodes)).
Proof.
  intros Hc ->. destruct nodes as [|y rest]; [done|].
  rewrite last_cons_cons.
  destruct (last (y :: rest)) as [e|] eqn:El.
  - pose proof (last_nonnull _ _ _ _ Hc El). simpl.
    by destruct (Z.eqb_spec e 0).
  - by apply last_None in El.
Qed.

Lemma tail_after_pop m h rest (t : Z) x :
  chain m h rest → t = default 0 (last (x :: rest)) →
  (if h =? 0 then 0 else t) = default 0 (last rest).
Proof.
  intros Hc ->. destruct rest as [|y rest].
  - simpl in Hc. by subst.
  - destruct Hc as (-> & Hy & _). rewrite last_cons_cons.
    destruct (Z.eqb_spec y 0); [lia|done].
Qed.

Lemma Push_repr m l nodes obj :
  FreeList_repr m l nodes → 0 < obj < 2 ^ 64 → obj ∉ nodes →
  ∃ l' m', Push l m obj = Some (l', m') ∧ FreeList_repr m' l' (obj :: nodes).
Proof.
  intros (Hc & Hsz & Htl) Hobj Hnot. unfold Push.
  destruct (Z.eqb_spec obj 0); [lia|].
  eexists _, _. split; [reflexivity|].
  assert (Hc' : chain (<[ obj := _head l ]> m) obj (obj :: nodes)).
  { split; [done|]. split; [done|]. rewrite NextObj_insert_eq. by apply chain_frame. }
  split; [exact Hc'|]. split; simpl.
  - pose proof (chain_length _ _ _ Hc') as Hlen. simpl in Hlen.
    rewrite wrap64_small; lia.
  - by eapply tail_after_push.
Qed.

Lemma Pop_repr m l nodes :
  FreeList_repr m l nodes → _head l ≠ 0 →
  ∃ obj rest l', nodes = obj :: rest ∧ Pop l m = Some (obj, l') ∧ FreeList_repr m l' rest.
Proof.
  intros (Hc & Hsz & Htl) Hne. unfold Pop.
  destruct (chain_head_nonnull _ _ _ Hc Hne) as [rest ->].
  destruct (Z.eqb_spec (_head l) 0); [done|].
  pose proof (chain_length _ _ _ Hc) as Hlen.
  destruct Hc as (_ & Hx & Hc).
  eexists _, rest, _. split; [done|]. split; [reflexivity|].
  split; [exact Hc|]. split; simpl.
  - rewrite length_cons in Hsz, Hlen. rewrite wrap64_small; lia.
  - by eapply tail_after_pop.
Qed.

Lemma PushRange_repr m l nodes start end_ n seg :
  FreeList_repr m l nodes →
  chain m start seg → last seg = Some end_ → Z.of_nat (length seg) = n →
  (∀ x, x ∈ seg → x ∉ nodes) →
  ∃ l' m', PushRange l m start end_ n = Some (l', m') ∧ FreeList_repr m' l' (seg ++ nodes).
Proof.
  intros (Hc & Hsz & Htl) Hseg Hlast Hn Hdisj. unfold PushRange.
  pose proof (last_nonnull _ _ _ _ Hseg Hlast) as He.
  assert (start ≠ 0) as Hs.
  { destruct seg as [|x seg]; [done|]. destruct Hseg as (-> & ? & _). lia. }
  destruct (Z.eqb_spec start 0); [done|]. destruct (Z.eqb_spec end_ 0); [done|]. simpl.
  eexists _, _. split; [reflexivity|].
  pose proof (chain_splice _ _ _ _ _ _ Hseg Hlast Hc Hdisj) as Hc'.
  split; [exact Hc'|]. split; simpl.
  - pose proof (chain_length _ _ _ Hc') as Hlen. rewrite length_app in *.
    rewrite wrap64_small; lia.
  - rewrite last_app. rewrite Htl. destruct (last nodes) as [e|] eqn:El; simpl.
    + pose proof (last_nonnull _ _ _ _ Hc El). by destruct (Z.eqb_spec e 0).
    + by rewrite Hlast.
Qed.

Lemma PopRange_repr m l nodes n :
  FreeList_repr m l nodes → 1 ≤ n ≤ _size l →
  ∃ start end_ l' m',
    PopRange l m n = Some (start, end_, l', m') ∧
    FreeList_repr m' l' (drop (Z.to_nat n) nodes) ∧
    chain m' start (take (Z.to_nat n) nodes) ∧
    last (take (Z.to_nat n) nodes) = Some end_.
Proof.
  intros (Hc & Hsz & Htl) Hn. unfold PopRange.
  destruct (Z.ltb_spec (_size l) n); [lia|].
  pose proof (chain_length _ _ _ Hc) as Hlen.
  rewrite (wrap64_small (n - 1)) by lia.
  destruct (lookup_lt_is_Some_2 nodes (Z.to_nat (n - 1))) as [e He]; [lia|].
  rewrite (walk_chain _ _ _ _ _ Hc He).
  assert (Hlast : last (take (Z.to_nat n) nodes) = Some e).
  { rewrite last_lookup, length_take, lookup_take_lt by lia.
    rewrite <- He. f_equal. lia. }
  rewrite <- (take_drop (Z.to_nat n) nodes) in Hc.
  destruct (chain_cut _ _ _ _ _ Hc Hlast) as [Htake Hdrop].
  eexists _, _, _, _. split; [reflexivity|].
  split; [|done]. split; [exact Hdrop|]. split; simpl.
  - rewrite length_drop. rewrite wrap64_small; lia.
  - rewrite Htl. rewrite <- (take_drop (Z.to_nat n) nodes) at 1.
    rewrite last_app. destruct (drop (Z.to_nat n) nodes) as [|y rest] eqn:Ed.
    + simpl in Hdrop. by rewrite Hdrop.
    + destruct Hdrop as (-> & Hy & _).
      destruct (Z.eqb_spec y 0); [lia|].
      destruct (last (y :: rest)) eqn:El; [done|]. by apply last_None in El.
Qed.

(** C9, with the preconditions on pushed nodes that it needs.  For a
    list whose [_size] counts the [nodes] reachable from [_head] and
    whose [_tail] is the last of them: [Push] of a non-null node that is
    not in the list, [Pop] from a non-empty list, [PushRange] of a
    null-terminated chain of [n] nodes from [start] to [end_], none of
    them in the list, and [PopRange] of [1 ≤ n ≤ _size] nodes all succeed
    and leave a list with the same property. *)
Theorem FreeList_operations_preserve_repr (m : gmap Z Z) (l : FreeList) (nodes : list Z) :
  FreeList_repr m l nodes →
  (∀ obj, 0 < obj < 2 ^ 64 → obj ∉ nodes →
     ∃ l' m', Push l m obj = Some (l', m') ∧ FreeList_repr m' l' (obj :: nodes)) ∧
  (_head l ≠ 0 →
     ∃ obj rest l', nodes = obj :: rest ∧ Pop l m = Some (obj, l') ∧
                    FreeList_repr m l' rest) ∧
  (∀ start end_ n seg,
     chain m start seg → last seg = Some end_ → Z.of_nat (length seg) = n →
     (∀ x, x ∈ seg → x ∉ nodes) →
     ∃ l' m', PushRange l m start end_ n = Some (l', m') ∧
              FreeList_repr m' l' (seg ++ nodes)) ∧
  (∀ n, 1 ≤ n ≤ _size l →
     ∃ start end_ l' m',
       PopRange l m n = Some (start, end_, l', m') ∧
       FreeList_repr m' l' (drop (Z.to_nat n) nodes) ∧
       chain m' start (take (Z.to_nat n) nodes) ∧
       last (take (Z.to_nat n) nodes) = Some end_).
Proof.
  intros Hrepr. split_and!.
  - intros obj. by apply Push_repr.
  - by apply Pop_repr.
  - intros start end_ n seg. by apply PushRange_repr.
  - intros n. by apply PopRange_repr.
Qed.

Lemma FreeList_operations_preserve_repr_witness :
  ∃ l' m',
    Push {| _head := 8; _tail := 8; _size := 1; _maxSize := 1; _maxNum := 2 |}
         {[ 8 := 0 ]} 16 = Some (l', m') ∧
    FreeList_repr m' l' [16; 8].
Proof.
  destruct (FreeList_operations_preserve_repr {[ 8 := 0 ]}
              {| _head := 8; _tail := 8; _size := 1; _maxSize := 1; _maxNum := 2 |} [8])
    as (Hpush & _).
  - split; [|done]. simpl. split; [done|]. split; [lia|]. reflexivity.
  - apply (Hpush 16); [lia|]. rewrite list_elem_of_singleton. lia.
Defined.

(** C9 as stated puts no condition on [Push]: pushing the node that is
    already the head of the list ties the list into a cycle, which no
    [_size] counts. *)
Lemma Push_present_node_breaks_inv :
  FreeList_inv {[ 8 := 0 ]}
    {| _head := 8; _tail := 8; _size := 1; _maxSize := 1; _maxNum := 2 |} ∧
  ∃ l' m',
    Push {| _head := 8; _tail := 8; _size := 1; _maxSize := 1; _maxNum := 2 |}
         {[ 8 := 0 ]} 8 = Some (l', m') ∧
    ¬ FreeList_inv m' l'.
Proof.
  split.
  - exists [8]. split; [|done]. simpl. split; [done|]. split; [lia|]. reflexivity.
  - eexists _, _. split; [reflexivity|].
    intros (nodes & Hc & _). simpl in Hc.
    assert (Hloop : ∀ ns, ¬ chain (<[ 8 := 8 ]> ({[ 8 := 0 ]} : gmap Z Z)) 8 ns).
    { induction ns as [|x ns IH]; [done|].
      intros (<- & _ & Hn). rewrite NextObj_insert_eq in Hn. by apply IH. }
    by apply (Hloop nodes).
Qed.

End FreeListFacts.

(** ** Computations on the process state *)

Module LogicFacts.
Import State Machine Logic.

Lemma bind_run {A B : Type} (m : M A) (f : A → M B) w :
  (m ≫= f) w = match m w with Done a w' => f a w' | Raise e => Raise e end.
Proof. reflexivity. Qed.

Lemma bind_Done {A B : Type} (m : M A) (f : A → M B) w b w' :
  (m ≫= f) w = Done b w' → ∃ a w1, m w = Done a w1 ∧ f a w1 = Done b w'.
Proof. rewrite bind_run. intros H. destruct (m w) as [a w1|e] eqn:E; [|done]. eauto. Qed.

Lemma Done_not_Raise {A : Type} (a : A) w e : Done a w ≠ Raise e.
Proof. discriminate. Qed.

Lemma wp_Done {A : Type} (m : M A) Q w a w' : wp m Q w → m w = Done a w' → Q a w'.
Proof. unfold wp. intros H E. by rewrite E in H. Qed.

Lemma Done_wp {A : Type} (m : M A) (Q : A → World → Prop) w :
  (∀ a w', m w = Done a w' → Q a w') → wp m Q w.
Proof. unfold wp. intros H. destruct (m w) eqn:E; [by apply H|done]. Qed.

Lemma wp_ret {A : Type} (a : A) (Q : A → World → Prop) w : Q a w → wp (mret a) Q w.
Proof. done. Qed.

Lemma wp_bind {A B : Type} (m : M A) (f : A → M B) (Q : B → World → Prop) w :
  wp m (λ a w', wp (f a) Q w') w → wp (m ≫= f) Q w.
Proof. unfold wp. rewrite bind_run. by destruct (m w). Qed.

Lemma wp_mono {A : Type} (m : M A) (Q Q' : A → World → Prop) w :
  wp m Q w → (∀ a w', Q a w' → Q' a w') → wp m Q' w.
Proof. unfold wp. destruct (m w); [|done]. intros H HQ. by apply HQ. Qed.

Lemma wp_any {A : Type} (m : M A) (Q : A → World → Prop) w :
  (∀ a w', Q a w') → wp m Q w.
Proof. intros H. apply Done_wp. intros. apply H. Qed.

Lemma wp_raise {A : Type} e (Q : A → World → Prop) w : wp (raise e) Q w.
Proof. done. Qed.

Lemma wp_from_option {A : Type} (o : option A) (Q : A → World → Prop) w :
  (∀ a, o = Some a → Q a w) → wp (from_option o) Q w.
Proof. destruct o; [|done]. intros H. by apply H. Qed.

Lemma wp_conj {A : Type} (m : M A) (Q1 Q2 : A → World → Prop) w :
  wp m Q1 w → wp m Q2 w → wp m (λ a w', Q1 a w' ∧ Q2 a w') w.
Proof. unfold wp. by destruct (m w). Qed.

(** *** Components left untouched *)

Lemma preserves_wp {A X : Type} (proj : World → X) (m : M A) w :
  preserves proj m → wp m (λ _ w', proj w' = proj w) w.
Proof. intros H. apply Done_wp. intros a w'. apply H. Qed.

Lemma preserves_ret {A X : Type} (proj : World → X) (a : A) : preserves proj (mret a).
Proof. by intros w a' w' [= _ ->]. Qed.

Lemma preserves_raise {A X : Type} (proj : World → X) e : preserves proj (raise e : M A).
Proof. by intros w a' w'. Qed.

Lemma preserves_bind {A B X : Type} (proj : World → X) (m : M A) (f : A → M B) :
  preserves proj m → (∀ a, preserves proj (f a)) → preserves proj (m ≫= f).
Proof.
  intros Hm Hf w b w' (a & w1 & H1 & H2)%bind_Done.
  rewrite (Hf _ _ _ _ H2). by eapply Hm.
Qed.

Lemma preserves_from_option {A X : Type} (proj : World → X) (o : option A) :
  preserves proj (from_option o).
Proof. destruct o; [apply preserves_ret|apply preserves_raise]. Qed.

Lemma preserves_for_each {X : Type} (proj : World → X) count i body :
  (∀ j, preserves proj (body j)) → preserves proj (for_each count i body).
Proof.
  intros Hb. revert i. induction count as [|count IH]; intros i; simpl.
  - apply preserves_ret.
  - apply preserves_bind; [apply Hb|]. intros _. apply IH.
Qed.

Lemma preserves_loop {A X : Type} (proj : World → X) fuel (body : M (option A)) :
  preserves proj body → preserves proj (loop fuel body).
Proof.
  intros Hb. induction fuel as [|fuel IH]; simpl.
  - apply preserves_raise.
  - apply preserves_bind; [done|]. intros [a|]; [apply preserves_ret|done].
Qed.

Lemma preserves_get_world {X : Type} (proj : World → X) : preserves proj get_world.
Proof. by intros w a w' [= _ ->]. Qed.


Ltac frame_base :=
  let w := fresh "w" in
  let a := fresh "a" in
  let w' := fresh "w'" in
  let H := fresh "H" in
  intros w a w' H;
  unfold rd, wr, PageMap_get, PageMap_set, this_shard, modify_shard, SystemAlloc,
    construct_Span, destroy_Span, carve_Span, Span_Remove, PageCacheShard.decommit,
    CentralCache.set_NextObj, CentralCache.bucket_PushFront, CentralCache.log_fetch,
    get_world, put_world in H;
  repeat case_match; simplify_eq; reflexivity.

Ltac frame :=
  lazymatch goal with
  | |- preserves _ (_ ≫= _) => apply preserves_bind; [frame | intros ?; frame]
  | |- preserves _ (mret _) => apply preserves_ret
  | |- preserves _ (raise _) => apply preserves_raise
  | |- preserves _ (from_option _) => apply preserves_from_option
  | |- preserves _ (for_each _ _ _) => apply preserves_for_each; intros ?; frame
  | |- preserves _ (loop _ _) => apply preserves_loop; frame
  | |- preserves _ (if ?b then _ else _) => destruct b; frame
  | |- preserves _ (match ?x with _ => _ end) => destruct x; frame
  | |- preserves _ (add_totalFreePages _ _) => unfold add_totalFreePages; frame
  | |- preserves _ (sub_totalFreePages _ _) => unfold sub_totalFreePages; frame
  | |- preserves _ (small_list _ _ _) => unfold small_list; frame
  | |- preserves _ (set_small_list _ _ _ _) => unfold set_small_list; frame
  | |- preserves _ (small_PushFront _ _ _ _) => unfold small_PushFront; frame
  | |- preserves _ (small_PopFront _ _ _) => unfold small_PopFront; frame
  | |- preserves _ (large_PushFront _ _ _ _) => unfold large_PushFront; frame
  | |- preserves _ (large_PopFront _ _ _) => unfold large_PopFront; frame
  | |- preserves _ (large_erase _ _ _) => unfold large_erase; frame
  | |- preserves _ (SpanPool_New _) => unfold SpanPool_New; frame
  | |- preserves _ (SpanPool_Delete _ _) => unfold SpanPool_Delete; frame
  | |- _ => frame_base
  end.

(** One step of a [wp] proof: run [m], keeping what it preserves. *)
Lemma wp_bind_frame {A B X : Type} (proj : World → X) (m : M A) (f : A → M B)
    (Q : B → World → Prop) w :
  preserves proj m →
  (∀ a w', proj w' = proj w → wp (f a) Q w') →
  wp (m ≫= f) Q w.
Proof.
  intros Hp Hf. apply wp_bind. eapply wp_mono; [by apply (preserves_wp proj)|].
  intros a w' Hw'. by apply Hf.
Qed.

Lemma wp_bind_any {A B : Type} (m : M A) (f : A → M B) (Q : B → World → Prop) w :
  (∀ a w', wp (f a) Q w') → wp (m ≫= f) Q w.
Proof. intros Hf. apply wp_bind. apply wp_any. exact Hf. Qed.

Lemma wp_rd {A : Type} span (field : Span.Span → A) (Q : A → World → Prop) w :
  (∀ s, spans w !! span = Some s → Q (field s) w) → wp (rd span field) Q w.
Proof. intros H. unfold wp, rd. destruct (spans w !! span); [by apply H|done]. Qed.

Lemma wp_wr span assign (Q : unit → World → Prop) w :
  (∀ s, spans w !! span = Some s →
        Q tt (with_spans (<[ span := assign s ]> (spans w)) w)) →
  wp (wr span assign) Q w.
Proof. intros H. unfold wp, wr. destruct (spans w !! span); [by apply H|done]. Qed.

Lemma wp_PageMap_set id span (Q : unit → World → Prop) w :
  (∀ pm, PageMap.set (pagemap w) id span = Some pm → Q tt (with_pagemap pm w)) →
  wp (PageMap_set id span) Q w.
Proof.
  intros H. unfold wp, PageMap_set. destruct (PageMap.set _ _ _); [by apply H|done].
Qed.

End LogicFacts.

(** ** PageCache: issuing spans *)

Module PageCacheFacts.
Import State Machine Logic LogicFacts PageMapFacts.

(** The loop that registers the pages of an issued span. *)
Lemma for_each_registers span count i0 w :
  0 ≤ i0 →
  (∀ s j, spans w !! span = Some s → 0 ≤ j < i0 →
          PageMap.get (pagemap w) (wrap64 (Span._pageId s + j)) = span) →
  wp (for_each count i0
        (λ i, pid ← rd span Span._pageId; PageMap_set (wrap64 (pid + i)) span))
     (λ _ w', spans w' = spans w ∧
              ∀ s j, spans w !! span = Some s → 0 ≤ j < i0 + Z.of_nat count →
                     PageMap.get (pagemap w') (wrap64 (Span._pageId s + j)) = span) w.
Proof.
  revert i0 w. induction count as [|count IH]; intros i0 w Hi0 Hdone.
  - apply wp_ret. split; [done|]. intros s j Hs Hj. apply Hdone; [done|lia].
  - cbn [for_each]. apply wp_bind. apply wp_bind. apply wp_rd. intros s Hs.
    apply wp_PageMap_set. intros pm Hset.
    eapply wp_mono; [apply (IH (i0 + 1)); [lia|]|].
    + intros s' j Hs' Hj. cbn [pagemap spans with_pagemap] in *.
      assert (s' = s) as -> by congruence.
      destruct (decide (wrap64 (Span._pageId s + j) = wrap64 (Span._pageId s + i0))) as [->|Hne].
      * by eapply get_set_eq.
      * assert (j ≠ i0) by (by intros ->).
        rewrite (get_set_ne _ _ _ _ _ Hset); [apply Hdone; [done|lia]|..|done];
          apply wrap64_range.
    + intros _ w' [Hsp Hall]. split; [done|]. intros s' j Hs' Hj.
      apply Hall; [done|lia].
Qed.

(** The common end of the three [AllocFrom...] functions. *)
Lemma issue_tail span k w :
  (∀ s, spans w !! span = Some s → Span._n s ≤ k) →
  wp (for_each (Z.to_nat k) 0
        (λ i, pid ← rd span Span._pageId; PageMap_set (wrap64 (pid + i)) span);;
      wr span (Span.set_isUse true);;
      wr span (Span.set_isCold false);;
      mret span)
     (λ r w', issued_mapped k r w') w.
Proof.
  intros Hn. apply wp_bind.
  eapply wp_mono; [apply for_each_registers; [done|intros; lia]|].
  intros _ w1 [Hsp Hmap]. cbn beta.
  apply wp_bind, wp_wr. intros s Hs.
  apply wp_bind, wp_wr. intros s'. cbn [spans with_spans]. rewrite lookup_insert_eq.
  intros [= <-]. apply wp_ret.
  rewrite Hsp in Hs.
  exists (Span.set_isCold false (Span.set_isUse true s)).
  cbn [spans pagemap with_spans]. rewrite lookup_insert_eq.
  split; [done|]. split; [simpl; by apply Hn|].
  intros j Hj. simpl. apply (Hmap s); [done|lia].
Qed.


(** Once the issued span is cut down to [k] pages, what follows in the
    splitting branch leaves the span records alone. *)
Lemma after_resize span k (rest : M unit) w :
  preserves spans rest →
  wp (wr span (Span.set_n k);; rest)
     (λ _ w', ∀ s, spans w' !! span = Some s → Span._n s ≤ k) w.
Proof.
  intros Hrest. apply wp_bind, wp_wr. intros s Hs.
  eapply wp_mono; [by apply (preserves_wp spans)|].
  intros [] w' Hsp s' Hs'. rewrite Hsp in Hs'. cbn [spans with_spans] in Hs'.
  rewrite lookup_insert_eq in Hs'. injection Hs' as <-. simpl. lia.
Qed.

Ltac wp_skip := apply wp_bind_any; intros ? ?.

Lemma AllocFromHotList_issues this list k w :
  wp (PageCacheShard.AllocFromHotList this list k) (issued_mapped k) w.
Proof.
  unfold PageCacheShard.AllocFromHotList.
  apply wp_bind_any. intros span w1. wp_skip. wp_skip.
  apply wp_bind, wp_rd. intros s Hs.
  apply wp_bind.
  apply (wp_mono _ (λ _ w', ∀ s, spans w' !! span = Some s → Span._n s ≤ k));
    [|intros [] w2 Hn; by apply issue_tail].
  destruct (k <? Span._n s) eqn:Hk.
  - do 6 wp_skip. apply after_resize. frame.
  - apply wp_ret. intros s' Hs'. apply Z.ltb_ge in Hk. congruence.
Qed.

Lemma AllocFromColdList_issues this list k w :
  wp (PageCacheShard.AllocFromColdList this list k) (issued_mapped k) w.
Proof.
  unfold PageCacheShard.AllocFromColdList.
  apply wp_bind_any. intros span w1.
  apply wp_bind, wp_rd. intros s Hs.
  apply wp_bind.
  apply (wp_mono _ (λ _ w', ∀ s, spans w' !! span = Some s → Span._n s ≤ k));
    [|intros [] w2 Hn; by apply issue_tail].
  destruct (k <? Span._n s) eqn:Hk.
  - do 6 wp_skip. apply after_resize. frame.
  - apply wp_ret. intros s' Hs'. apply Z.ltb_ge in Hk. congruence.
Qed.

Lemma AllocFromMap_issues this map it k isCold w :
  wp (PageCacheShard.AllocFromMap this map it k isCold)
     (λ r w', r = 0 ∨ issued_mapped k r w') w.
Proof.
  unfold PageCacheShard.AllocFromMap.
  apply wp_bind_any. intros span w1. destruct (span =? 0).
  { wp_skip. apply wp_ret. by left. }
  wp_skip.
  apply wp_bind, wp_rd. intros s Hs.
  apply wp_bind.
  apply (wp_mono _ (λ _ w', ∀ s, spans w' !! span = Some s → Span._n s ≤ k));
    [|intros [] w2 Hn; eapply wp_mono; [by apply issue_tail|by right]].
  destruct (k <? Span._n s) eqn:Hk.
  - do 6 wp_skip. apply after_resize. frame.
  - apply wp_ret. intros s' Hs'. apply Z.ltb_ge in Hk. congruence.
Qed.


Lemma NewSpan_hot_issues this k w :
  wp (PageCacheShard.NewSpan_hot this k)
     (λ r w', ∀ span, r = PageCacheShard.Returns span → issued_mapped k span w') w.
Proof.
  unfold PageCacheShard.NewSpan_hot. destruct (k <? NPAGES).
  - wp_skip. destruct (negb _).
    + apply wp_bind. eapply wp_mono; [apply AllocFromHotList_issues|].
      intros span w1 Hm. apply wp_ret. by intros ? [= <-].
    + wp_skip. destruct a0 as [i|]; [|by apply wp_ret].
      apply wp_bind. eapply wp_mono; [apply AllocFromHotList_issues|].
      intros span w1 Hm. apply wp_ret. by intros ? [= <-].
  - wp_skip. destruct (lower_bound _ _) as [it|]; [|by apply wp_ret].
    apply wp_bind. eapply wp_mono; [apply AllocFromMap_issues|].
    intros ret w1 Hm. destruct (Z.eqb_spec ret 0); apply wp_ret; [done|].
    intros ? [= <-]. by destruct Hm.
Qed.

Lemma NewSpan_cold_issues this k w :
  wp (PageCacheShard.NewSpan_cold this k)
     (λ r w', ∀ span, r = PageCacheShard.Returns span → issued_mapped k span w') w.
Proof.
  unfold PageCacheShard.NewSpan_cold. apply wp_bind.
  apply (wp_mono _ (λ r w', ∀ span, r = PageCacheShard.Returns span →
                                    issued_mapped k span w')).
  - destruct (k <? NPAGES); [|by apply wp_ret].
    wp_skip. destruct (negb _).
    + apply wp_bind. eapply wp_mono; [apply AllocFromColdList_issues|].
      intros span w1 Hm. apply wp_ret. by intros ? [= <-].
    + wp_skip. destruct a0 as [i|]; [|by apply wp_ret].
      apply wp_bind. eapply wp_mono; [apply AllocFromColdList_issues|].
      intros span w1 Hm. apply wp_ret. by intros ? [= <-].
  - intros r w1 Hr. destruct r as [span| |]; [by apply wp_ret|by apply wp_ret|].
    wp_skip. destruct (negb _); [|by apply wp_ret].
    destruct (lower_bound _ _) as [it|]; [|by apply wp_ret].
    apply wp_bind. eapply wp_mono; [apply AllocFromMap_issues|].
    intros ret w2 Hm. destruct (Z.eqb_spec ret 0); apply wp_ret; [done|].
    intros ? [= <-]. by destruct Hm.
Qed.

Lemma wr_keeps_n span other assign :
  (∀ s, Span._n (assign s) = Span._n s) →
  preserves (λ w, Span._n <$> spans w !! span) (wr other assign).
Proof.
  intros Hkeep w [] w' Hrun. unfold wr in Hrun.
  destruct (spans w !! other) as [s|] eqn:E; [|done].
  injection Hrun as <-. cbn [spans with_spans].
  destruct (decide (other = span)) as [->|Hne].
  - rewrite lookup_insert_eq, E. simpl. by rewrite Hkeep.
  - by rewrite lookup_insert_ne.
Qed.

Lemma NewSpan_system_issues this k w :
  wp (PageCacheShard.NewSpan_system this k)
     (λ r w', ∀ span, r = PageCacheShard.Returns span → issued_mapped k span w') w.
Proof.
  unfold PageCacheShard.NewSpan_system. destruct (NPAGES <=? k).
  - wp_skip. apply wp_bind_any. intros span w1. wp_skip.
    apply wp_bind, wp_wr. intros s0 Hs0.
    apply (wp_bind_frame (λ w, Span._n <$> spans w !! span));
      [by apply wr_keeps_n|intros [] w2 Hw2].
    apply (wp_bind_frame (λ w, Span._n <$> spans w !! span));
      [by apply wr_keeps_n|intros [] w3 Hw3].
    apply (wp_bind_frame spans); [frame|intros sh w4 Hw4].
    apply (wp_bind_frame (λ w, Span._n <$> spans w !! span));
      [by apply wr_keeps_n|intros [] w5 Hw5].
    apply wp_bind.
    eapply wp_mono; [apply for_each_registers; [done|intros; lia]|].
    intros [] w6 [Hsp Hmap]. apply wp_ret. intros ? [= <-].
    assert (Hn : Span._n <$> spans w5 !! span = Some k).
    { rewrite Hw5, Hw4, Hw3, Hw2. cbn [spans with_spans]. by rewrite lookup_insert_eq. }
    destruct (spans w5 !! span) as [s|] eqn:Hs; [|done]. injection Hn as Hn.
    exists s. rewrite Hsp. split; [done|]. split; [lia|].
    intros j Hj. apply (Hmap s); [done|lia].
  - do 16 wp_skip. apply wp_ret. done.
Qed.

Lemma wp_loop_always {A : Type} fuel (body : M (option A)) (Q : A → World → Prop) w :
  (∀ w, wp body (λ r w', ∀ a, r = Some a → Q a w') w) →
  wp (loop fuel body) Q w.
Proof.
  intros Hbody. revert w. induction fuel as [|fuel IH]; intros w; [done|].
  cbn [loop]. apply wp_bind. eapply wp_mono; [apply Hbody|].
  intros [a|] w1 Hr; [apply wp_ret; by apply Hr|apply IH].
Qed.

Lemma NewSpan_issues fuel this k w :
  wp (PageCacheShard.NewSpan fuel this k) (issued_mapped k) w.
Proof.
  apply wp_loop_always. clear w. intros w.
  unfold PageCacheShard.NewSpan_body.
  apply wp_bind. eapply wp_mono; [apply NewSpan_hot_issues|].
  intros [span| |] w1 H1; [apply wp_ret; intros ? [= <-]; by apply H1|by apply wp_ret|].
  apply wp_bind. eapply wp_mono; [apply NewSpan_cold_issues|].
  intros [span| |] w2 H2; [apply wp_ret; intros ? [= <-]; by apply H2|by apply wp_ret|].
  apply wp_bind. eapply wp_mono; [apply NewSpan_system_issues|].
  intros [span| |] w3 H3; [apply wp_ret; intros ? [= <-]; by apply H3|by apply wp_ret..].
Qed.

(** An assignment that keeps [_pageId] and [_n] keeps the pages mapped. *)
Lemma issued_mapped_wr k span other assign w :
  (∀ s, Span._pageId (assign s) = Span._pageId s ∧ Span._n (assign s) = Span._n s) →
  issued_mapped k span w →
  wp (wr other assign) (λ _ w', issued_mapped k span w') w.
Proof.
  intros Hkeep (s & Hs & Hn & Hmap). apply wp_wr. intros so Hso.
  unfold issued_mapped. cbn [spans pagemap with_spans].
  destruct (decide (other = span)) as [->|Hne].
  - assert (so = s) as -> by congruence.
    exists (assign s). rewrite lookup_insert_eq. destruct (Hkeep s) as [-> ->]. done.
  - exists s. by rewrite lookup_insert_ne.
Qed.

Lemma issued_mapped_frame {A : Type} k span (m : M A) w :
  preserves spans m → preserves pagemap m →
  issued_mapped k span w →
  wp m (λ _ w', issued_mapped k span w') w.
Proof.
  intros Hs Hp Hm. apply Done_wp. intros a w' Hrun.
  unfold issued_mapped. by rewrite (Hs _ _ _ Hrun), (Hp _ _ _ Hrun).
Qed.

Lemma PageHeap_NewSpan_issues fuel idx k w :
  wp (PageHeap.NewSpan fuel idx k) (issued_mapped k) w.
Proof.
  unfold PageHeap.NewSpan. apply wp_bind.
  eapply wp_mono; [apply NewSpan_issues|]. intros span w1 Hm.
  apply wp_bind. apply (wp_mono _ (λ _ w', issued_mapped k span w')).
  - destruct (span =? 0); [by apply wp_ret|]. by apply issued_mapped_wr.
  - intros [] w2 Hm2. by apply wp_ret.
Qed.

End PageCacheFacts.

(** ** CentralCache: refilling a bucket *)

Module CentralCacheFacts.
Import State Machine Logic LogicFacts PageMapFacts PageCacheFacts.
Import SizeUtilsFacts.

Lemma find_span_none l w :
  (∀ it s, it ∈ l → spans w !! it = Some s → Span._freeList s = 0) →
  wp (CentralCache.find_span l) (λ r w', r = None ∧ w' = w) w.
Proof.
  induction l as [|it l IH]; intros Hall; [by apply wp_ret|].
  cbn [CentralCache.find_span]. apply wp_bind, wp_rd. intros s Hs.
  rewrite (Hall it s) by (done || by left). cbn [Z.eqb negb].
  apply IH. intros it' s' Hit'. apply Hall. by right.
Qed.

Lemma preserves_slice {X : Type} (proj : World → X) fuel aligned_size end_ tail cur :
  (∀ obj v, preserves proj (CentralCache.set_NextObj obj v)) →
  preserves proj (CentralCache.slice fuel aligned_size end_ tail cur).
Proof.
  intros Hset. revert tail cur. induction fuel as [|fuel IH]; intros tail cur; simpl.
  - apply preserves_raise.
  - destruct (cur <=? end_); [|apply preserves_ret].
    apply preserves_bind; [apply Hset|]. intros _. apply IH.
Qed.

Lemma issued_mapped_pages k span w : issued_mapped k span w → pages_mapped w span.
Proof.
  intros (s & Hs & Hn & Hmap). exists s. split; [done|]. intros p Hp Hin.
  rewrite <- (Hmap (p - Span._pageId s)) by lia.
  f_equal. replace (Span._pageId s + (p - Span._pageId s)) with p by lia.
  by rewrite wrap64_small.
Qed.

End CentralCacheFacts.

(** ** PageHeap: runs from a fresh heap *)

Module PageHeapFacts.
Import State Machine Logic.

(** C1. A heap of two shards, the calling thread on shard 1.  The first
    [NewSpan(1)] takes 128 pages from the system and splits them in
    [AllocFromHotList]: the span issued carries shard id 1, but the record
    of the remainder (127 pages, left in [_spanLists[127]] of shard 1) has
    the default [_shardId] 0, not the id of the shard that split.  When
    [NewSpan(127)] later issues the remainder, [PageHeap::NewSpan] changes
    its [_shardId] from 0 to 1. *)
Theorem split_remainder_keeps_default_shard_id :
  match PageHeap.NewSpan 2 1 1 (new_world 2 4096 [8192000]) with
  | Done span w =>
      span = 64 ∧
      field_of w 64 Span._shardId = Some 1 ∧
      of_shard w 1 State._shardId = Some 1 ∧
      of_shard w 1 (λ sh, _spanLists sh !! 127%nat) = Some (Some [128]) ∧
      field_of w 128 Span._shardId = Some 0 ∧
      match PageHeap.NewSpan 1 1 127 w with
      | Done span' w' => span' = 128 ∧ field_of w' 128 Span._shardId = Some 1
      | Raise _ => False
      end
  | Raise _ => False
  end.
Proof. vm_compute. split_and!; reflexivity. Qed.

(** C3. A heap of one shard with a release threshold of 150 pages.  Two
    spans of 129 pages are issued and released: the first stays in the hot
    large map, the second is reclaimed into the cold large map.  Every hot
    small list is empty and [lower_bound(4)] on the hot large map finds
    the key 129, yet [NewSpan(4)] issues the cold span and leaves the hot
    large map as it was: for [k < NPAGES] the hot large map is not
    searched. *)
Theorem small_request_bypasses_hot_large :
  match (x ← PageHeap.NewSpan 1 0 129;
         y ← PageHeap.NewSpan 1 0 129;
         PageHeap.ReleaseSpan 1 x;;
         PageHeap.ReleaseSpan 2 y;;
         mret (x, y)) (new_world 1 150 [8192000; 81920000]) with
  | Done (x, y) w =>
      of_shard w 0 (λ sh, (concat (_spanLists sh),
                           _largeSpanLists sh !! 129, _releasedLargeSpanLists sh !! 129,
                           lower_bound (_largeSpanLists sh) 4))
        = Some ([], Some [x], Some [y], Some 129) ∧
      match PageHeap.NewSpan 1 0 4 w with
      | Done span w' =>
          span = y ∧
          of_shard w' 0 (λ sh, (_largeSpanLists sh !! 129, _releasedLargeSpanLists sh !! 129))
            = Some (Some [x], Some [])
      | Raise _ => False
      end
  | Raise _ => False
  end.
Proof. vm_compute. split_and!; reflexivity. Qed.

End PageHeapFacts.

(** ** PageCache: the fallback to the operating system *)

Module FallbackFacts.
Import State Machine Logic LogicFacts PageMapSpec PageMapFacts.

Lemma ret_run {A : Type} (a : A) w : (mret a : M A) w = Done a w.
Proof. reflexivity. Qed.

Lemma this_shard_run this w sh :
  shards w !! Z.to_nat this = Some sh → this_shard this w = Done sh w.
Proof. unfold this_shard. by intros ->. Qed.

Lemma modify_shard_run this f w sh :
  shards w !! Z.to_nat this = Some sh →
  modify_shard this f w = Done tt (with_shards (<[ Z.to_nat this := f sh ]> (shards w)) w).
Proof. unfold modify_shard. by intros ->. Qed.

Lemma rd_run {A : Type} span (field : Span.Span → A) w s :
  spans w !! span = Some s → rd span field w = Done (field s) w.
Proof. unfold rd. by intros ->. Qed.

Lemma wr_run span assign w s :
  spans w !! span = Some s →
  wr span assign w = Done tt (with_spans (<[ span := assign s ]> (spans w)) w).
Proof. unfold wr. by intros ->. Qed.

Lemma PageMap_set_run id span w pm :
  PageMap.set (pagemap w) id span = Some pm →
  PageMap_set id span w = Done tt (with_pagemap pm w).
Proof. unfold PageMap_set. by intros ->. Qed.

Lemma SystemAlloc_run kpage w ptr rest :
  os_answers w = ptr :: rest → 0 < ptr < MAP_FAILED →
  SystemAlloc kpage w = Done ptr (with_os rest (kpage :: os_requests w) w).
Proof.
  unfold SystemAlloc. intros -> Hptr.
  destruct (Z.eqb_spec ptr 0); [lia|]. destruct (Z.eqb_spec ptr MAP_FAILED); [lia|]. done.
Qed.

Lemma small_list_run this cold i w sh l :
  shards w !! Z.to_nat this = Some sh → small cold sh !! Z.to_nat i = Some l →
  small_list this cold i w = Done l w.
Proof.
  intros Hsh Hl. unfold small_list. rewrite bind_run, (this_shard_run _ _ _ Hsh).
  by rewrite Hl.
Qed.

Lemma small_PushFront_run this cold i span w sh l :
  shards w !! Z.to_nat this = Some sh → small cold sh !! Z.to_nat i = Some l →
  small_PushFront this cold i span w =
  Done tt (with_shards
             (<[ Z.to_nat this := with_small cold (<[ Z.to_nat i := span :: l ]> (small cold sh)) sh ]>
                (shards w)) w).
Proof.
  intros Hsh Hl. unfold small_PushFront, set_small_list.
  rewrite bind_run, (small_list_run _ _ _ _ _ _ Hsh Hl). cbv beta iota.
  rewrite bind_run, (small_list_run _ _ _ _ _ _ Hsh Hl). cbv beta iota.
  by rewrite (modify_shard_run _ _ _ _ Hsh).
Qed.

(** [New] of the span pool: a record with the default members appears,
    and of the shard only the pool may change. *)
Lemma SpanPool_New_run this w sh :
  shards w !! Z.to_nat this = Some sh →
  ∃ obj pool w',
    SpanPool_New this w = Done obj w' ∧
    spans w' = <[ obj := Span.init ]> (spans w) ∧
    shards w' !! Z.to_nat this = Some (with_spanPool pool sh) ∧
    pagemap w' = pagemap w ∧ os_requests w' = os_requests w ∧
    os_answers w' = os_answers w.
Proof.
  intros Hsh. unfold SpanPool_New. rewrite bind_run, (this_shard_run _ _ _ Hsh).
  cbv beta iota. destruct (_spanPool sh) as [|obj rest] eqn:Hpool.
  - exists (span_arena w), [], (with_spans (<[ span_arena w := Span.init ]> (spans w))
                                  (with_span_arena (span_arena w + sizeof_Span) w)).
    split_and!; try reflexivity.
    cbn [shards with_spans with_span_arena]. rewrite Hsh. f_equal.
    destruct sh. cbn in Hpool. by subst.
  - exists obj, rest.
    rewrite bind_run, (modify_shard_run _ _ _ _ Hsh). cbv beta iota.
    eexists. split; [reflexivity|]. split_and!; try reflexivity.
    cbn [shards with_spans with_shards]. rewrite list_lookup_insert_eq; [done|].
    by eapply lookup_lt_Some.
Qed.

Lemma first_nonempty_none this cold count i w sh :
  shards w !! Z.to_nat this = Some sh →
  (∀ j, i ≤ j < i + Z.of_nat count → small cold sh !! Z.to_nat j = Some []) →
  PageCacheShard.first_nonempty this cold count i w = Done None w.
Proof.
  intros Hsh. revert i. induction count as [|count IH]; intros i Hall; [done|].
  cbn [PageCacheShard.first_nonempty].
  rewrite bind_run, (small_list_run _ _ _ _ _ [] Hsh) by (apply Hall; lia).
  cbv beta iota. cbn [Span.Empty]. apply IH. intros j Hj. apply Hall. lia.
Qed.

Lemma lower_bound_None (m : gmap Z (list Z)) k :
  (∀ key, k ≤ key → m !! key = None) → lower_bound m k = None.
Proof.
  intros Hnone. unfold lower_bound.
  assert (Hall : Forall (λ key, key < k) (map_to_list m).*1).
  { apply Forall_forall. intros key [[key' l] [-> Hin]]%list_elem_of_fmap.
    apply elem_of_map_to_list in Hin. cbn [fst].
    destruct (Z.lt_ge_cases key' k) as [|Hge]; [done|].
    rewrite Hnone in Hin by done. done. }
  induction Hall as [|key keys Hkey _ IH]; [done|].
  cbn [foldr]. destruct (Z.leb_spec k key); [lia|]. exact IH.
Qed.

Ltac run E := rewrite bind_run, E; cbv beta iota.

Lemma NewSpan_hot_falls this k w sh :
  0 ≤ k < NPAGES →
  shards w !! Z.to_nat this = Some sh →
  (∀ i, k ≤ i < NPAGES → _spanLists sh !! Z.to_nat i = Some []) →
  PageCacheShard.NewSpan_hot this k w = Done PageCacheShard.FallsThrough w.
Proof.
  intros Hk Hsh Hhot. unfold PageCacheShard.NewSpan_hot.
  destruct (Z.ltb_spec k NPAGES); [|lia].
  run (small_list_run this false k w sh [] Hsh (Hhot k ltac:(lia))).
  cbn [Span.Empty negb].
  run (first_nonempty_none this false (Z.to_nat (NPAGES - (k + 1))) (k + 1) w sh Hsh).
  - reflexivity.
  - intros j Hj. apply Hhot. lia.
Qed.

Lemma NewSpan_cold_falls this k w sh :
  0 ≤ k < NPAGES →
  shards w !! Z.to_nat this = Some sh →
  (∀ i, k ≤ i < NPAGES → _releasedSpanLists sh !! Z.to_nat i = Some []) →
  (∀ key, k ≤ key → _releasedLargeSpanLists sh !! key = None) →
  PageCacheShard.NewSpan_cold this k w = Done PageCacheShard.FallsThrough w.
Proof.
  intros Hk Hsh Hcold Hlarge. unfold PageCacheShard.NewSpan_cold.
  destruct (Z.ltb_spec k NPAGES); [|lia].
  rewrite bind_run, bind_run.
  rewrite (small_list_run this true k w sh [] Hsh (Hcold k ltac:(lia))). cbv beta iota.
  cbn [Span.Empty negb].
  run (first_nonempty_none this true (Z.to_nat (NPAGES - (k + 1))) (k + 1) w sh Hsh).
  2:{ intros j Hj. apply Hcold. lia. }
  rewrite ret_run. cbv beta iota.
  run (this_shard_run _ _ _ Hsh).
  rewrite (lower_bound_None _ _ Hlarge). by destruct (negb _).
Qed.


(** On a fresh heap the round of [NewSpan(1)] asks the operating system
    for 128 pages, not 127, and leaves the hot small list [127] empty:
    the span goes to the list [128]. *)
Lemma fallback_requests_128_pages :
  ∃ w1,
    PageCacheShard.NewSpan_body 0 1 (new_world 1 4096 [8192000]) = Done None w1 ∧
    os_requests w1 = [128] ∧ os_requests w1 ≠ [127] ∧
    of_shard w1 0 (λ sh, (_spanLists sh !! 127%nat, _spanLists sh !! 128%nat))
      = Some (Some [], Some [64]).
Proof.
  eexists. split; [vm_compute; reflexivity|].
  vm_compute. split_and!; [reflexivity|discriminate|reflexivity].
Qed.

End FallbackFacts.

(** ** Components a computation leaves alone *)

Module FrameFacts.
Import State Machine Logic LogicFacts.

Lemma modify_shard_keeps {X : Type} (f : PageCacheShard → X) this i g :
  (∀ sh, f (g sh) = f sh) →
  preserves (λ w, of_shard w i f) (modify_shard this g).
Proof.
  intros Hkeep w [] w' Hrun. unfold modify_shard in Hrun.
  destruct (shards w !! Z.to_nat this) as [sh|] eqn:E; [|done].
  injection Hrun as <-. unfold of_shard. cbn [shards with_shards].
  destruct (decide (Z.to_nat this = Z.to_nat i)) as [Heq|Hne].
  - rewrite <- Heq, list_lookup_insert_eq by (by eapply lookup_lt_Some).
    rewrite E. simpl. by rewrite Hkeep.
  - by rewrite list_lookup_insert_ne.
Qed.

Lemma wr_keeps {A : Type} (field : Span.Span → A) span other assign :
  (∀ s, field (assign s) = field s) →
  preserves (λ w, field_of w span field) (wr other assign).
Proof.
  intros Hkeep w [] w' Hrun. unfold wr in Hrun.
  destruct (spans w !! other) as [s|] eqn:E; [|done].
  injection Hrun as <-. unfold field_of. cbn [spans with_spans].
  destruct (decide (other = span)) as [->|Hne].
  - rewrite lookup_insert_eq, E. simpl. by rewrite Hkeep.
  - by rewrite lookup_insert_ne.
Qed.

Ltac frame_prim :=
  first
    [ frame_base
    | apply modify_shard_keeps; intros ?; reflexivity
    | apply wr_keeps; intros ?; reflexivity ].

Lemma preserves_first_nonempty {X : Type} (proj : World → X) this cold count i :
  preserves proj (PageCacheShard.first_nonempty this cold count i).
Proof.
  revert i. induction count as [|count IH]; intros i; cbn [PageCacheShard.first_nonempty].
  - apply preserves_ret.
  - apply preserves_bind; [frame|]. intros l. destruct (Span.Empty l); [apply IH|apply preserves_ret].
Qed.

Lemma preserves_find_span {X : Type} (proj : World → X) bucket :
  preserves proj (CentralCache.find_span bucket).
Proof.
  induction bucket as [|it rest IH]; cbn [CentralCache.find_span].
  - apply preserves_ret.
  - apply preserves_bind; [frame|]. intros fl. destruct (negb _); [apply preserves_ret|apply IH].
Qed.

Ltac frame_all :=
  lazymatch goal with
  | |- preserves _ (_ ≫= _) => apply preserves_bind; [frame_all | intros ?; frame_all]
  | |- preserves _ (mret _) => apply preserves_ret
  | |- preserves _ (raise _) => apply preserves_raise
  | |- preserves _ (from_option _) => apply preserves_from_option
  | |- preserves _ (for_each _ _ _) => apply preserves_for_each; intros ?; frame_all
  | |- preserves _ (loop _ _) => apply preserves_loop; frame_all
  | |- preserves _ (PageCacheShard.first_nonempty _ _ _ _) => apply preserves_first_nonempty
  | |- preserves _ (CentralCache.find_span _) => apply preserves_find_span
  | |- preserves _ (CentralCache.slice _ _ _ _ _) =>
      apply CentralCacheFacts.preserves_slice; intros ? ?; frame_all
  | |- preserves _ (let _ := _ in _) => cbv zeta; frame_all
  | |- preserves _ (if ?b then _ else _) => destruct b; frame_all
  | |- preserves _ (match ?x with _ => _ end) => destruct x; frame_all
  | |- preserves _ (add_totalFreePages _ _) => unfold add_totalFreePages; frame_all
  | |- preserves _ (sub_totalFreePages _ _) => unfold sub_totalFreePages; frame_all
  | |- preserves _ (small_list _ _ _) => unfold small_list; frame_all
  | |- preserves _ (set_small_list _ _ _ _) => unfold set_small_list; frame_all
  | |- preserves _ (small_PushFront _ _ _ _) => unfold small_PushFront; frame_all
  | |- preserves _ (small_PopFront _ _ _) => unfold small_PopFront; frame_all
  | |- preserves _ (large_PushFront _ _ _ _) => unfold large_PushFront; frame_all
  | |- preserves _ (large_PopFront _ _ _) => unfold large_PopFront; frame_all
  | |- preserves _ (large_erase _ _ _) => unfold large_erase; frame_all
  | |- preserves _ (SpanPool_New _) => unfold SpanPool_New; frame_all
  | |- preserves _ (SpanPool_Delete _ _) => unfold SpanPool_Delete; frame_all
  | |- preserves _ (PageCacheShard.AllocFromHotList _ _ _) =>
      unfold PageCacheShard.AllocFromHotList; frame_all
  | |- preserves _ (PageCacheShard.AllocFromColdList _ _ _) =>
      unfold PageCacheShard.AllocFromColdList; frame_all
  | |- preserves _ (PageCacheShard.AllocFromMap _ _ _ _ _) =>
      unfold PageCacheShard.AllocFromMap; frame_all
  | |- preserves _ (PageCacheShard.NewSpan_hot _ _) =>
      unfold PageCacheShard.NewSpan_hot; frame_all
  | |- preserves _ (PageCacheShard.NewSpan_cold _ _) =>
      unfold PageCacheShard.NewSpan_cold; frame_all
  | |- preserves _ (PageCacheShard.NewSpan_system _ _) =>
      unfold PageCacheShard.NewSpan_system; frame_all
  | |- preserves _ (PageCacheShard.NewSpan_body _ _) =>
      unfold PageCacheShard.NewSpan_body; frame_all
  | |- preserves _ (PageCacheShard.NewSpan _ _ _) =>
      unfold PageCacheShard.NewSpan; frame_all
  | |- preserves _ (PageHeap.NewSpan _ _ _) => unfold PageHeap.NewSpan; frame_all
  | |- preserves _ (CentralCache.GetOneSpan _ _ _ _ _) =>
      unfold CentralCache.GetOneSpan; frame_all
  | |- _ => frame_prim
  end.

(** [carry H Hrun]: the fact [H : proj w = v] about the state before the
    step [Hrun : m w = Done a w'] becomes a fact about the state after. *)
Ltac carry H Hrun :=
  lazymatch type of Hrun with
  | ?m ?w = Done _ ?w' =>
      lazymatch type of H with
      | ?lhs = ?v =>
          let f := eval pattern w in lhs in
          lazymatch f with
          | ?proj _ =>
              let Hp := fresh in
              assert (Hp : preserves proj m) by frame_all;
              apply (eq_trans (Hp _ _ _ Hrun)) in H;
              clear Hp
          end
      end
  end.

End FrameFacts.

(** ** ThreadCache: the slow start *)

Module SlowStartFacts.
Import State Machine Logic LogicFacts FrameFacts SlowStart SizeUtilsFacts.

Lemma GetOneSpan_keeps_log fuel t idx bucket size :
  preserves fetch_requests (CentralCache.GetOneSpan fuel t idx bucket size).
Proof. frame_all. Qed.


Lemma FetchRangeObj_logs fuel t idx n size w r w' :
  CentralCache.FetchRangeObj fuel t idx n size w = Done r w' →
  fetch_requests w' = (n, size) :: fetch_requests w.
Proof.
  unfold CentralCache.FetchRangeObj.
  intros ([] & w1 & Hlog & Hrest)%bind_Done.
  injection Hlog as <-.
  assert (Hp : preserves fetch_requests
    (span ← CentralCache.GetOneSpan fuel t idx (SizeUtils.Index t size) size;
     if span =? 0 then raise Undefined
     else
       start ← rd span Span._freeList;
       if start =? 0 then raise Undefined
       else
         w ← get_world;
         let r := CentralCache.collect (memory w) (Z.to_nat n) n start 1 in
         wr span (Span.set_freeList (NextObj (memory w) r.1));;
         CentralCache.set_NextObj r.1 0;;
         uc ← rd span Span._useCount;
         wr span (Span.set_useCount (wrap64 (uc + r.2)));;
         mret (start, r.1, r.2))).
  { apply preserves_bind; [apply GetOneSpan_keeps_log|]. intros span. frame_all. }
  by rewrite (Hp _ _ _ Hrest).
Qed.

Lemma NumMoveSize_bounds t index : 2 ≤ SizeUtils.NumMoveSize t index ≤ 32768.
Proof. unfold SizeUtils.NumMoveSize. repeat case_match; lia. Qed.

(** One more doubling of a threshold that has doubled [m] times. *)
Lemma batchNum_doubles l cap (m : nat) :
  2 ≤ cap ≤ 32768 →
  FreeList._maxNum l = cap →
  FreeList._maxSize l = Z.min (2 ^ Z.of_nat m) cap →
  ThreadCache.batchNum l = Z.min (2 ^ (Z.of_nat m + 1)) cap.
Proof.
  intros Hcap Hnum Hsize. unfold ThreadCache.batchNum, FreeList.MaxSize, FreeList.MaxNum.
  rewrite Hnum, Hsize, Z.shiftl_mul_pow2 by lia.
  assert (0 < 2 ^ Z.of_nat m) by (apply Z.pow_pos_nonneg; lia).
  rewrite wrap64_small by lia.
  rewrite Z.pow_add_r by lia. lia.
Qed.

Lemma doubling_batches_S cap size m :
  doubling_batches cap size (S m) =
  doubling_batches cap size m ++ [(Z.min (2 ^ (Z.of_nat m + 1)) cap, size)].
Proof. unfold doubling_batches. by rewrite seq_S, fmap_app. Qed.

Lemma FetchFromCentralCache_refills fuel t idx cache index size w r w' cap m :
  2 ≤ cap ≤ 32768 →
  refilled cap index m cache →
  fetched w = doubling_batches cap size m →
  ThreadCache.FetchFromCentralCache fuel t idx cache index size w = Done r w' →
  refilled cap index (S m) r.2 ∧ fetched w' = doubling_batches cap size (S m).
Proof.
  intros Hcap (l & Hl & Hnum & Hsize) Hlog. unfold ThreadCache.FetchFromCentralCache.
  rewrite Hl. intros (l0 & w0 & [= <- <-] & Hrun)%bind_Done.
  apply bind_Done in Hrun as ([[start end_] fetchNum] & w1 & Hfetch & Hrun).
  apply FetchRangeObj_logs in Hfetch.
  rewrite (batchNum_doubles l cap m) in Hfetch by done.
  assert (Hlt : (Z.to_nat index < length cache)%nat) by (by eapply lookup_lt_Some).
  assert (Hlog1 : fetched w1 = doubling_batches cap size (S m)).
  { unfold fetched in *. by rewrite Hfetch, reverse_cons, Hlog, doubling_batches_S. }
  destruct (fetchNum <? 1); [done|]. destruct (1 <? fetchNum).
  - apply bind_Done in Hrun as (w2 & w3 & [= <- <-] & Hrun).
    apply bind_Done in Hrun as ([l' mem] & w4 & Hpush & Hrun).
    apply bind_Done in Hrun as ([] & w5 & [= <-] & [= <- <-]).
    split; [|exact Hlog1].
    unfold FreeList.PushRange in Hpush. destruct (_ || _); [done|].
    injection Hpush as <- <- <-.
    eexists. cbn [snd fst]. rewrite list_lookup_insert_eq by done. split; [done|].
    cbn [FreeList._maxNum FreeList._maxSize FreeList.SetMaxSize].
    split; [done|]. rewrite (batchNum_doubles l cap m) by done. f_equal. lia.
  - injection Hrun as <- <-. split; [|exact Hlog1].
    eexists. cbn [snd]. rewrite list_lookup_insert_eq by done. split; [done|].
    cbn [FreeList._maxNum FreeList._maxSize FreeList.SetMaxSize].
    split; [done|]. rewrite (batchNum_doubles l cap m) by done. f_equal. lia.
Qed.

Lemma Allocate_refills fuel t idx cache size w r w' cap m :
  2 ≤ cap ≤ 32768 →
  refilled cap (SizeUtils.Index t size) m cache →
  fetched w = doubling_batches cap size m →
  ThreadCache.Allocate fuel t idx cache size w = Done r w' →
  ∃ m', (m ≤ m')%nat ∧
        (∀ l, cache !! Z.to_nat (SizeUtils.Index t size) = Some l →
              FreeList.Empty l = true → (m < m')%nat) ∧
        refilled cap (SizeUtils.Index t size) m' r.2 ∧
        fetched w' = doubling_batches cap size m'.
Proof.
  intros Hcap Hre Hlog. unfold ThreadCache.Allocate.
  destruct Hre as (l & Hl & Hnum & Hsize). rewrite Hl.
  intros (l0 & w0 & [= <- <-] & Hrun)%bind_Done.
  assert (Hlt : (Z.to_nat (SizeUtils.Index t size) < length cache)%nat)
    by (by eapply lookup_lt_Some).
  destruct (FreeList.Empty l) eqn:Hempty; cbn [negb] in Hrun.
  - destruct (FetchFromCentralCache_refills fuel t idx cache (SizeUtils.Index t size)
                size w r w' cap m) as [Hre' Hlog']; [done|by exists l|done..|].
    exists (S m). split_and!; [lia|intros; lia|done..].
  - apply bind_Done in Hrun as (w1 & w2 & [= <- <-] & Hrun).
    apply bind_Done in Hrun as ([p l'] & w3 & Hpop & [= <- <-]).
    unfold FreeList.Pop in Hpop. destruct (_ =? 0); [done|]. injection Hpop as <- <- <-.
    exists m. split_and!; [lia| |eexists|done].
    + intros l1 Hl1. congruence.
    + cbn [snd]. rewrite list_lookup_insert_eq by done. by split.
Qed.

Lemma allocations_refill fuel t idx count cache size w cache' w' cap m :
  2 ≤ cap ≤ 32768 →
  refilled cap (SizeUtils.Index t size) m cache →
  fetched w = doubling_batches cap size m →
  allocations fuel t idx count cache size w = Done cache' w' →
  ∃ m', (m ≤ m')%nat ∧
        (∀ l, (0 < count)%nat → cache !! Z.to_nat (SizeUtils.Index t size) = Some l →
              FreeList.Empty l = true → (m < m')%nat) ∧
        fetched w' = doubling_batches cap size m'.
Proof.
  intros Hcap. revert cache w m.
  induction count as [|count IH]; intros cache w m Hre Hlog Hrun.
  - injection Hrun as <- <-. exists m. split_and!; [lia|intros; lia|done].
  - cbn [allocations] in Hrun. apply bind_Done in Hrun as (r & w1 & Hone & Hrun).
    destruct (Allocate_refills fuel t idx cache size w r w1 cap m)
      as (m1 & Hle1 & Hlt1 & Hre1 & Hlog1); [done..|].
    destruct (IH r.2 w1 m1 Hre1 Hlog1 Hrun) as (m2 & Hle2 & _ & Hlog2).
    exists m2. split_and!; [lia| |done].
    intros l _ Hl Hempty. specialize (Hlt1 l Hl Hempty). lia.
Qed.

(** The constructor leaves each list empty, its threshold at 1. *)
Lemma ThreadCache_lookup t index :
  0 ≤ index < MAX_NFREELISTS →
  ThreadCache.ThreadCache t !! Z.to_nat index
  = Some (FreeList.SetMaxNum (FreeList.fresh 0) (SizeUtils.NumMoveSize t index)).
Proof.
  intros Hi. unfold ThreadCache.ThreadCache.
  rewrite list_lookup_fmap, lookup_seq_lt by lia. cbn [fmap option_fmap option_map].
  by rewrite Nat.add_0_l, Z2Nat.id by lia.
Qed.

Lemma NumMoveSize_tables_1 : SizeUtils.NumMoveSize SizeUtils.tables 1 = 16384.
Proof.
  unfold SizeUtils.NumMoveSize.
  rewrite Size_tables by (unfold MAX_NFREELISTS; lia). reflexivity.
Qed.

Lemma NumMoveSize_tables_16 :
  SizeUtils.NumMoveSize SizeUtils.tables (SizeUtils.Index SizeUtils.tables 16) = 16384.
Proof. rewrite Index_tables_16. apply NumMoveSize_tables_1. Qed.

(** C5, amended.  A thread with a freshly constructed cache that
    allocates objects of 16 bytes, at least one: the batches it has asked
    of the central cache when it is done are, in order, 2, 4, 8, ...,
    each the double of the one before, up to the bound
    [NumMoveSize(Index(16)) = 16384] at which they stay; and there is at
    least one of them. *)
Theorem slow_start_doubles_from_2 fuel idx count w cache' w' :
  fetch_requests w = [] →
  allocations fuel SizeUtils.tables idx (S count)
    (ThreadCache.ThreadCache SizeUtils.tables) 16 w = Done cache' w' →
  SizeUtils.NumMoveSize SizeUtils.tables (SizeUtils.Index SizeUtils.tables 16) = 16384 ∧
  ∃ refills, (0 < refills)%nat ∧ fetched w' = doubling_batches 16384 16 refills.
Proof.
  intros Hlog Hrun. split; [exact NumMoveSize_tables_16|].
  pose proof (ThreadCache_lookup SizeUtils.tables (SizeUtils.Index SizeUtils.tables 16)) as Hl.
  rewrite NumMoveSize_tables_16 in Hl. rewrite Index_tables_16 in Hl at 1 2.
  specialize (Hl ltac:(unfold MAX_NFREELISTS; lia)).
  destruct (allocations_refill fuel SizeUtils.tables idx (S count)
              (ThreadCache.ThreadCache SizeUtils.tables) 16 w cache' w' 16384 0)
    as (m & _ & Hlt & Hlog'); [lia| |by unfold fetched; rewrite Hlog|done|].
  { eexists. split; [exact Hl|]. split; reflexivity. }
  exists m. split; [|done]. eapply Hlt; [lia|exact Hl|reflexivity].
Qed.

Lemma ThreadCache_unfold t :
  ThreadCache.ThreadCache t =
  FreeList.SetMaxNum (FreeList.fresh 0) (SizeUtils.NumMoveSize t 0)
  :: FreeList.SetMaxNum (FreeList.fresh 0) (SizeUtils.NumMoveSize t 1)
  :: ((λ i : nat, FreeList.SetMaxNum (FreeList.fresh 0) (SizeUtils.NumMoveSize t (Z.of_nat i)))
        <$> seq 2 262).
Proof. reflexivity. Qed.

(** Before a run from a fresh cache is evaluated, the tables are read
    where the run reads them: the class of 16 bytes and its bound. *)
Ltac read_tables :=
  cbn [allocations];
  unfold ThreadCache.Allocate, ThreadCache.FetchFromCentralCache,
    CentralCache.FetchRangeObj, CentralCache.GetOneSpan;
  rewrite !Index_tables_16, !RoundUp_tables_16, ThreadCache_unfold;
  rewrite NumMoveSize_tables_1;
  generalize (SizeUtils.NumMoveSize SizeUtils.tables 0);
  generalize ((λ i : nat, FreeList.SetMaxNum (FreeList.fresh 0)
                 (SizeUtils.NumMoveSize SizeUtils.tables (Z.of_nat i))) <$> seq 2 262);
  intros ? ?.

Lemma slow_start_doubles_from_2_witness :
  match allocations 600 SizeUtils.tables 0 7 (ThreadCache.ThreadCache SizeUtils.tables) 16
          (new_world 1 4096 [8192000]) with
  | Done cache' w' =>
      SizeUtils.NumMoveSize SizeUtils.tables (SizeUtils.Index SizeUtils.tables 16) = 16384 ∧
      ∃ refills, (0 < refills)%nat ∧ fetched w' = doubling_batches 16384 16 refills
  | Raise _ => False
  end.
Proof.
  destruct (allocations 600 SizeUtils.tables 0 7 (ThreadCache.ThreadCache SizeUtils.tables) 16
              (new_world 1 4096 [8192000])) as [cache' w'|e] eqn:E.
  - apply (slow_start_doubles_from_2 600 0 6 (new_world 1 4096 [8192000]) cache' w');
      [reflexivity|exact E].
  - revert E. read_tables. vm_compute. apply Done_not_Raise.
Defined.

(** Seven allocations of 16 bytes on a fresh heap fetch three batches:
    of 2, 4 and 8 objects, not of 1, 2 and 4. *)
Lemma first_batches_are_2_4_8 :
  match allocations 600 SizeUtils.tables 0 7 (ThreadCache.ThreadCache SizeUtils.tables) 16
          (new_world 1 4096 [8192000]) with
  | Done _ w' =>
      fetched w' = [(2, 16); (4, 16); (8, 16)] ∧ fetched w' ≠ [(1, 16); (2, 16); (4, 16)]
  | Raise _ => False
  end.
Proof. read_tables. vm_compute. split; [reflexivity|discriminate]. Qed.

End SlowStartFacts.

(** ** ConcurrentAlloc: the request for no bytes *)

Module FacadeFacts.
Import State Machine Logic LogicFacts SizeUtilsFacts SlowStartFacts.

Lemma RoundUp_tables_0 : SizeUtils.RoundUp SizeUtils.tables 0 = 8.
Proof.
  unfold SizeUtils.RoundUp. change (MAX_BYTES <? 0) with false. cbv iota.
  rewrite Index_tables_0. rewrite Size_tables by (unfold MAX_NFREELISTS; lia).
  reflexivity.
Qed.

Lemma NumMoveSize_tables_0 : SizeUtils.NumMoveSize SizeUtils.tables 0 = 32768.
Proof.
  unfold SizeUtils.NumMoveSize.
  rewrite Size_tables by (unfold MAX_NFREELISTS; lia). reflexivity.
Qed.

(** [FetchRangeObj] asserts that the span it takes objects from has one. *)
Lemma FetchRangeObj_start fuel t idx n size w start end_ actualNum w' :
  CentralCache.FetchRangeObj fuel t idx n size w = Done (start, end_, actualNum) w' →
  start ≠ 0.
Proof.
  unfold CentralCache.FetchRangeObj.
  intros ([] & w1 & _ & Hrun)%bind_Done.
  apply bind_Done in Hrun as (span & w2 & _ & Hrun).
  destruct (span =? 0); [done|].
  apply bind_Done in Hrun as (start' & w3 & _ & Hrun).
  destruct (Z.eqb_spec start' 0); [done|].
  apply bind_Done in Hrun as (w4 & w5 & _ & Hrun).
  apply bind_Done in Hrun as ([] & w6 & _ & Hrun).
  apply bind_Done in Hrun as ([] & w7 & _ & Hrun).
  apply bind_Done in Hrun as (uc & w8 & _ & Hrun).
  apply bind_Done in Hrun as ([] & w9 & _ & Hrun).
  injection Hrun as <- _ _ _. done.
Qed.

Lemma FetchFromCentralCache_block fuel t idx cache index size w p cache' w' :
  ThreadCache.FetchFromCentralCache fuel t idx cache index size w = Done (p, cache') w' →
  p ≠ 0.
Proof.
  unfold ThreadCache.FetchFromCentralCache.
  intros (l & w1 & _ & Hrun)%bind_Done.
  apply bind_Done in Hrun as ([[start end_] fetchNum] & w2 & Hfetch & Hrun).
  apply FetchRangeObj_start in Hfetch.
  destruct (fetchNum <? 1); [done|]. destruct (1 <? fetchNum).
  - apply bind_Done in Hrun as (w3 & w4 & _ & Hrun).
    apply bind_Done in Hrun as (pushed & w5 & _ & Hrun).
    apply bind_Done in Hrun as ([] & w6 & _ & Hrun).
    by injection Hrun as <- _ _.
  - by injection Hrun as <- _ _.
Qed.

Lemma Allocate_block fuel t idx cache size w p cache' w' :
  ThreadCache.Allocate fuel t idx cache size w = Done (p, cache') w' → p ≠ 0.
Proof.
  unfold ThreadCache.Allocate.
  intros (l & w1 & _ & Hrun)%bind_Done.
  destruct (negb (FreeList.Empty l)).
  - apply bind_Done in Hrun as (w2 & w3 & _ & Hrun).
    apply bind_Done in Hrun as ([p' l'] & w4 & Hpop & Hrun).
    injection Hrun as <- _ _.
    destruct (FreeList.Pop l (memory w2)) as [[p'' l'']|] eqn:E; [|done].
    injection Hpop as -> _ _. unfold FreeList.Pop in E.
    destruct (Z.eqb_spec (FreeList._head l) 0); [done|]. by injection E as <- _.
  - by eapply FetchFromCentralCache_block.
Qed.

Ltac read_tables_0 :=
  unfold ConcurrentAlloc.malloc, ThreadCache.Allocate, ThreadCache.FetchFromCentralCache,
    CentralCache.FetchRangeObj, CentralCache.GetOneSpan;
  rewrite !Index_tables_0, !RoundUp_tables_0, ThreadCache_unfold;
  rewrite NumMoveSize_tables_0;
  generalize (SizeUtils.NumMoveSize SizeUtils.tables 1);
  generalize ((λ i : nat, FreeList.SetMaxNum (FreeList.fresh 0)
                 (SizeUtils.NumMoveSize SizeUtils.tables (Z.of_nat i))) <$> seq 2 262);
  intros ? ?.

(** On a fresh heap [malloc(0)] returns the first block of the span it
    takes from the operating system. *)
Lemma malloc_0_is_not_null :
  match ConcurrentAlloc.malloc 1100 SizeUtils.tables 0 None 0 (new_world 1 4096 [8192000]) with
  | Done (p, _) _ => p = 8192000 ∧ p ≠ 0
  | Raise _ => False
  end.
Proof. read_tables_0. vm_compute. split; [reflexivity|discriminate]. Qed.

End FacadeFacts.

(** ** The page heap: spans are linked or held *)

Module OkFacts.
Import State Machine Logic HeapSpec.

Lemma NoDup_submseteq_mono (l k : list Z) : l ⊆+ k → NoDup k → NoDup l.
Proof.
  intros [k' Hk]%submseteq_Permutation. rewrite Hk.
  by intros [? _]%NoDup_app.
Qed.

Section Ok.
Context {S : gmap Z Span.Span} {L P : list Z} {A : Z}.
Hypothesis Hok : ok S L P A.

Lemma ok_perm L' P' : L ≡ₚ L' → P ≡ₚ P' → ok S L' P' A.
Proof.
  intros HL HP. destruct Hok. split; try done.
  - intros x Hx. apply ok_listed0. by rewrite HL.
  - by rewrite <- HL.
  - intros x Hx. apply ok_pool0. by rewrite HP.
  - by rewrite <- HP.
Qed.

Lemma ok_sub L' : L' ⊆+ L → ok S L' P A.
Proof.
  intros HL. destruct Hok. split; try done.
  - intros x Hx. apply ok_listed0. by eapply elem_of_submseteq.
  - by eapply NoDup_submseteq_mono.
Qed.

(** A write that keeps both flags. *)
Lemma ok_write_flags x s assign :
  S !! x = Some s →
  Span._isUse (assign s) = Span._isUse s → Span._isCold (assign s) = Span._isCold s →
  ok (<[ x := assign s ]> S) L P A.
Proof.
  intros Hx Huse Hcold. destruct Hok. split; try done.
  - intros y sy. destruct (decide (y = x)) as [->|Hne].
    + rewrite lookup_insert_eq. intros [= <-]. unfold cold_idle.
      rewrite Huse, Hcold. by apply (ok_cold0 x).
    + rewrite lookup_insert_ne by done. apply ok_cold0.
  - intros y Hy. destruct (decide (y = x)) as [->|Hne].
    + rewrite lookup_insert_eq. destruct (ok_listed0 x Hy) as (s' & Hs' & Hu).
      exists (assign s). split; [done|]. rewrite Huse. congruence.
    + rewrite lookup_insert_ne by done. by apply ok_listed0.
  - intros y Hy. destruct (ok_pool0 y Hy) as [Hnone ?]. split; [|done].
    rewrite lookup_insert_ne; [done|]. intros ->. congruence.
  - intros y sy. destruct (decide (y = x)) as [->|Hne].
    + intros _. by eapply ok_live0.
    + rewrite lookup_insert_ne by done. apply ok_live0.
Qed.

(** A write to a record that ends idle, or hot and held. *)
Lemma ok_write x s s' :
  S !! x = Some s →
  cold_idle s' → (x ∈ L → Span._isUse s' = false) →
  ok (<[ x := s' ]> S) L P A.
Proof.
  intros Hx Hci Hl. destruct Hok. split; try done.
  - intros y sy. destruct (decide (y = x)) as [->|Hne].
    + rewrite lookup_insert_eq. by intros [= <-].
    + rewrite lookup_insert_ne by done. apply ok_cold0.
  - intros y Hy. destruct (decide (y = x)) as [->|Hne].
    + rewrite lookup_insert_eq. exists s'. split; [done|]. by apply Hl.
    + rewrite lookup_insert_ne by done. by apply ok_listed0.
  - intros y Hy. destruct (ok_pool0 y Hy) as [Hnone ?]. split; [|done].
    rewrite lookup_insert_ne; [done|]. intros ->. congruence.
  - intros y sy. destruct (decide (y = x)) as [->|Hne].
    + intros _. by eapply ok_live0.
    + rewrite lookup_insert_ne by done. apply ok_live0.
Qed.

Lemma ok_push x s :
  x ∉ L → S !! x = Some s → Span._isUse s = false → ok S (x :: L) P A.
Proof.
  intros Hx Hs Hu. destruct Hok. split; try done.
  - intros y [->|Hy]%elem_of_cons; [by exists s|by apply ok_listed0].
  - by apply NoDup_cons.
Qed.

Lemma ok_delete x s :
  x ∉ L → S !! x = Some s → ok (delete x S) L (x :: P) A.
Proof.
  intros Hx Hs. destruct Hok. split; try done.
  - intros y sy [_ Hy]%lookup_delete_Some. by eapply ok_cold0.
  - intros y Hy. destruct (ok_listed0 y Hy) as (sy & Hsy & Hu). exists sy. split; [|done].
    rewrite lookup_delete_ne; [done|]. by intros ->.
  - intros y [->|Hy]%elem_of_cons.
    + rewrite lookup_delete_eq. split; [done|]. by eapply ok_live0.
    + destruct (ok_pool0 y Hy) as [Hnone ?]. split; [|done].
      by rewrite lookup_delete_None; right.
  - apply NoDup_cons. split; [|done]. intros Hin.
    destruct (ok_pool0 x Hin) as [Hnone _]. congruence.
  - intros y sy [_ Hy]%lookup_delete_Some. by eapply ok_live0.
Qed.

(** A fresh record at the arena cursor. *)
Lemma ok_new_arena size :
  0 < size → ok (<[ A := Span.init ]> S) L P (A + size) ∧ A ∉ L.
Proof.
  intros Hsize. destruct Hok.
  assert (Hfresh : S !! A = None).
  { destruct (S !! A) as [s|] eqn:E; [|done]. apply ok_live0 in E. lia. }
  split; [split|].
  - intros y sy. destruct (decide (y = A)) as [->|Hne].
    + rewrite lookup_insert_eq. intros [= <-]. by intros ?.
    + rewrite lookup_insert_ne by done. apply ok_cold0.
  - intros y Hy. destruct (ok_listed0 y Hy) as (sy & Hsy & Hu). exists sy. split; [|done].
    rewrite lookup_insert_ne; [done|]. intros ->. congruence.
  - done.
  - intros y Hy. destruct (ok_pool0 y Hy) as [Hnone ?]. split; [|lia].
    rewrite lookup_insert_ne; [done|]. lia.
  - done.
  - intros y sy. destruct (decide (y = A)) as [->|Hne].
    + intros _. lia.
    + rewrite lookup_insert_ne by done. intros Hy. apply ok_live0 in Hy. lia.
  - lia.
  - intros Hin. destruct (ok_listed0 A Hin) as (s & Hs & _). congruence.
Qed.

End Ok.

(** A linked span leaves its list. *)
Lemma ok_pop {S L P A} x :
  ok S (x :: L) P A →
  ok S L P A ∧ (x ∉ L) ∧ (∃ s, S !! x = Some s ∧ Span._isUse s = false).
Proof.
  intros Hok. split; [|split].
  - apply (ok_sub Hok). by apply submseteq_cons.
  - destruct Hok. by apply NoDup_cons in ok_nodup0 as [? _].
  - destruct Hok. apply ok_listed0. by left.
Qed.

(** A pooled record comes back to life. *)
Lemma ok_new_pool {S L P A} x :
  ok S L (x :: P) A → ok (<[ x := Span.init ]> S) L P A ∧ x ∉ L.
Proof.
  intros Hok. destruct Hok.
  destruct (ok_pool0 x) as [Hfresh Hx]; [by left|].
  apply NoDup_cons in ok_pool_nodup0 as [HxP HP].
  split; [split|]; try done.
  - intros y sy. destruct (decide (y = x)) as [->|Hne].
    + rewrite lookup_insert_eq. intros [= <-]. by intros ?.
    + rewrite lookup_insert_ne by done. apply ok_cold0.
  - intros y Hy. destruct (ok_listed0 y Hy) as (sy & Hsy & Hu). exists sy. split; [|done].
    rewrite lookup_insert_ne; [done|]. intros ->. congruence.
  - intros y Hy. destruct (ok_pool0 y) as [Hnone ?]; [by right|]. split; [|done].
    rewrite lookup_insert_ne; [done|]. by intros ->.
  - intros y sy. destruct (decide (y = x)) as [->|Hne].
    + done.
    + rewrite lookup_insert_ne by done. apply ok_live0.
  - intros Hin. destruct (ok_listed0 x Hin) as (s & Hs & _). congruence.
Qed.

End OkFacts.

(** ** The page heap: the spans linked in its lists *)

Module ListedFacts.
Import State Machine Logic LogicFacts FrameFacts HeapSpec OkFacts.

(** *** Lists of lists, one of them replaced *)

Lemma concat_insert {B : Type} (ls : list (list B)) i l l' :
  ls !! i = Some l →
  ∃ rest, concat ls ≡ₚ l ++ rest ∧ concat (<[ i := l' ]> ls) ≡ₚ l' ++ rest.
Proof.
  intros Hi. exists (concat (take i ls) ++ concat (drop (S i) ls)).
  pose proof (lookup_lt_Some _ _ _ Hi) as Hlt. split.
  - rewrite <- (take_drop_middle ls i l Hi) at 1.
    rewrite concat_app, concat_cons. by rewrite Permutation_app_swap_app.
  - rewrite insert_take_drop by done.
    rewrite concat_app, concat_cons. by rewrite Permutation_app_swap_app.
Qed.

Lemma concat_insert_cons {B : Type} (ls : list (list B)) i l x :
  ls !! i = Some l → concat (<[ i := x :: l ]> ls) ≡ₚ x :: concat ls.
Proof.
  intros Hi. destruct (concat_insert ls i l (x :: l) Hi) as (rest & -> & ->). done.
Qed.

Lemma concat_insert_sub {B : Type} (ls : list (list B)) i l l' :
  ls !! i = Some l → l' ⊆+ l → concat (<[ i := l' ]> ls) ⊆+ concat ls.
Proof.
  intros Hi Hsub. destruct (concat_insert ls i l l' Hi) as (rest & -> & ->).
  by apply submseteq_skips_r.
Qed.

(** *** The spans of a large span map *)

Lemma values_lookup m key l :
  m !! key = Some l → values m ≡ₚ l ++ values (delete key m).
Proof.
  intros Hl. unfold values.
  rewrite <- (map_to_list_delete m key l Hl). by rewrite fmap_cons, concat_cons.
Qed.

Lemma values_insert m key l :
  values (<[ key := l ]> m) ≡ₚ l ++ values (delete key m).
Proof.
  unfold values. rewrite <- insert_delete_eq.
  rewrite map_to_list_insert by apply lookup_delete_eq.
  by rewrite fmap_cons, concat_cons.
Qed.

Lemma values_delete m key : values (delete key m) ⊆+ values m.
Proof.
  destruct (m !! key) as [l|] eqn:E.
  - rewrite (values_lookup m key l E). apply submseteq_inserts_l. done.
  - by rewrite delete_id.
Qed.

Lemma values_push m key x :
  values (<[ key := x :: map_at m key ]> m) ≡ₚ x :: values m.
Proof.
  rewrite values_insert. unfold map_at. destruct (m !! key) as [l|] eqn:E; simpl.
  - by rewrite (values_lookup m key l E).
  - by rewrite delete_id.
Qed.

Lemma values_replace_sub m key l l' :
  m !! key = Some l → l' ⊆+ l → values (<[ key := l' ]> m) ⊆+ values m.
Proof.
  intros Hl Hsub. rewrite values_insert, (values_lookup m key l Hl).
  by apply submseteq_skips_r.
Qed.

Lemma values_pop m key x l :
  m !! key = Some (x :: l) → values m ≡ₚ x :: values (<[ key := l ]> m).
Proof.
  intros Hl. by rewrite values_insert, (values_lookup m key _ Hl).
Qed.

Lemma values_filter (P : Z → Prop) `{!∀ x, Decision (P x)} m :
  values (filter P <$> m) ≡ₚ filter P (values m).
Proof.
  unfold values. rewrite map_to_list_fmap.
  induction (map_to_list m) as [|[key l] kvs IH]; [done|].
  rewrite !fmap_cons. cbn [snd prod_map]. rewrite !concat_cons, filter_app. by rewrite IH.
Qed.

Lemma filter_concat (P : Z → Prop) `{!∀ x, Decision (P x)} (ls : list (list Z)) :
  concat (filter P <$> ls) = filter P (concat ls).
Proof.
  induction ls as [|l ls IH]; [done|].
  by rewrite fmap_cons, !concat_cons, filter_app, IH.
Qed.

Lemma shard_listed_eq sh :
  shard_listed sh =
  concat (_spanLists sh) ++ values (_largeSpanLists sh)
  ++ concat (_releasedSpanLists sh) ++ values (_releasedLargeSpanLists sh).
Proof. reflexivity. Qed.

(** *** One shard *)

Lemma middle2 (x : Z) A B C : A ++ B ++ x :: C ≡ₚ x :: A ++ B ++ C.
Proof. by rewrite <- !Permutation_middle. Qed.

Lemma middle1 (x : Z) A C : A ++ x :: C ≡ₚ x :: A ++ C.
Proof. by rewrite <- !Permutation_middle. Qed.

Lemma middle3 (x : Z) A B C D : A ++ B ++ C ++ x :: D ≡ₚ x :: A ++ B ++ C ++ D.
Proof. by rewrite <- !Permutation_middle. Qed.

Lemma shard_listed_small_push cold sh i l x :
  small cold sh !! i = Some l →
  shard_listed (with_small cold (<[ i := x :: l ]> (small cold sh)) sh) ≡ₚ x :: shard_listed sh.
Proof.
  intros Hl. rewrite !shard_listed_eq. destruct cold; cbn [small with_small _spanLists
    _largeSpanLists _releasedSpanLists _releasedLargeSpanLists] in *.
  - rewrite (concat_insert_cons _ _ _ _ Hl). apply middle2.
  - by rewrite (concat_insert_cons _ _ _ _ Hl).
Qed.

Lemma shard_listed_small_sub cold sh i l l' :
  small cold sh !! i = Some l → l' ⊆+ l →
  shard_listed (with_small cold (<[ i := l' ]> (small cold sh)) sh) ⊆+ shard_listed sh.
Proof.
  intros Hl Hsub. rewrite !shard_listed_eq. destruct cold; cbn [small with_small _spanLists
    _largeSpanLists _releasedSpanLists _releasedLargeSpanLists] in *.
  - do 2 apply submseteq_skips_l. apply submseteq_skips_r. by eapply concat_insert_sub.
  - apply submseteq_skips_r. by eapply concat_insert_sub.
Qed.

Lemma shard_listed_small_pop cold sh i l x :
  small cold sh !! i = Some (x :: l) →
  shard_listed sh ≡ₚ x :: shard_listed (with_small cold (<[ i := l ]> (small cold sh)) sh).
Proof.
  intros Hl. rewrite !shard_listed_eq. destruct cold; cbn [small with_small _spanLists
    _largeSpanLists _releasedSpanLists _releasedLargeSpanLists] in *.
  - destruct (concat_insert _ _ _ l Hl) as (rest & -> & ->). apply middle2.
  - destruct (concat_insert _ _ _ l Hl) as (rest & -> & ->). done.
Qed.

Lemma shard_listed_large_push cold sh key x :
  shard_listed (with_large cold (<[ key := x :: map_at (large cold sh) key ]> (large cold sh)) sh)
  ≡ₚ x :: shard_listed sh.
Proof.
  rewrite !shard_listed_eq. destruct cold; cbn [large with_large _spanLists
    _largeSpanLists _releasedSpanLists _releasedLargeSpanLists] in *.
  - rewrite values_push. apply middle3.
  - rewrite values_push. apply middle1.
Qed.

Lemma shard_listed_large_pop cold sh key l x :
  large cold sh !! key = Some (x :: l) →
  shard_listed sh ≡ₚ x :: shard_listed (with_large cold (<[ key := l ]> (large cold sh)) sh).
Proof.
  intros Hl. rewrite !shard_listed_eq. destruct cold; cbn [large with_large _spanLists
    _largeSpanLists _releasedSpanLists _releasedLargeSpanLists] in *.
  - rewrite (values_pop _ _ _ _ Hl) at 1. apply middle3.
  - rewrite (values_pop _ _ _ _ Hl) at 1. apply middle1.
Qed.

Lemma shard_listed_large_sub cold sh m' :
  values m' ⊆+ values (large cold sh) →
  shard_listed (with_large cold m' sh) ⊆+ shard_listed sh.
Proof.
  intros Hsub. rewrite !shard_listed_eq. destruct cold; cbn [large with_large _spanLists
    _largeSpanLists _releasedSpanLists _releasedLargeSpanLists] in *.
  - do 3 apply submseteq_skips_l. done.
  - apply submseteq_skips_l. by apply submseteq_skips_r.
Qed.

Lemma shard_listed_erase x sh :
  shard_listed (shard_erase x sh) ≡ₚ filter (λ y, y ≠ x) (shard_listed sh).
Proof.
  rewrite !shard_listed_eq. unfold shard_erase, Span.Erase.
  cbn [_spanLists _largeSpanLists _releasedSpanLists _releasedLargeSpanLists].
  rewrite !filter_app, !filter_concat, !values_filter. done.
Qed.


(** *** The shards of a state *)

Lemma fmap_insert_same {B C : Type} (g : B → C) (l : list B) i x y :
  l !! i = Some x → g y = g x → g <$> <[ i := y ]> l = g <$> l.
Proof.
  intros Hi Hg. rewrite list_fmap_insert, Hg. apply list_insert_id.
  by rewrite list_lookup_fmap, Hi.
Qed.

Lemma listed_insert w i sh sh' :
  shards w !! i = Some sh →
  ∃ rest, listed w ≡ₚ shard_listed sh ++ rest ∧
          listed (with_shards (<[ i := sh' ]> (shards w)) w) ≡ₚ shard_listed sh' ++ rest.
Proof.
  intros Hi. unfold listed. cbn [shards with_shards]. rewrite list_fmap_insert.
  apply concat_insert. by rewrite list_lookup_fmap, Hi.
Qed.

Lemma pools_insert w i sh sh' :
  shards w !! i = Some sh →
  ∃ rest, pools w ≡ₚ _spanPool sh ++ rest ∧
          pools (with_shards (<[ i := sh' ]> (shards w)) w) ≡ₚ _spanPool sh' ++ rest.
Proof.
  intros Hi. unfold pools. cbn [shards with_shards]. rewrite list_fmap_insert.
  apply concat_insert. by rewrite list_lookup_fmap, Hi.
Qed.

Lemma listed_insert_same w i sh sh' :
  shards w !! i = Some sh → shard_listed sh' = shard_listed sh →
  listed (with_shards (<[ i := sh' ]> (shards w)) w) = listed w.
Proof.
  intros Hi Heq. unfold listed. cbn [shards with_shards]. by erewrite fmap_insert_same.
Qed.

Lemma pools_insert_same w i sh sh' :
  shards w !! i = Some sh → _spanPool sh' = _spanPool sh →
  pools (with_shards (<[ i := sh' ]> (shards w)) w) = pools w.
Proof.
  intros Hi Heq. unfold pools. cbn [shards with_shards]. by erewrite fmap_insert_same.
Qed.

Lemma heap_ok_view w S L P A : view w = (S, L, P, A) → ok S L P A → heap_ok w.
Proof. by intros [= <- <- <- <-]. Qed.

(** A change of one shard that leaves its lists and its pool alone. *)
Lemma modify_shard_keeps_view this f :
  (∀ sh, shard_listed (f sh) = shard_listed sh ∧ _spanPool (f sh) = _spanPool sh) →
  preserves view (modify_shard this f).
Proof.
  intros Hf w [] w' Hrun. unfold modify_shard in Hrun.
  destruct (shards w !! Z.to_nat this) as [sh|] eqn:E; [|done].
  injection Hrun as <-. destruct (Hf sh) as [Hl Hp]. unfold view.
  rewrite (listed_insert_same w _ sh _ E Hl), (pools_insert_same w _ sh _ E Hp). done.
Qed.

(** *** What the steps do to the view *)

Lemma modify_shard_Done this f w u w' :
  modify_shard this f w = Done u w' →
  ∃ sh, shards w !! Z.to_nat this = Some sh ∧
        w' = with_shards (<[ Z.to_nat this := f sh ]> (shards w)) w.
Proof.
  unfold modify_shard. destruct (shards w !! Z.to_nat this) as [sh|]; [|done].
  intros [= <-]. by exists sh.
Qed.

Lemma small_list_Done this cold i w l w' :
  small_list this cold i w = Done l w' →
  w' = w ∧ ∃ sh, shards w !! Z.to_nat this = Some sh ∧ small cold sh !! Z.to_nat i = Some l.
Proof.
  unfold small_list, this_shard. rewrite bind_run.
  destruct (shards w !! Z.to_nat this) as [sh|]; [|done].
  destruct (small cold sh !! Z.to_nat i) as [l'|] eqn:E; [|done].
  intros [= <- <-]. split; [done|]. by exists sh.
Qed.

Lemma set_small_list_Done this cold i l w u w' :
  set_small_list this cold i l w = Done u w' →
  ∃ sh l0, shards w !! Z.to_nat this = Some sh ∧ small cold sh !! Z.to_nat i = Some l0 ∧
    w' = with_shards
           (<[ Z.to_nat this := with_small cold (<[ Z.to_nat i := l ]> (small cold sh)) sh ]>
              (shards w)) w.
Proof.
  unfold set_small_list.
  intros (l0 & w1 & [-> (sh & Hsh & Hl0)]%small_list_Done & Hmod)%bind_Done.
  apply modify_shard_Done in Hmod as (sh' & Hsh' & ->).
  assert (sh' = sh) as -> by congruence. by exists sh, l0.
Qed.

Lemma with_small_pool cold v sh : _spanPool (with_small cold v sh) = _spanPool sh.
Proof. reflexivity. Qed.
Lemma with_large_pool cold v sh : _spanPool (with_large cold v sh) = _spanPool sh.
Proof. reflexivity. Qed.

Lemma small_PushFront_view this cold i x w u w' S L P A :
  view w = (S, L, P, A) →
  small_PushFront this cold i x w = Done u w' →
  ∃ L', view w' = (S, L', P, A) ∧ L' ≡ₚ x :: L.
Proof.
  intros [= <- <- <- <-]. unfold small_PushFront.
  intros (l & w1 & [-> (sh & Hsh & Hl)]%small_list_Done & Hset)%bind_Done.
  apply set_small_list_Done in Hset as (sh' & l0 & Hsh' & Hl0 & ->).
  assert (sh' = sh) as -> by congruence. assert (l0 = l) as -> by congruence.
  eexists. split.
  - unfold view. rewrite (pools_insert_same w _ sh _ Hsh (with_small_pool _ _ _)). done.
  - destruct (listed_insert w _ sh
      (with_small cold (<[ Z.to_nat i := Span.PushFront l x ]> (small cold sh)) sh) Hsh)
      as (rest & -> & ->).
    unfold Span.PushFront. by rewrite (shard_listed_small_push _ _ _ _ _ Hl).
Qed.

Lemma small_PopFront_view this cold i w x w' S L P A :
  view w = (S, L, P, A) →
  small_PopFront this cold i w = Done x w' →
  ∃ L', view w' = (S, L', P, A) ∧ (L ≡ₚ x :: L' ∨ x = 0 ∧ L' ⊆+ L).
Proof.
  intros [= <- <- <- <-]. unfold small_PopFront.
  intros (l & w1 & [-> (sh & Hsh & Hl)]%small_list_Done & Hrun)%bind_Done.
  apply bind_Done in Hrun as ([] & w2 & Hset & [= <- <-]).
  apply set_small_list_Done in Hset as (sh' & l0 & Hsh' & Hl0 & ->).
  assert (sh' = sh) as -> by congruence. assert (l0 = l) as -> by congruence.
  eexists. split.
  - unfold view. rewrite (pools_insert_same w _ sh _ Hsh (with_small_pool _ _ _)). done.
  - destruct (listed_insert w _ sh
      (with_small cold (<[ Z.to_nat i := (Span.PopFront l).2 ]> (small cold sh)) sh) Hsh)
      as (rest & -> & ->).
    destruct l as [|front l]; cbn [Span.PopFront fst snd].
    + right. split; [done|]. apply submseteq_skips_r.
      by eapply shard_listed_small_sub.
    + left. by rewrite (shard_listed_small_pop _ _ _ _ _ Hl).
Qed.

Lemma large_PushFront_view this cold key x w u w' S L P A :
  view w = (S, L, P, A) →
  large_PushFront this cold key x w = Done u w' →
  ∃ L', view w' = (S, L', P, A) ∧ L' ≡ₚ x :: L.
Proof.
  intros [= <- <- <- <-]. unfold large_PushFront.
  intros (sh & Hsh & ->)%modify_shard_Done.
  eexists. split.
  - unfold view. rewrite (pools_insert_same w _ sh _ Hsh (with_large_pool _ _ _)). done.
  - destruct (listed_insert w _ sh
      (with_large cold
         (<[ key := Span.PushFront (map_at (large cold sh) key) x ]> (large cold sh)) sh) Hsh)
      as (rest & -> & ->).
    unfold Span.PushFront. by rewrite shard_listed_large_push.
Qed.

Lemma large_PopFront_view this cold key w x w' S L P A :
  view w = (S, L, P, A) →
  large_PopFront this cold key w = Done x w' →
  ∃ L', view w' = (S, L', P, A) ∧ (L ≡ₚ x :: L' ∨ x = 0 ∧ L' ⊆+ L).
Proof.
  intros [= <- <- <- <-]. unfold large_PopFront, this_shard. rewrite bind_run.
  destruct (shards w !! Z.to_nat this) as [sh|] eqn:Hsh; [|done]. rewrite bind_run.
  destruct (large cold sh !! key) as [l|] eqn:Hl; [|done].
  change (from_option (Some l) w) with (Done l w). cbv beta iota.
  intros ([] & w2 & Hmod & [= <- <-])%bind_Done.
  apply modify_shard_Done in Hmod as (sh' & Hsh' & ->).
  assert (sh' = sh) as -> by congruence.
  eexists. split.
  - unfold view. rewrite (pools_insert_same w _ sh _ Hsh (with_large_pool _ _ _)). done.
  - destruct (listed_insert w _ sh
      (with_large cold (<[ key := (Span.PopFront l).2 ]> (large cold sh)) sh) Hsh)
      as (rest & -> & ->).
    destruct l as [|front l]; cbn [Span.PopFront fst snd].
    + right. split; [done|]. apply submseteq_skips_r.
      apply shard_listed_large_sub. by eapply values_replace_sub.
    + left. by rewrite (shard_listed_large_pop _ _ _ _ _ Hl).
Qed.

Lemma large_erase_view this cold key w u w' S L P A :
  view w = (S, L, P, A) →
  large_erase this cold key w = Done u w' →
  ∃ L', view w' = (S, L', P, A) ∧ L' ⊆+ L.
Proof.
  intros [= <- <- <- <-]. unfold large_erase.
  intros (sh & Hsh & ->)%modify_shard_Done.
  eexists. split.
  - unfold view. rewrite (pools_insert_same w _ sh _ Hsh (with_large_pool _ _ _)). done.
  - destruct (listed_insert w _ sh (with_large cold (delete key (large cold sh)) sh) Hsh)
      as (rest & -> & ->).
    apply submseteq_skips_r, shard_listed_large_sub, values_delete.
Qed.

Lemma rd_Done {B : Type} span (field : Span.Span → B) w a w' :
  rd span field w = Done a w' → w' = w ∧ ∃ s, spans w !! span = Some s ∧ a = field s.
Proof.
  unfold rd. destruct (spans w !! span) as [s|]; [|done].
  intros [= <- <-]. split; [done|]. by exists s.
Qed.

Lemma wr_view span assign w u w' S L P A :
  view w = (S, L, P, A) →
  wr span assign w = Done u w' →
  ∃ s, S !! span = Some s ∧ view w' = (<[ span := assign s ]> S, L, P, A).
Proof.
  intros [= <- <- <- <-]. unfold wr. destruct (spans w !! span) as [s|] eqn:E; [|done].
  intros [= <- <-]. exists s. split; [done|reflexivity].
Qed.

Lemma SpanPool_New_view this w obj w' S L P A :
  view w = (S, L, P, A) →
  SpanPool_New this w = Done obj w' →
  ∃ P' A', view w' = (<[ obj := Span.init ]> S, L, P', A') ∧
           (P ≡ₚ obj :: P' ∧ A' = A ∨ P' = P ∧ obj = A ∧ A' = A + sizeof_Span).
Proof.
  intros [= <- <- <- <-]. unfold SpanPool_New, this_shard. rewrite bind_run.
  destruct (shards w !! Z.to_nat this) as [sh|] eqn:Hsh; [|done].
  destruct (_spanPool sh) as [|front rest] eqn:Hpool.
  - intros [= <- <-]. do 2 eexists. split; [reflexivity|]. by right.
  - intros ([] & w1 & (sh' & Hsh' & ->)%modify_shard_Done & [= <- <-])%bind_Done.
    assert (sh' = sh) as -> by congruence.
    do 2 eexists. split.
    + unfold view. cbn [spans listed pools span_arena with_spans].
      change (listed (with_spans ?v ?w)) with (listed w).
      rewrite (listed_insert_same w _ sh _ Hsh); [reflexivity|done].
    + left. split; [|done]. change (pools (with_spans ?v ?w)) with (pools w).
      destruct (pools_insert w _ sh (with_spanPool rest sh) Hsh) as (others & -> & ->).
      by rewrite Hpool.
Qed.

Lemma SpanPool_Delete_view this obj w u w' S L P A :
  view w = (S, L, P, A) →
  obj ≠ 0 →
  SpanPool_Delete this obj w = Done u w' →
  ∃ s P', S !! obj = Some s ∧ view w' = (delete obj S, L, P', A) ∧ P' ≡ₚ obj :: P.
Proof.
  intros [= <- <- <- <-] Hobj. unfold SpanPool_Delete.
  destruct (Z.eqb_spec obj 0); [done|]. rewrite bind_run. unfold destroy_Span.
  destruct (spans w !! obj) as [s|] eqn:Hs; [|done].
  intros (sh & Hsh & ->)%modify_shard_Done. cbn [shards with_spans] in Hsh.
  exists s. eexists. split; [done|]. split.
  - unfold view. cbn [spans with_shards with_spans span_arena].
    change (shards (with_spans ?v ?w)) with (shards w).
    rewrite (listed_insert_same (with_spans _ w) _ sh); [reflexivity|done..].
  - destruct (pools_insert (with_spans (delete obj (spans w)) w) _ sh
                (with_spanPool (obj :: _spanPool sh) sh) Hsh) as (others & Hp & ->).
    change (pools (with_spans ?v ?w)) with (pools w) in Hp. by rewrite Hp.
Qed.

Lemma listed_erase x (shs : list PageCacheShard) :
  concat (shard_listed <$> (shard_erase x <$> shs))
  ≡ₚ filter (λ y, y ≠ x) (concat (shard_listed <$> shs)).
Proof.
  induction shs as [|sh shs IH]; [done|].
  rewrite !fmap_cons, !concat_cons, filter_app, IH. by rewrite shard_listed_erase.
Qed.

Lemma Span_Remove_view x w u w' S L P A :
  view w = (S, L, P, A) →
  Span_Remove x w = Done u w' →
  ∃ L', view w' = (S, L', P, A) ∧ L' ≡ₚ filter (λ y, y ≠ x) L.
Proof.
  intros [= <- <- <- <-]. unfold Span_Remove. destruct (bool_decide _); [|done].
  intros [= <- <-]. eexists. split.
  - assert (Hp : _spanPool <$> (shard_erase x <$> shards w) = _spanPool <$> shards w).
    { rewrite <- list_fmap_compose. by apply list_fmap_ext. }
    unfold view, pools. cbn [spans shards with_buckets with_shards span_arena].
    rewrite Hp. reflexivity.
  - apply listed_erase.
Qed.

End ListedFacts.

(** ** The page heap: its operations keep it in order *)

Module HeapInvFacts.
Import State Machine Logic LogicFacts FrameFacts HeapSpec OkFacts ListedFacts.

Ltac frame_prim ::=
  first
    [ frame_base
    | apply modify_shard_keeps_view; intros ?; split; reflexivity
    | apply modify_shard_keeps; intros ?; reflexivity
    | apply wr_keeps; intros ?; reflexivity ].

Lemma view_spans w w' : view w' = view w → spans w' = spans w.
Proof. by intros [= -> _ _ _]. Qed.
Lemma view_listed w w' : view w' = view w → listed w' = listed w.
Proof. by intros [= _ -> _ _]. Qed.

Lemma heap_ok_keep w w' : view w' = view w → heap_ok w → heap_ok w'.
Proof. unfold heap_ok. by intros [= -> -> -> ->]. Qed.

Lemma held_keep span w w' : view w' = view w → held span w → held span w'.
Proof.
  intros Hv (Hok & Hl & Hs). unfold held.
  rewrite (view_spans _ _ Hv), (view_listed _ _ Hv). split; [|done].
  by eapply heap_ok_keep.
Qed.

Lemma held2_keep span split w w' :
  view w' = view w → held2 span split w → held2 span split w'.
Proof.
  intros Hv (Hh & Hl & Hne & Hu). unfold held2, field_of.
  rewrite (view_spans _ _ Hv), (view_listed _ _ Hv). split; [|done].
  by eapply held_keep.
Qed.

Lemma idle_keep x w w' : view w' = view w → idle x w → idle x w'.
Proof.
  intros Hv (Hok & Hl & Hu). unfold idle, field_of.
  rewrite (view_spans _ _ Hv), (view_listed _ _ Hv). split; [|done].
  by eapply heap_ok_keep.
Qed.

Lemma inuse_keep span w w' : view w' = view w → inuse span w → inuse span w'.
Proof.
  intros Hv (Hok & Hl & Hu). unfold inuse, field_of.
  rewrite (view_spans _ _ Hv), (view_listed _ _ Hv). split; [|done].
  by eapply heap_ok_keep.
Qed.

Lemma merging_keep span left w w' :
  view w' = view w → merging span left w → merging span left w'.
Proof.
  intros Hv (Hi & Hl & Hne & Hs). unfold merging.
  rewrite (view_spans _ _ Hv), (view_listed _ _ Hv). split; [|done].
  by eapply inuse_keep.
Qed.


(** [keep H Hrun]: a fact [H] that reads only the view of the state
    survives the step [Hrun], which leaves the view alone. *)
Ltac keep H Hrun :=
  lazymatch type of Hrun with
  | ?m ?w = Done _ ?w' =>
      let Hp := fresh in
      let Hv := fresh in
      assert (Hp : preserves view m) by frame_all;
      pose proof (Hp _ _ _ Hrun) as Hv; clear Hp;
      first [ apply (heap_ok_keep _ _ Hv) in H
            | apply (held_keep _ _ _ Hv) in H
            | apply (held2_keep _ _ _ _ Hv) in H
            | apply (idle_keep _ _ _ Hv) in H
            | apply (inuse_keep _ _ _ Hv) in H
            | apply (merging_keep _ _ _ _ Hv) in H ];
      clear Hv
  end.

Tactic Notation "step" hyp(Hrun) "as" ident(a) ident(w1) ident(H1) :=
  apply bind_Done in Hrun as (a & w1 & H1 & Hrun).

Lemma held_view span w S L P A :
  view w = (S, L, P, A) → ok S L P A → span ∉ L → is_Some (S !! span) → held span w.
Proof. intros [= <- <- <- <-]. by split. Qed.

(** The common end of the three [AllocFrom...] functions. *)
Lemma issue_tail_ok span k w r w' :
  held span w →
  (for_each (Z.to_nat k) 0
     (λ i, pid ← rd span Span._pageId; PageMap_set (wrap64 (pid + i)) span);;
   wr span (Span.set_isUse true);;
   wr span (Span.set_isCold false);;
   mret span) w = Done r w' →
  heap_ok w' ∧ r = span ∧ field_of w' span Span._isUse = Some true.
Proof.
  intros Hheld Hrun. step Hrun as u1 w1 H1. keep Hheld H1. clear w H1.
  destruct Hheld as (Hok & Hl & Hs).
  step Hrun as u2 w2 H2. step Hrun as u3 w3 H3. injection Hrun as <- <-.
  apply (wr_view _ _ _ _ _ _ _ _ _ eq_refl) in H2 as (s & Hs1 & Hv2).
  apply (wr_view _ _ _ _ _ _ _ _ _ Hv2) in H3 as (s' & Hs2 & Hv3).
  rewrite lookup_insert_eq in Hs2. injection Hs2 as <-.
  rewrite insert_insert_eq in Hv3.
  split_and!; [|done|].
  - eapply heap_ok_view; [exact Hv3|]. eapply ok_write; [exact Hok|exact Hs1|..].
    + by intros ?.
    + done.
  - unfold field_of. injection Hv3 as -> _ _ _. by rewrite lookup_insert_eq.
Qed.

Lemma ok_new {S L P A} obj P' A' :
  ok S L P A →
  (P ≡ₚ obj :: P' ∧ A' = A ∨ P' = P ∧ obj = A ∧ A' = A + sizeof_Span) →
  ok (<[ obj := Span.init ]> S) L P' A' ∧ (obj ∉ L) ∧ S !! obj = None.
Proof.
  intros Hok [[HP ->]|(-> & -> & ->)].
  - pose proof (ok_perm Hok L (obj :: P') (reflexivity _) HP) as Hok'.
    destruct (ok_new_pool obj Hok') as [? ?]. split_and!; [done..|].
    destruct Hok' as [_ _ _ Hpool _ _ _]. apply Hpool. by left.
  - destruct (ok_new_arena Hok sizeof_Span) as [? ?]; [done|]. split_and!; [done..|].
    destruct (S !! A) as [s|] eqn:E; [|done].
    destruct Hok as [_ _ _ _ _ Hlive _]. apply Hlive in E. lia.
Qed.

(** The start of a split: the remainder gets a record of its own, its
    extent and its temperature, and the span in hand shrinks. *)
Lemma split_prefix_ok this span k isCold (rest : Z → M unit) w u w' :
  held span w →
  (split ← SpanPool_New this;
   pid ← rd span Span._pageId;
   wr split (Span.set_pageId (wrap64 (pid + k)));;
   n ← rd span Span._n;
   wr split (Span.set_n (wrap64 (n - k)));;
   wr split (Span.set_isCold isCold);;
   wr span (Span.set_n k);;
   rest split) w = Done u w' →
  ∃ split w1, held2 span split w1 ∧ rest split w1 = Done u w'.
Proof.
  intros (Hok & Hl & [s Hs]) Hrun.
  step Hrun as split w1 H1.
  apply (SpanPool_New_view _ _ _ _ _ _ _ _ eq_refl) in H1 as (P' & A' & Hv1 & Hnew).
  destruct (ok_new split P' A' Hok Hnew) as (Hok1 & Hsl & Hfresh).
  assert (Hne : split ≠ span) by (intros ->; congruence).
  clear Hok Hnew.
  step Hrun as pid w2 H2. apply rd_Done in H2 as [-> _].
  step Hrun as u3 w3 H3.
  apply (wr_view _ _ _ _ _ _ _ _ _ Hv1) in H3 as (s3 & Hs3 & Hv3).
  rewrite lookup_insert_eq in Hs3. injection Hs3 as <-.
  rewrite insert_insert_eq in Hv3.
  step Hrun as n w4 H4. apply rd_Done in H4 as [-> _].
  step Hrun as u5 w5 H5.
  apply (wr_view _ _ _ _ _ _ _ _ _ Hv3) in H5 as (s5 & Hs5 & Hv5).
  rewrite lookup_insert_eq in Hs5. injection Hs5 as <-.
  rewrite insert_insert_eq in Hv5.
  step Hrun as u6 w6 H6.
  apply (wr_view _ _ _ _ _ _ _ _ _ Hv5) in H6 as (s6 & Hs6 & Hv6).
  rewrite lookup_insert_eq in Hs6. injection Hs6 as <-.
  rewrite insert_insert_eq in Hv6.
  step Hrun as u7 w7 H7.
  apply (wr_view _ _ _ _ _ _ _ _ _ Hv6) in H7 as (s7 & Hs7 & Hv7).
  rewrite lookup_insert_ne in Hs7 by done.
  assert (s7 = s) as -> by congruence.
  exists split, w7. split; [|exact Hrun].
  set (s' := Span.set_isCold isCold
               (Span.set_n (wrap64 (n - k)) (Span.set_pageId (wrap64 (pid + k)) Span.init)))
    in *.
  assert (Hok6 : ok (<[ split := s' ]> (spans w)) (listed w) P' A').
  { rewrite <- (insert_insert_eq (spans w) split s' Span.init).
    eapply ok_write; [exact Hok1|apply lookup_insert_eq|by intros ?|done]. }
  assert (Hok7 : ok (<[ span := Span.set_n k s ]> (<[ split := s' ]> (spans w)))
                   (listed w) P' A').
  { eapply ok_write_flags; [exact Hok6| |done..]. by rewrite lookup_insert_ne. }
  split_and!; try done.
  - eapply held_view; [exact Hv7|exact Hok7|done|]. by rewrite lookup_insert_eq.
  - by injection Hv7 as _ -> _ _.
  - unfold field_of. injection Hv7 as -> _ _ _.
    rewrite lookup_insert_ne, lookup_insert_eq by done. done.
Qed.

(** *** Linking and unlinking *)

Lemma push_ok {S L P A} x L' w' :
  ok S L P A → view w' = (S, L', P, A) → L' ≡ₚ x :: L →
  x ∉ L → (∃ s, S !! x = Some s ∧ Span._isUse s = false) →
  heap_ok w' ∧ ∀ y, y ≠ x → y ∉ L → y ∉ listed w'.
Proof.
  intros Hok Hv HL Hx (s & Hs & Hu). split.
  - eapply heap_ok_view; [exact Hv|].
    eapply ok_perm; [eapply (ok_push Hok x s); done|by symmetry|done].
  - intros y Hne Hy. injection Hv as _ -> _ _. rewrite HL.
    by intros [->|?]%elem_of_cons.
Qed.

Lemma push_held2 span split w w' :
  (∀ S L P A, view w = (S, L, P, A) → ∃ L', view w' = (S, L', P, A) ∧ L' ≡ₚ split :: L) →
  held2 span split w → held span w'.
Proof.
  intros Hpush ((Hok & Hl & Hs) & Hsl & Hne & Hu).
  destruct (Hpush _ _ _ _ eq_refl) as (L' & Hv & HL).
  destruct (push_ok split L' w' Hok Hv HL Hsl) as [Hok' Hkeep].
  { unfold field_of in Hu. destruct (spans w !! split) as [s|]; [|done].
    exists s. split; [done|]. by injection Hu. }
  split_and!; [done|by apply Hkeep|]. by injection Hv as -> _ _ _.
Qed.

Lemma small_PushFront_held2 this cold i span split w u w' :
  held2 span split w → small_PushFront this cold i split w = Done u w' → held span w'.
Proof.
  intros Hh Hrun. eapply (push_held2 span split w); [|done].
  intros S L P A Hv. by eapply small_PushFront_view.
Qed.

Lemma large_PushFront_held2 this cold key span split w u w' :
  held2 span split w → large_PushFront this cold key split w = Done u w' → held span w'.
Proof.
  intros Hh Hrun. eapply (push_held2 span split w); [|done].
  intros S L P A Hv. by eapply large_PushFront_view.
Qed.

Lemma pop_held x w w' :
  (∀ S L P A, view w = (S, L, P, A) →
     ∃ L', view w' = (S, L', P, A) ∧ (L ≡ₚ x :: L' ∨ x = 0 ∧ L' ⊆+ L)) →
  heap_ok w →
  heap_ok w' ∧
  (is_Some (spans w' !! x) → held x w' ∧ field_of w' x Span._isUse = Some false).
Proof.
  intros Hpop Hok. destruct (Hpop _ _ _ _ eq_refl) as (L' & Hv & HL).
  pose proof Hv as [= Hs Hl _ _].
  destruct HL as [HL|[-> HL]].
  - pose proof (ok_perm Hok _ _ HL (reflexivity _)) as Hok'.
    destruct (ok_pop x Hok') as (Hok1 & Hx & s & Hsx & Hu).
    split; [by eapply heap_ok_view|]. intros _. split.
    + eapply held_view; [exact Hv|done..].
    + unfold field_of. by rewrite Hs, Hsx; cbn; rewrite Hu.
  - pose proof (ok_sub Hok _ HL) as Hok1.
    split; [by eapply heap_ok_view|]. rewrite Hs. intros [s Hsx].
    destruct Hok as [_ _ _ _ _ Hlive _]. apply Hlive in Hsx. lia.
Qed.

Lemma small_PopFront_held this cold i w x w' :
  heap_ok w → small_PopFront this cold i w = Done x w' →
  heap_ok w' ∧
  (is_Some (spans w' !! x) → held x w' ∧ field_of w' x Span._isUse = Some false).
Proof.
  intros Hok Hrun. apply (pop_held x w w'); [|done].
  intros S L P A Hv. by eapply small_PopFront_view.
Qed.

Lemma large_PopFront_held this cold key w x w' :
  heap_ok w → large_PopFront this cold key w = Done x w' →
  heap_ok w' ∧
  (is_Some (spans w' !! x) → held x w' ∧ field_of w' x Span._isUse = Some false).
Proof.
  intros Hok Hrun. apply (pop_held x w w'); [|done].
  intros S L P A Hv. by eapply large_PopFront_view.
Qed.

Lemma large_erase_ok this cold key w u w' :
  heap_ok w → large_erase this cold key w = Done u w' → heap_ok w'.
Proof.
  intros Hok Hrun.
  destruct (large_erase_view this cold key w u w' _ _ _ _ eq_refl Hrun) as (L' & Hv & HL).
  eapply heap_ok_view; [exact Hv|]. by eapply ok_sub.
Qed.

Lemma rd_live {B : Type} span (field : Span.Span → B) w a w' :
  rd span field w = Done a w' → w' = w ∧ is_Some (spans w !! span).
Proof. intros [-> (s & Hs & _)]%rd_Done. split; [done|]. by exists s. Qed.

(** *** Issuing from a list *)

Lemma AllocFromHotList_ok this list k w r w' :
  heap_ok w → PageCacheShard.AllocFromHotList this list k w = Done r w' →
  heap_ok w' ∧ field_of w' r Span._isUse = Some true.
Proof.
  intros Hok Hrun. unfold PageCacheShard.AllocFromHotList in Hrun.
  step Hrun as span w1 H1. apply (small_PopFront_held _ _ _ _ _ _ Hok) in H1 as [_ Hheld].
  step Hrun as n w2 H2. apply rd_live in H2 as [-> Hlive].
  destruct (Hheld Hlive) as [Hh _]. clear Hheld Hlive Hok w.
  step Hrun as u3 w3 H3. keep Hh H3. clear H3 w1.
  step Hrun as n' w4 H4. apply rd_live in H4 as [-> _].
  step Hrun as u5 w5 H5.
  assert (Hh5 : held span w5).
  { destruct (k <? n'); [|by injection H5 as _ <-].
    apply (split_prefix_ok this span k false
             (λ split, sn ← rd split Span._n;
                       small_PushFront this false sn split;;
                       sn ← rd split Span._n;
                       add_totalFreePages this sn;;
                       spid ← rd split Span._pageId;
                       PageMap_set spid split;;
                       spid ← rd split Span._pageId;
                       sn ← rd split Span._n;
                       PageMap_set (wrap64 (wrap64 (spid + sn) - 1)) split) _ _ _ Hh)
      in H5 as (split & w6 & Hh2 & Hrest).
    step Hrest as sn w7 H7. apply rd_live in H7 as [-> _].
    step Hrest as u8 w8 H8. apply (small_PushFront_held2 _ _ _ _ _ _ _ _ Hh2) in H8.
    by keep H8 Hrest. }
  destruct (issue_tail_ok span k w5 r w' Hh5 Hrun) as (? & -> & ?). done.
Qed.

Lemma AllocFromColdList_ok this list k w r w' :
  heap_ok w → PageCacheShard.AllocFromColdList this list k w = Done r w' →
  heap_ok w' ∧ field_of w' r Span._isUse = Some true.
Proof.
  intros Hok Hrun. unfold PageCacheShard.AllocFromColdList in Hrun.
  step Hrun as span w1 H1. apply (small_PopFront_held _ _ _ _ _ _ Hok) in H1 as [_ Hheld].
  step Hrun as n w2 H2. apply rd_live in H2 as [-> Hlive].
  destruct (Hheld Hlive) as [Hh _]. clear Hheld Hlive Hok w.
  step Hrun as u5 w5 H5.
  assert (Hh5 : held span w5).
  { destruct (k <? n); [|by injection H5 as _ <-].
    apply (split_prefix_ok this span k true
             (λ split, sn ← rd split Span._n;
                       small_PushFront this true sn split;;
                       spid ← rd split Span._pageId;
                       PageMap_set spid split;;
                       spid ← rd split Span._pageId;
                       sn ← rd split Span._n;
                       PageMap_set (wrap64 (wrap64 (spid + sn) - 1)) split) _ _ _ Hh)
      in H5 as (split & w6 & Hh2 & Hrest).
    step Hrest as sn w7 H7. apply rd_live in H7 as [-> _].
    step Hrest as u8 w8 H8. apply (small_PushFront_held2 _ _ _ _ _ _ _ _ Hh2) in H8.
    by keep H8 Hrest. }
  destruct (issue_tail_ok span k w5 r w' Hh5 Hrun) as (? & -> & ?). done.
Qed.

Ltac view_of Hrun Hv :=
  lazymatch type of Hrun with
  | ?m ?w = Done _ ?w' =>
      let Hp := fresh in
      assert (Hp : preserves view m) by frame_all;
      pose proof (Hp _ _ _ Hrun) as Hv; clear Hp
  end.

Lemma this_shard_Done this w sh w' :
  this_shard this w = Done sh w' → w' = w ∧ shards w !! Z.to_nat this = Some sh.
Proof.
  unfold this_shard. destruct (shards w !! Z.to_nat this); [|done]. by intros [= <- <-].
Qed.

(** *** Writes *)

Lemma wr_flags_ok x assign w u w' :
  heap_ok w →
  (∀ s, spans w !! x = Some s →
        Span._isUse (assign s) = Span._isUse s ∧ Span._isCold (assign s) = Span._isCold s) →
  wr x assign w = Done u w' →
  heap_ok w' ∧ listed w' = listed w ∧
  ∀ y, field_of w' y Span._isUse = field_of w y Span._isUse.
Proof.
  intros Hok Hkeep Hrun.
  destruct (wr_view x assign w u w' _ _ _ _ eq_refl Hrun) as (s & Hs & Hv).
  destruct (Hkeep s Hs) as [Hu Hc]. split_and!.
  - eapply heap_ok_view; [exact Hv|]. by eapply ok_write_flags.
  - by injection Hv as _ -> _ _.
  - intros y. unfold field_of. injection Hv as -> _ _ _.
    destruct (decide (y = x)) as [->|Hne].
    + rewrite lookup_insert_eq, Hs. cbn. by rewrite Hu.
    + by rewrite lookup_insert_ne.
Qed.

Lemma wr_held_flags span x assign w u w' :
  held span w →
  (∀ s, Span._isUse (assign s) = Span._isUse s ∧ Span._isCold (assign s) = Span._isCold s) →
  wr x assign w = Done u w' →
  held span w'.
Proof.
  intros (Hok & Hl & Hs) Hkeep Hrun.
  destruct (wr_flags_ok x assign w u w' Hok (λ s _, Hkeep s) Hrun) as (Hok' & HL & Huse).
  split_and!; [done|by rewrite HL|].
  specialize (Huse span). unfold field_of in Huse.
  destruct Hs as [s Hs]. rewrite Hs in Huse.
  destruct (spans w' !! span); [done|discriminate].
Qed.

Lemma wr_idle_ok x assign w u w' :
  idle x w → (∀ s, Span._isUse (assign s) = Span._isUse s) →
  wr x assign w = Done u w' → idle x w'.
Proof.
  intros (Hok & Hl & Hu) Hkeep Hrun.
  destruct (wr_view x assign w u w' _ _ _ _ eq_refl Hrun) as (s & Hs & Hv).
  unfold field_of in Hu. rewrite Hs in Hu. injection Hu as Hu.
  split_and!.
  - eapply heap_ok_view; [exact Hv|]. eapply ok_write; [exact Hok|exact Hs| |done].
    intros _. by rewrite Hkeep.
  - by injection Hv as _ -> _ _.
  - unfold field_of. injection Hv as -> _ _ _. rewrite lookup_insert_eq. cbn.
    by rewrite Hkeep, Hu.
Qed.

Lemma SpanPool_New_idle this w obj w' :
  heap_ok w → SpanPool_New this w = Done obj w' → idle obj w'.
Proof.
  intros Hok Hrun.
  destruct (SpanPool_New_view this w obj w' _ _ _ _ eq_refl Hrun) as (P' & A' & Hv & Hnew).
  destruct (ok_new obj P' A' Hok Hnew) as (Hok1 & Hl & _).
  split_and!.
  - by eapply heap_ok_view.
  - by injection Hv as _ -> _ _.
  - unfold field_of. injection Hv as -> _ _ _. by rewrite lookup_insert_eq.
Qed.

Lemma idle_held x w : idle x w → held x w.
Proof.
  intros (Hok & Hl & Hu). split_and!; [done..|].
  unfold field_of in Hu. by destruct (spans w !! x).
Qed.

Lemma push_idle x w w' :
  (∀ S L P A, view w = (S, L, P, A) → ∃ L', view w' = (S, L', P, A) ∧ L' ≡ₚ x :: L) →
  idle x w → heap_ok w'.
Proof.
  intros Hpush (Hok & Hl & Hu).
  destruct (Hpush _ _ _ _ eq_refl) as (L' & Hv & HL).
  apply (push_ok x L' w' Hok Hv HL Hl).
  unfold field_of in Hu. destruct (spans w !! x) as [s|]; [|done].
  exists s. split; [done|]. by injection Hu.
Qed.

Lemma small_PushFront_idle this cold i x w u w' :
  idle x w → small_PushFront this cold i x w = Done u w' → heap_ok w'.
Proof.
  intros Hi Hrun. apply (push_idle x w w'); [|done].
  intros S L P A Hv. by eapply small_PushFront_view.
Qed.

Lemma large_PushFront_idle this cold key x w u w' :
  idle x w → large_PushFront this cold key x w = Done u w' → heap_ok w'.
Proof.
  intros Hi Hrun. apply (push_idle x w w'); [|done].
  intros S L P A Hv. by eapply large_PushFront_view.
Qed.

(** The two writes that hand a span to its caller. *)
Lemma issue_flags_ok span w u1 w1 u2 w2 :
  held span w →
  wr span (Span.set_isUse true) w = Done u1 w1 →
  wr span (Span.set_isCold false) w1 = Done u2 w2 →
  held span w2 ∧ field_of w2 span Span._isUse = Some true.
Proof.
  intros (Hok & Hl & Hs) H2 H3.
  apply (wr_view _ _ _ _ _ _ _ _ _ eq_refl) in H2 as (s & Hs1 & Hv2).
  apply (wr_view _ _ _ _ _ _ _ _ _ Hv2) in H3 as (s' & Hs2 & Hv3).
  rewrite lookup_insert_eq in Hs2. injection Hs2 as <-.
  rewrite insert_insert_eq in Hv3.
  assert (Hok' : ok (<[ span := Span.set_isCold false (Span.set_isUse true s) ]> (spans w))
                   (listed w) (pools w) (span_arena w)).
  { eapply ok_write; [exact Hok|exact Hs1|by intros ?|done]. }
  split.
  - eapply held_view; [exact Hv3|exact Hok'|done|]. by rewrite lookup_insert_eq.
  - unfold field_of. injection Hv3 as -> _ _ _. by rewrite lookup_insert_eq.
Qed.


Lemma AllocFromMap_ok this map it k isCold w r w' :
  heap_ok w → PageCacheShard.AllocFromMap this map it k isCold w = Done r w' →
  heap_ok w' ∧ (r = 0 ∨ field_of w' r Span._isUse = Some true).
Proof.
  intros Hok Hrun. unfold PageCacheShard.AllocFromMap in Hrun.
  step Hrun as span w1 H1.
  apply (large_PopFront_held _ _ _ _ _ _ Hok) in H1 as [Hok1 Hheld].
  destruct (span =? 0).
  { step Hrun as u2 w2 H2. injection Hrun as <- <-.
    split; [|by left]. by eapply large_erase_ok. }
  clear Hok w.
  step Hrun as u2 w2 H2. view_of H2 Hv2.
  step Hrun as n w3 H3. apply rd_live in H3 as [-> Hlive].
  rewrite (view_spans _ _ Hv2) in Hlive. destruct (Hheld Hlive) as [Hh _].
  apply (held_keep _ _ _ Hv2) in Hh. clear Hheld Hlive Hok1 Hv2 H2 w1.
  step Hrun as u5 w5 H5.
  assert (Hh5 : held span w5).
  { destruct (k <? n); [|by injection H5 as _ <-].
    apply (split_prefix_ok this span k isCold
             (λ split,
                (if isCold then
                   sn ← rd split Span._n;
                   large_PushFront this true sn split
                 else
                   sn ← rd split Span._n;
                   large_PushFront this false sn split;;
                   sn ← rd split Span._n;
                   add_totalFreePages this sn);;
                spid ← rd split Span._pageId;
                PageMap_set spid split;;
                spid ← rd split Span._pageId;
                sn ← rd split Span._n;
                PageMap_set (wrap64 (wrap64 (spid + sn) - 1)) split) _ _ _ Hh)
      in H5 as (split & w6 & Hh2 & Hrest).
    step Hrest as u7 w7 H7.
    assert (Hh7 : held span w7).
    { destruct isCold.
      - step H7 as sn w8 H8. apply rd_live in H8 as [-> _].
        by eapply large_PushFront_held2.
      - step H7 as sn w8 H8. apply rd_live in H8 as [-> _].
        step H7 as u9 w9 H9. apply (large_PushFront_held2 _ _ _ _ _ _ _ _ Hh2) in H9.
        by keep H9 H7. }
    by keep Hh7 Hrest. }
  destruct (issue_tail_ok span k w5 r w' Hh5 Hrun) as (? & -> & ?). split; [done|by right].
Qed.

(** *** The three phases of [NewSpan] *)

Lemma NewSpan_hot_ok this k w r w' :
  heap_ok w → PageCacheShard.NewSpan_hot this k w = Done r w' → issued r w'.
Proof.
  intros Hok Hrun. unfold PageCacheShard.NewSpan_hot in Hrun. destruct (k <? NPAGES).
  - step Hrun as l w1 H1. keep Hok H1. clear H1 w. destruct (negb _).
    + step Hrun as span w2 H2. injection Hrun as <- <-.
      destruct (AllocFromHotList_ok _ _ _ _ _ _ Hok H2). split; [done|].
      intros ? [= <-]. by right.
    + step Hrun as found w2 H2. keep Hok H2. clear H2 w1. destruct found as [i|].
      * step Hrun as span w3 H3. injection Hrun as <- <-.
        destruct (AllocFromHotList_ok _ _ _ _ _ _ Hok H3). split; [done|].
        intros ? [= <-]. by right.
      * injection Hrun as <- <-. by split.
  - step Hrun as sh w1 H1. keep Hok H1. clear H1 w.
    destruct (lower_bound _ _) as [it|]; [|injection Hrun as <- <-; by split].
    step Hrun as ret w2 H2. destruct (AllocFromMap_ok _ _ _ _ _ _ _ _ Hok H2) as [Hok2 Hret].
    destruct (ret =? 0); injection Hrun as <- <-; (split; [done|]); [done|].
    by intros ? [= <-].
Qed.

Lemma NewSpan_cold_ok this k w r w' :
  heap_ok w → PageCacheShard.NewSpan_cold this k w = Done r w' → issued r w'.
Proof.
  intros Hok Hrun. unfold PageCacheShard.NewSpan_cold in Hrun.
  step Hrun as r1 w1 H1.
  assert (Hi : issued r1 w1).
  { destruct (k <? NPAGES); [|injection H1 as <- <-; by split].
    step H1 as l w2 H2. keep Hok H2. clear H2 w. destruct (negb _).
    + step H1 as span w3 H3. injection H1 as <- <-.
      destruct (AllocFromColdList_ok _ _ _ _ _ _ Hok H3). split; [done|].
      intros ? [= <-]. by right.
    + step H1 as found w3 H3. keep Hok H3. clear H3 w2. destruct found as [i|].
      * step H1 as span w4 H4. injection H1 as <- <-.
        destruct (AllocFromColdList_ok _ _ _ _ _ _ Hok H4). split; [done|].
        intros ? [= <-]. by right.
      * injection H1 as <- <-. by split. }
  clear Hok H1 w.
  destruct r1 as [span| |]; try (by injection Hrun as <- <-).
  destruct Hi as [Hok _].
  step Hrun as sh w2 H2. keep Hok H2. clear H2 w1.
  destruct (negb _); [|injection Hrun as <- <-; by split].
  destruct (lower_bound _ _) as [it|]; [|injection Hrun as <- <-; by split].
  step Hrun as ret w3 H3. destruct (AllocFromMap_ok _ _ _ _ _ _ _ _ Hok H3) as [Hok3 Hret].
  destruct (ret =? 0); injection Hrun as <- <-; (split; [done|]); [done|].
  by intros ? [= <-].
Qed.

Lemma NewSpan_system_ok this k w r w' :
  heap_ok w → PageCacheShard.NewSpan_system this k w = Done r w' → issued r w'.
Proof.
  intros Hok Hrun. unfold PageCacheShard.NewSpan_system in Hrun. destruct (NPAGES <=? k).
  - step Hrun as ptr w1 H1. keep Hok H1. clear H1 w.
    step Hrun as span w2 H2. apply (SpanPool_New_idle _ _ _ _ Hok) in H2.
    apply idle_held in H2. clear Hok w1.
    step Hrun as u3 w3 H3. apply (wr_held_flags _ _ _ _ _ _ H2) in H3; [|done].
    step Hrun as u4 w4 H4. apply (wr_held_flags _ _ _ _ _ _ H3) in H4; [|done].
    step Hrun as u5 w5 H5. step Hrun as u6 w6 H6.
    destruct (issue_flags_ok _ _ _ _ _ _ H4 H5 H6) as [Hh6 Hu6].
    step Hrun as sh w7 H7. apply this_shard_Done in H7 as [-> _].
    step Hrun as u8 w8 H8.
    destruct Hh6 as (Hok6 & _).
    apply (wr_flags_ok _ _ _ _ _ Hok6) in H8 as (Hok8 & _ & Hu8); [|done].
    step Hrun as u9 w9 H9. injection Hrun as <- <-.
    view_of H9 Hv. split; [by eapply heap_ok_keep|].
    intros ? [= <-]. right. unfold field_of. rewrite (view_spans _ _ Hv).
    by rewrite <- Hu6, <- Hu8.
  - step Hrun as ptr w1 H1. keep Hok H1. clear H1 w.
    step Hrun as big w2 H2. apply (SpanPool_New_idle _ _ _ _ Hok) in H2. clear Hok w1.
    step Hrun as u3 w3 H3. apply (wr_idle_ok _ _ _ _ _ H2) in H3; [|done].
    step Hrun as u4 w4 H4. apply (wr_idle_ok _ _ _ _ _ H3) in H4; [|done].
    step Hrun as u5 w5 H5. apply (wr_idle_ok _ _ _ _ _ H4) in H5; [|done].
    step Hrun as sh w6 H6. apply this_shard_Done in H6 as [-> _].
    step Hrun as u7 w7 H7. apply (wr_idle_ok _ _ _ _ _ H5) in H7; [|done].
    step Hrun as pid w8 H8. apply rd_live in H8 as [-> _].
    step Hrun as u9 w9 H9. keep H7 H9. clear H9 w7.
    step Hrun as pid' w10 H10. apply rd_live in H10 as [-> _].
    step Hrun as n w11 H11. apply rd_live in H11 as [-> _].
    step Hrun as u12 w12 H12. keep H7 H12. clear H12 w9.
    step Hrun as n' w13 H13. apply rd_live in H13 as [-> _].
    step Hrun as u14 w14 H14. apply (small_PushFront_idle _ _ _ _ _ _ _ H7) in H14.
    keep H14 Hrun. split; [done|]. intros span Hr.
    step Hrun as n'' w15 H15. step Hrun as u16 w16 H16. injection Hrun as <- _. done.
Qed.

Lemma loop_Done {B : Type} (I : World → Prop) (Q : B → World → Prop) fuel
    (body : M (option B)) w a w' :
  (∀ w r w', I w → body w = Done r w' →
             match r with Some a => Q a w' | None => I w' end) →
  I w → loop fuel body w = Done a w' → Q a w'.
Proof.
  intros Hbody. revert w. induction fuel as [|fuel IH]; intros w HI Hrun; [done|].
  cbn [loop] in Hrun. apply bind_Done in Hrun as (r & w1 & H1 & Hrun).
  specialize (Hbody w r w1 HI H1). destruct r as [b|]; cbv beta iota in Hrun, Hbody.
  - by injection Hrun as <- <-.
  - exact (IH w1 Hbody Hrun).
Qed.

Lemma NewSpan_body_ok this k w r w' :
  heap_ok w → PageCacheShard.NewSpan_body this k w = Done r w' →
  heap_ok w' ∧ ∀ span, r = Some span → span = 0 ∨ field_of w' span Span._isUse = Some true.
Proof.
  intros Hok Hrun. unfold PageCacheShard.NewSpan_body in Hrun.
  step Hrun as hot w1 H1. apply (NewSpan_hot_ok _ _ _ _ _ Hok) in H1 as [Hok1 Hr1].
  destruct hot as [span| |].
  { injection Hrun as <- <-. split; [done|]. intros ? [= <-]. by apply Hr1. }
  { injection Hrun as <- <-. by split. }
  step Hrun as cold w2 H2. apply (NewSpan_cold_ok _ _ _ _ _ Hok1) in H2 as [Hok2 Hr2].
  destruct cold as [span| |].
  { injection Hrun as <- <-. split; [done|]. intros ? [= <-]. by apply Hr2. }
  { injection Hrun as <- <-. by split. }
  step Hrun as sys w3 H3. apply (NewSpan_system_ok _ _ _ _ _ Hok2) in H3 as [Hok3 Hr3].
  destruct sys as [span| |]; injection Hrun as <- <-; (split; [done|]); try done.
  intros ? [= <-]. by apply Hr3.
Qed.

Lemma NewSpan_ok fuel this k w span w' :
  heap_ok w → PageCacheShard.NewSpan fuel this k w = Done span w' →
  heap_ok w' ∧ (span = 0 ∨ field_of w' span Span._isUse = Some true).
Proof.
  intros Hok Hrun. unfold PageCacheShard.NewSpan in Hrun.
  apply (loop_Done heap_ok
           (λ span w', heap_ok w' ∧ (span = 0 ∨ field_of w' span Span._isUse = Some true))
           _ _ _ _ _) in Hrun; [done| |done].
  intros w0 r w0' Hok0 Hbody.
  destruct (NewSpan_body_ok _ _ _ _ _ Hok0 Hbody) as [Hok' Hr].
  destruct r as [a|]; [|done]. split; [done|]. by apply Hr.
Qed.

Lemma PageHeap_NewSpan_ok fuel idx k w span w' :
  heap_ok w → PageHeap.NewSpan fuel idx k w = Done span w' →
  heap_ok w' ∧ (span = 0 ∨ field_of w' span Span._isUse = Some true).
Proof.
  intros Hok Hrun. unfold PageHeap.NewSpan in Hrun.
  step Hrun as sp w1 H1. apply (NewSpan_ok _ _ _ _ _ _ Hok) in H1 as [Hok1 Hsp].
  step Hrun as u2 w2 H2. injection Hrun as <- <-.
  destruct (Z.eqb_spec sp 0) as [->|Hne].
  - injection H2 as _ <-. split; [done|by left].
  - apply (wr_flags_ok _ _ _ _ _ Hok1) in H2 as (Hok2 & _ & Hu); [|done].
    split; [done|]. right. rewrite Hu. by destruct Hsp.
Qed.

(** *** Reclaiming *)

Lemma pop_idle x w :
  (is_Some (spans w !! x) → held x w ∧ field_of w x Span._isUse = Some false) →
  is_Some (spans w !! x) → idle x w.
Proof. intros Hh Hl. destruct (Hh Hl) as [(? & ? & ?) ?]. by split. Qed.

Lemma ReleaseSpanToCold_ok this span w u w' :
  (is_Some (spans w !! span) → idle span w) →
  PageCacheShard.ReleaseSpanToCold this span w = Done u w' →
  heap_ok w'.
Proof.
  intros Hidle Hrun. unfold PageCacheShard.ReleaseSpanToCold in Hrun.
  step Hrun as n w1 H1. apply rd_live in H1 as [-> Hlive]. specialize (Hidle Hlive).
  step Hrun as u2 w2 H2. keep Hidle H2. clear H2 Hlive w.
  step Hrun as u3 w3 H3. apply (wr_idle_ok _ _ _ _ _ Hidle) in H3; [|done]. clear Hidle w2.
  step Hrun as pid w4 H4. apply rd_live in H4 as [-> _].
  step Hrun as n' w5 H5. apply rd_live in H5 as [-> _].
  step Hrun as u6 w6 H6. keep H3 H6. clear H6 w3.
  step Hrun as n'' w7 H7. apply rd_live in H7 as [-> _].
  destruct (n'' <? NPAGES).
  - step Hrun as m w8 H8. apply rd_live in H8 as [-> _]. by eapply small_PushFront_idle.
  - step Hrun as m w8 H8. apply rd_live in H8 as [-> _]. by eapply large_PushFront_idle.
Qed.

Lemma reclaim_large_body_ok this w r w' :
  heap_ok w → PageCacheShard.reclaim_large_body this w = Done r w' → heap_ok w'.
Proof.
  intros Hok Hrun. unfold PageCacheShard.reclaim_large_body in Hrun.
  step Hrun as sh w1 H1. apply this_shard_Done in H1 as [-> _].
  destruct (_ && _); [|by injection Hrun as _ <-].
  step Hrun as it w2 H2. keep Hok H2. clear H2 w.
  destruct (Span.Empty _).
  - step Hrun as u3 w3 H3. injection Hrun as _ <-. by eapply large_erase_ok.
  - step Hrun as span w3 H3.
    apply (large_PopFront_held _ _ _ _ _ _ Hok) in H3 as [Hok3 Hheld].
    destruct (span =? 0); [by injection Hrun as _ <-|].
    step Hrun as u4 w4 H4. injection Hrun as _ <-.
    eapply ReleaseSpanToCold_ok; [|exact H4]. by apply pop_idle.
Qed.

Lemma reclaim_small_body_ok this i w r w' :
  heap_ok w → PageCacheShard.reclaim_small_body this i w = Done r w' → heap_ok w'.
Proof.
  intros Hok Hrun. unfold PageCacheShard.reclaim_small_body in Hrun.
  step Hrun as sh w1 H1. apply this_shard_Done in H1 as [-> _].
  step Hrun as l w2 H2. keep Hok H2. clear H2 w.
  destruct (_ && _); [|by injection Hrun as _ <-].
  step Hrun as span w3 H3.
  apply (small_PopFront_held _ _ _ _ _ _ Hok) in H3 as [Hok3 Hheld].
  step Hrun as u4 w4 H4. injection Hrun as _ <-.
  eapply ReleaseSpanToCold_ok; [|exact H4]. by apply pop_idle.
Qed.

Lemma loop_ok {B : Type} fuel (body : M (option B)) w a w' :
  (∀ w r w', heap_ok w → body w = Done r w' → heap_ok w') →
  heap_ok w → loop fuel body w = Done a w' → heap_ok w'.
Proof.
  intros Hbody Hok Hrun.
  apply (loop_Done heap_ok (λ _ w', heap_ok w') _ _ _ _ _) in Hrun; [done| |done].
  intros w0 r w0' Hok0 Hb. specialize (Hbody w0 r w0' Hok0 Hb). by destruct r.
Qed.

Lemma reclaim_small_ok fuel count this i w u w' :
  heap_ok w → PageCacheShard.reclaim_small fuel count this i w = Done u w' → heap_ok w'.
Proof.
  revert i w. induction count as [|count IH]; intros i w Hok Hrun.
  - by injection Hrun as _ <-.
  - cbn [PageCacheShard.reclaim_small] in Hrun.
    step Hrun as u1 w1 H1.
    apply (loop_ok _ _ _ _ _ (reclaim_small_body_ok this i) Hok) in H1.
    step Hrun as sh w2 H2. apply this_shard_Done in H2 as [-> _].
    destruct (_ <=? _); [by injection Hrun as _ <-|]. by eapply IH.
Qed.

Lemma ReleaseSomeSpansToSystem_ok fuel this w u w' :
  heap_ok w → PageCacheShard.ReleaseSomeSpansToSystem fuel this w = Done u w' → heap_ok w'.
Proof.
  intros Hok Hrun. unfold PageCacheShard.ReleaseSomeSpansToSystem in Hrun.
  step Hrun as u1 w1 H1.
  apply (loop_ok _ _ _ _ _ (reclaim_large_body_ok this) Hok) in H1.
  step Hrun as sh w2 H2. apply this_shard_Done in H2 as [-> _].
  destruct (_ <? _); [|by injection Hrun as _ <-]. by eapply reclaim_small_ok.
Qed.

(** *** Coalescing *)

Lemma is_Some_field {B : Type} w x (field : Span.Span → B) :
  is_Some (field_of w x field) ↔ is_Some (spans w !! x).
Proof. unfold field_of. by rewrite fmap_is_Some. Qed.

Lemma wr_merging_flags span left x assign w u w' :
  merging span left w →
  (∀ s, Span._isUse (assign s) = Span._isUse s ∧ Span._isCold (assign s) = Span._isCold s) →
  wr x assign w = Done u w' →
  merging span left w'.
Proof.
  intros ((Hok & Hl & Hu) & Hll & Hne & Hs) Hkeep Hrun.
  destruct (wr_flags_ok x assign w u w' Hok (λ s _, Hkeep s) Hrun) as (Hok' & HL & Huse).
  unfold merging, inuse. rewrite HL, Huse. split_and!; try done.
  apply (is_Some_field w' left Span._isUse). rewrite Huse. by apply is_Some_field.
Qed.

Lemma filter_ne_sub (x : Z) (L L' : list Z) :
  L' ≡ₚ filter (λ y, y ≠ x) L → L' ⊆+ L ∧ x ∉ L'.
Proof.
  intros HL. split.
  - rewrite HL. apply sublist_submseteq, sublist_filter.
  - rewrite HL. intros [Hx _]%list_elem_of_filter. done.
Qed.

Lemma Span_Remove_merging span left w u w' :
  inuse span w → left ≠ span → is_Some (spans w !! left) →
  Span_Remove left w = Done u w' →
  merging span left w'.
Proof.
  intros (Hok & Hl & Hu) Hne Hs Hrun.
  destruct (Span_Remove_view left w u w' _ _ _ _ eq_refl Hrun) as (L' & Hv & HL).
  apply filter_ne_sub in HL as [Hsub Hleft].
  pose proof Hv as [= Hsp Hli _ _].
  unfold merging, inuse, field_of. rewrite Hsp, Hli. split_and!; try done.
  - eapply heap_ok_view; [exact Hv|]. by eapply ok_sub.
  - intros Hin. apply Hl. by eapply elem_of_submseteq.
Qed.

Lemma SpanPool_Delete_merging this span left w u w' :
  merging span left w → left ≠ 0 →
  SpanPool_Delete this left w = Done u w' →
  inuse span w'.
Proof.
  intros ((Hok & Hl & Hu) & Hll & Hne & Hs) H0 Hrun.
  destruct (SpanPool_Delete_view this left w u w' _ _ _ _ eq_refl H0 Hrun)
    as (s & P' & Hsl & Hv & HP).
  pose proof Hv as [= Hsp Hli _ _].
  unfold inuse, field_of. rewrite Hsp, Hli. split_and!; [|done|].
  - eapply heap_ok_view; [exact Hv|].
    eapply ok_perm; [by eapply (ok_delete Hok left s)|done|by symmetry].
  - by rewrite lookup_delete_ne.
Qed.

Lemma PageMap_get_Done id w v w' : PageMap_get id w = Done v w' → w' = w.
Proof. by intros [= _ <-]. Qed.

(** What the two loops share once a free neighbour has been found:
    it is unlinked before the span is extended over it. *)
Lemma merge_prefix_ok this span neighbour (rest : M (option unit)) w r w' :
  inuse span w →
  field_of w neighbour Span._isUse = Some false →
  (Span_Remove neighbour;;
   cold ← rd neighbour Span._isCold;
   (if negb cold then
      n ← rd neighbour Span._n;
      sub_totalFreePages this n
    else mret tt);;
   rest) w = Done r w' →
  ∃ w1, merging span neighbour w1 ∧ rest w1 = Done r w'.
Proof.
  intros Hin Hfree Hrun.
  assert (Hne : neighbour ≠ span).
  { intros ->. destruct Hin as (_ & _ & Hu). congruence. }
  assert (Hlive : is_Some (spans w !! neighbour)).
  { apply (is_Some_field w neighbour Span._isUse). by rewrite Hfree. }
  step Hrun as u1 w1 H1. apply (Span_Remove_merging _ _ _ _ _ Hin Hne Hlive) in H1.
  step Hrun as cold w2 H2. apply rd_live in H2 as [-> _].
  step Hrun as u3 w3 H3. keep H1 H3. clear H3 w1.
  by exists w3.
Qed.

Lemma rd_field {B : Type} span (field : Span.Span → B) w a w' :
  rd span field w = Done a w' → w' = w ∧ field_of w span field = Some a.
Proof.
  intros [-> (s & Hs & ->)]%rd_Done. split; [done|]. unfold field_of. by rewrite Hs.
Qed.

Lemma coalesce_left_ok this span w r w' :
  inuse span w → PageCacheShard.coalesce_left this span w = Done r w' → inuse span w'.
Proof.
  intros Hin Hrun. unfold PageCacheShard.coalesce_left in Hrun.
  step Hrun as pid w1 H1. apply rd_live in H1 as [-> _].
  step Hrun as leftSpan w2 H2. apply PageMap_get_Done in H2 as ->.
  destruct (Z.eqb_spec leftSpan 0) as [|H0]; [by injection Hrun as _ <-|].
  step Hrun as use w3 H3. apply rd_field in H3 as [-> Hfree].
  destruct use; [by injection Hrun as _ <-|].
  step Hrun as sid w4 H4. apply rd_live in H4 as [-> _].
  step Hrun as sh w5 H5. apply this_shard_Done in H5 as [-> _].
  destruct (negb _); [by injection Hrun as _ <-|].
  apply (merge_prefix_ok this span leftSpan _ _ _ _ Hin Hfree) in Hrun as (w6 & Hm & Hrun).
  clear Hin Hfree w.
  step Hrun as lpid w7 H7. apply rd_live in H7 as [-> _].
  step Hrun as u8 w8 H8. apply (wr_merging_flags _ _ _ _ _ _ _ Hm) in H8; [|done].
  step Hrun as n w9 H9. apply rd_live in H9 as [-> _].
  step Hrun as ln w10 H10. apply rd_live in H10 as [-> _].
  step Hrun as u11 w11 H11. apply (wr_merging_flags _ _ _ _ _ _ _ H8) in H11; [|done].
  step Hrun as u12 w12 H12. injection Hrun as _ <-.
  by eapply SpanPool_Delete_merging.
Qed.

Lemma coalesce_right_ok this span w r w' :
  inuse span w → PageCacheShard.coalesce_right this span w = Done r w' → inuse span w'.
Proof.
  intros Hin Hrun. unfold PageCacheShard.coalesce_right in Hrun.
  step Hrun as pid w1 H1. apply rd_live in H1 as [-> _].
  step Hrun as n0 w1 H1. apply rd_live in H1 as [-> _].
  step Hrun as rightSpan w2 H2. apply PageMap_get_Done in H2 as ->.
  destruct (Z.eqb_spec rightSpan 0) as [|H0]; [by injection Hrun as _ <-|].
  step Hrun as use w3 H3. apply rd_field in H3 as [-> Hfree].
  destruct use; [by injection Hrun as _ <-|].
  step Hrun as sid w4 H4. apply rd_live in H4 as [-> _].
  step Hrun as sh w5 H5. apply this_shard_Done in H5 as [-> _].
  destruct (negb _); [by injection Hrun as _ <-|].
  apply (merge_prefix_ok this span rightSpan _ _ _ _ Hin Hfree) in Hrun as (w6 & Hm & Hrun).
  clear Hin Hfree w.
  step Hrun as n w9 H9. apply rd_live in H9 as [-> _].
  step Hrun as rn w10 H10. apply rd_live in H10 as [-> _].
  step Hrun as u11 w11 H11. apply (wr_merging_flags _ _ _ _ _ _ _ Hm) in H11; [|done].
  step Hrun as u12 w12 H12. injection Hrun as _ <-.
  by eapply SpanPool_Delete_merging.
Qed.

(** *** Releasing *)

Lemma loop_inuse {B : Type} span fuel (body : M (option B)) w a w' :
  (∀ w r w', inuse span w → body w = Done r w' → inuse span w') →
  inuse span w → loop fuel body w = Done a w' → inuse span w'.
Proof.
  intros Hbody Hin Hrun.
  apply (loop_Done (inuse span) (λ _ w', inuse span w') _ _ _ _ _) in Hrun; [done| |done].
  intros w0 r w0' Hin0 Hb. specialize (Hbody w0 r w0' Hin0 Hb). by destruct r.
Qed.

Lemma wr_release span w u w' :
  inuse span w → wr span (Span.set_isUse false) w = Done u w' → idle span w'.
Proof.
  intros (Hok & Hl & Hu) Hrun.
  destruct (wr_view span _ w u w' _ _ _ _ eq_refl Hrun) as (s & Hs & Hv).
  split_and!.
  - eapply heap_ok_view; [exact Hv|]. eapply ok_write; [exact Hok|exact Hs|done..].
  - by injection Hv as _ -> _ _.
  - unfold field_of. injection Hv as -> _ _ _. by rewrite lookup_insert_eq.
Qed.

Lemma ReleaseSpan_ok fuel this span w u w' :
  inuse span w → PageCacheShard.ReleaseSpan fuel this span w = Done u w' → heap_ok w'.
Proof.
  intros Hin Hrun. unfold PageCacheShard.ReleaseSpan in Hrun.
  step Hrun as u1 w1 H1. apply (loop_inuse _ _ _ _ _ _ (coalesce_left_ok this span) Hin) in H1.
  step Hrun as u2 w2 H2. apply (loop_inuse _ _ _ _ _ _ (coalesce_right_ok this span) H1) in H2.
  clear Hin H1 w w1.
  step Hrun as u3 w3 H3. apply (wr_release _ _ _ _ H2) in H3.
  step Hrun as u4 w4 H4. apply (wr_idle_ok _ _ _ _ _ H3) in H4; [|done].
  clear H2 H3 w2 w3.
  step Hrun as pid w5 H5. apply rd_live in H5 as [-> _].
  step Hrun as u6 w6 H6. keep H4 H6. clear H6 w4.
  step Hrun as pid' w7 H7. apply rd_live in H7 as [-> _].
  step Hrun as n w8 H8. apply rd_live in H8 as [-> _].
  step Hrun as u9 w9 H9. keep H4 H9. clear H9 w6.
  step Hrun as n' w10 H10. apply rd_live in H10 as [-> _].
  step Hrun as u11 w11 H11.
  assert (Hok : heap_ok w11).
  { destruct (n' <? NPAGES).
    - step H11 as m w12 H12. apply rd_live in H12 as [-> _]. by eapply small_PushFront_idle.
    - step H11 as m w12 H12. apply rd_live in H12 as [-> _]. by eapply large_PushFront_idle. }
  clear H4 H11 w9.
  step Hrun as n'' w13 H13. apply rd_live in H13 as [-> _].
  step Hrun as u14 w14 H14. keep Hok H14. clear H14 w11.
  step Hrun as sh w15 H15. apply this_shard_Done in H15 as [-> _].
  destruct (_ <? _); [|by injection Hrun as _ <-].
  by eapply ReleaseSomeSpansToSystem_ok.
Qed.

Lemma PageHeap_ReleaseSpan_ok fuel span w u w' :
  heap_ok w → field_of w span Span._isUse = Some true →
  PageHeap.ReleaseSpan fuel span w = Done u w' → heap_ok w'.
Proof.
  intros Hok Hu Hrun. unfold PageHeap.ReleaseSpan in Hrun.
  destruct (span =? 0); [by injection Hrun as _ <-|].
  step Hrun as idx w1 H1. apply rd_live in H1 as [-> _].
  step Hrun as w2 w3 H2. injection H2 as <- <-.
  destruct (_ <=? _); [done|].
  eapply ReleaseSpan_ok; [|exact Hrun]. split_and!; [done| |done].
  intros Hl. destruct Hok as [_ Hlisted _ _ _ _ _].
  destruct (Hlisted span Hl) as (s & Hs & Hfalse).
  unfold field_of in Hu. rewrite Hs in Hu. cbn in Hu. congruence.
Qed.

End HeapInvFacts.

(** ** The page heap: cold spans are idle *)

Module ColdFacts.
Import State Machine Logic LogicFacts FrameFacts HeapSpec OkFacts ListedFacts HeapInvFacts.

Lemma concat_nils {B : Type} (ls : list (list B)) :
  Forall (λ l, l = []) ls → concat ls = [].
Proof. induction 1 as [|l ls -> _ IH]; [done|]. by rewrite concat_cons, IH. Qed.

Lemma shard_listed_new threshold id : shard_listed (new_shard threshold id) = [].
Proof.
  rewrite shard_listed_eq. cbn [new_shard _spanLists _largeSpanLists _releasedSpanLists
    _releasedLargeSpanLists]. unfold values. rewrite map_to_list_empty.
  rewrite (concat_nils (replicate _ _)); [done|].
  apply Forall_forall. by intros l [-> _]%elem_of_replicate.
Qed.

Lemma heap_ok_new_world nshards threshold answers :
  heap_ok (new_world nshards threshold answers).
Proof.
  assert (Hl : listed (new_world nshards threshold answers) = []).
  { unfold listed. apply concat_nils. apply Forall_forall.
    intros l (sh & -> & (i & -> & _)%list_elem_of_fmap)%list_elem_of_fmap.
    apply shard_listed_new. }
  assert (Hp : pools (new_world nshards threshold answers) = []).
  { unfold pools. apply concat_nils. apply Forall_forall.
    intros l (sh & -> & (i & -> & _)%list_elem_of_fmap)%list_elem_of_fmap. done. }
  unfold heap_ok. rewrite Hl, Hp. split.
  - intros x s. cbn [spans new_world]. by rewrite lookup_empty.
  - intros x Hx. by apply elem_of_nil in Hx.
  - apply NoDup_nil_2.
  - intros x Hx. by apply elem_of_nil in Hx.
  - apply NoDup_nil_2.
  - intros x s. cbn [spans new_world]. by rewrite lookup_empty.
  - done.
Qed.

Lemma reachable_ok w : reachable w → heap_ok w.
Proof.
  induction 1 as [nshards threshold answers
                 |w fuel idx k span w' _ IH Hrun
                 |w fuel span w' _ IH Huse Hrun
                 |w span assign w' _ IH Hkeep Hrun
                 |w w' _ IH Hs Hsh Ha].
  - apply heap_ok_new_world.
  - by destruct (PageHeap_NewSpan_ok _ _ _ _ _ _ IH Hrun).
  - by eapply PageHeap_ReleaseSpan_ok.
  - by destruct (wr_flags_ok _ _ _ _ _ IH Hkeep Hrun).
  - unfold heap_ok, listed, pools in *. by rewrite Hs, Hsh, Ha.
Qed.

(** *** The allocation paths stay within the reachable states *)

Lemma reachable_elsewhere {B : Type} (m : M B) w a w' :
  preserves spans m → preserves shards m → preserves span_arena m →
  reachable w → m w = Done a w' → reachable w'.
Proof.
  intros Hs Hsh Ha Hreach Hrun.
  eapply reach_elsewhere; [exact Hreach|by eapply Hs|by eapply Hsh|by eapply Ha].
Qed.

Ltac elsewhere H Hrun :=
  apply (λ Hs Hsh Ha, reachable_elsewhere _ _ _ _ Hs Hsh Ha H) in Hrun; [|frame_all..].

Lemma reachable_write span assign w u w' :
  reachable w →
  (∀ s, Span._isUse (assign s) = Span._isUse s ∧ Span._isCold (assign s) = Span._isCold s) →
  wr span assign w = Done u w' → reachable w'.
Proof. intros Hreach Hkeep Hrun. destruct u. by eapply reach_write. Qed.

(** The holder of a span in use marks it in use. *)
Lemma reachable_mark span w u w' :
  reachable w → field_of w span Span._isUse = Some true →
  wr span (Span.set_isUse true) w = Done u w' → reachable w'.
Proof.
  intros Hreach Hu Hrun. destruct u. eapply reach_write; [done| |done].
  intros s Hs. unfold field_of in Hu. rewrite Hs in Hu. injection Hu as Hu.
  split; [|done]. by rewrite Hu.
Qed.

Lemma reachable_NewSpan fuel idx k w span w' :
  reachable w → PageHeap.NewSpan fuel idx k w = Done span w' →
  reachable w' ∧ (is_Some (spans w' !! span) → field_of w' span Span._isUse = Some true).
Proof.
  intros Hreach Hrun. split; [by eapply reach_NewSpan|].
  destruct (PageHeap_NewSpan_ok _ _ _ _ _ _ (reachable_ok _ Hreach) Hrun) as [Hok [->|Hu]];
    [|done].
  intros [s Hs]. destruct Hok as [_ _ _ _ _ Hlive _]. apply Hlive in Hs. lia.
Qed.

Lemma reachable_GetOneSpan fuel t idx bucket size w span w' :
  reachable w → CentralCache.GetOneSpan fuel t idx bucket size w = Done span w' →
  reachable w'.
Proof.
  intros Hreach Hrun. unfold CentralCache.GetOneSpan in Hrun.
  step Hrun as w0 w1 H1. injection H1 as <- <-.
  step Hrun as l w2 H2. elsewhere Hreach H2.
  step Hrun as found w3 H3. elsewhere H2 H3.
  destruct found as [it|]; [by injection Hrun as _ <-|].
  step Hrun as kPages w4 H4. elsewhere H3 H4.
  step Hrun as sp w5 H5. apply (reachable_NewSpan _ _ _ _ _ _ H4) in H5 as [H5 Hu].
  step Hrun as u6 w6 H6.
  assert (Hlive : is_Some (spans w5 !! sp)).
  { unfold wr in H6. by destruct (spans w5 !! sp). }
  apply (reachable_mark _ _ _ _ H5 (Hu Hlive)) in H6.
  step Hrun as u7 w7 H7. apply (reachable_write _ _ _ _ _ H6) in H7; [|done].
  step Hrun as pid w8 H8. apply rd_live in H8 as [-> _].
  step Hrun as n w9 H9. apply rd_live in H9 as [-> _].
  step Hrun as u10 w10 H10. apply (reachable_write _ _ _ _ _ H7) in H10; [|done].
  by elsewhere H10 Hrun.
Qed.

Lemma reachable_FetchRangeObj fuel t idx n size w r w' :
  reachable w → CentralCache.FetchRangeObj fuel t idx n size w = Done r w' →
  reachable w'.
Proof.
  intros Hreach Hrun. unfold CentralCache.FetchRangeObj in Hrun.
  step Hrun as u1 w1 H1. elsewhere Hreach H1.
  step Hrun as span w2 H2. apply (reachable_GetOneSpan _ _ _ _ _ _ _ _ H1) in H2.
  destruct (span =? 0); [done|].
  step Hrun as start w3 H3. apply rd_live in H3 as [-> _].
  destruct (start =? 0); [done|].
  step Hrun as w4 w5 H5. injection H5 as <- <-.
  step Hrun as u6 w6 H6. apply (reachable_write _ _ _ _ _ H2) in H6; [|done].
  step Hrun as u7 w7 H7. elsewhere H6 H7.
  step Hrun as uc w8 H8. apply rd_live in H8 as [-> _].
  step Hrun as u9 w9 H9. apply (reachable_write _ _ _ _ _ H7) in H9; [|done].
  by injection Hrun as _ <-.
Qed.

Lemma reachable_Allocate fuel t idx cache size w r w' :
  reachable w → ThreadCache.Allocate fuel t idx cache size w = Done r w' →
  reachable w'.
Proof.
  intros Hreach Hrun. unfold ThreadCache.Allocate in Hrun.
  step Hrun as l w1 H1. elsewhere Hreach H1.
  destruct (negb _).
  - by elsewhere H1 Hrun.
  - unfold ThreadCache.FetchFromCentralCache in Hrun.
    step Hrun as l' w2 H2. elsewhere H1 H2.
    step Hrun as f w3 H3. apply (reachable_FetchRangeObj _ _ _ _ _ _ _ _ H2) in H3.
    destruct f as [[start end_] fetchNum].
    destruct (fetchNum <? 1); [done|]. destruct (1 <? fetchNum).
    + step Hrun as w4 w5 H5. injection H5 as <- <-.
      step Hrun as pushed w6 H6. elsewhere H3 H6.
      step Hrun as u7 w7 H7. injection H7 as _ <-. injection Hrun as _ <-.
      exact (reach_elsewhere w3 (with_memory pushed.2 w3) H3 eq_refl eq_refl eq_refl).
    + by injection Hrun as _ <-.
Qed.

(** Every state that [malloc] leaves is reachable if the one it found is. *)
Lemma reachable_malloc fuel t idx tls size w r w' :
  reachable w → ConcurrentAlloc.malloc fuel t idx tls size w = Done r w' →
  reachable w'.
Proof.
  intros Hreach Hrun. unfold ConcurrentAlloc.malloc in Hrun.
  destruct (MAX_BYTES <? size).
  - step Hrun as sp w1 H1. apply (reachable_NewSpan _ _ _ _ _ _ Hreach) in H1 as [H1 Hu].
    step Hrun as u2 w2 H2.
    assert (Hlive : is_Some (spans w1 !! sp)).
    { unfold wr in H2. by destruct (spans w1 !! sp). }
    specialize (Hu Hlive).
    assert (Hu2 : field_of w2 sp Span._isUse = Some true).
    { assert (Hp : preserves (λ w, field_of w sp Span._isUse) (wr sp (Span.set_objSize
                     (SizeUtils.RoundUp t size)))) by frame_all.
      by rewrite (Hp _ _ _ H2). }
    apply (reachable_write _ _ _ _ _ H1) in H2; [|done].
    step Hrun as u3 w3 H3. apply (reachable_mark _ _ _ _ H2 Hu2) in H3.
    by elsewhere H3 Hrun.
  - step Hrun as a w1 H1. injection Hrun as _ <-. by eapply reachable_Allocate.
Qed.

(** C7. In every state that the page heap reaches between two of its
    operations, however spans were issued, split, released, coalesced and
    reclaimed on the way, a span whose [_isCold] is set has [_isUse]
    clear. *)
Theorem cold_spans_are_idle w span s :
  reachable w →
  spans w !! span = Some s →
  Span._isCold s = true → Span._isUse s = false.
Proof.
  intros Hreach Hs. apply reachable_ok in Hreach as [Hcold _ _ _ _ _ _].
  by apply (Hcold span).
Qed.

Lemma cold_spans_are_idle_witness :
  ∃ w s,
    reachable w ∧ spans w !! 128 = Some s ∧
    Span._isCold s = true ∧ Span._isUse s = false.
Proof.
  assert (∃ w s, reachable w ∧ spans w !! 128 = Some s ∧ Span._isCold s = true)
    as (w & s & Hreach & Hs & Hcold).
  { eexists _, _. split; [|split].
    - eapply (reach_ReleaseSpan _ 2 128).
      + eapply (reach_ReleaseSpan _ 1 64).
        * eapply (reach_NewSpan _ 1 0 129).
          -- eapply (reach_NewSpan _ 1 0 129).
             ++ apply (reach_init 1 150 [8192000; 81920000]).
             ++ vm_compute. reflexivity.
          -- vm_compute. reflexivity.
        * vm_compute. reflexivity.
        * vm_compute. reflexivity.
      + vm_compute. reflexivity.
      + vm_compute. reflexivity.
    - vm_compute. reflexivity.
    - reflexivity. }
  exists w, s. split_and!; [done..|].
  exact (cold_spans_are_idle w 128 s Hreach Hs Hcold).
Defined.

End ColdFacts.

(** ** SizeUtils: what a request is rounded up to *)

Module SizeClassFacts.
Import SizeUtils SizeClasses SizeUtilsFacts.

Lemma class_size_mod8 (c : nat) : (c ≤ 1000)%nat → class_size c mod 8 = 0.
Proof.
  induction c as [|c IH]; intros Hc; simpl; [reflexivity|].
  pose proof (class_size_bounds c). specialize (IH ltac:(lia)).
  unfold _CalculateNextBlockSize.
  repeat case_match; rewrite wrap64_small by lia; Z.div_mod_to_equations; lia.
Qed.

Lemma RoundUp_tables_class n :
  1 ≤ n ≤ MAX_BYTES →
  ∃ c, 0 ≤ c < MAX_NFREELISTS ∧ in_class c n ∧ Index tables n = c ∧
       RoundUp tables n = class_size (Z.to_nat c).
Proof.
  intros Hn. destruct (Index_tables n Hn) as [Hin Hlt].
  exists (Index tables n). split; [destruct Hin; lia|]. split; [exact Hin|]. split; [reflexivity|].
  unfold RoundUp.
  assert ((MAX_BYTES <? n) = false) as -> by (apply Z.ltb_ge; lia).
  apply Size_tables. destruct Hin. lia.
Qed.

Lemma class_size_waste c n :
  0 ≤ c < 264 → in_class c n → 1 ≤ n →
  class_size (Z.to_nat c) - n < 8 ∨ 8 * (class_size (Z.to_nat c) - n) < n.
Proof.
  intros Hc (_ & Hle & Hprev) Hn.
  destruct Hprev as [->|Hprev]; [left; change (class_size (Z.to_nat 0)) with 8; lia|].
  assert (Hc1 : 1 ≤ c).
  { destruct (decide (c = 0)) as [->|]; [|lia].
    change (class_size (Z.to_nat (0 - 1))) with 8 in Hprev.
    change (class_size (Z.to_nat 0)) with 8 in Hle. lia. }
  replace (Z.to_nat c) with (S (Z.to_nat (c - 1))) in * by lia.
  cbn [class_size] in *. set (p := class_size (Z.to_nat (c - 1))) in *.
  pose proof (class_size_bounds (Z.to_nat (c - 1))) as Hb. fold p in Hb.
  clearbody p. unfold _CalculateNextBlockSize in *.
  repeat case_match; rewrite wrap64_small in * by lia; lia.
Qed.

(** X1. [RoundUp] of a byte count [n] of [1 .. MAX_BYTES] is a multiple of 8
    that holds [n] and is at most [MAX_BYTES]; it wastes fewer than 8
    bytes, or less than an eighth of [n]. *)
Theorem RoundUp_small_size n :
  1 ≤ n ≤ MAX_BYTES →
  n ≤ RoundUp tables n ≤ MAX_BYTES ∧
  RoundUp tables n mod 8 = 0 ∧
  (RoundUp tables n - n < 8 ∨ 8 * (RoundUp tables n - n) < n).
Proof.
  intros Hn. destruct (RoundUp_tables_class n Hn) as (c & Hc & Hin & _ & ->).
  unfold MAX_NFREELISTS in Hc.
  split; [split|split].
  - by destruct Hin as (_ & ? & _).
  - pose proof (class_size_mono_le (Z.to_nat c) 263) as Hm.
    rewrite class_size_last in Hm. lia.
  - apply class_size_mod8. lia.
  - apply class_size_waste; [lia|done|lia].
Qed.

Lemma RoundUp_small_size_witness :
  100 ≤ RoundUp tables 100 ≤ MAX_BYTES ∧
  RoundUp tables 100 mod 8 = 0 ∧
  (RoundUp tables 100 - 100 < 8 ∨ 8 * (RoundUp tables 100 - 100) < 100).
Proof. apply (RoundUp_small_size 100). unfold MAX_BYTES. lia. Defined.

(** X2. [Index] and [RoundUp] are monotone on [1 .. MAX_BYTES]: a larger
    request never gets a smaller class nor a smaller block. *)
Theorem size_classes_monotone n m :
  1 ≤ n → n ≤ m → m ≤ MAX_BYTES →
  Index tables n ≤ Index tables m ∧ RoundUp tables n ≤ RoundUp tables m.
Proof.
  intros Hn Hnm Hm.
  destruct (RoundUp_tables_class n ltac:(lia)) as (c & Hc & (_ & Hle & Hprev) & -> & ->).
  destruct (RoundUp_tables_class m ltac:(lia)) as (d & Hd & (_ & Hle' & Hprev') & -> & ->).
  unfold MAX_NFREELISTS in *.
  assert (Hcd : c ≤ d).
  { destruct (decide (c ≤ d)) as [|Hgt]; [done|exfalso].
    destruct Hprev as [->|Hprev]; [lia|].
    pose proof (class_size_mono_le (Z.to_nat d) (Z.to_nat (c - 1))). lia. }
  split; [done|]. apply class_size_mono_le; lia.
Qed.

Lemma size_classes_monotone_witness :
  Index tables 100 ≤ Index tables 5000 ∧ RoundUp tables 100 ≤ RoundUp tables 5000.
Proof. apply (size_classes_monotone 100 5000); unfold MAX_BYTES; lia. Defined.

Lemma land_page_mask x :
  0 ≤ x < 2 ^ 64 → Z.land x PAGE_ROUND_UP_NUM_NEGATE = 8192 * (x / 8192).
Proof.
  intros Hx.
  change PAGE_ROUND_UP_NUM_NEGATE with (Z.shiftl (Z.ones 51) 13).
  replace (8192 * (x / 8192)) with (Z.shiftl (Z.shiftr x 13) 13)
    by (rewrite Z.shiftl_mul_pow2, Z.shiftr_div_pow2 by lia; change (2 ^ 13) with 8192; lia).
  apply Z.bits_inj'. intros i Hi.
  rewrite Z.land_spec, !Z.shiftl_spec by done.
  destruct (Z.ltb_spec i 13) as [Hlt|Hge].
  - rewrite !(Z.testbit_neg_r _ (i - 13)) by lia. by rewrite andb_false_r.
  - rewrite Z.shiftr_spec by lia. replace (i - 13 + 13) with i by lia.
    destruct (Z.ltb_spec i 64) as [Hlt|Hge'].
    + rewrite Z.ones_spec_low by lia. by rewrite andb_true_r.
    + rewrite Z.ones_spec_high by lia. rewrite andb_false_r.
      symmetry. apply Z.bits_above_log2; [lia|].
      destruct (decide (x = 0)) as [->|]; [simpl; lia|].
      apply Z.log2_lt_pow2; [lia|].
      assert (2 ^ 64 ≤ 2 ^ i) by (apply Z.pow_le_mono_r; lia). lia.
Qed.

Lemma RoundUpToPage_spec n :
  0 ≤ n → n ≤ 2 ^ 64 - PAGE_SIZE →
  RoundUpToPage n = PAGE_SIZE * ((n + PAGE_SIZE - 1) / PAGE_SIZE).
Proof.
  intros Hlo Hhi. unfold RoundUpToPage.
  change PAGE_SIZE with 8192 in *. change PAGE_ROUND_UP_NUM with 8191.
  rewrite wrap64_small by lia. rewrite land_page_mask by lia.
  f_equal. f_equal. lia.
Qed.

(** X3. Above [MAX_BYTES], and as long as the sum does not wrap, [RoundUp]
    is a whole number of pages that holds [n] with less than a page to
    spare; [malloc] asks the page heap for exactly that many pages. *)
Theorem RoundUp_large_size t n :
  MAX_BYTES < n → n ≤ 2 ^ 64 - PAGE_SIZE →
  RoundUp t n mod PAGE_SIZE = 0 ∧
  n ≤ RoundUp t n < n + PAGE_SIZE ∧
  Z.shiftr (RoundUp t n) PAGE_SHIFT * PAGE_SIZE = RoundUp t n.
Proof.
  intros Hlo Hhi. unfold RoundUp.
  assert ((MAX_BYTES <? n) = true) as -> by (apply Z.ltb_lt; lia).
  unfold MAX_BYTES in Hlo. rewrite RoundUpToPage_spec by lia.
  change PAGE_SIZE with 8192 in *. change PAGE_SHIFT with 13.
  rewrite Z.shiftr_div_pow2 by lia. change (2 ^ 13) with 8192.
  pose proof (Z.div_mod (n + 8192 - 1) 8192 ltac:(lia)).
  pose proof (Z.mod_pos_bound (n + 8192 - 1) 8192 ltac:(lia)).
  split; [|split].
  - rewrite Z.mul_comm. apply Z.mod_mul. lia.
  - lia.
  - rewrite (Z.mul_comm 8192), Z.div_mul by lia. lia.
Qed.

Lemma RoundUp_large_size_witness :
  RoundUp tables 300000 mod PAGE_SIZE = 0 ∧
  300000 ≤ RoundUp tables 300000 < 300000 + PAGE_SIZE ∧
  Z.shiftr (RoundUp tables 300000) PAGE_SHIFT * PAGE_SIZE = RoundUp tables 300000.
Proof.
  apply (RoundUp_large_size tables 300000);
    unfold MAX_BYTES; change PAGE_SIZE with 8192; lia.
Defined.

End SizeClassFacts.

(** ** CentralCache: batches and spans per size class *)

Module PageNeedFacts.
Import SizeUtils SizeClasses SizeUtilsFacts SizeClassFacts CentralCache.

Lemma page_need_of_classes :
  forallb (λ c : nat,
             match CalculateFetchBatchSize (class_size c), CalculatePageNeed (class_size c) with
             | Some num, Some npage =>
                 (1 <=? num) && (num <=? 512) && (1 <=? npage) && (npage <=? 32)
                 && (class_size c <=? npage * PAGE_SIZE)
             | _, _ => false
             end) (seq 0 264) = true.
Proof. vm_compute. reflexivity. Qed.

(** X4. For the block size of every request of [1 .. MAX_BYTES] bytes, the
    batch [CalculateFetchBatchSize] computes is between 1 and 512 objects
    and the span [CalculatePageNeed] asks for has between 1 and 32 pages,
    enough for one object at least. *)
Theorem CalculatePageNeed_fits_an_object n :
  1 ≤ n ≤ MAX_BYTES →
  ∃ num npage,
    CalculateFetchBatchSize (RoundUp tables n) = Some num ∧ 1 ≤ num ≤ 512 ∧
    CalculatePageNeed (RoundUp tables n) = Some npage ∧ 1 ≤ npage ≤ 32 ∧
    RoundUp tables n ≤ npage * PAGE_SIZE.
Proof.
  intros Hn. destruct (RoundUp_tables_class n Hn) as (c & Hc & _ & _ & ->).
  unfold MAX_NFREELISTS in Hc.
  pose proof page_need_of_classes as Hall.
  rewrite forallb_forall in Hall.
  specialize (Hall (Z.to_nat c) ltac:(apply in_seq; lia)).
  destruct (CalculateFetchBatchSize _) as [num|]; [|done].
  destruct (CalculatePageNeed _) as [npage|]; [|done].
  rewrite !andb_true_iff, !Z.leb_le in Hall.
  exists num, npage. split_and!; try done; lia.
Qed.

Lemma CalculatePageNeed_fits_an_object_witness :
  ∃ num npage,
    CalculateFetchBatchSize (RoundUp tables 16) = Some num ∧ 1 ≤ num ≤ 512 ∧
    CalculatePageNeed (RoundUp tables 16) = Some npage ∧ 1 ≤ npage ≤ 32 ∧
    RoundUp tables 16 ≤ npage * PAGE_SIZE.
Proof. apply (CalculatePageNeed_fits_an_object 16). unfold MAX_BYTES. lia. Defined.

End PageNeedFacts.

(** ** PageMap: a store followed by lookups *)

Module PageMapRoundTrip.
Import PageMap PageMapSpec PageMapFacts.

(** X5. On a well-formed page map, whenever [set] of a page id returns,
    it leaves a well-formed map in which [get] of that id answers the
    span just stored and [get] of every other id answers what it did
    before. *)
Theorem set_then_get pm id span pm' :
  wf pm → 0 ≤ id → set pm id span = Some pm' →
  wf pm' ∧ get pm' id = span ∧
  ∀ id', 0 ≤ id' → id' ≠ id → get pm' id' = get pm id'.
Proof.
  intros Hwf Hid Hset.
  assert (Hlt : id < 2 ^ 35).
  { destruct (set_Some _ _ _ _ Hset) as (node & leaf & HR & _).
    pose proof (Z.div_mod id (2 ^ 23) ltac:(lia)) as Hdm.
    pose proof (Z.mod_pos_bound id (2 ^ 23) ltac:(lia)) as Hm. lia. }
  destruct (set_total pm id span Hwf) as (pm'' & Hset' & Hwf'); [lia|].
  assert (pm'' = pm') as -> by congruence.
  split_and!; [done|by eapply get_set_eq|].
  intros id' H0 Hne. eapply get_set_ne; [done|lia|done|done].
Qed.

Lemma set_then_get_witness :
  match set empty 1000 64 with
  | Some pm' =>
      wf pm' ∧ get pm' 1000 = 64 ∧
      ∀ id', 0 ≤ id' → id' ≠ 1000 → get pm' id' = get empty id'
  | None => False
  end.
Proof.
  destruct (set empty 1000 64) as [pm'|] eqn:E.
  - apply (set_then_get empty 1000 64 pm'); [apply wf_empty|lia|exact E].
  - revert E. vm_compute. discriminate.
Defined.

End PageMapRoundTrip.

(** ** PageHeap: the constructor and the routing of threads to shards *)

Module PageHeapCtorFacts.
Import State Machine PageHeap.

Lemma target_shards_range cores : 0 ≤ target_shards cores < 2 ^ 32.
Proof.
  unfold target_shards. destruct (cores =? 0); destruct (32 <=? _);
    apply Z.mod_pos_bound; lia.
Qed.

Lemma grow_shardCount_Some fuel a target r :
  0 ≤ a → target ≤ 2 ^ 32 → a = 0 ∨ 2 ^ (a - 1) < target →
  grow_shardCount fuel (2 ^ a) target = Some r →
  ∃ e, a ≤ e ≤ 32 ∧ r = 2 ^ e ∧ target ≤ 2 ^ e ∧ (e = 0 ∨ 2 ^ (e - 1) < target).
Proof.
  revert a. induction fuel as [|fuel IH]; intros a Ha Ht Hprev Hrun; [done|].
  assert (Ha32 : a ≤ 32).
  { destruct Hprev as [->|Hprev]; [lia|].
    destruct (decide (a ≤ 32)) as [|Hgt]; [done|exfalso].
    assert (2 ^ 32 ≤ 2 ^ (a - 1)) by (apply Z.pow_le_mono_r; lia). lia. }
  simpl in Hrun. destruct (Z.ltb_spec (2 ^ a) target) as [Hlt|Hge].
  - assert (Hnext : wrap64 (Z.shiftl (2 ^ a) 1) = 2 ^ (a + 1)).
    { rewrite Z.shiftl_mul_pow2 by lia. rewrite <- Z.pow_add_r by lia.
      apply wrap64_small. split; [lia|]. apply Z.pow_lt_mono_r; lia. }
    rewrite Hnext in Hrun.
    destruct (IH (a + 1)) as (e & He & Hr & Hle & Hmin); [lia|done| |done|].
    { right. by replace (a + 1 - 1) with a by lia. }
    exists e. split_and!; [lia|lia|done|done|done].
  - injection Hrun as <-. exists a. split_and!; [lia|done|done|lia|done].
Qed.

Lemma grow_shardCount_total fuel a target :
  0 ≤ a → target ≤ 2 ^ 32 → a = 0 ∨ 2 ^ (a - 1) < target →
  33 ≤ a + Z.of_nat fuel →
  is_Some (grow_shardCount fuel (2 ^ a) target).
Proof.
  revert a. induction fuel as [|fuel IH]; intros a Ha Ht Hprev Hfuel.
  - exfalso. destruct Hprev as [->|Hprev]; [lia|].
    assert (2 ^ 32 ≤ 2 ^ (a - 1)) by (apply Z.pow_le_mono_r; lia). lia.
  - assert (Ha32 : a ≤ 32).
    { destruct Hprev as [->|Hprev]; [lia|].
      destruct (decide (a ≤ 32)) as [|Hgt]; [done|exfalso].
      assert (2 ^ 32 ≤ 2 ^ (a - 1)) by (apply Z.pow_le_mono_r; lia). lia. }
    simpl. destruct (Z.ltb_spec (2 ^ a) target) as [Hlt|Hge]; [|done].
    assert (Hnext : wrap64 (Z.shiftl (2 ^ a) 1) = 2 ^ (a + 1)).
    { rewrite Z.shiftl_mul_pow2 by lia. rewrite <- Z.pow_add_r by lia.
      apply wrap64_small. split; [lia|]. apply Z.pow_lt_mono_r; lia. }
    rewrite Hnext. apply IH; [lia|done| |lia].
    right. by replace (a + 1 - 1) with a by lia.
Qed.

Lemma shardThreshold_default totalRam count :
  0 ≤ totalRam → 1 ≤ count →
  ∃ thr, shardThreshold totalRam count None = Some thr ∧ 4096 ≤ thr ≤ 524288.
Proof.
  intros Hram Hc. unfold shardThreshold.
  assert ((count =? 0) = false) as -> by (apply Z.eqb_neq; lia).
  eexists. split; [reflexivity|].
  set (bytes := if _ <? totalRam / 4 then _ else _).
  assert (Hb : 0 ≤ bytes ≤ 4 * 1024 * 1024 * 1024).
  { subst bytes. pose proof (Z.div_pos totalRam 4).
    destruct (Z.ltb_spec (4 * 1024 * 1024 * 1024) (totalRam / 4)); lia. }
  rewrite Z.shiftr_div_pow2 by (unfold PAGE_SHIFT; lia).
  change (2 ^ PAGE_SHIFT) with 8192.
  assert (Hp : 0 ≤ bytes / 8192 ≤ 524288).
  { split; [apply Z.div_pos; lia|]. apply Z.div_le_upper_bound; lia. }
  assert (Hq : bytes / 8192 / count ≤ 524288).
  { apply Z.div_le_upper_bound; nia. }
  destruct (Z.ltb_spec (bytes / 8192 / count) 4096); lia.
Qed.

(** X6. The constructor of [PageHeap], whatever the machine has: the loop
    ends on a shard count that is the least power of two holding the
    target, one shard record is built per index, [GetShardIndex] of any
    hash names one of them, and without the environment variable every
    shard's release threshold is between 4096 and 524288 pages. *)
Theorem PageHeap_shard_routing cores totalRam env :
  0 ≤ cores < 2 ^ 32 → 0 ≤ totalRam →
  ∃ count mask shards e,
    PageHeap 33 cores totalRam env = Some (count, mask, shards) ∧
    count = 2 ^ e ∧ 0 ≤ e ≤ 32 ∧
    target_shards cores ≤ count ∧ (count = 1 ∨ count < 2 * target_shards cores) ∧
    length shards = Z.to_nat count ∧
    (∀ tidHash, 0 ≤ tidHash → is_Some (shards !! Z.to_nat (GetShardIndex tidHash mask))) ∧
    (env = None → ∀ sh, sh ∈ shards → 4096 ≤ _releaseThreshold sh ≤ 524288).
Proof.
  intros Hcores Hram. pose proof (target_shards_range cores) as Ht.
  destruct (grow_shardCount_total 33 0 (target_shards cores)) as [count Hgrow];
    [lia|lia|by left|lia|].
  change (2 ^ 0) with 1 in Hgrow.
  destruct (grow_shardCount_Some 33 0 (target_shards cores) count)
    as (e & He & -> & Hle & Hmin); [lia|lia|by left|done|].
  assert (Hpos : 1 ≤ 2 ^ e) by (pose proof (Z.pow_pos_nonneg 2 e); lia).
  assert (Hthr : ∃ thr, shardThreshold totalRam (2 ^ e) env = Some thr ∧
                        (env = None → 4096 ≤ thr ≤ 524288)).
  { destruct env as [val|].
    - unfold shardThreshold.
      assert ((2 ^ e =? 0) = false) as -> by (apply Z.eqb_neq; lia).
      eexists. by split.
    - destruct (shardThreshold_default totalRam (2 ^ e)) as (thr & Hthr & ?); [done..|].
      exists thr. by split. }
  destruct Hthr as (thr & Hthr & Hbound).
  unfold PageHeap. rewrite Hgrow. cbn. rewrite Hthr. cbn.
  eexists _, _, _, e. split; [reflexivity|].
  split_and!; [done|lia|lia|done| | | |].
  - destruct Hmin as [->|Hmin]; [by left|].
    destruct (decide (e = 0)) as [->|He0]; [by left|right].
    replace e with (e - 1 + 1) at 1 by lia. rewrite Z.pow_add_r by lia.
    change (2 ^ 1) with 2. lia.
  - by rewrite length_fmap, length_seq.
  - intros h Hh. apply lookup_lt_is_Some. rewrite length_fmap, length_seq.
    unfold GetShardIndex. rewrite wrap64_small.
    2:{ split; [lia|]. assert (2 ^ e ≤ 2 ^ 32) by (apply Z.pow_le_mono_r; lia). lia. }
    replace (2 ^ e - 1) with (Z.ones e) by (rewrite Z.ones_equiv; lia).
    rewrite Z.land_ones by lia.
    pose proof (Z.mod_pos_bound h (2 ^ e)). lia.
  - intros Henv sh Hsh. apply list_elem_of_fmap in Hsh as (i & -> & _).
    cbn. by apply Hbound.
Qed.

Lemma PageHeap_shard_routing_witness :
  ∃ count mask shards e,
    PageHeap 33 12 (2 ^ 34) None = Some (count, mask, shards) ∧
    count = 2 ^ e ∧ 0 ≤ e ≤ 32 ∧
    target_shards 12 ≤ count ∧ (count = 1 ∨ count < 2 * target_shards 12) ∧
    length shards = Z.to_nat count ∧
    (∀ tidHash, 0 ≤ tidHash → is_Some (shards !! Z.to_nat (GetShardIndex tidHash mask))) ∧
    (@None Z = None → ∀ sh, sh ∈ shards → 4096 ≤ _releaseThreshold sh ≤ 524288).
Proof. apply (PageHeap_shard_routing 12 (2 ^ 34) None); lia. Defined.

(** X7. On a machine of at most 64 cores the constructor builds at most 256
    shards, so the 8-bit [_shardId] of each shard is its index in
    [_shards]. *)
Theorem shard_ids_are_indices fuel cores totalRam env count mask shards :
  0 ≤ cores ≤ 64 →
  PageHeap fuel cores totalRam env = Some (count, mask, shards) →
  count ≤ 256 ∧
  ∀ i sh, shards !! i = Some sh → State._shardId sh = Z.of_nat i.
Proof.
  intros Hcores Hrun. unfold PageHeap in Hrun.
  destruct (grow_shardCount _ _ _) as [c|] eqn:Hgrow; [|done]. cbn in Hrun.
  destruct (shardThreshold _ _ _) as [thr|]; [|done]. cbn in Hrun.
  injection Hrun as <- <- <-.
  assert (Ht : target_shards cores ≤ 256).
  { unfold target_shards. destruct (Z.eqb_spec cores 0) as [->|]; [done|].
    destruct (Z.leb_spec 32 cores); rewrite Z.mod_small; lia. }
  change 1 with (2 ^ 0) in Hgrow.
  apply grow_shardCount_Some in Hgrow as (e & He & -> & Hle & Hmin); [|lia|lia|by left].
  assert (H256 : 2 ^ e ≤ 256).
  { destruct Hmin as [->|Hmin]; [done|].
    destruct (decide (e ≤ 8)) as [|Hgt].
    - change 256 with (2 ^ 8). apply Z.pow_le_mono_r; lia.
    - assert (2 ^ 8 ≤ 2 ^ (e - 1)) by (apply Z.pow_le_mono_r; lia). lia. }
  split; [done|]. intros i sh Hsh.
  apply list_lookup_fmap_Some in Hsh as (j & -> & Hj).
  apply lookup_seq in Hj as [-> Hlt]. cbn. apply Z.mod_small. lia.
Qed.

Lemma shard_ids_are_indices_witness :
  ∃ count mask shards,
    PageHeap 33 8 (2 ^ 34) None = Some (count, mask, shards) ∧
    count ≤ 256 ∧
    ∀ i sh, shards !! i = Some sh → State._shardId sh = Z.of_nat i.
Proof.
  destruct (PageHeap 33 8 (2 ^ 34) None) as [[[count mask] shards]|] eqn:E.
  - exists count, mask, shards. split; [reflexivity|].
    apply (shard_ids_are_indices 33 8 (2 ^ 34) None count mask shards); [lia|exact E].
  - exfalso. revert E. vm_compute. discriminate.
Defined.

End PageHeapCtorFacts.

(** ** ThreadCache: freeing into the thread's lists *)

Module ThreadCacheFacts.
Import State Machine FreeList FreeListSpec FreeListFacts LogicFacts SizeUtilsFacts FallbackFacts.
Import HeapInvFacts.

Lemma Pop_Push l m nodes ptr l1 m1 :
  FreeList_repr m l nodes → Push l m ptr = Some (l1, m1) →
  m1 = <[ ptr := _head l ]> m ∧ _head l1 = ptr ∧ ptr ≠ 0 ∧
  _size l1 = wrap64 (_size l + 1) ∧ _maxSize l1 = _maxSize l ∧ _maxNum l1 = _maxNum l ∧
  Pop l1 m1 = Some (ptr, l).
Proof.
  intros (Hchain & Hsize & Htail) Hpush. unfold Push in Hpush.
  destruct (Z.eqb_spec ptr 0) as [|Hne]; [done|]. injection Hpush as <- <-.
  split_and!; try done. unfold Pop. cbn.
  assert ((ptr =? 0) = false) as -> by (by apply Z.eqb_neq).
  rewrite NextObj_insert_eq. f_equal. f_equal.
  pose proof (chain_length _ _ _ Hchain) as Hlen.
  destruct l as [h tl sz ms mn]. cbn in *. f_equal.
  - destruct (Z.eqb_spec h 0) as [->|Hh].
    + apply chain_head_null in Hchain as ->. done.
    + destruct (chain_head_nonnull _ _ _ Hchain Hh) as (rest & ->).
      destruct (last (h :: rest)) as [e|] eqn:Hlast.
      * pose proof (last_nonnull _ _ _ _ Hchain Hlast) as He. cbn in Htail. subst tl.
        by assert ((e =? 0) = false) as -> by (by apply Z.eqb_neq).
      * by apply last_None in Hlast.
  - unfold wrap64. rewrite Zminus_mod_idemp_l.
    replace (sz + 1 - 1) with sz by lia. apply Z.mod_small. lia.
Qed.

Lemma Deallocate_room_run fuel t cache ptr size w l l1 m1 :
  cache !! Z.to_nat (SizeUtils.Index t size) = Some l →
  Push l (memory w) ptr = Some (l1, m1) →
  0 ≤ _size l → _size l + 1 < wrap64 (_maxSize l + _maxNum l) →
  ThreadCache.Deallocate fuel t cache ptr size w
  = Done (<[ Z.to_nat (SizeUtils.Index t size) := l1 ]> cache) (with_memory m1 w).
Proof.
  intros Hl Hpush Hsize Hroom. unfold ThreadCache.Deallocate.
  assert ((ptr =? 0) = false) as Hptr.
  { unfold Push in Hpush. by destruct (ptr =? 0). }
  rewrite Hptr.
  rewrite bind_run, Hl. cbn [from_option]. rewrite ret_run. cbv beta iota.
  rewrite bind_run. unfold get_world at 1. cbv beta iota.
  rewrite bind_run, Hpush. cbn [from_option]. rewrite ret_run. cbv beta iota.
  rewrite bind_run. unfold put_world at 1. cbv beta iota. cbn [fst snd].
  unfold Push in Hpush. rewrite Hptr in Hpush. injection Hpush as <- <-.
  unfold FreeList.MaxSize, FreeList.MaxNum, FreeList.Size. cbn [_size _maxSize _maxNum].
  pose proof (wrap64_range (_maxSize l + _maxNum l)).
  rewrite (wrap64_small (_size l + 1)) by lia.
  by assert ((wrap64 (_maxSize l + _maxNum l) <=? _size l + 1) = false) as ->
    by (apply Z.leb_gt; lia).
Qed.

Lemma Allocate_pop_run fuel t idx cache size w l obj l' :
  cache !! Z.to_nat (SizeUtils.Index t size) = Some l →
  Pop l (memory w) = Some (obj, l') →
  ThreadCache.Allocate fuel t idx cache size w
  = Done (obj, <[ Z.to_nat (SizeUtils.Index t size) := l' ]> cache) w.
Proof.
  intros Hl Hpop. unfold ThreadCache.Allocate.
  rewrite bind_run, Hl. cbn [from_option]. rewrite ret_run. cbv beta iota.
  assert (FreeList.Empty l = false) as ->.
  { unfold Pop in Hpop. unfold FreeList.Empty. by destruct (_head l =? 0). }
  cbn [negb]. rewrite bind_run. unfold get_world at 1. cbv beta iota.
  rewrite bind_run, Hpop. cbn [from_option]. rewrite ret_run. cbv beta iota.
  reflexivity.
Qed.

(** X8. [Deallocate] of an object on a list that has room for it, followed
    by [Allocate] of the same size: both complete without a call of the
    central cache, [Allocate] returns the object just freed, and the
    thread cache is as it was before the two calls; only the first word
    of the object has been written. *)
Theorem Deallocate_then_Allocate fuel t idx cache ptr size l nodes w :
  cache !! Z.to_nat (SizeUtils.Index t size) = Some l →
  FreeList_repr (memory w) l nodes →
  ptr ≠ 0 →
  _size l + 1 < wrap64 (_maxSize l + _maxNum l) →
  ∃ cache1,
    ThreadCache.Deallocate fuel t cache ptr size w
      = Done cache1 (with_memory (<[ ptr := _head l ]> (memory w)) w) ∧
    ThreadCache.Allocate fuel t idx cache1 size
        (with_memory (<[ ptr := _head l ]> (memory w)) w)
      = Done (ptr, cache) (with_memory (<[ ptr := _head l ]> (memory w)) w).
Proof.
  intros Hl Hrepr Hptr Hroom.
  destruct (Push l (memory w) ptr) as [[l1 m1]|] eqn:Hpush; cycle 1.
  { unfold Push in Hpush. by destruct (Z.eqb_spec ptr 0). }
  destruct (Pop_Push _ _ _ _ _ _ Hrepr Hpush) as (-> & _ & _ & _ & _ & _ & Hpop).
  assert (Hlen : (Z.to_nat (SizeUtils.Index t size) < length cache)%nat)
    by (by eapply lookup_lt_Some).
  assert (Hsize : 0 ≤ _size l) by (destruct Hrepr as (_ & -> & _); lia).
  exists (<[ Z.to_nat (SizeUtils.Index t size) := l1 ]> cache). split.
  - by apply Deallocate_room_run with l.
  - rewrite (Allocate_pop_run fuel t idx _ size _ l1 ptr l).
    + by rewrite list_insert_insert_eq, list_insert_id.
    + by apply list_lookup_insert_eq.
    + exact Hpop.
Qed.

Lemma Deallocate_then_Allocate_witness :
  ∃ cache1,
    ThreadCache.Deallocate 5 SizeUtils.tables [fresh 2; fresh 2] 4096 16 (new_world 1 4096 [])
      = Done cache1 (with_memory (<[ 4096 := 0 ]> ∅) (new_world 1 4096 [])) ∧
    ThreadCache.Allocate 5 SizeUtils.tables 0 cache1 16
        (with_memory (<[ 4096 := 0 ]> ∅) (new_world 1 4096 []))
      = Done (4096, [fresh 2; fresh 2]) (with_memory (<[ 4096 := 0 ]> ∅) (new_world 1 4096 [])).
Proof.
  apply (Deallocate_then_Allocate 5 SizeUtils.tables 0 [fresh 2; fresh 2] 4096 16
           (fresh 2) [] (new_world 1 4096 [])).
  - rewrite Index_tables_16. reflexivity.
  - repeat split.
  - lia.
  - vm_compute. reflexivity.
Defined.



End ThreadCacheFacts.

(** ** PageHeap: spans in the hands of callers and spans on free lists *)

Module IssueFacts.
Import State Machine Logic LogicFacts HeapSpec OkFacts HeapInvFacts ColdFacts.

(** X10. In a state reached through the page heap's operations, the span
    [NewSpan] returns is in use, not cold, linked in no free list of any
    shard and not in a span pool. *)
Theorem issued_span_is_on_no_list fuel idx k w span w' :
  reachable w →
  PageHeap.NewSpan fuel idx k w = Done span w' →
  span ≠ 0 →
  field_of w' span Span._isUse = Some true ∧
  field_of w' span Span._isCold = Some false ∧
  (span ∉ listed w') ∧ (span ∉ pools w').
Proof.
  intros Hreach Hrun Hne. apply reachable_ok in Hreach.
  destruct (PageHeap_NewSpan_ok _ _ _ _ _ _ Hreach Hrun) as [Hok [?|Hu]]; [done|].
  destruct Hok as [Hcold Hlisted _ Hpool _ _ _].
  unfold field_of in *. destruct (spans w' !! span) as [s|] eqn:Hs; [|done].
  cbn in *. injection Hu as Hu. split_and!; [by rewrite Hu| | |].
  - f_equal. specialize (Hcold _ _ Hs). unfold cold_idle in Hcold.
    destruct (Span._isCold s); [|done]. rewrite Hcold in Hu; done.
  - intros Hin. destruct (Hlisted _ Hin) as (s' & Hs' & Hidle). congruence.
  - intros Hin. destruct (Hpool _ Hin) as [Hdead _]. congruence.
Qed.

Lemma issued_span_is_on_no_list_witness :
  match PageHeap.NewSpan 2 0 1 (new_world 1 4096 [8192000]) with
  | Done span w' =>
      field_of w' span Span._isUse = Some true ∧
      field_of w' span Span._isCold = Some false ∧
      (span ∉ listed w') ∧ (span ∉ pools w')
  | Raise _ => False
  end.
Proof.
  destruct (PageHeap.NewSpan 2 0 1 (new_world 1 4096 [8192000])) as [span w'|e] eqn:E.
  - apply (issued_span_is_on_no_list 2 0 1 (new_world 1 4096 [8192000]) span w');
      [apply reach_init|exact E|].
    intros ->. revert E. vm_compute. discriminate.
  - revert E. vm_compute. apply Done_not_Raise.
Defined.

(** X11. In every state reached through the page heap's operations, a span
    is linked at most once in the free lists of all shards together, a
    linked span is a live record that is not in use, and the records
    waiting in the span pools are distinct, dead and linked nowhere. *)
Theorem free_lists_hold_idle_spans_once w :
  reachable w →
  NoDup (listed w) ∧
  (∀ span, span ∈ listed w →
     ∃ s, spans w !! span = Some s ∧ Span._isUse s = false) ∧
  NoDup (pools w) ∧
  (∀ obj, obj ∈ pools w → spans w !! obj = None ∧ (obj ∉ listed w)).
Proof.
  intros Hreach. apply reachable_ok in Hreach as [_ Hlisted Hnd Hpool Hpnd _ _].
  split_and!; [done|done|done|].
  intros obj Hobj. destruct (Hpool _ Hobj) as [Hdead _]. split; [done|].
  intros Hin. destruct (Hlisted _ Hin) as (s & Hs & _). congruence.
Qed.

Lemma free_lists_hold_idle_spans_once_witness :
  match PageHeap.NewSpan 2 0 1 (new_world 1 4096 [8192000]) with
  | Done span w =>
      NoDup (listed w) ∧
      (∀ span, span ∈ listed w →
         ∃ s, spans w !! span = Some s ∧ Span._isUse s = false) ∧
      NoDup (pools w) ∧
      (∀ obj, obj ∈ pools w → spans w !! obj = None ∧ (obj ∉ listed w))
  | Raise _ => False
  end.
Proof.
  destruct (PageHeap.NewSpan 2 0 1 (new_world 1 4096 [8192000])) as [span w|e] eqn:E.
  - apply (free_lists_hold_idle_spans_once w).
    exact (reach_NewSpan _ _ _ _ _ _ (reach_init 1 4096 [8192000]) E).
  - revert E. vm_compute. apply Done_not_Raise.
Defined.

End IssueFacts.

(** ** CentralCache: slicing a span and serving a batch *)

Module CarveFacts.
Import State Machine Logic LogicFacts FreeListSpec FreeListFacts CentralSpec.
Import PageCacheFacts ListedFacts HeapInvFacts CentralCacheFacts.

Lemma objects_S start size c :
  objects start size (S c) = start :: objects (start + size) size c.
Proof.
  unfold objects. cbn [seq fmap list_fmap]. f_equal; [lia|].
  rewrite <- fmap_S_seq, <- list_fmap_compose.
  apply list_fmap_ext. intros i x _. cbn. lia.
Qed.

Lemma set_NextObj_Done obj v w u w' :
  CentralCache.set_NextObj obj v w = Done u w' →
  obj ≠ 0 ∧ w' = with_memory (<[ obj := v ]> (memory w)) w.
Proof.
  unfold CentralCache.set_NextObj. destruct (Z.eqb_spec obj 0); [done|].
  by intros [= _ <-].
Qed.

Lemma wr_Done span assign w u w' :
  wr span assign w = Done u w' →
  ∃ s, spans w !! span = Some s ∧ w' = with_spans (<[ span := assign s ]> (spans w)) w.
Proof.
  unfold wr. destruct (spans w !! span) as [s|]; [|done].
  intros [= _ <-]. by exists s.
Qed.

Lemma bucket_PushFront_Done bucket span w u w' :
  CentralCache.bucket_PushFront bucket span w = Done u w' →
  ∃ l, buckets w !! Z.to_nat bucket = Some l ∧
       w' = with_buckets (<[ Z.to_nat bucket := span :: l ]> (buckets w)) w.
Proof.
  unfold CentralCache.bucket_PushFront. destruct (buckets w !! Z.to_nat bucket) as [l|]; [|done].
  intros [= _ <-]. by exists l.
Qed.

Lemma slice_Done fuel size end_ tail w last w' :
  0 < size → 0 < tail → tail ≤ end_ → end_ + size < 2 ^ 64 →
  CentralCache.slice fuel size end_ tail (tail + size) w = Done last w' →
  ∃ c : nat,
    last = tail + Z.of_nat c * size ∧ last ≤ end_ < last + size ∧
    w' = with_memory (memory w') w ∧
    (∀ a, a < tail ∨ last ≤ a → memory w' !! a = memory w !! a) ∧
    chain (<[ last := 0 ]> (memory w')) tail (objects tail size (S c)).
Proof.
  intros Hsize. revert tail w.
  induction fuel as [|fuel IH]; intros tail w Htail Hle Hend Hrun; [done|].
  cbn [CentralCache.slice] in Hrun.
  destruct (Z.leb_spec (tail + size) end_) as [Hin|Hout].
  - step Hrun as u w1 H1. apply set_NextObj_Done in H1 as [_ ->].
    rewrite wrap64_small in Hrun by lia.
    apply IH in Hrun as (c & -> & Hlast & Hw & Hframe & Hchain); [|lia..].
    exists (S c). split; [lia|]. split; [lia|].
    split; [etrans; [exact Hw|]; by destruct w|]. split.
    + intros a Ha. rewrite Hframe by lia. cbn. apply lookup_insert_ne. lia.
    + rewrite objects_S. split; [done|]. split; [lia|].
      assert (NextObj (<[ tail + size + Z.of_nat c * size := 0 ]> (memory w')) tail
              = tail + size) as ->; [|done].
      unfold NextObj. rewrite lookup_insert_ne by lia. rewrite Hframe by lia.
      cbn. by rewrite lookup_insert_eq.
  - injection Hrun as <- <-. exists 0%nat.
    split; [lia|]. split; [lia|]. split; [by destruct w|]. split; [done|].
    rewrite objects_S. split; [done|]. split; [lia|]. apply NextObj_insert_eq.
Qed.

(** What a refill leaves: the span [NewSpan] issued, with its record
    and the page map as [NewSpan] left them but for the three fields
    [GetOneSpan] writes, and the memory as the slicing loop wrote it. *)
Lemma GetOneSpan_refill_Done fuel t idx bucket size w l span w' :
  buckets w !! Z.to_nat bucket = Some l →
  (∀ it s, it ∈ l → spans w !! it = Some s → Span._freeList s = 0) →
  CentralCache.GetOneSpan fuel t idx bucket size w = Done span w' →
  ∃ kPages w2 s0 w7 tail w8,
    CentralCache.CalculatePageNeed (SizeUtils.RoundUp t size) = Some kPages ∧
    PageHeap.NewSpan fuel idx kPages w = Done span w2 ∧
    spans w2 !! span = Some s0 ∧
    spans w' = <[ span := Span.set_freeList (wrap64 (Z.shiftl (Span._pageId s0) PAGE_SHIFT))
                            (Span.set_objSize (SizeUtils.RoundUp t size)
                               (Span.set_isUse true s0)) ]> (spans w2) ∧
    pagemap w' = pagemap w2 ∧
    CentralCache.slice fuel (SizeUtils.RoundUp t size)
      (wrap64 (wrap64 (wrap64 (Z.shiftl (Span._pageId s0) PAGE_SHIFT)
                       + wrap64 (Z.shiftl (Span._n s0) PAGE_SHIFT))
               - SizeUtils.RoundUp t size))
      (wrap64 (Z.shiftl (Span._pageId s0) PAGE_SHIFT))
      (wrap64 (wrap64 (Z.shiftl (Span._pageId s0) PAGE_SHIFT) + SizeUtils.RoundUp t size))
      w7 = Done tail w8 ∧
    memory w' = <[ tail := 0 ]> (memory w8).
Proof.
  intros Hl Hall Hrun.
  unfold CentralCache.GetOneSpan in Hrun.
  step Hrun as w0 w1 H1. injection H1 as <- <-.
  step Hrun as l0 w1 H1. rewrite Hl in H1. injection H1 as <- <-.
  step Hrun as found w1 H1.
  pose proof (find_span_none l w Hall) as Hf. unfold wp in Hf. rewrite H1 in Hf.
  destruct Hf as [-> ->]. clear H1. cbv beta iota in Hrun.
  step Hrun as kPages w1 H1.
  assert (w1 = w ∧ CentralCache.CalculatePageNeed (SizeUtils.RoundUp t size) = Some kPages)
    as [-> Hk].
  { destruct (CentralCache.CalculatePageNeed _); [by injection H1 as -> ->|done]. }
  clear H1.
  step Hrun as sp w2 H2.
  step Hrun as u3 w3 H3. apply wr_Done in H3 as (s0 & Hs0 & ->).
  step Hrun as u4 w4 H4. apply wr_Done in H4 as (s1 & Hs1 & ->).
  cbn [spans with_spans] in Hs1. rewrite lookup_insert_eq in Hs1. injection Hs1 as <-.
  step Hrun as pid w5 H5. apply rd_Done in H5 as (-> & s2 & Hs2 & ->).
  cbn [spans with_spans] in Hs2. rewrite lookup_insert_eq in Hs2. injection Hs2 as <-.
  step Hrun as n w6 H6. apply rd_Done in H6 as (-> & s3 & Hs3 & ->).
  cbn [spans with_spans] in Hs3. rewrite lookup_insert_eq in Hs3. injection Hs3 as <-.
  step Hrun as u7 w7 H7. apply wr_Done in H7 as (s4 & Hs4 & ->).
  cbn [spans with_spans] in Hs4. rewrite lookup_insert_eq in Hs4. injection Hs4 as <-.
  cbn [Span._pageId Span._n Span.set_objSize Span.set_isUse] in Hrun.
  step Hrun as tail w8 H8.
  step Hrun as u9 w9 H9. apply set_NextObj_Done in H9 as [_ ->].
  step Hrun as u10 w10 H10. apply bucket_PushFront_Done in H10 as (l10 & _ & ->).
  injection Hrun as <- <-.
  lazymatch type of H8 with
  | ?m _ = _ =>
      assert (Hp8 : preserves spans m) by (apply preserves_slice; intros; frame);
      assert (Hq8 : preserves pagemap m) by (apply preserves_slice; intros; frame)
  end.
  exists kPages, w2, s0. eexists _, tail, w8. split; [exact Hk|].
  split; [exact H2|]. split; [exact Hs0|].
  cbn [spans pagemap memory with_memory with_buckets].
  rewrite (Hp8 _ _ _ H8), (Hq8 _ _ _ H8).
  cbn [spans pagemap with_spans]. rewrite !insert_insert_eq.
  split; [reflexivity|]. split; [reflexivity|]. split; [exact H8|reflexivity].
Qed.

(** When [GetOneSpan] refills the bucket with a span whose pages lie in
    the address space and hold a block, the span carries the block size
    and its [_freeList] heads a null-terminated chain of the blocks of
    that size from the first byte of the span on: as many as fit in its
    pages, in address order. *)
Lemma refill_chain_of_extent fuel t idx bucket size w l span w' s :
  buckets w !! Z.to_nat bucket = Some l →
  (∀ it s, it ∈ l → spans w !! it = Some s → Span._freeList s = 0) →
  CentralCache.GetOneSpan fuel t idx bucket size w = Done span w' →
  spans w' !! span = Some s →
  0 < Span._pageId s → 0 ≤ Span._n s →
  (Span._pageId s + Span._n s) * PAGE_SIZE < 2 ^ 64 →
  0 < SizeUtils.RoundUp t size ≤ Span._n s * PAGE_SIZE →
  Span._objSize s = SizeUtils.RoundUp t size ∧
  Span._freeList s = Span._pageId s * PAGE_SIZE ∧
  chain (memory w') (Span._freeList s)
    (objects (Span._pageId s * PAGE_SIZE) (SizeUtils.RoundUp t size)
       (Z.to_nat (Span._n s * PAGE_SIZE / SizeUtils.RoundUp t size))).
Proof.
  intros Hl Hall Hrun Hs Hpid Hn Hend Hsize.
  destruct (GetOneSpan_refill_Done _ _ _ _ _ _ _ _ _ Hl Hall Hrun)
    as (kPages & w2 & s0 & w7 & tail & w8 & _ & _ & _ & Hs' & _ & H8 & Hm).
  rewrite Hs', lookup_insert_eq in Hs. injection Hs as <-. rewrite Hm. clear Hs' Hm.
  cbn [Span._pageId Span._n Span._objSize Span._freeList Span.set_freeList
       Span.set_objSize Span.set_isUse] in *.
  set (a := SizeUtils.RoundUp t size) in *.
  change PAGE_SIZE with 8192 in *. change PAGE_SHIFT with 13 in *.
  rewrite !Z.shiftl_mul_pow2 in * by lia. change (2 ^ 13) with 8192 in *.
  rewrite (wrap64_small (Span._pageId s0 * 8192)) in * by lia.
  rewrite (wrap64_small (Span._n s0 * 8192)) in * by lia.
  rewrite (wrap64_small (Span._pageId s0 * 8192 + Span._n s0 * 8192)) in * by lia.
  rewrite (wrap64_small (Span._pageId s0 * 8192 + Span._n s0 * 8192 - a)) in * by lia.
  rewrite (wrap64_small (Span._pageId s0 * 8192 + a)) in * by lia.
  split; [done|]. split; [done|].
  apply slice_Done in H8 as (c & -> & Hlast & _ & _ & Hchain); [|lia..].
  replace (Z.to_nat (Span._n s0 * 8192 / a)) with (S c); [done|].
  assert (Span._n s0 * 8192 / a = Z.of_nat c + 1); [|lia].
  symmetry. apply Z.div_unique with (Span._n s0 * 8192 - (Z.of_nat c + 1) * a); lia.
Qed.

Lemma find_span_hit pre span post w s :
  (∀ it, it ∈ pre → ∃ s', spans w !! it = Some s' ∧ Span._freeList s' = 0) →
  spans w !! span = Some s → Span._freeList s ≠ 0 →
  CentralCache.find_span (pre ++ span :: post) w = Done (Some span) w.
Proof.
  intros Hpre Hs Hfl. induction pre as [|it pre IH]; cbn [app CentralCache.find_span].
  - rewrite bind_run. unfold rd. rewrite Hs. cbv beta iota.
    by assert ((Span._freeList s =? 0) = false) as -> by (by apply Z.eqb_neq).
  - destruct (Hpre it) as (s' & Hs' & Hz); [by left|].
    rewrite bind_run. unfold rd at 1. rewrite Hs'. cbv beta iota. rewrite Hz. cbn [Z.eqb negb].
    apply IH. intros it' Hit'. apply Hpre. by right.
Qed.

Lemma collect_chain m steps n e post a :
  chain m e (e :: post) → 0 ≤ a → a + Z.of_nat (length post) < 2 ^ 64 →
  ∃ (k : nat) e',
    Z.of_nat k = Z.min (Z.of_nat steps) (Z.min (Z.max 0 (n - a)) (Z.of_nat (length post))) ∧
    CentralCache.collect m steps n e a = (e', a + Z.of_nat k) ∧
    last (take (S k) (e :: post)) = Some e'.
Proof.
  revert e post a. induction steps as [|steps IH]; intros e post a Hchain Ha Hlen.
  { exists 0%nat, e. split; [lia|]. split; [cbn; f_equal; lia|done]. }
  cbn [CentralCache.collect]. destruct Hchain as (_ & He & Hchain).
  destruct post as [|x post].
  { cbn in Hchain. rewrite Hchain. cbn [Z.eqb negb]. rewrite andb_false_r.
    exists 0%nat, e. split; [cbn [length]; lia|]. split; [f_equal; lia|done]. }
  pose proof Hchain as (Hx & Hxr & _). rewrite Hx.
  assert ((x =? 0) = false) as -> by (apply Z.eqb_neq; lia). cbn [negb]. rewrite andb_true_r.
  cbn [length] in Hlen.
  destruct (Z.ltb_spec a n) as [Hlt|Hge].
  - rewrite wrap64_small by lia.
    rewrite <- Hx in Hchain.
    destruct (IH x post (a + 1)) as (k & e' & Hk & Hrun & Hlast); [by rewrite <- Hx|lia|lia|].
    exists (S k), e'. split; [cbn [length]; lia|]. split.
    + rewrite Hrun. f_equal. lia.
    + by rewrite firstn_cons, last_cons, Hlast.
  - exists 0%nat, e. split; [lia|]. split; [f_equal; lia|done].
Qed.

(** [FetchRangeObj] when the bucket holds a span with free objects. *)
Lemma FetchRangeObj_hit_run fuel t idx n size w pre span post s e rest :
  buckets w !! Z.to_nat (SizeUtils.Index t size) = Some (pre ++ span :: post) →
  (∀ it, it ∈ pre → ∃ s', spans w !! it = Some s' ∧ Span._freeList s' = 0) →
  spans w !! span = Some s → span ≠ 0 →
  Span._freeList s = e →
  chain (memory w) e (e :: rest) →
  1 ≤ n →
  ∃ (k : nat) e' w',
    Z.of_nat k = Z.min (n - 1) (Z.of_nat (length rest)) ∧
    last (take (S k) (e :: rest)) = Some e' ∧
    CentralCache.FetchRangeObj fuel t idx n size w = Done (e, e', 1 + Z.of_nat k) w' ∧
    memory w' = <[ e' := 0 ]> (memory w) ∧
    spans w' = <[ span := Span.set_useCount (wrap64 (Span._useCount s + (1 + Z.of_nat k)))
                            (Span.set_freeList (NextObj (memory w) e') s) ]> (spans w) ∧
    buckets w' = buckets w ∧ shards w' = shards w ∧ os_requests w' = os_requests w ∧
    fetch_requests w' = (n, size) :: fetch_requests w.
Proof.
  intros Hb Hpre Hs Hne He Hchain Hn.
  pose proof Hchain as (_ & Her & _).
  pose proof (chain_length _ _ _ Hchain) as Hlen. cbn [length] in Hlen.
  destruct (collect_chain (memory w) (Z.to_nat n) n e rest 1) as (k & e' & Hk & Hcol & Hlast);
    [done|lia|lia|].
  assert (He' : e' ∈ e :: rest).
  { apply last_Some_elem_of in Hlast. by apply (subseteq_take (S k)). }
  pose proof (chain_nodes_ptr _ _ _ _ Hchain He') as He'r.
  exists k, e'. eexists. split; [lia|]. split; [exact Hlast|]. split.
  { unfold CentralCache.FetchRangeObj.
    rewrite bind_run. unfold CentralCache.log_fetch at 1. cbv beta iota.
    rewrite bind_run. unfold CentralCache.GetOneSpan.
    rewrite bind_run. unfold get_world at 1. cbv beta iota.
    cbn [buckets with_fetch_requests]. rewrite bind_run, Hb. cbn [from_option].
    rewrite FallbackFacts.ret_run. cbv beta iota.
    rewrite bind_run, (find_span_hit pre span post _ s);
      [|exact Hpre|exact Hs|rewrite He; lia]. cbv beta iota.
    rewrite FallbackFacts.ret_run. cbv beta iota.
    assert ((span =? 0) = false) as -> by (by apply Z.eqb_neq).
    rewrite bind_run. unfold rd at 1. cbn [spans with_fetch_requests]. rewrite Hs.
    cbv beta iota. rewrite He.
    assert ((e =? 0) = false) as -> by (apply Z.eqb_neq; lia).
    rewrite bind_run. unfold get_world at 1. cbv beta iota.
    cbn [memory with_fetch_requests]. rewrite Hcol. cbn [fst snd].
    rewrite bind_run. unfold wr at 1. cbn [spans with_fetch_requests]. rewrite Hs.
    cbv beta iota.
    rewrite bind_run. unfold CentralCache.set_NextObj at 1.
    assert ((e' =? 0) = false) as -> by (apply Z.eqb_neq; lia). cbv beta iota.
    rewrite bind_run. unfold rd at 1. cbn [spans with_spans with_memory].
    rewrite lookup_insert_eq. cbv beta iota.
    rewrite bind_run. unfold wr at 1. cbn [spans with_spans with_memory].
    rewrite lookup_insert_eq. cbv beta iota.
    rewrite FallbackFacts.ret_run. cbn [Span._useCount Span.set_freeList].
    reflexivity. }
  cbn [memory spans buckets shards os_requests fetch_requests
       with_spans with_memory with_fetch_requests].
  rewrite insert_insert_eq. split_and!; reflexivity.
Qed.

(** X14. When the first span of the bucket with a free object holds the
    chain [nodes], [FetchRangeObj] completes without the page heap: it
    hands out the first [min n (length nodes)] objects as a
    null-terminated chain, leaves the rest on the span, adds the number
    handed out to [_useCount] and logs the request. *)
Theorem FetchRangeObj_serves_from_bucket fuel t idx n size w pre span post s nodes :
  buckets w !! Z.to_nat (SizeUtils.Index t size) = Some (pre ++ span :: post) →
  (∀ it, it ∈ pre → ∃ s', spans w !! it = Some s' ∧ Span._freeList s' = 0) →
  spans w !! span = Some s → span ≠ 0 →
  chain (memory w) (Span._freeList s) nodes → nodes ≠ [] →
  1 ≤ n →
  ∃ end_ s' w',
    CentralCache.FetchRangeObj fuel t idx n size w
      = Done (Span._freeList s, end_, Z.min n (Z.of_nat (length nodes))) w' ∧
    last (take (Z.to_nat (Z.min n (Z.of_nat (length nodes)))) nodes) = Some end_ ∧
    chain (memory w') (Span._freeList s)
      (take (Z.to_nat (Z.min n (Z.of_nat (length nodes)))) nodes) ∧
    spans w' = <[ span := s' ]> (spans w) ∧
    Span._useCount s' = wrap64 (Span._useCount s + Z.min n (Z.of_nat (length nodes))) ∧
    chain (memory w') (Span._freeList s')
      (drop (Z.to_nat (Z.min n (Z.of_nat (length nodes)))) nodes) ∧
    buckets w' = buckets w ∧ shards w' = shards w ∧ os_requests w' = os_requests w ∧
    fetch_requests w' = (n, size) :: fetch_requests w.
Proof.
  intros Hb Hpre Hs Hne Hchain Hnodes Hn.
  destruct nodes as [|e rest]; [done|]. clear Hnodes.
  pose proof Hchain as (He & _ & _). rewrite He in Hchain.
  destruct (FetchRangeObj_hit_run fuel t idx n size w pre span post s e rest)
    as (k & e' & w' & Hk & Hlast & Hrun & Hm & Hs' & Hb' & Hsh' & Ho' & Hf'); [done..|].
  assert (Ha : Z.min n (Z.of_nat (length (e :: rest))) = 1 + Z.of_nat k)
    by (cbn [length]; lia).
  rewrite Ha, He. replace (Z.to_nat (1 + Z.of_nat k)) with (S k) by lia.
  rewrite <- (take_drop (S k) (e :: rest)) in Hchain.
  destruct (chain_cut _ _ _ _ _ Hchain Hlast) as [Hcut1 Hcut2].
  exists e'. eexists. exists w'. rewrite Hm.
  split; [exact Hrun|]. split; [exact Hlast|]. split; [exact Hcut1|].
  split; [exact Hs'|]. split; [reflexivity|]. split; [exact Hcut2|]. done.
Qed.

(** X21. [Allocate] on an empty list, when the bucket of the class holds a
    span with the free chain [nodes]: the batch asked for is
    [min (2 * _maxSize) _maxNum], which becomes the new [_maxSize]; the
    first object of the chain is returned and the rest of what was
    fetched, [min batch (length nodes) - 1] objects, is the thread's
    list afterwards.  The page heap is not called. *)
Theorem Allocate_refills_from_bucket fuel t idx cache size w l pre span post s nodes :
  cache !! Z.to_nat (SizeUtils.Index t size) = Some l →
  FreeList_repr (memory w) l [] →
  buckets w !! Z.to_nat (SizeUtils.Index t size) = Some (pre ++ span :: post) →
  (∀ it, it ∈ pre → ∃ s', spans w !! it = Some s' ∧ Span._freeList s' = 0) →
  spans w !! span = Some s → span ≠ 0 →
  chain (memory w) (Span._freeList s) nodes → nodes ≠ [] →
  1 ≤ ThreadCache.batchNum l →
  ∃ l' w',
    ThreadCache.Allocate fuel t idx cache size w
      = Done (Span._freeList s, <[ Z.to_nat (SizeUtils.Index t size) := l' ]> cache) w' ∧
    FreeList_repr (memory w') l'
      (take (Z.to_nat (Z.min (ThreadCache.batchNum l) (Z.of_nat (length nodes))) - 1)
         (tail nodes)) ∧
    FreeList._maxSize l' = ThreadCache.batchNum l ∧
    FreeList._maxNum l' = FreeList._maxNum l ∧
    fetch_requests w' = (ThreadCache.batchNum l, size) :: fetch_requests w ∧
    shards w' = shards w ∧ os_requests w' = os_requests w.
Proof.
  intros Hl Hrepr Hb Hpre Hs Hne Hchain Hnodes Hn.
  destruct nodes as [|e rest]; [done|]. clear Hnodes.
  pose proof Hchain as (He & Her & _). rewrite He in Hchain.
  set (batch := ThreadCache.batchNum l) in *.
  destruct (FetchRangeObj_hit_run fuel t idx batch size w pre span post s e rest)
    as (k & e' & w1 & Hk & Hlast & Hrun & Hm & Hs' & Hb' & Hsh' & Ho' & Hf'); [done..|].
  pose proof (chain_length _ _ _ Hchain) as Hlen. cbn [length] in Hlen.
  assert (Ha : Z.to_nat (Z.min batch (Z.of_nat (length (e :: rest)))) = S k)
    by (cbn [length]; lia).
  rewrite Ha, He. replace (S k - 1)%nat with k by lia. cbn [tail].
  rewrite <- (take_drop (S k) (e :: rest)) in Hchain.
  destruct (chain_cut _ _ _ _ _ Hchain Hlast) as [Hcut1 _].
  rewrite <- Hm in Hcut1. cbn [take] in Hcut1. destruct Hcut1 as (_ & _ & Hseg).
  destruct Hrepr as (Hhead & Hsize & Htail). cbn in Hhead, Hsize, Htail.
  assert (Hrepr1 : FreeList_repr (memory w1) (FreeList.SetMaxSize l batch) []).
  { split_and!; cbn; done. }
  assert (Hprefix :
    ThreadCache.Allocate fuel t idx cache size w
    = (let '(start, end_, fetchNum) := (e, e', 1 + Z.of_nat k) in
       if fetchNum <? 1 then raise Undefined
       else if 1 <? fetchNum then
         w ← get_world;
         pushed ← from_option
           (FreeList.PushRange (FreeList.SetMaxSize l batch) (memory w)
              (NextObj (memory w) start) end_ (wrap64 (fetchNum - 1)));
         put_world (with_memory pushed.2 w);;
         mret (start, <[ Z.to_nat (SizeUtils.Index t size) := pushed.1 ]> cache)
       else mret (start, <[ Z.to_nat (SizeUtils.Index t size)
                            := FreeList.SetMaxSize l batch ]> cache)) w1).
  { unfold ThreadCache.Allocate.
    rewrite bind_run, Hl. cbn [from_option]. rewrite FallbackFacts.ret_run. cbv beta iota.
    unfold FreeList.Empty. rewrite Hhead. cbn [Z.eqb negb].
    unfold ThreadCache.FetchFromCentralCache.
    rewrite bind_run, Hl. cbn [from_option]. rewrite FallbackFacts.ret_run. cbv beta iota zeta.
    fold batch. rewrite bind_run, Hrun. reflexivity. }
  rewrite Hprefix. clear Hprefix. cbv beta iota zeta.
  assert ((1 + Z.of_nat k <? 1) = false) as -> by (apply Z.ltb_ge; lia).
  destruct k as [|k].
  - cbn [Z.of_nat]. change (1 <? 1 + 0) with false. cbv iota.
    exists (FreeList.SetMaxSize l batch), w1.
    split; [reflexivity|]. split; [by rewrite take_0|]. done.
  - assert ((1 <? 1 + Z.of_nat (S k)) = true) as -> by (apply Z.ltb_lt; lia).
    assert (Hlast' : last (take (S k) rest) = Some e').
    { destruct rest as [|r rest]; [cbn [length] in Hk; lia|].
      rewrite firstn_cons in Hlast. rewrite (firstn_cons k r rest) in Hlast |- *.
      by rewrite last_cons_cons in Hlast. }
    assert (Hklen : (S k ≤ length rest)%nat) by lia.
    destruct (PushRange_repr (memory w1) (FreeList.SetMaxSize l batch) []
                (NextObj (memory w1) e) e' (wrap64 (1 + Z.of_nat (S k) - 1)) (take (S k) rest))
      as (l' & m' & Hpush & Hrepr'); [done|done|done| | |].
    { rewrite length_take, wrap64_small by lia. lia. }
    { intros x _ Hin. by apply elem_of_nil in Hin. }
    exists l', (with_memory m' w1).
    rewrite bind_run. unfold get_world at 1. cbv beta iota.
    rewrite bind_run, Hpush. cbn [from_option]. rewrite FallbackFacts.ret_run. cbv beta iota.
    rewrite bind_run. unfold put_world at 1. cbv beta iota. rewrite FallbackFacts.ret_run.
    cbn [fst snd memory shards os_requests fetch_requests with_memory].
    split; [reflexivity|]. rewrite app_nil_r in Hrepr'. split; [exact Hrepr'|].
    unfold FreeList.PushRange in Hpush. destruct (_ || _); [done|].
    injection Hpush as <- _. done.
Qed.

Lemma Allocate_refills_from_bucket_witness :
  ∃ l' w',
    ThreadCache.Allocate 5 SizeUtils.tables 0 [FreeList.fresh 512; FreeList.fresh 512] 16
      {| memory := {[ 8192 := 8208; 8208 := 8224; 8224 := 0 ]};
              spans := {[ 64 := Span.set_freeList 8192 Span.init ]};
              pagemap := PageMap.empty; shards := []; buckets := [[]; [64]];
              os_answers := []; os_requests := []; fetch_requests := []; span_arena := 128 |}
      = Done (8192, <[ Z.to_nat (SizeUtils.Index SizeUtils.tables 16) := l' ]>
                      [FreeList.fresh 512; FreeList.fresh 512]) w' ∧
    FreeList_repr (memory w') l'
      (take (Z.to_nat (Z.min (ThreadCache.batchNum (FreeList.fresh 512))
                         (Z.of_nat (length [8192; 8208; 8224]))) - 1)
         (tail [8192; 8208; 8224])) ∧
    FreeList._maxSize l' = ThreadCache.batchNum (FreeList.fresh 512) ∧
    FreeList._maxNum l' = FreeList._maxNum (FreeList.fresh 512) ∧
    fetch_requests w' = [(ThreadCache.batchNum (FreeList.fresh 512), 16)] ∧
    shards w' = [] ∧ os_requests w' = [].
Proof.
  refine (Allocate_refills_from_bucket 5 SizeUtils.tables 0
           [FreeList.fresh 512; FreeList.fresh 512] 16
           {| memory := {[ 8192 := 8208; 8208 := 8224; 8224 := 0 ]};
              spans := {[ 64 := Span.set_freeList 8192 Span.init ]};
              pagemap := PageMap.empty; shards := []; buckets := [[]; [64]];
              os_answers := []; os_requests := []; fetch_requests := []; span_arena := 128 |}
           (FreeList.fresh 512) [] 64 [] (Span.set_freeList 8192 Span.init)
           [8192; 8208; 8224] _ _ _ _ _ _ _ _ _).
  - rewrite SizeUtilsFacts.Index_tables_16. reflexivity.
  - split; [reflexivity|]. split; reflexivity.
  - rewrite SizeUtilsFacts.Index_tables_16. reflexivity.
  - intros it Hit. by apply elem_of_nil in Hit.
  - reflexivity.
  - lia.
  - cbn. split; [done|]. split; [lia|]. split; [reflexivity|]. split; [lia|].
    split; [reflexivity|]. split; [lia|]. reflexivity.
  - done.
  - vm_compute. discriminate.
Defined.

Lemma elem_of_objects x start size count :
  x ∈ objects start size count ↔ ∃ i : nat, (i < count)%nat ∧ x = start + Z.of_nat i * size.
Proof.
  unfold objects. rewrite list_elem_of_fmap. split.
  - intros (i & -> & Hi). apply elem_of_seq in Hi. exists i. split; [lia|done].
  - intros (i & Hi & ->). exists i. split; [done|]. apply elem_of_seq. lia.
Qed.

(** Every block of such a span lies within its pages, and the page map
    sends the page of the block's address to the span. *)
Lemma refill_objects_of_extent fuel t idx bucket size w l span w' s x :
  buckets w !! Z.to_nat bucket = Some l →
  (∀ it s, it ∈ l → spans w !! it = Some s → Span._freeList s = 0) →
  CentralCache.GetOneSpan fuel t idx bucket size w = Done span w' →
  spans w' !! span = Some s →
  0 < Span._pageId s → 0 ≤ Span._n s →
  (Span._pageId s + Span._n s) * PAGE_SIZE < 2 ^ 64 →
  0 < SizeUtils.RoundUp t size ≤ Span._n s * PAGE_SIZE →
  x ∈ objects (Span._pageId s * PAGE_SIZE) (SizeUtils.RoundUp t size)
        (Z.to_nat (Span._n s * PAGE_SIZE / SizeUtils.RoundUp t size)) →
  Span._pageId s * PAGE_SIZE ≤ x ∧
  x + SizeUtils.RoundUp t size ≤ (Span._pageId s + Span._n s) * PAGE_SIZE ∧
  PageMap.get (pagemap w') (Z.shiftr x PAGE_SHIFT) = span.
Proof.
  intros Hl Hall Hrun Hs Hpid Hn Hend Hsize Hx.
  destruct (GetOneSpan_refill_Done _ _ _ _ _ _ _ _ _ Hl Hall Hrun)
    as (kPages & w2 & s0 & w7 & tail & w8 & _ & H2 & Hs0 & Hs' & Hpm & _ & _).
  rewrite Hs', lookup_insert_eq in Hs. injection Hs as <-. rewrite Hpm. clear Hs' Hpm.
  cbn [Span._pageId Span._n Span.set_freeList Span.set_objSize Span.set_isUse] in *.
  pose proof (PageHeap_NewSpan_issues fuel idx kPages w) as Hi.
  unfold wp in Hi. rewrite H2 in Hi. destruct Hi as (s1 & Hs1 & Hle & Hmap).
  assert (s1 = s0) as -> by congruence.
  set (a := SizeUtils.RoundUp t size) in *.
  change PAGE_SIZE with 8192 in *. change PAGE_SHIFT with 13.
  apply elem_of_objects in Hx as (i & Hi & ->).
  assert (Hq : 0 ≤ Span._n s0 * 8192 / a) by (apply Z.div_pos; lia).
  assert (Hia : (Z.of_nat i + 1) * a ≤ Span._n s0 * 8192).
  { pose proof (Z.mul_div_le (Span._n s0 * 8192) a ltac:(lia)). nia. }
  split; [nia|]. split; [nia|].
  rewrite Z.shiftr_div_pow2 by lia. change (2 ^ 13) with 8192.
  set (p := (Span._pageId s0 * 8192 + Z.of_nat i * a) / 8192).
  assert (Hp : Span._pageId s0 ≤ p < Span._pageId s0 + Span._n s0).
  { subst p. split.
    - apply Z.div_le_lower_bound; nia.
    - apply Z.div_lt_upper_bound; nia. }
  rewrite <- (Hmap (p - Span._pageId s0)) by lia.
  f_equal. rewrite wrap64_small by nia. lia.
Qed.

Lemma FetchRangeObj_serves_from_bucket_witness :
  ∃ end_ s' w',
    CentralCache.FetchRangeObj 5 SizeUtils.tables 0 1 16
      {| memory := {[ 8192 := 8208; 8208 := 0 ]};
         spans := {[ 64 := Span.set_freeList 8192 Span.init ]};
         pagemap := PageMap.empty; shards := []; buckets := [[]; [64]];
         os_answers := []; os_requests := []; fetch_requests := []; span_arena := 128 |}
      = Done (8192, end_, Z.min 1 (Z.of_nat (length [8192; 8208]))) w' ∧
    last (take (Z.to_nat (Z.min 1 (Z.of_nat (length [8192; 8208])))) [8192; 8208]) = Some end_ ∧
    chain (memory w') 8192
      (take (Z.to_nat (Z.min 1 (Z.of_nat (length [8192; 8208])))) [8192; 8208]) ∧
    spans w' = <[ 64 := s' ]> {[ 64 := Span.set_freeList 8192 Span.init ]} ∧
    Span._useCount s' = wrap64 (0 + Z.min 1 (Z.of_nat (length [8192; 8208]))) ∧
    chain (memory w') (Span._freeList s')
      (drop (Z.to_nat (Z.min 1 (Z.of_nat (length [8192; 8208])))) [8192; 8208]) ∧
    buckets w' = [[]; [64]] ∧ shards w' = [] ∧ os_requests w' = [] ∧
    fetch_requests w' = [(1, 16)].
Proof.
  refine (FetchRangeObj_serves_from_bucket 5 SizeUtils.tables 0 1 16
           {| memory := {[ 8192 := 8208; 8208 := 0 ]};
              spans := {[ 64 := Span.set_freeList 8192 Span.init ]};
              pagemap := PageMap.empty; shards := []; buckets := [[]; [64]];
              os_answers := []; os_requests := []; fetch_requests := []; span_arena := 128 |}
           [] 64 [] (Span.set_freeList 8192 Span.init) [8192; 8208] _ _ _ _ _ _ _).
  - rewrite SizeUtilsFacts.Index_tables_16. reflexivity.
  - intros it Hit. by apply elem_of_nil in Hit.
  - reflexivity.
  - lia.
  - cbn. split; [done|]. split; [lia|]. split; [reflexivity|]. split; [lia|]. reflexivity.
  - done.
  - lia.
Defined.

End CarveFacts.

(** ** CentralCache: the pages of a new span are registered *)

Module RefillFacts.
Import State Machine Logic LogicFacts HeapSpec PageMapFacts PageCacheFacts.
Import ListedFacts HeapInvFacts CentralCacheFacts CarveFacts.

(** C6. When the bucket holds no span with a free object, [GetOneSpan]
    asks [NewSpan] for the [k >= 1] pages [CalculatePageNeed] computes
    and slices the span it gets.  Whenever it returns, the span is a
    live record with at most [k] pages, not null in a heap that is in
    order; the page map sends the [k] page ids from [_pageId] on to the
    span, and so every page id in [_pageId, _pageId + _n). *)
Theorem GetOneSpan_refill_registers_pages fuel t idx bucket size w l span w' :
  buckets w !! Z.to_nat bucket = Some l →
  (∀ it s, it ∈ l → spans w !! it = Some s → Span._freeList s = 0) →
  CentralCache.GetOneSpan fuel t idx bucket size w = Done span w' →
  pages_mapped w' span ∧
  ∃ k s,
    CentralCache.CalculatePageNeed (SizeUtils.RoundUp t size) = Some k ∧ 1 ≤ k ∧
    spans w' !! span = Some s ∧ Span._n s ≤ k ∧
    (∀ j, 0 ≤ j < k → PageMap.get (pagemap w') (wrap64 (Span._pageId s + j)) = span) ∧
    (heap_ok w → span ≠ 0).
Proof.
  intros Hl Hall Hrun.
  destruct (GetOneSpan_refill_Done fuel t idx bucket size w l span w' Hl Hall Hrun)
    as (k & w2 & s0 & w7 & tail & w8 & Hk & H2 & Hs0 & Hs' & Hpm & _ & _).
  pose proof (PageHeap_NewSpan_issues fuel idx k w) as Hi.
  unfold wp in Hi. rewrite H2 in Hi. destruct Hi as (s1 & Hs1 & Hn & Hmap).
  assert (s1 = s0) as -> by congruence.
  assert (Him : issued_mapped k span w').
  { eexists. rewrite Hs', lookup_insert_eq, Hpm. split; [reflexivity|].
    split; [exact Hn|exact Hmap]. }
  split; [by eapply issued_mapped_pages|].
  destruct Him as (s & Hs & Hns & Hmaps).
  exists k, s. split; [exact Hk|]. split.
  { revert Hk. unfold CentralCache.CalculatePageNeed.
    destruct (CentralCache.CalculateFetchBatchSize _) as [num|]; [|done].
    cbn. intros [= <-].
    pose proof (wrap64_range (num * SizeUtils.RoundUp t size)) as Hr.
    pose proof (Z.shiftr_nonneg (wrap64 (num * SizeUtils.RoundUp t size)) PAGE_SHIFT) as Hsh.
    destruct (Z.eqb_spec (Z.shiftr (wrap64 (num * SizeUtils.RoundUp t size)) PAGE_SHIFT) 0);
      lia. }
  split; [exact Hs|]. split; [exact Hns|]. split; [exact Hmaps|].
  intros Hok. destruct (PageHeap_NewSpan_ok fuel idx k w span w2 Hok H2) as [Hok2 _].
  pose proof (ok_live _ _ _ _ Hok2 span s0 Hs0). lia.
Qed.

Lemma GetOneSpan_refill_registers_pages_witness :
  match CentralCache.GetOneSpan 600 SizeUtils.tables 0 1 16 (new_world 2 4096 [8192000]) with
  | Done span w' =>
      pages_mapped w' span ∧
      ∃ k s,
        CentralCache.CalculatePageNeed (SizeUtils.RoundUp SizeUtils.tables 16) = Some k ∧
        1 ≤ k ∧
        spans w' !! span = Some s ∧ Span._n s ≤ k ∧
        (∀ j, 0 ≤ j < k →
              PageMap.get (pagemap w') (wrap64 (Span._pageId s + j)) = span) ∧
        span ≠ 0
  | Raise _ => False
  end.
Proof.
  destruct (CentralCache.GetOneSpan 600 SizeUtils.tables 0 1 16
              (new_world 2 4096 [8192000])) as [span w'|e] eqn:E.
  - destruct (GetOneSpan_refill_registers_pages 600 SizeUtils.tables 0 1 16
                (new_world 2 4096 [8192000]) [] span w')
      as (Hpages & k & s & Hk & Hk1 & Hs & Hn & Hmap & Hnz); [reflexivity| |exact E|].
    { intros it s Hit. by apply elem_of_nil in Hit. }
    split; [exact Hpages|]. exists k, s.
    split; [exact Hk|]. split; [exact Hk1|]. split; [exact Hs|]. split; [exact Hn|].
    split; [exact Hmap|]. apply Hnz. apply ColdFacts.heap_ok_new_world.
  - revert E. unfold CentralCache.GetOneSpan. rewrite SizeUtilsFacts.RoundUp_tables_16.
    vm_compute. apply Done_not_Raise.
Defined.

End RefillFacts.

(** ** PageCache: the round that falls back to the operating system *)

Module FallbackRound.
Import State Machine Logic LogicFacts PageMapSpec PageMapFacts FallbackFacts.
Import ListedFacts HeapInvFacts CarveFacts.

Lemma PageMap_set_Done id span w u w' :
  PageMap_set id span w = Done u w' →
  ∃ pm, PageMap.set (pagemap w) id span = Some pm ∧ w' = with_pagemap pm w.
Proof.
  unfold PageMap_set. destruct (PageMap.set _ _ _) as [pm|]; [|done].
  intros [= _ <-]. by exists pm.
Qed.

(** The third phase of [NewSpan] for a request below [NPAGES], whenever
    it returns. *)
Lemma NewSpan_system_small_Done this k w sh l ptr rest r w1 :
  k < NPAGES →
  shards w !! Z.to_nat this = Some sh →
  _spanLists sh !! Z.to_nat (NPAGES - 1) = Some l →
  os_answers w = ptr :: rest →
  PageCacheShard.NewSpan_system this k w = Done r w1 →
  ∃ bigSpan pool,
    r = PageCacheShard.Continues ∧
    (∃ more, os_requests w1 = more ++ (NPAGES - 1) :: os_requests w) ∧
    spans w1 = <[ bigSpan := Span.set_shardId (_shardId sh)
                               (Span.set_isCold false
                                  (Span.set_n (NPAGES - 1)
                                     (Span.set_pageId (Z.shiftr ptr PAGE_SHIFT) Span.init))) ]>
                 (spans w) ∧
    shards w1 !! Z.to_nat this =
      Some (with_totalFreePages (wrap64 (_totalFreePages sh + (NPAGES - 1)))
              (with_small false
                 (<[ Z.to_nat (NPAGES - 1) := bigSpan :: l ]> (_spanLists sh))
                 (with_spanPool pool sh))).
Proof.
  intros Hk Hsh Hlist Hans Hrun. unfold PageCacheShard.NewSpan_system in Hrun.
  destruct (Z.leb_spec NPAGES k); [lia|].
  step Hrun as p w0 H0. unfold SystemAlloc in H0. rewrite Hans in H0.
  destruct (_ || _); [done|]. injection H0 as <- <-.
  step Hrun as big w2 H2.
  destruct (SpanPool_New_run this (with_os rest ((NPAGES - 1) :: os_requests w) w) sh Hsh)
    as (big' & pool & w2' & Hnew & Hspans & Hsh2 & _ & Hreq & _).
  rewrite Hnew in H2. injection H2 as -> ->.
  cbn [spans os_requests with_os] in Hspans, Hreq.
  assert (Hlt : (Z.to_nat this < length (shards w2))%nat) by (by eapply lookup_lt_Some).
  step Hrun as u3 w3 H3. apply wr_Done in H3 as (s3 & Hs3 & ->).
  rewrite Hspans, lookup_insert_eq in Hs3. injection Hs3 as <-.
  step Hrun as u4 w4 H4. apply wr_Done in H4 as (s4 & Hs4 & ->).
  cbn [spans with_spans] in Hs4. rewrite lookup_insert_eq in Hs4. injection Hs4 as <-.
  step Hrun as u5 w5 H5. apply wr_Done in H5 as (s5 & Hs5 & ->).
  cbn [spans with_spans] in Hs5. rewrite lookup_insert_eq in Hs5. injection Hs5 as <-.
  step Hrun as sh6 w6 H6. apply this_shard_Done in H6 as (-> & Hsh6).
  cbn [shards with_spans] in Hsh6. rewrite Hsh2 in Hsh6. injection Hsh6 as <-.
  step Hrun as u7 w7 H7. apply wr_Done in H7 as (s7 & Hs7 & ->).
  cbn [spans with_spans] in Hs7. rewrite lookup_insert_eq in Hs7. injection Hs7 as <-.
  step Hrun as pid w8 H8. apply rd_Done in H8 as (-> & _).
  step Hrun as u9 w9 H9. apply PageMap_set_Done in H9 as (pm1 & _ & ->).
  step Hrun as pid' w10 H10. apply rd_Done in H10 as (-> & _).
  step Hrun as n w11 H11. apply rd_Done in H11 as (-> & _).
  step Hrun as u12 w12 H12. apply PageMap_set_Done in H12 as (pm2 & _ & ->).
  step Hrun as n' w13 H13. apply rd_Done in H13 as (-> & s13 & Hs13 & ->).
  cbn [spans with_spans with_pagemap] in Hs13. rewrite lookup_insert_eq in Hs13.
  injection Hs13 as <-.
  cbn [Span._n Span.set_shardId Span.set_isCold Span.set_n] in Hrun.
  step Hrun as u14 w14 H14.
  erewrite small_PushFront_run in H14 by first [exact Hsh2|exact Hlist].
  injection H14 as _ <-.
  step Hrun as n'' w15 H15. apply rd_Done in H15 as (-> & s15 & Hs15 & ->).
  cbn [spans with_spans with_pagemap with_shards] in Hs15. rewrite lookup_insert_eq in Hs15.
  injection Hs15 as <-.
  cbn [Span._n Span.set_shardId Span.set_isCold Span.set_n] in Hrun.
  step Hrun as u16 w16 H16. apply modify_shard_Done in H16 as (sh16 & Hsh16 & ->).
  cbn [shards with_shards] in Hsh16. rewrite list_lookup_insert_eq in Hsh16 by exact Hlt.
  injection Hsh16 as <-.
  injection Hrun as <- <-.
  exists big, pool. split; [done|].
  cbn [os_requests spans shards with_shards with_pagemap with_spans].
  rewrite Hreq, Hspans, !insert_insert_eq, list_insert_insert_eq.
  rewrite list_lookup_insert_eq by exact Hlt.
  split; [by exists []|]. split; reflexivity.
Qed.

(** A round of the loop of [NewSpan] on a shard without a candidate,
    whenever it returns. *)
Lemma NewSpan_body_falls_back this k w sh ptr rest r w1 :
  0 ≤ k < NPAGES →
  shards w !! Z.to_nat this = Some sh →
  (∀ i, k ≤ i < NPAGES → _spanLists sh !! Z.to_nat i = Some []) →
  (∀ i, k ≤ i < NPAGES → _releasedSpanLists sh !! Z.to_nat i = Some []) →
  (∀ key, k ≤ key → _releasedLargeSpanLists sh !! key = None) →
  os_answers w = ptr :: rest →
  PageCacheShard.NewSpan_body this k w = Done r w1 →
  ∃ bigSpan pool,
    r = None ∧
    (∃ more, os_requests w1 = more ++ (NPAGES - 1) :: os_requests w) ∧
    spans w1 = <[ bigSpan := Span.set_shardId (_shardId sh)
                               (Span.set_isCold false
                                  (Span.set_n (NPAGES - 1)
                                     (Span.set_pageId (Z.shiftr ptr PAGE_SHIFT) Span.init))) ]>
                 (spans w) ∧
    shards w1 !! Z.to_nat this =
      Some (with_totalFreePages (wrap64 (_totalFreePages sh + (NPAGES - 1)))
              (with_small false
                 (<[ Z.to_nat (NPAGES - 1) := [bigSpan] ]> (_spanLists sh))
                 (with_spanPool pool sh))).
Proof.
  intros Hk Hsh Hhot Hcold Hlarge Hans Hrun.
  unfold PageCacheShard.NewSpan_body in Hrun.
  step Hrun as hot w2 H2.
  rewrite (NewSpan_hot_falls this k w sh Hk Hsh Hhot) in H2. injection H2 as <- <-.
  step Hrun as cold w3 H3.
  rewrite (NewSpan_cold_falls this k w sh Hk Hsh Hcold Hlarge) in H3. injection H3 as <- <-.
  step Hrun as sys w4 H4.
  apply (NewSpan_system_small_Done this k w sh [] ptr rest) in H4
    as (bigSpan & pool & -> & Hreq & Hspans & Hshard); [|lia|done| |done].
  2:{ apply Hhot. change NPAGES with 129 in *. lia. }
  injection Hrun as <- <-. by exists bigSpan, pool.
Qed.

(** C4, amended.  A request for [k < NPAGES] pages finds no candidate:
    the hot and cold small lists from [k] on are empty, and the cold
    large map has no key from [k] on.  Whenever the round of the loop of
    [NewSpan] returns, the first request it has made to [SystemAlloc] is
    for [NPAGES - 1 = 128] pages, not 127 (what the source may ask next
    for a span record or for nodes of the page map comes after it); the
    span made of the block [ptr] the operating system answered has 128
    pages and is the only element of the hot small list [128]; and the
    round has ended with [continue], so that the procedure runs again
    from its start on the new state. *)
Theorem NewSpan_os_fallback this k w sh ptr rest r w1 :
  0 ≤ k < NPAGES →
  shards w !! Z.to_nat this = Some sh →
  (∀ i, k ≤ i < NPAGES → _spanLists sh !! Z.to_nat i = Some []) →
  (∀ i, k ≤ i < NPAGES → _releasedSpanLists sh !! Z.to_nat i = Some []) →
  (∀ key, k ≤ key → _releasedLargeSpanLists sh !! key = None) →
  os_answers w = ptr :: rest →
  PageCacheShard.NewSpan_body this k w = Done r w1 →
  r = None ∧
  (∀ fuel, PageCacheShard.NewSpan (S fuel) this k w = PageCacheShard.NewSpan fuel this k w1) ∧
  (∃ more, os_requests w1 = more ++ (NPAGES - 1) :: os_requests w) ∧
  ∃ bigSpan,
    of_shard w1 this _spanLists
      = Some (<[ Z.to_nat (NPAGES - 1) := [bigSpan] ]> (_spanLists sh)) ∧
    field_of w1 bigSpan (λ s, (Span._pageId s, Span._n s, Span._isUse s, Span._isCold s,
                               Span._shardId s))
      = Some (Z.shiftr ptr PAGE_SHIFT, NPAGES - 1, false, false, _shardId sh).
Proof.
  intros Hk Hsh Hhot Hcold Hlarge Hans Hrun.
  destruct (NewSpan_body_falls_back this k w sh ptr rest r w1 Hk Hsh Hhot Hcold Hlarge Hans Hrun)
    as (bigSpan & pool & -> & Hreq & Hspans & Hshard).
  split; [done|]. split.
  { intros fuel. unfold PageCacheShard.NewSpan. cbn [loop].
    rewrite bind_run, Hrun. reflexivity. }
  split; [exact Hreq|].
  exists bigSpan. unfold of_shard, field_of. rewrite Hshard, Hspans, lookup_insert_eq.
  split; reflexivity.
Qed.

Lemma NewSpan_os_fallback_witness :
  match PageCacheShard.NewSpan_body 0 1 (new_world 2 4096 [8192000]) with
  | Done r w1 =>
      r = None ∧
      (∀ fuel, PageCacheShard.NewSpan (S fuel) 0 1 (new_world 2 4096 [8192000])
               = PageCacheShard.NewSpan fuel 0 1 w1) ∧
      (∃ more, os_requests w1 = more ++ [128]) ∧
      ∃ bigSpan,
        of_shard w1 0 _spanLists
          = Some (<[ 128%nat := [bigSpan] ]> (_spanLists (new_shard 4096 0))) ∧
        field_of w1 bigSpan (λ s, (Span._pageId s, Span._n s, Span._isUse s, Span._isCold s,
                                   Span._shardId s))
          = Some (1000, 128, false, false, 0)
  | Raise _ => False
  end.
Proof.
  destruct (PageCacheShard.NewSpan_body 0 1 (new_world 2 4096 [8192000]))
    as [r w1|e] eqn:E.
  - apply (NewSpan_os_fallback 0 1 (new_world 2 4096 [8192000]) (new_shard 4096 0)
             8192000 [] r w1).
    + change NPAGES with 129. lia.
    + reflexivity.
    + intros i Hi. apply lookup_replicate_2. change NPAGES with 129 in *. lia.
    + intros i Hi. apply lookup_replicate_2. change NPAGES with 129 in *. lia.
    + intros key _. apply lookup_empty.
    + reflexivity.
    + exact E.
  - revert E. vm_compute. apply Done_not_Raise.
Defined.

End FallbackRound.

(** ** PageCache: the first span of a shard *)

Module FirstSpanFacts.
Import State Machine Logic LogicFacts HeapSpec PageMapFacts PageCacheFacts FallbackFacts.
Import FrameFacts OkFacts ListedFacts HeapInvFacts CentralCacheFacts CarveFacts FallbackRound.

Ltac same_spans H :=
  lazymatch type of H with
  | ?m ?w = Done _ ?w' =>
      let Hp := fresh in
      assert (Hp : preserves spans m) by frame_all;
      apply Hp in H
  end.

Lemma first_nonempty_found this cold count i j w sh l :
  shards w !! Z.to_nat this = Some sh →
  i ≤ j < i + Z.of_nat count →
  (∀ j', i ≤ j' < j → small cold sh !! Z.to_nat j' = Some []) →
  small cold sh !! Z.to_nat j = Some l → l ≠ [] →
  PageCacheShard.first_nonempty this cold count i w = Done (Some j) w.
Proof.
  intros Hsh. revert i. induction count as [|count IH]; intros i Hj Hempty Hl Hne; [lia|].
  cbn [PageCacheShard.first_nonempty].
  destruct (decide (i = j)) as [->|Hij].
  - rewrite bind_run, (small_list_run _ _ _ _ _ l Hsh Hl). cbv beta iota.
    destruct l; [done|]. reflexivity.
  - rewrite bind_run, (small_list_run _ _ _ _ _ [] Hsh) by (apply Hempty; lia).
    cbv beta iota. cbn [Span.Empty]. apply IH; [lia| |done|done].
    intros j' Hj'. apply Hempty. lia.
Qed.

(** The start of a split leaves the span in hand with [k] pages. *)
Lemma split_prefix_record this span k isCold (rest : Z → M unit) w u w' s :
  heap_ok w → spans w !! span = Some s →
  (split ← SpanPool_New this;
   pid ← rd span Span._pageId;
   wr split (Span.set_pageId (wrap64 (pid + k)));;
   n ← rd span Span._n;
   wr split (Span.set_n (wrap64 (n - k)));;
   wr split (Span.set_isCold isCold);;
   wr span (Span.set_n k);;
   rest split) w = Done u w' →
  ∃ split w1, spans w1 !! span = Some (Span.set_n k s) ∧ rest split w1 = Done u w'.
Proof.
  intros Hok Hs Hrun.
  step Hrun as split w1 H1.
  apply (SpanPool_New_view _ _ _ _ _ _ _ _ eq_refl) in H1 as (P' & A' & Hv1 & Hnew).
  destruct (ok_new split P' A' Hok Hnew) as (_ & _ & Hfresh).
  assert (Hne : split ≠ span) by (intros ->; congruence).
  injection Hv1 as Hs1 _ _ _.
  step Hrun as pid w2 H2. apply rd_Done in H2 as [-> _].
  step Hrun as u3 w3 H3. apply wr_Done in H3 as (s3 & _ & ->).
  step Hrun as n w4 H4. apply rd_Done in H4 as [-> _].
  step Hrun as u5 w5 H5. apply wr_Done in H5 as (s5 & _ & ->).
  step Hrun as u6 w6 H6. apply wr_Done in H6 as (s6 & _ & ->).
  step Hrun as u7 w7 H7. apply wr_Done in H7 as (s7 & Hs7 & ->).
  cbn [spans with_spans] in Hs7. rewrite !lookup_insert_ne in Hs7 by done.
  rewrite Hs1, lookup_insert_ne in Hs7 by done.
  assert (s7 = s) as -> by congruence.
  eexists split, _. split; [|exact Hrun]. cbn [spans with_spans]. apply lookup_insert_eq.
Qed.

(** [AllocFromHotList] on a list whose first span has more than [k]
    pages returns that span, cut down to [k] pages from its first. *)
Lemma AllocFromHotList_front this list k w sh big restl s r w' :
  heap_ok w →
  shards w !! Z.to_nat this = Some sh →
  _spanLists sh !! Z.to_nat list = Some (big :: restl) →
  spans w !! big = Some s → k < Span._n s →
  PageCacheShard.AllocFromHotList this list k w = Done r w' →
  r = big ∧
  ∃ s', spans w' !! big = Some s' ∧ Span._pageId s' = Span._pageId s ∧ Span._n s' = k.
Proof.
  intros Hok Hsh Hlist Hs Hk Hrun. unfold PageCacheShard.AllocFromHotList in Hrun.
  step Hrun as span w1 H1.
  pose proof (small_PopFront_held _ _ _ _ _ _ Hok H1) as [Hok1 _].
  assert (Hsp1 : spans w1 = spans w ∧ span = big).
  { unfold small_PopFront in H1. step H1 as l0 wl Hl0.
    rewrite (small_list_run this false list w sh (big :: restl) Hsh Hlist) in Hl0.
    injection Hl0 as <- <-.
    step H1 as u wl H12. apply set_small_list_Done in H12 as (sh2 & l2 & _ & _ & ->).
    injection H1 as <- <-. done. }
  destruct Hsp1 as [Hsp1 ->]. clear H1.
  step Hrun as n w2 H2. apply rd_Done in H2 as (-> & s2 & Hs2 & ->).
  rewrite Hsp1, Hs in Hs2. injection Hs2 as <-.
  step Hrun as u3 w3 H3. pose proof H3 as H3'. keep Hok1 H3'. same_spans H3.
  step Hrun as n' w4 H4. apply rd_Done in H4 as (-> & s4 & Hs4 & ->).
  rewrite H3, Hsp1, Hs in Hs4. injection Hs4 as <-.
  rewrite (proj2 (Z.ltb_lt k (Span._n s)) Hk) in Hrun.
  step Hrun as u5 w5 H5.
  eapply (split_prefix_record this big k false _ w3 u5 w5 s Hok1) in H5
    as (split & w6 & Hs6 & Hrest); [|by rewrite H3, Hsp1].
  same_spans Hrest.
  step Hrun as u7 w7 H7. same_spans H7.
  step Hrun as u8 w8 H8. apply wr_Done in H8 as (s8 & Hs8 & ->).
  rewrite H7, Hrest, Hs6 in Hs8. injection Hs8 as <-.
  step Hrun as u9 w9 H9. apply wr_Done in H9 as (s9 & Hs9 & ->).
  cbn [spans with_spans] in Hs9. rewrite lookup_insert_eq in Hs9. injection Hs9 as <-.
  injection Hrun as <- <-. split; [done|].
  eexists. cbn [spans with_spans]. split; [apply lookup_insert_eq|]. done.
Qed.

(** The first span of a shard without a candidate: the block [ptr] of
    the operating system, cut down to [k] pages. *)
Lemma NewSpan_first fuel this k w sh ptr rest span w' :
  heap_ok w → 0 ≤ k < NPAGES - 1 →
  shards w !! Z.to_nat this = Some sh →
  (∀ i, k ≤ i < NPAGES → _spanLists sh !! Z.to_nat i = Some []) →
  (∀ i, k ≤ i < NPAGES → _releasedSpanLists sh !! Z.to_nat i = Some []) →
  (∀ key, k ≤ key → _releasedLargeSpanLists sh !! key = None) →
  os_answers w = ptr :: rest →
  PageCacheShard.NewSpan fuel this k w = Done span w' →
  ∃ s, spans w' !! span = Some s ∧
       Span._pageId s = Z.shiftr ptr PAGE_SHIFT ∧ Span._n s = k.
Proof.
  intros Hok Hk Hsh Hhot Hcold Hlarge Hans Hrun.
  unfold PageCacheShard.NewSpan in Hrun.
  destruct fuel as [|fuel]; [done|]. cbn [loop] in Hrun.
  step Hrun as r w1 H1.
  destruct (NewSpan_body_ok this k w r w1 Hok H1) as [Hok1 _].
  destruct (NewSpan_body_falls_back this k w sh ptr rest r w1) as
    (big & pool & -> & _ & Hspans & Hshard); try done; [lia|].
  clear H1.
  destruct fuel as [|fuel]; [done|]. cbn [loop] in Hrun.
  step Hrun as r2 w2 H2.
  unfold PageCacheShard.NewSpan_body in H2. step H2 as hot w3 H3.
  unfold PageCacheShard.NewSpan_hot in H3.
  destruct (Z.ltb_spec k NPAGES); [|lia].
  assert (Hk' : Z.to_nat (NPAGES - 1) ≠ Z.to_nat k) by lia.
  step H3 as l0 w4 H4.
  erewrite small_list_run in H4; [|exact Hshard|].
  2:{ cbn [small with_totalFreePages with_small with_spanPool _spanLists].
      rewrite list_lookup_insert_ne by done. apply Hhot. lia. }
  injection H4 as <- <-. cbn [Span.Empty negb] in H3.
  step H3 as found w5 H5.
  erewrite (first_nonempty_found this false _ (k + 1) (NPAGES - 1)) in H5;
    [|exact Hshard| | | |].
  - injection H5 as <- <-.
    step H3 as sp w6 H6.
    eapply (AllocFromHotList_front this (NPAGES - 1) k w1 _ big []
              (Span.set_shardId (_shardId sh)
                 (Span.set_isCold false
                    (Span.set_n (NPAGES - 1)
                       (Span.set_pageId (Z.shiftr ptr PAGE_SHIFT) Span.init))))) in H6
      as (-> & s' & Hs' & Hpid & Hn); [|exact Hok1|exact Hshard| | |].
    + injection H3 as <- <-. injection H2 as <- <-. injection Hrun as <- <-.
      exists s'. split; [exact Hs'|]. split; [rewrite Hpid; reflexivity|exact Hn].
    + cbn [small with_totalFreePages with_small with_spanPool _spanLists].
      apply list_lookup_insert_eq.
      specialize (Hhot (NPAGES - 1) ltac:(lia)). by eapply lookup_lt_Some.
    + rewrite Hspans. apply lookup_insert_eq.
    + cbn. lia.
  - lia.
  - intros j' Hj'. cbn [small with_totalFreePages with_small with_spanPool _spanLists].
    rewrite list_lookup_insert_ne by lia. apply Hhot. lia.
  - cbn [small with_totalFreePages with_small with_spanPool _spanLists].
    apply list_lookup_insert_eq.
    specialize (Hhot (NPAGES - 1) ltac:(lia)). by eapply lookup_lt_Some.
  - done.
Qed.

End FirstSpanFacts.

(** ** CentralCache: the first refill of a bucket *)

Module FirstRefill.
Import State Machine Logic LogicFacts HeapSpec FreeListSpec FreeListFacts CentralSpec.
Import SizeClasses SizeUtilsFacts SizeClassFacts PageNeedFacts.
Import PageCacheFacts FallbackFacts ListedFacts HeapInvFacts CentralCacheFacts CarveFacts.
Import FirstSpanFacts.

(** The pages a class of small blocks asks for. *)
Lemma page_need_tables size k :
  1 ≤ size ≤ MAX_BYTES →
  CentralCache.CalculatePageNeed (SizeUtils.RoundUp SizeUtils.tables size) = Some k →
  1 ≤ k ≤ 32 ∧ 0 < SizeUtils.RoundUp SizeUtils.tables size ≤ k * PAGE_SIZE.
Proof.
  intros Hn. destruct (RoundUp_tables_class size Hn) as (c & Hc & _ & _ & ->).
  unfold MAX_NFREELISTS in Hc.
  pose proof page_need_of_classes as Hall.
  rewrite forallb_forall in Hall.
  specialize (Hall (Z.to_nat c) ltac:(apply in_seq; lia)).
  pose proof (class_size_bounds (Z.to_nat c) ltac:(lia)) as Hb.
  destruct (CentralCache.CalculateFetchBatchSize _) as [num|]; [|done].
  destruct (CentralCache.CalculatePageNeed _) as [npage|]; [|done].
  rewrite !andb_true_iff, !Z.leb_le in Hall. intros [= <-]. lia.
Qed.

(** The span of the first refill on a shard without a candidate. *)
Lemma first_refill_extent fuel t idx bucket size k w l sh ptr rest span w' :
  CentralCache.CalculatePageNeed (SizeUtils.RoundUp t size) = Some k →
  0 ≤ k < NPAGES - 1 →
  heap_ok w →
  buckets w !! Z.to_nat bucket = Some l →
  (∀ it s, it ∈ l → spans w !! it = Some s → Span._freeList s = 0) →
  shards w !! Z.to_nat idx = Some sh →
  (∀ i, k ≤ i < NPAGES → _spanLists sh !! Z.to_nat i = Some []) →
  (∀ i, k ≤ i < NPAGES → _releasedSpanLists sh !! Z.to_nat i = Some []) →
  (∀ key, k ≤ key → _releasedLargeSpanLists sh !! key = None) →
  os_answers w = ptr :: rest →
  CentralCache.GetOneSpan fuel t idx bucket size w = Done span w' →
  ∃ s, spans w' !! span = Some s ∧
       Span._pageId s = Z.shiftr ptr PAGE_SHIFT ∧ Span._n s = k.
Proof.
  intros Hneed Hk Hok Hl Hall Hsh Hhot Hcold Hlarge Hans Hrun.
  destruct (GetOneSpan_refill_Done fuel t idx bucket size w l span w' Hl Hall Hrun)
    as (k' & w2 & s0 & w7 & tail & w8 & Hk' & H2 & Hs0 & Hs' & _).
  assert (k' = k) as -> by congruence.
  unfold PageHeap.NewSpan in H2.
  step H2 as sp w3 H3.
  destruct (NewSpan_first fuel idx k w sh ptr rest sp w3 Hok Hk Hsh Hhot Hcold Hlarge Hans H3)
    as (s & Hs & Hpid & Hn).
  step H2 as u4 w4 H4. injection H2 as <- <-.
  assert (Span._pageId s0 = Span._pageId s ∧ Span._n s0 = Span._n s) as [Hp0 Hn0].
  { destruct (sp =? 0).
    - injection H4 as _ <-. by assert (s0 = s) as -> by congruence.
    - apply wr_Done in H4 as (s4 & Hs4 & ->). cbn [spans with_spans] in Hs0.
      rewrite lookup_insert_eq in Hs0. injection Hs0 as <-.
      by assert (s4 = s) as -> by congruence. }
  eexists. rewrite Hs', lookup_insert_eq. split; [reflexivity|].
  cbn [Span._pageId Span._n Span.set_freeList Span.set_objSize Span.set_isUse].
  split; congruence.
Qed.

(** X12. The first refill of a bucket, none of whose spans has a free
    object, for a request of [1 .. MAX_BYTES] bytes, on a shard that has
    no free span from [k] pages on, [k] being the pages
    [CalculatePageNeed] asks for; the heap is in order and the operating
    system answers with a block [ptr] past the first page and inside the
    48-bit address space.  Whenever [GetOneSpan] returns, the span it
    returns starts at the page of [ptr], has exactly [k] pages and
    carries the block size, and its [_freeList] heads a null-terminated
    chain of the blocks of that size from the first byte of the span on:
    as many as fit in its [k] pages, in address order. *)
Theorem GetOneSpan_refill_carves fuel idx bucket size k w l sh ptr rest span w' :
  1 ≤ size ≤ MAX_BYTES →
  CentralCache.CalculatePageNeed (SizeUtils.RoundUp SizeUtils.tables size) = Some k →
  heap_ok w →
  buckets w !! Z.to_nat bucket = Some l →
  (∀ it s, it ∈ l → spans w !! it = Some s → Span._freeList s = 0) →
  shards w !! Z.to_nat idx = Some sh →
  (∀ i, k ≤ i < NPAGES → _spanLists sh !! Z.to_nat i = Some []) →
  (∀ i, k ≤ i < NPAGES → _releasedSpanLists sh !! Z.to_nat i = Some []) →
  (∀ key, k ≤ key → _releasedLargeSpanLists sh !! key = None) →
  os_answers w = ptr :: rest →
  PAGE_SIZE ≤ ptr → ptr + (NPAGES - 1) * PAGE_SIZE ≤ 2 ^ 48 →
  CentralCache.GetOneSpan fuel SizeUtils.tables idx bucket size w = Done span w' →
  ∃ s,
    spans w' !! span = Some s ∧
    Span._pageId s = Z.shiftr ptr PAGE_SHIFT ∧ Span._n s = k ∧
    Span._objSize s = SizeUtils.RoundUp SizeUtils.tables size ∧
    Span._freeList s = Span._pageId s * PAGE_SIZE ∧
    chain (memory w') (Span._freeList s)
      (objects (Span._pageId s * PAGE_SIZE) (SizeUtils.RoundUp SizeUtils.tables size)
         (Z.to_nat (k * PAGE_SIZE / SizeUtils.RoundUp SizeUtils.tables size))).
Proof.
  intros Hsize Hneed.
  destruct (page_need_tables size k Hsize Hneed) as [Hk Ha].
  clear Hsize. revert Hneed Ha. generalize SizeUtils.tables.
  intros t Hneed Ha Hok Hl Hall Hsh Hhot Hcold Hlarge Hans Hlo Hhi Hrun.
  destruct (first_refill_extent fuel t idx bucket size k w l sh ptr rest span w')
    as (s & Hs & Hpid & Hn); try done; [change NPAGES with 129; lia|].
  assert (Hp : 1 ≤ Z.shiftr ptr PAGE_SHIFT ∧ Z.shiftr ptr PAGE_SHIFT * PAGE_SIZE ≤ ptr).
  { rewrite Z.shiftr_div_pow2 by done. change PAGE_SHIFT with 13.
    change PAGE_SIZE with (2 ^ 13) in *. split.
    - apply Z.div_le_lower_bound; lia.
    - rewrite Z.mul_comm. apply Z.mul_div_le. lia. }
  destruct (refill_chain_of_extent fuel t idx bucket size w l span w' s Hl Hall Hrun Hs)
    as (Hobj & Hfl & Hchain).
  - lia.
  - lia.
  - rewrite Hpid, Hn. change NPAGES with 129 in Hhi. change PAGE_SIZE with 8192 in *. lia.
  - rewrite Hn. exact Ha.
  - exists s. rewrite Hn in Hchain. by split_and!.
Qed.

Lemma GetOneSpan_refill_carves_witness :
  match CentralCache.GetOneSpan 600 SizeUtils.tables 0 1 16 (new_world 2 4096 [8192000]) with
  | Done span w' =>
      ∃ s,
        spans w' !! span = Some s ∧
        Span._pageId s = Z.shiftr 8192000 PAGE_SHIFT ∧ Span._n s = 1 ∧
        Span._objSize s = SizeUtils.RoundUp SizeUtils.tables 16 ∧
        Span._freeList s = Span._pageId s * PAGE_SIZE ∧
        chain (memory w') (Span._freeList s)
          (objects (Span._pageId s * PAGE_SIZE) (SizeUtils.RoundUp SizeUtils.tables 16)
             (Z.to_nat (1 * PAGE_SIZE / SizeUtils.RoundUp SizeUtils.tables 16)))
  | Raise _ => False
  end.
Proof.
  destruct (CentralCache.GetOneSpan 600 SizeUtils.tables 0 1 16
              (new_world 2 4096 [8192000])) as [span w'|e] eqn:E.
  - refine (GetOneSpan_refill_carves 600 0 1 16 1 (new_world 2 4096 [8192000]) []
              (new_shard 4096 0) 8192000 [] span w' _ _ _ _ _ _ _ _ _ _ _ _ E).
    + unfold MAX_BYTES. lia.
    + rewrite RoundUp_tables_16. reflexivity.
    + apply ColdFacts.heap_ok_new_world.
    + reflexivity.
    + intros it s Hit. by apply elem_of_nil in Hit.
    + reflexivity.
    + intros i Hi. apply lookup_replicate_2. change NPAGES with 129 in *. lia.
    + intros i Hi. apply lookup_replicate_2. change NPAGES with 129 in *. lia.
    + intros key _. apply lookup_empty.
    + reflexivity.
    + change PAGE_SIZE with 8192. lia.
    + change NPAGES with 129. change PAGE_SIZE with 8192. lia.
  - revert E. unfold CentralCache.GetOneSpan. rewrite RoundUp_tables_16.
    vm_compute. apply Done_not_Raise.
Defined.

(** X13. In the same first refill (a bucket without a free object, a
    shard with no free span from [k] pages on, a heap in order and a
    block [ptr] of the operating system past the first page and inside
    the 48-bit address space), whenever [GetOneSpan] returns: the span
    has exactly [k] pages, every block it has been carved into lies
    within these pages, and the page map sends the page of the block's
    address to that span, which is how [free] and [ReleaseListToSpans]
    find the span of an object. *)
Theorem refilled_objects_map_to_span fuel idx bucket size k w l sh ptr rest span w' :
  1 ≤ size ≤ MAX_BYTES →
  CentralCache.CalculatePageNeed (SizeUtils.RoundUp SizeUtils.tables size) = Some k →
  heap_ok w →
  buckets w !! Z.to_nat bucket = Some l →
  (∀ it s, it ∈ l → spans w !! it = Some s → Span._freeList s = 0) →
  shards w !! Z.to_nat idx = Some sh →
  (∀ i, k ≤ i < NPAGES → _spanLists sh !! Z.to_nat i = Some []) →
  (∀ i, k ≤ i < NPAGES → _releasedSpanLists sh !! Z.to_nat i = Some []) →
  (∀ key, k ≤ key → _releasedLargeSpanLists sh !! key = None) →
  os_answers w = ptr :: rest →
  PAGE_SIZE ≤ ptr → ptr + (NPAGES - 1) * PAGE_SIZE ≤ 2 ^ 48 →
  CentralCache.GetOneSpan fuel SizeUtils.tables idx bucket size w = Done span w' →
  ∃ s,
    spans w' !! span = Some s ∧ Span._n s = k ∧
    ∀ x, x ∈ objects (Span._pageId s * PAGE_SIZE) (SizeUtils.RoundUp SizeUtils.tables size)
               (Z.to_nat (k * PAGE_SIZE / SizeUtils.RoundUp SizeUtils.tables size)) →
         Span._pageId s * PAGE_SIZE ≤ x ∧
         x + SizeUtils.RoundUp SizeUtils.tables size ≤ (Span._pageId s + k) * PAGE_SIZE ∧
         PageMap.get (pagemap w') (Z.shiftr x PAGE_SHIFT) = span.
Proof.
  intros Hsize Hneed.
  destruct (page_need_tables size k Hsize Hneed) as [Hk Ha].
  clear Hsize. revert Hneed Ha. generalize SizeUtils.tables.
  intros t Hneed Ha Hok Hl Hall Hsh Hhot Hcold Hlarge Hans Hlo Hhi Hrun.
  destruct (first_refill_extent fuel t idx bucket size k w l sh ptr rest span w')
    as (s & Hs & Hpid & Hn); try done; [change NPAGES with 129; lia|].
  assert (Hp : 1 ≤ Z.shiftr ptr PAGE_SHIFT ∧ Z.shiftr ptr PAGE_SHIFT * PAGE_SIZE ≤ ptr).
  { rewrite Z.shiftr_div_pow2 by done. change PAGE_SHIFT with 13.
    change PAGE_SIZE with (2 ^ 13) in *. split.
    - apply Z.div_le_lower_bound; lia.
    - rewrite Z.mul_comm. apply Z.mul_div_le. lia. }
  exists s. split; [exact Hs|]. split; [exact Hn|]. intros x Hx.
  rewrite <- Hn in Hx |- *.
  apply (refill_objects_of_extent fuel t idx bucket size w l span w' s x Hl Hall Hrun Hs).
  - lia.
  - lia.
  - rewrite Hpid, Hn. change NPAGES with 129 in Hhi. change PAGE_SIZE with 8192 in *. lia.
  - rewrite Hn. exact Ha.
  - exact Hx.
Qed.

Lemma refilled_objects_map_to_span_witness :
  match CentralCache.GetOneSpan 600 SizeUtils.tables 0 1 16 (new_world 2 4096 [8192000]) with
  | Done span w' =>
      ∃ s,
        spans w' !! span = Some s ∧ Span._n s = 1 ∧
        ∀ x, x ∈ objects (Span._pageId s * PAGE_SIZE) (SizeUtils.RoundUp SizeUtils.tables 16)
                   (Z.to_nat (1 * PAGE_SIZE / SizeUtils.RoundUp SizeUtils.tables 16)) →
             Span._pageId s * PAGE_SIZE ≤ x ∧
             x + SizeUtils.RoundUp SizeUtils.tables 16 ≤ (Span._pageId s + 1) * PAGE_SIZE ∧
             PageMap.get (pagemap w') (Z.shiftr x PAGE_SHIFT) = span
  | Raise _ => False
  end.
Proof.
  destruct (CentralCache.GetOneSpan 600 SizeUtils.tables 0 1 16
              (new_world 2 4096 [8192000])) as [span w'|e] eqn:E.
  - refine (refilled_objects_map_to_span 600 0 1 16 1 (new_world 2 4096 [8192000]) []
              (new_shard 4096 0) 8192000 [] span w' _ _ _ _ _ _ _ _ _ _ _ _ E).
    + unfold MAX_BYTES. lia.
    + rewrite RoundUp_tables_16. reflexivity.
    + apply ColdFacts.heap_ok_new_world.
    + reflexivity.
    + intros it s Hit. by apply elem_of_nil in Hit.
    + reflexivity.
    + intros i Hi. apply lookup_replicate_2. change NPAGES with 129 in *. lia.
    + intros i Hi. apply lookup_replicate_2. change NPAGES with 129 in *. lia.
    + intros key _. apply lookup_empty.
    + reflexivity.
    + change PAGE_SIZE with 8192. lia.
    + change NPAGES with 129. change PAGE_SIZE with 8192. lia.
  - revert E. unfold CentralCache.GetOneSpan. rewrite RoundUp_tables_16.
    vm_compute. apply Done_not_Raise.
Defined.

End FirstRefill.

(** ** CentralCache: objects coming back *)

Module ReleaseFacts.
Import State Machine Logic LogicFacts FreeListSpec FreeListFacts.
Import FallbackFacts ListedFacts HeapInvFacts.

Lemma release_object_run fuel x w span s :
  x ≠ 0 →
  PageMap.get (pagemap w) (Z.shiftr x PAGE_SHIFT) = span →
  spans w !! span = Some s →
  1 < Span._useCount s < 2 ^ 64 →
  ∃ w',
    CentralCache.release_object fuel x w = Done (NextObj (memory w) x) w' ∧
    memory w' = <[ x := Span._freeList s ]> (memory w) ∧
    spans w' = <[ span := Span.set_useCount (Span._useCount s - 1) (Span.set_freeList x s) ]>
                 (spans w) ∧
    pagemap w' = pagemap w ∧ buckets w' = buckets w ∧ shards w' = shards w ∧
    span_arena w' = span_arena w ∧ os_requests w' = os_requests w.
Proof.
  intros Hx Hget Hs Huc. eexists. split.
  { unfold CentralCache.release_object.
    rewrite bind_run. unfold get_world at 1. cbv beta iota.
    rewrite bind_run. unfold PageMap_get at 1. rewrite Hget. cbv beta iota.
    rewrite bind_run, (rd_run _ _ _ _ Hs). cbv beta iota.
    rewrite bind_run. unfold CentralCache.set_NextObj at 1.
    assert ((x =? 0) = false) as -> by (by apply Z.eqb_neq). cbv beta iota.
    rewrite bind_run. unfold wr at 1. cbn [spans with_memory]. rewrite Hs. cbv beta iota.
    rewrite bind_run. unfold rd at 1. cbn [spans with_spans]. rewrite lookup_insert_eq.
    cbv beta iota.
    rewrite bind_run. unfold wr at 1. cbn [spans with_spans]. rewrite lookup_insert_eq.
    cbv beta iota.
    rewrite bind_run. unfold rd at 1. cbn [spans with_spans]. rewrite lookup_insert_eq.
    cbv beta iota. cbn [Span._useCount Span.set_useCount Span.set_freeList].
    rewrite wrap64_small by lia.
    assert ((Span._useCount s - 1 =? 0) = false) as -> by (apply Z.eqb_neq; lia).
    rewrite bind_run, ret_run. cbv beta iota. rewrite ret_run. reflexivity. }
  cbn [memory spans pagemap buckets shards span_arena os_requests with_spans with_memory].
  rewrite insert_insert_eq. split_and!; done.
Qed.

Lemma release_objects_run fuel span rounds nodes :
  ∀ start w s free,
    chain (memory w) start nodes →
    (∀ x, x ∈ nodes → PageMap.get (pagemap w) (Z.shiftr x PAGE_SHIFT) = span) →
    spans w !! span = Some s →
    chain (memory w) (Span._freeList s) free →
    (∀ x, x ∈ nodes → x ∉ free) →
    Z.of_nat (length nodes) < Span._useCount s < 2 ^ 64 →
    (length nodes < rounds)%nat →
    ∃ w',
      CentralCache.release_objects fuel rounds start w = Done tt w' ∧
      spans w' = <[ span := Span.set_useCount (Span._useCount s - Z.of_nat (length nodes))
                               (Span.set_freeList (default (Span._freeList s) (last nodes)) s) ]>
                   (spans w) ∧
      chain (memory w') (default (Span._freeList s) (last nodes)) (reverse nodes ++ free) ∧
      pagemap w' = pagemap w ∧ buckets w' = buckets w ∧ shards w' = shards w ∧
      span_arena w' = span_arena w ∧ os_requests w' = os_requests w.
Proof.
  revert rounds. induction nodes as [|x rest IH];
    intros rounds start w s free Hchain Hget Hs Hfree Hdisj Huc Hrounds.
  - destruct rounds as [|rounds]; [cbn in Hrounds; lia|].
    cbn in Hchain. subst start. exists w. cbn [CentralCache.release_objects Z.eqb].
    split; [done|]. cbn [length last default reverse app].
    split_and!; try done.
    rewrite insert_id; [done|]. rewrite Hs. f_equal.
    replace (Span._useCount s - Z.of_nat 0) with (Span._useCount s) by lia. by destruct s.
  - destruct rounds as [|rounds]; [cbn in Hrounds; lia|].
    cbn [length] in *. pose proof Hchain as (-> & Hx & Hrest).
    pose proof (chain_NoDup _ _ _ Hchain) as [Hxrest _]%NoDup_cons.
    destruct (release_object_run fuel x w span s) as (w1 & Hrun1 & Hm1 & Hs1 & Hp1 & Hb1 & Hsh1 & Ha1 & Ho1);
      [lia|apply Hget; by left|done|lia|].
    destruct (IH rounds (NextObj (memory w) x) w1
                (Span.set_useCount (Span._useCount s - 1) (Span.set_freeList x s))
                (x :: free)) as (w' & Hrun & Hs' & Hchain' & Hp' & Hb' & Hsh' & Ha' & Ho').
    + rewrite Hm1. by apply chain_frame.
    + intros y Hy. rewrite Hp1. apply Hget. by right.
    + rewrite Hs1. apply lookup_insert_eq.
    + rewrite Hm1. cbn [Span._freeList Span.set_useCount Span.set_freeList].
      split; [done|]. split; [done|]. rewrite NextObj_insert_eq.
      apply chain_frame; [done|]. apply Hdisj. by left.
    + intros y Hy [->|Hin]%elem_of_cons; [done|]. eapply Hdisj; [by right|done].
    + cbn [Span._useCount Span.set_useCount]. lia.
    + lia.
    + exists w'. cbn [CentralCache.release_objects].
      assert ((x =? 0) = false) as -> by (apply Z.eqb_neq; lia).
      rewrite bind_run, Hrun1. cbv beta iota. split; [exact Hrun|].
      cbn [Span._freeList Span._useCount Span.set_useCount Span.set_freeList] in Hs', Hchain'.
      assert (Hlast : default (Span._freeList s) (last (x :: rest)) = default x (last rest)).
      { rewrite last_cons. by destruct (last rest). }
      rewrite Hlast. split_and!.
      * rewrite Hs', Hs1, insert_insert_eq. f_equal.
        replace (Span._useCount s - 1 - Z.of_nat (length rest))
          with (Span._useCount s - Z.of_nat (S (length rest))) by lia.
        by destruct s.
      * rewrite reverse_cons, <- app_assoc. exact Hchain'.
      * congruence.
      * congruence.
      * congruence.
      * congruence.
      * congruence.
Qed.

(** X15. [ReleaseListToSpans] of a chain of objects of one span that still
    has more objects out than come back completes: the objects are
    pushed on the span's free list, the last one first, [_useCount]
    drops by their number, and the span stays in its bucket (the page
    heap is not called). *)
Theorem ReleaseListToSpans_returns_objects fuel t start size w nodes span s free :
  is_Some (buckets w !! Z.to_nat (SizeUtils.Index t size)) →
  chain (memory w) start nodes →
  (∀ x, x ∈ nodes → PageMap.get (pagemap w) (Z.shiftr x PAGE_SHIFT) = span) →
  spans w !! span = Some s →
  chain (memory w) (Span._freeList s) free →
  (∀ x, x ∈ nodes → x ∉ free) →
  Z.of_nat (length nodes) < Span._useCount s < 2 ^ 64 →
  (length nodes < fuel)%nat →
  ∃ w' s',
    CentralCache.ReleaseListToSpans fuel t start size w = Done tt w' ∧
    spans w' = <[ span := s' ]> (spans w) ∧
    Span._useCount s' = Span._useCount s - Z.of_nat (length nodes) ∧
    chain (memory w') (Span._freeList s') (reverse nodes ++ free) ∧
    pagemap w' = pagemap w ∧ buckets w' = buckets w ∧ shards w' = shards w ∧
    os_requests w' = os_requests w.
Proof.
  intros [l Hl] Hchain Hget Hs Hfree Hdisj Huc Hfuel.
  destruct (release_objects_run fuel span fuel nodes start w s free)
    as (w' & Hrun & Hs' & Hchain' & Hp' & Hb' & Hsh' & Ha' & Ho'); [done..|].
  exists w'. eexists. split.
  { unfold CentralCache.ReleaseListToSpans.
    rewrite bind_run. unfold get_world at 1. cbv beta iota.
    rewrite bind_run, Hl. cbn [from_option]. rewrite ret_run. cbv beta iota. exact Hrun. }
  split; [exact Hs'|]. cbn [Span._useCount Span._freeList Span.set_useCount Span.set_freeList].
  split_and!; done.
Qed.

Lemma ReleaseListToSpans_returns_objects_witness :
  match PageMap.set PageMap.empty 1 64 with
  | Some pm =>
      ∃ w' s',
        CentralCache.ReleaseListToSpans 5 SizeUtils.tables 8224 16
          {| memory := {[ 8192 := 8208; 8208 := 0; 8224 := 0 ]};
             spans := {[ 64 := Span.set_useCount 5 (Span.set_freeList 8192 Span.init) ]};
             pagemap := pm; shards := []; buckets := [[]; [64]];
             os_answers := []; os_requests := []; fetch_requests := []; span_arena := 128 |}
          = Done tt w' ∧
        spans w' = <[ 64 := s' ]>
                     {[ 64 := Span.set_useCount 5 (Span.set_freeList 8192 Span.init) ]} ∧
        Span._useCount s' = 5 - Z.of_nat (length [8224]) ∧
        chain (memory w') (Span._freeList s') (reverse [8224] ++ [8192; 8208]) ∧
        pagemap w' = pm ∧ buckets w' = [[]; [64]] ∧ shards w' = [] ∧ os_requests w' = []
  | None => False
  end.
Proof.
  destruct (PageMap.set PageMap.empty 1 64) as [pm|] eqn:E; [|by vm_compute in E].
  refine (ReleaseListToSpans_returns_objects 5 SizeUtils.tables 8224 16
            {| memory := {[ 8192 := 8208; 8208 := 0; 8224 := 0 ]};
               spans := {[ 64 := Span.set_useCount 5 (Span.set_freeList 8192 Span.init) ]};
               pagemap := pm; shards := []; buckets := [[]; [64]];
               os_answers := []; os_requests := []; fetch_requests := []; span_arena := 128 |}
            [8224] 64 (Span.set_useCount 5 (Span.set_freeList 8192 Span.init)) [8192; 8208]
            _ _ _ _ _ _ _ _).
  - rewrite SizeUtilsFacts.Index_tables_16. by eexists.
  - cbn. split; [done|]. split; [lia|]. reflexivity.
  - intros x ->%list_elem_of_singleton. change (Z.shiftr 8224 PAGE_SHIFT) with 1.
    exact (PageMapFacts.get_set_eq _ _ _ _ E).
  - reflexivity.
  - cbn. split; [done|]. split; [lia|]. split; [reflexivity|]. split; [lia|]. reflexivity.
  - intros x ->%list_elem_of_singleton Hin.
    apply elem_of_cons in Hin as [?|Hin]; [done|].
    by apply list_elem_of_singleton in Hin.
  - cbn. lia.
  - cbn. lia.
Defined.

End ReleaseFacts.

(** ** PageHeap: what [ReleaseSpan] leaves *)

Module ReleaseSpanFacts.
Import State Machine Logic LogicFacts HeapSpec FrameFacts OkFacts ListedFacts HeapInvFacts ColdFacts.

Ltac frame_reclaim :=
  lazymatch goal with
  | |- preserves _ (_ ≫= _) => apply preserves_bind; [frame_reclaim | intros ?; frame_reclaim]
  | |- preserves _ (if ?b then _ else _) => destruct b; frame_reclaim
  | |- preserves _ (PageCacheShard.ReleaseSpanToCold _ _) =>
      unfold PageCacheShard.ReleaseSpanToCold; frame_reclaim
  | |- preserves _ (PageCacheShard.reclaim_large_body _) =>
      unfold PageCacheShard.reclaim_large_body; frame_reclaim
  | |- preserves _ (PageCacheShard.reclaim_small_body _ _) =>
      unfold PageCacheShard.reclaim_small_body; frame_reclaim
  | |- preserves _ (loop _ _) => apply preserves_loop; frame_reclaim
  | |- _ => frame_all
  end.

Lemma reclaim_small_keeps_isUse x fuel count this i :
  preserves (λ w, field_of w x Span._isUse) (PageCacheShard.reclaim_small fuel count this i).
Proof.
  revert i. induction count as [|count IH]; intros i; cbn [PageCacheShard.reclaim_small].
  - apply preserves_ret.
  - apply preserves_bind; [frame_reclaim|]. intros _.
    apply preserves_bind; [frame_all|]. intros sh.
    destruct (_ <=? _); [apply preserves_ret|apply IH].
Qed.

Lemma ReleaseSomeSpansToSystem_keeps_isUse x fuel this :
  preserves (λ w, field_of w x Span._isUse) (PageCacheShard.ReleaseSomeSpansToSystem fuel this).
Proof.
  unfold PageCacheShard.ReleaseSomeSpansToSystem.
  apply preserves_bind; [frame_reclaim|]. intros _.
  apply preserves_bind; [frame_all|]. intros sh.
  destruct (_ <? _); [apply reclaim_small_keeps_isUse|apply preserves_ret].
Qed.

Lemma ReleaseSpan_marks_idle fuel this span w u w' :
  PageCacheShard.ReleaseSpan fuel this span w = Done u w' →
  field_of w' span Span._isUse = Some false.
Proof.
  intros Hrun. unfold PageCacheShard.ReleaseSpan in Hrun.
  step Hrun as u1 w1 H1. step Hrun as u2 w2 H2. clear H1 H2 w w1.
  step Hrun as u3 w3 H3.
  assert (Hu : field_of w3 span Span._isUse = Some false).
  { unfold wr in H3. destruct (spans w2 !! span) as [s|]; [|done].
    injection H3 as _ <-. unfold field_of. cbn [spans with_spans].
    by rewrite lookup_insert_eq. }
  clear H3.
  lazymatch type of Hrun with
  | ?m _ = _ =>
      assert (Hp : preserves (λ w, field_of w span Span._isUse) m)
  end.
  { repeat (apply preserves_bind; [frame_all|]; intros ?).
    destruct (_ <? _); [apply ReleaseSomeSpansToSystem_keeps_isUse|apply preserves_ret]. }
  by rewrite (Hp _ _ _ Hrun).
Qed.

Lemma shard_listed_large_perm cold sh m' :
  values m' ≡ₚ values (large cold sh) →
  shard_listed (with_large cold m' sh) ≡ₚ shard_listed sh.
Proof.
  intros Hm. rewrite !shard_listed_eq. destruct cold; cbn in *; by rewrite Hm.
Qed.

Lemma large_erase_empty_listed this cold key w u w' sh :
  shards w !! Z.to_nat this = Some sh →
  Span.Empty (map_at (large cold sh) key) = true →
  large_erase this cold key w = Done u w' →
  listed w' ≡ₚ listed w.
Proof.
  intros Hsh Hempty Hrun. unfold large_erase in Hrun.
  apply modify_shard_Done in Hrun as (sh0 & Hsh0 & ->).
  assert (sh0 = sh) as -> by congruence.
  destruct (listed_insert w _ sh (with_large cold (delete key (large cold sh)) sh) Hsh)
    as (rest & -> & ->).
  f_equiv. apply shard_listed_large_perm.
  unfold map_at in Hempty. destruct (large cold sh !! key) as [l|] eqn:Hl.
  - rewrite (values_lookup _ _ _ Hl). cbn in Hempty. by destruct l.
  - by rewrite delete_id.
Qed.

Lemma pop_listed x w w' :
  (∀ S L P A, view w = (S, L, P, A) →
     ∃ L', view w' = (S, L', P, A) ∧ (L ≡ₚ x :: L' ∨ x = 0 ∧ L' ⊆+ L)) →
  heap_ok w → is_Some (spans w' !! x) → listed w ≡ₚ x :: listed w'.
Proof.
  intros Hpop Hok Hlive. destruct (Hpop _ _ _ _ eq_refl) as (L' & Hv & HL).
  injection Hv as Hs -> _ _. destruct HL as [HL|[-> _]]; [done|].
  rewrite Hs in Hlive. destruct Hlive as [s Hsx].
  destruct Hok as [_ _ _ _ _ Hl _]. apply Hl in Hsx. lia.
Qed.

Lemma ReleaseSpanToCold_listed this span w u w' :
  PageCacheShard.ReleaseSpanToCold this span w = Done u w' →
  listed w' ≡ₚ span :: listed w.
Proof.
  intros Hrun. unfold PageCacheShard.ReleaseSpanToCold in Hrun.
  step Hrun as n w1 H1. apply rd_live in H1 as [-> _].
  step Hrun as u2 w2 H2. view_of H2 Hv2. rewrite <- (view_listed _ _ Hv2). clear H2 Hv2 w.
  step Hrun as u3 w3 H3.
  destruct (wr_view _ _ _ _ _ _ _ _ _ eq_refl H3) as (s & _ & Hv3).
  assert (Hl3 : listed w3 = listed w2) by (by injection Hv3). rewrite <- Hl3.
  clear H3 Hv3 Hl3 w2.
  step Hrun as pid w4 H4. apply rd_live in H4 as [-> _].
  step Hrun as n' w5 H5. apply rd_live in H5 as [-> _].
  step Hrun as u6 w6 H6. view_of H6 Hv6. rewrite <- (view_listed _ _ Hv6). clear H6 Hv6 w3.
  step Hrun as n'' w7 H7. apply rd_live in H7 as [-> _].
  destruct (n'' <? NPAGES).
  - step Hrun as m w8 H8. apply rd_live in H8 as [-> _].
    destruct (small_PushFront_view _ _ _ _ _ _ _ _ _ _ _ eq_refl Hrun) as (L' & Hv & HL).
    by injection Hv as _ -> _ _.
  - step Hrun as m w8 H8. apply rd_live in H8 as [-> _].
    destruct (large_PushFront_view _ _ _ _ _ _ _ _ _ _ _ eq_refl Hrun) as (L' & Hv & HL).
    by injection Hv as _ -> _ _.
Qed.

Lemma ReleaseSpanToCold_live this span w u w' :
  PageCacheShard.ReleaseSpanToCold this span w = Done u w' → is_Some (spans w !! span).
Proof.
  intros Hrun. unfold PageCacheShard.ReleaseSpanToCold in Hrun.
  step Hrun as n w1 H1. by apply rd_live in H1 as [-> ?].
Qed.

Lemma reclaim_large_body_listed this w r w' :
  heap_ok w → PageCacheShard.reclaim_large_body this w = Done r w' →
  listed w' ≡ₚ listed w.
Proof.
  intros Hok Hrun. unfold PageCacheShard.reclaim_large_body in Hrun.
  step Hrun as sh w1 H1. apply this_shard_Done in H1 as [-> Hsh].
  destruct (_ && _); [|by injection Hrun as _ <-].
  step Hrun as it w2 H2.
  assert (w2 = w) as -> by (destruct (rbegin _); [by injection H2|done]). clear H2.
  destruct (Span.Empty _) eqn:Hempty.
  - step Hrun as u3 w3 H3. injection Hrun as _ <-.
    by eapply (large_erase_empty_listed this false).
  - step Hrun as span w3 H3.
    destruct (span =? 0) eqn:Hz.
    + injection Hrun as _ <-.
      destruct (large_PopFront_view _ _ _ _ _ _ _ _ _ _ eq_refl H3) as (L' & Hv & HL).
      apply Z.eqb_eq in Hz as ->.
      unfold large_PopFront in H3. step H3 as sh' w4 H4.
      apply this_shard_Done in H4 as [-> Hsh']. assert (sh' = sh) as -> by congruence.
      step H3 as l w5 H5. step H3 as u6 w6 H6. injection H3 as Hfront <-.
      cbn [large] in H5, H6.
      unfold map_at in Hempty. destruct (_largeSpanLists sh !! it) as [l0|] eqn:Hl0; [|done].
      injection H5 as <- <-.
      apply modify_shard_Done in H6 as (sh0 & Hsh0 & ->).
      assert (sh0 = sh) as -> by congruence.
      destruct l0 as [|front l0]; [done|]. cbn in Hfront. subst front.
      destruct (listed_insert w _ sh
                  (with_large false (<[ it := l0 ]> (large false sh)) sh) Hsh)
        as (rest & Hl & Hl').
      exfalso. destruct Hok as [_ Hlisted _ _ _ Hlive _].
      destruct (Hlisted 0) as (s & Hs & _); [|apply Hlive in Hs; lia].
      rewrite Hl. apply elem_of_app. left.
      rewrite (shard_listed_large_pop false sh it l0 0 Hl0). by left.
    + step Hrun as u4 w4 H4. injection Hrun as _ <-.
      pose proof (ReleaseSpanToCold_live _ _ _ _ _ H4) as Hlive.
      rewrite (ReleaseSpanToCold_listed _ _ _ _ _ H4). symmetry.
      apply (pop_listed span w w3); [|done|done].
      intros S L P A Hv. by eapply large_PopFront_view.
Qed.

Lemma reclaim_small_body_listed this i w r w' :
  heap_ok w → PageCacheShard.reclaim_small_body this i w = Done r w' →
  listed w' ≡ₚ listed w.
Proof.
  intros Hok Hrun. unfold PageCacheShard.reclaim_small_body in Hrun.
  step Hrun as sh w1 H1. apply this_shard_Done in H1 as [-> _].
  step Hrun as l w2 H2. apply small_list_Done in H2 as [-> _].
  destruct (_ && _); [|by injection Hrun as _ <-].
  step Hrun as span w3 H3. step Hrun as u4 w4 H4. injection Hrun as _ <-.
  pose proof (ReleaseSpanToCold_live _ _ _ _ _ H4) as Hlive.
  rewrite (ReleaseSpanToCold_listed _ _ _ _ _ H4). symmetry.
  apply (pop_listed span w w3); [|done|done].
  intros S L P A Hv. by eapply small_PopFront_view.
Qed.

Lemma loop_listed {B : Type} fuel (body : M (option B)) w a w' :
  (∀ w r w', heap_ok w → body w = Done r w' → heap_ok w' ∧ listed w' ≡ₚ listed w) →
  heap_ok w → loop fuel body w = Done a w' → heap_ok w' ∧ listed w' ≡ₚ listed w.
Proof.
  intros Hbody Hok Hrun.
  apply (loop_Done (λ w0, heap_ok w0 ∧ listed w0 ≡ₚ listed w)
           (λ _ w0, heap_ok w0 ∧ listed w0 ≡ₚ listed w) _ _ _ _ _) in Hrun; [done| |done].
  intros w0 r w0' [Hok0 Hl0] Hb. destruct (Hbody w0 r w0' Hok0 Hb) as [Hok' Hl'].
  assert (heap_ok w0' ∧ listed w0' ≡ₚ listed w) by (split; [done|by rewrite Hl']).
  by destruct r.
Qed.

Lemma reclaim_small_listed fuel count this i w u w' :
  heap_ok w → PageCacheShard.reclaim_small fuel count this i w = Done u w' →
  listed w' ≡ₚ listed w.
Proof.
  revert i w. induction count as [|count IH]; intros i w Hok Hrun.
  - by injection Hrun as _ <-.
  - cbn [PageCacheShard.reclaim_small] in Hrun.
    step Hrun as u1 w1 H1.
    apply (loop_listed _ _ _ _ _) in H1 as [Hok1 Hl1]; [| |done]; cycle 1.
    { intros w0 r w0' Hok0 Hb. split.
      - by eapply reclaim_small_body_ok.
      - by eapply reclaim_small_body_listed. }
    step Hrun as sh w2 H2. apply this_shard_Done in H2 as [-> _].
    destruct (_ <=? _); [by injection Hrun as _ <-|].
    rewrite <- Hl1. by eapply IH.
Qed.

Lemma ReleaseSomeSpansToSystem_listed fuel this w u w' :
  heap_ok w → PageCacheShard.ReleaseSomeSpansToSystem fuel this w = Done u w' →
  listed w' ≡ₚ listed w.
Proof.
  intros Hok Hrun. unfold PageCacheShard.ReleaseSomeSpansToSystem in Hrun.
  step Hrun as u1 w1 H1.
  apply (loop_listed _ _ _ _ _) in H1 as [Hok1 Hl1]; [| |done]; cycle 1.
  { intros w0 r w0' Hok0 Hb. split.
    - by eapply reclaim_large_body_ok.
    - by eapply reclaim_large_body_listed. }
  step Hrun as sh w2 H2. apply this_shard_Done in H2 as [-> _].
  destruct (_ <? _); [|by injection Hrun as _ <-].
  rewrite <- Hl1. by eapply reclaim_small_listed.
Qed.

Lemma ReleaseSpan_lists fuel this span w u w' :
  inuse span w → PageCacheShard.ReleaseSpan fuel this span w = Done u w' →
  span ∈ listed w'.
Proof.
  intros Hin Hrun. unfold PageCacheShard.ReleaseSpan in Hrun.
  step Hrun as u1 w1 H1. apply (loop_inuse _ _ _ _ _ _ (coalesce_left_ok this span) Hin) in H1.
  step Hrun as u2 w2 H2. apply (loop_inuse _ _ _ _ _ _ (coalesce_right_ok this span) H1) in H2.
  clear Hin H1 w w1.
  step Hrun as u3 w3 H3. apply (wr_release _ _ _ _ H2) in H3.
  step Hrun as u4 w4 H4. apply (wr_idle_ok _ _ _ _ _ H3) in H4; [|done].
  clear H2 H3 w2 w3.
  step Hrun as pid w5 H5. apply rd_live in H5 as [-> _].
  step Hrun as u6 w6 H6. keep H4 H6. clear H6 w4.
  step Hrun as pid' w7 H7. apply rd_live in H7 as [-> _].
  step Hrun as n w8 H8. apply rd_live in H8 as [-> _].
  step Hrun as u9 w9 H9. keep H4 H9. clear H9 w6.
  step Hrun as n' w10 H10. apply rd_live in H10 as [-> _].
  step Hrun as u11 w11 H11.
  assert (Hok : heap_ok w11 ∧ span ∈ listed w11).
  { destruct (n' <? NPAGES).
    - step H11 as m w12 H12. apply rd_live in H12 as [-> _]. split.
      + by eapply small_PushFront_idle.
      + destruct (small_PushFront_view _ _ _ _ _ _ _ _ _ _ _ eq_refl H11) as (L' & Hv & HL).
        injection Hv as _ -> _ _. rewrite HL. by left.
    - step H11 as m w12 H12. apply rd_live in H12 as [-> _]. split.
      + by eapply large_PushFront_idle.
      + destruct (large_PushFront_view _ _ _ _ _ _ _ _ _ _ _ eq_refl H11) as (L' & Hv & HL).
        injection Hv as _ -> _ _. rewrite HL. by left. }
  destruct Hok as [Hok Hin]. clear H4 H11 w9.
  step Hrun as n'' w13 H13. apply rd_live in H13 as [-> _].
  step Hrun as u14 w14 H14. view_of H14 Hv14.
  rewrite <- (view_listed _ _ Hv14) in Hin. keep Hok H14. clear H14 Hv14 w11.
  step Hrun as sh w15 H15. apply this_shard_Done in H15 as [-> _].
  destruct (_ <? _); [|by injection Hrun as _ <-].
  by rewrite (ReleaseSomeSpansToSystem_listed _ _ _ _ _ Hok Hrun).
Qed.

Lemma PageHeap_ReleaseSpan_lists fuel span w u w' :
  heap_ok w →
  field_of w span Span._isUse = Some true →
  PageHeap.ReleaseSpan fuel span w = Done u w' →
  field_of w' span Span._isUse = Some false ∧ span ∈ listed w'.
Proof.
  intros Hok Hu Hrun. pose proof Hok as [_ Hlisted _ _ _ Hlive _].
  unfold PageHeap.ReleaseSpan in Hrun.
  destruct (Z.eqb_spec span 0) as [->|Hne].
  { unfold field_of in Hu. destruct (spans w !! 0) as [s|] eqn:Hs; [|done].
    apply Hlive in Hs. lia. }
  step Hrun as idx w1 H1. step Hrun as w2 w3 H3. injection H3 as <- <-.
  apply rd_live in H1 as [-> _].
  destruct (_ <=? _); [done|]. split; [by eapply ReleaseSpan_marks_idle|].
  eapply ReleaseSpan_lists; [|exact Hrun]. split_and!; [done| |done].
  intros Hl. destruct (Hlisted span Hl) as (s & Hs & Hfalse).
  unfold field_of in Hu. rewrite Hs in Hu. cbn in Hu. congruence.
Qed.

(** X16. [ReleaseSpan] of a span in use, from a state reached through the
    page heap's operations: whatever it coalesced and reclaimed, the heap
    is in order again, the span's record is no longer in use and it is
    linked in a free list. *)
Theorem released_span_is_idle fuel span w w' :
  reachable w →
  field_of w span Span._isUse = Some true →
  PageHeap.ReleaseSpan fuel span w = Done tt w' →
  heap_ok w' ∧ field_of w' span Span._isUse = Some false ∧ (span ∈ listed w').
Proof.
  intros Hreach Hu Hrun. split.
  { apply reachable_ok. by eapply reach_ReleaseSpan. }
  apply reachable_ok in Hreach. by eapply PageHeap_ReleaseSpan_lists.
Qed.

Lemma released_span_is_idle_witness :
  match PageHeap.NewSpan 2 0 1 (new_world 1 4096 [8192000]) with
  | Done span w =>
      match PageHeap.ReleaseSpan 5 span w with
      | Done _ w' =>
          heap_ok w' ∧ field_of w' span Span._isUse = Some false ∧ (span ∈ listed w')
      | Raise _ => False
      end
  | Raise _ => False
  end.
Proof.
  assert (Hcheck :
    match PageHeap.NewSpan 2 0 1 (new_world 1 4096 [8192000]) with
    | Done span w =>
        match PageHeap.ReleaseSpan 5 span w with
        | Done _ _ =>
            match spans w !! span with Some s => Span._isUse s | None => false end
        | Raise _ => false
        end
    | Raise _ => false
    end = true) by (vm_compute; reflexivity).
  destruct (PageHeap.NewSpan 2 0 1 (new_world 1 4096 [8192000])) as [span w|e] eqn:E1; [|done].
  destruct (PageHeap.ReleaseSpan 5 span w) as [[] w'|e] eqn:E2; [|done].
  apply (released_span_is_idle 5 span w w'); [|
    |exact E2].
  - exact (reach_NewSpan _ _ _ _ _ _ (reach_init 1 4096 [8192000]) E1).
  - unfold field_of. destruct (spans w !! span) as [s|]; [|done]. cbn. by rewrite Hcheck.
Defined.

End ReleaseSpanFacts.

(** ** The facade: large blocks *)

Module FacadeRoundTrip.
Import State Machine Logic LogicFacts HeapSpec PageCacheFacts ListedFacts HeapInvFacts ColdFacts.
Import SizeClassFacts CarveFacts ReleaseSpanFacts.

Lemma large_request_pages t size :
  MAX_BYTES < size → size ≤ 2 ^ 64 - PAGE_SIZE →
  size ≤ SizeUtils.RoundUp t size ∧
  33 ≤ Z.shiftr (SizeUtils.RoundUp t size) PAGE_SHIFT.
Proof.
  intros Hlo Hhi. unfold SizeUtils.RoundUp.
  assert ((MAX_BYTES <? size) = true) as -> by (apply Z.ltb_lt; lia).
  unfold MAX_BYTES in Hlo. rewrite RoundUpToPage_spec by lia.
  change PAGE_SIZE with 8192 in *. change PAGE_SHIFT with 13.
  rewrite Z.shiftr_div_pow2 by lia. change (2 ^ 13) with 8192.
  rewrite (Z.mul_comm 8192), Z.div_mul by lia.
  pose proof (Z.div_mod (size + 8192 - 1) 8192 ltac:(lia)).
  pose proof (Z.mod_pos_bound (size + 8192 - 1) 8192 ltac:(lia)).
  split; [lia|]. apply Z.div_le_lower_bound; lia.
Qed.

Lemma large_malloc_Done fuel t idx tls size w p tls' w' :
  MAX_BYTES < size →
  ConcurrentAlloc.malloc fuel t idx tls size w = Done (p, tls') w' →
  tls' = tls ∧
  ∃ span s0 w1,
    PageHeap.NewSpan fuel idx (Z.shiftr (SizeUtils.RoundUp t size) PAGE_SHIFT) w = Done span w1 ∧
    spans w1 !! span = Some s0 ∧
    spans w' = <[ span := Span.set_isUse true
                            (Span.set_objSize (SizeUtils.RoundUp t size) s0) ]> (spans w1) ∧
    pagemap w' = pagemap w1 ∧
    p = wrap64 (Z.shiftl (Span._pageId s0) PAGE_SHIFT).
Proof.
  intros Hsize Hrun. unfold ConcurrentAlloc.malloc in Hrun.
  assert ((MAX_BYTES <? size) = true) as Hbig by (apply Z.ltb_lt; lia).
  rewrite Hbig in Hrun.
  step Hrun as span w1 H1.
  step Hrun as u2 w2 H2. apply wr_Done in H2 as (s0 & Hs0 & ->).
  step Hrun as u3 w3 H3. apply wr_Done in H3 as (s1 & Hs1 & ->).
  cbn [spans with_spans] in Hs1. rewrite lookup_insert_eq in Hs1. injection Hs1 as <-.
  step Hrun as pid w4 H4. apply rd_Done in H4 as (-> & s2 & Hs2 & ->).
  cbn [spans with_spans] in Hs2. rewrite lookup_insert_eq in Hs2. injection Hs2 as <-.
  injection Hrun as <- <- <-. split; [done|].
  exists span, s0, w1. split; [exact H1|]. split; [exact Hs0|].
  cbn [spans pagemap with_spans]. rewrite insert_insert_eq. done.
Qed.

(** X17. [malloc] of more than [MAX_BYTES] bytes leaves the thread cache
    alone and returns the first byte of a span in use whose [_objSize] is
    the rounded size, above [MAX_BYTES], and whose first page the page
    map sends to the span. *)
Theorem large_malloc_registers_span fuel t idx tls size w p tls' w' :
  MAX_BYTES < size → size ≤ 2 ^ 64 - PAGE_SIZE →
  ConcurrentAlloc.malloc fuel t idx tls size w = Done (p, tls') w' →
  tls' = tls ∧
  ∃ span s,
    spans w' !! span = Some s ∧
    p = wrap64 (Z.shiftl (Span._pageId s) PAGE_SHIFT) ∧
    Span._objSize s = SizeUtils.RoundUp t size ∧ MAX_BYTES < Span._objSize s ∧
    Span._isUse s = true ∧
    PageMap.get (pagemap w') (wrap64 (Span._pageId s)) = span.
Proof.
  intros Hlo Hhi Hrun.
  destruct (large_malloc_Done _ _ _ _ _ _ _ _ _ Hlo Hrun)
    as (-> & span & s0 & w1 & H1 & Hs0 & Hs' & Hpm & ->).
  split; [done|].
  exists span, (Span.set_isUse true (Span.set_objSize (SizeUtils.RoundUp t size) s0)).
  destruct (large_request_pages t size Hlo Hhi) as (Hr & Hk).
  pose proof (PageHeap_NewSpan_issues fuel idx
                (Z.shiftr (SizeUtils.RoundUp t size) PAGE_SHIFT) w) as Hi.
  unfold wp in Hi. rewrite H1 in Hi. destruct Hi as (s1 & Hs1 & _ & Hmap).
  assert (s1 = s0) as -> by congruence.
  rewrite Hs', Hpm. split; [apply lookup_insert_eq|].
  cbn [Span._pageId Span._objSize Span._isUse Span.set_isUse Span.set_objSize].
  split_and!; [done|done|lia|done|].
  rewrite <- (Hmap 0); [by rewrite Z.add_0_r|].
  unfold MAX_BYTES in *. change PAGE_SIZE with 8192 in *. lia.
Qed.

Lemma large_malloc_registers_span_witness :
  match ConcurrentAlloc.malloc 2 SizeUtils.zero_tables 0 None 300000
          (new_world 1 4096 [8192000]) with
  | Done (p, tls') w' =>
      tls' = None ∧
      ∃ span s,
        spans w' !! span = Some s ∧
        p = wrap64 (Z.shiftl (Span._pageId s) PAGE_SHIFT) ∧
        Span._objSize s = SizeUtils.RoundUp SizeUtils.zero_tables 300000 ∧
        MAX_BYTES < Span._objSize s ∧
        Span._isUse s = true ∧
        PageMap.get (pagemap w') (wrap64 (Span._pageId s)) = span
  | Raise _ => False
  end.
Proof.
  destruct (ConcurrentAlloc.malloc 2 SizeUtils.zero_tables 0 None 300000
              (new_world 1 4096 [8192000])) as [[p tls'] w'|e] eqn:E.
  - apply (large_malloc_registers_span 2 SizeUtils.zero_tables 0 None 300000
             (new_world 1 4096 [8192000]) p tls' w');
      [unfold MAX_BYTES; lia|change PAGE_SIZE with 8192; lia|exact E].
  - revert E. vm_compute. apply Done_not_Raise.
Defined.

(** X18. [malloc] of more than [MAX_BYTES] bytes followed by [free] of the
    pointer it returned: [free] finds the span of the block through the
    page map and releases it to the page heap, which is in order again
    with the span idle on a free list; the thread cache is not used. *)
Theorem large_malloc_then_free fuel t idx tls size w p tls' w1 fuel' r w2 :
  reachable w →
  MAX_BYTES < size → size ≤ 2 ^ 64 - PAGE_SIZE →
  ConcurrentAlloc.malloc fuel t idx tls size w = Done (p, tls') w1 →
  (∀ x s, spans w1 !! x = Some s → 0 < Span._pageId s < 2 ^ 51) →
  ConcurrentAlloc.free fuel' t tls' p w1 = Done r w2 →
  r = tls ∧ heap_ok w2 ∧
  ∃ span,
    PageMap.get (pagemap w1) (Z.shiftr p PAGE_SHIFT) = span ∧
    field_of w1 span Span._isUse = Some true ∧
    field_of w2 span Span._isUse = Some false ∧
    span ∈ listed w2.
Proof.
  intros Hreach Hlo Hhi Hmalloc Hpids Hfree.
  pose proof (reachable_ok _ (reachable_malloc _ _ _ _ _ _ _ _ Hreach Hmalloc)) as Hok1.
  destruct (large_malloc_Done _ _ _ _ _ _ _ _ _ Hlo Hmalloc)
    as (-> & span & s0 & w0 & H1 & Hs0 & Hs' & Hpm & ->).
  destruct (large_request_pages t size Hlo Hhi) as (Hr & Hk).
  pose proof (PageHeap_NewSpan_issues fuel idx
                (Z.shiftr (SizeUtils.RoundUp t size) PAGE_SHIFT) w) as Hi.
  unfold wp in Hi. rewrite H1 in Hi. destruct Hi as (s1 & Hs1 & _ & Hmap).
  assert (s1 = s0) as -> by congruence.
  assert (Hs1' : spans w1 !! span
                 = Some (Span.set_isUse true (Span.set_objSize (SizeUtils.RoundUp t size) s0)))
    by (rewrite Hs'; apply lookup_insert_eq).
  pose proof (Hpids _ _ Hs1') as Hpid. cbn in Hpid.
  change PAGE_SHIFT with 13 in *. change PAGE_SIZE with 8192 in *. unfold MAX_BYTES in *.
  rewrite Z.shiftl_mul_pow2 in * by lia. change (2 ^ 13) with 8192 in *.
  rewrite (wrap64_small (Span._pageId s0 * 8192)) in * by lia.
  assert (Hshift : Z.shiftr (Span._pageId s0 * 8192) 13 = Span._pageId s0).
  { rewrite Z.shiftr_div_pow2 by lia. change (2 ^ 13) with 8192. by rewrite Z.div_mul. }
  assert (Hget : PageMap.get (pagemap w1) (Span._pageId s0) = span).
  { rewrite Hpm, <- (Hmap 0) by lia. by rewrite Z.add_0_r, wrap64_small by lia. }
  assert (Hu : field_of w1 span Span._isUse = Some true)
    by (unfold field_of; by rewrite Hs1').
  assert (Hspan : span ≠ 0).
  { destruct Hok1 as [_ _ _ _ _ Hlive _]. apply Hlive in Hs1'. lia. }
  unfold ConcurrentAlloc.free in Hfree.
  assert ((Span._pageId s0 * 8192 =? 0) = false) as Hp0 by (apply Z.eqb_neq; lia).
  rewrite Hp0 in Hfree. change PAGE_SHIFT with 13 in Hfree. rewrite Hshift in Hfree.
  step Hfree as sp w3 H3. unfold PageMap_get in H3. injection H3 as <- <-.
  rewrite Hget in Hfree.
  assert ((span =? 0) = false) as Hs0' by (by apply Z.eqb_neq). rewrite Hs0' in Hfree.
  cbn [negb] in Hfree.
  step Hfree as sz w4 H4. apply rd_Done in H4 as (-> & s2 & Hs2 & ->).
  assert (s2 = Span.set_isUse true (Span.set_objSize (SizeUtils.RoundUp t size) s0))
    as -> by congruence.
  cbn [Span._objSize Span.set_isUse Span.set_objSize] in Hfree.
  assert ((262144 <? SizeUtils.RoundUp t size) = true) as Hbig by (apply Z.ltb_lt; lia).
  change MAX_BYTES with 262144 in Hfree. rewrite Hbig in Hfree.
  step Hfree as u5 w5 H5. injection Hfree as <- <-.
  split; [done|]. split; [by eapply PageHeap_ReleaseSpan_ok|].
  exists span. rewrite Hshift. split; [done|]. split; [done|].
  by eapply PageHeap_ReleaseSpan_lists.
Qed.

Lemma large_malloc_then_free_witness :
  match ConcurrentAlloc.malloc 2 SizeUtils.zero_tables 0 None 300000
          (new_world 1 4096 [8192000]) with
  | Done (p, tls') w1 =>
      match ConcurrentAlloc.free 5 SizeUtils.zero_tables tls' p w1 with
      | Done r w2 =>
          r = None ∧ heap_ok w2 ∧
          ∃ span,
            PageMap.get (pagemap w1) (Z.shiftr p PAGE_SHIFT) = span ∧
            field_of w1 span Span._isUse = Some true ∧
            field_of w2 span Span._isUse = Some false ∧
            span ∈ listed w2
      | Raise _ => False
      end
  | Raise _ => False
  end.
Proof.
  assert (Hcheck :
    match ConcurrentAlloc.malloc 2 SizeUtils.zero_tables 0 None 300000
            (new_world 1 4096 [8192000]) with
    | Done (p, tls') w1 =>
        match ConcurrentAlloc.free 5 SizeUtils.zero_tables tls' p w1 with
        | Done _ _ =>
            forallb (λ kv : Z * Span.Span,
                       (0 <? Span._pageId kv.2) && (Span._pageId kv.2 <? 2 ^ 51))
                    (map_to_list (spans w1))
        | Raise _ => false
        end
    | Raise _ => false
    end = true) by (vm_compute; reflexivity).
  destruct (ConcurrentAlloc.malloc 2 SizeUtils.zero_tables 0 None 300000
              (new_world 1 4096 [8192000])) as [[p tls'] w1|e] eqn:E1; [|done].
  destruct (ConcurrentAlloc.free 5 SizeUtils.zero_tables tls' p w1) as [r w2|e] eqn:E2; [|done].
  apply (large_malloc_then_free 2 SizeUtils.zero_tables 0 None 300000
           (new_world 1 4096 [8192000]) p tls' w1 5 r w2);
    [apply reach_init|unfold MAX_BYTES; lia|change PAGE_SIZE with 8192; lia|exact E1|
    |exact E2].
  intros x s Hs. apply elem_of_map_to_list in Hs. apply list_elem_of_In in Hs.
  rewrite forallb_forall in Hcheck. specialize (Hcheck _ Hs). cbn [snd] in Hcheck.
  apply andb_true_iff in Hcheck as [H1 H2]. apply Z.ltb_lt in H1, H2. lia.
Defined.

End FacadeRoundTrip.

(** ** The facade: small blocks through the thread cache *)

Module FacadeSmall.
Import State Machine Logic LogicFacts FreeList FreeListSpec FreeListFacts FallbackFacts.
Import SizeUtilsFacts ThreadCacheFacts.

(** [free] of a small block, then [malloc] of a size of the class the
    span of the block was sliced for. *)
Lemma free_then_malloc_run fuel t idx cache p n w span s l nodes :
  n ≤ MAX_BYTES →
  SizeUtils.Index t (Span._objSize s) = SizeUtils.Index t n →
  Span._objSize s ≤ MAX_BYTES →
  p ≠ 0 →
  PageMap.get (pagemap w) (Z.shiftr p PAGE_SHIFT) = span → span ≠ 0 →
  spans w !! span = Some s →
  cache !! Z.to_nat (SizeUtils.Index t n) = Some l →
  FreeList_repr (memory w) l nodes →
  _size l + 1 < wrap64 (_maxSize l + _maxNum l) →
  ∃ cache1,
    ConcurrentAlloc.free fuel t (Some cache) p w
      = Done (Some cache1) (with_memory (<[ p := _head l ]> (memory w)) w) ∧
    ConcurrentAlloc.malloc fuel t idx (Some cache1) n
        (with_memory (<[ p := _head l ]> (memory w)) w)
      = Done (p, Some cache) (with_memory (<[ p := _head l ]> (memory w)) w).
Proof.
  intros Hn Hidx Hsmall Hp Hget Hspan Hs Hl Hrepr Hroom.
  destruct (Push l (memory w) p) as [[l1 m1]|] eqn:Hpush; cycle 1.
  { unfold Push in Hpush. by destruct (Z.eqb_spec p 0). }
  destruct (Pop_Push _ _ _ _ _ _ Hrepr Hpush) as (-> & _ & _ & _ & _ & _ & Hpop).
  assert (Hlen : (Z.to_nat (SizeUtils.Index t n) < length cache)%nat)
    by (by eapply lookup_lt_Some).
  assert (Hsize : 0 ≤ _size l) by (destruct Hrepr as (_ & -> & _); lia).
  exists (<[ Z.to_nat (SizeUtils.Index t n) := l1 ]> cache). split.
  - unfold ConcurrentAlloc.free.
    assert ((p =? 0) = false) as -> by (by apply Z.eqb_neq).
    rewrite bind_run. unfold PageMap_get at 1. rewrite Hget. cbv beta iota.
    assert ((span =? 0) = false) as -> by (by apply Z.eqb_neq). cbn [negb].
    rewrite bind_run, (rd_run _ _ _ _ Hs). cbv beta iota.
    assert ((MAX_BYTES <? Span._objSize s) = false) as -> by (apply Z.ltb_ge; lia).
    rewrite bind_run.
    rewrite (Deallocate_room_run fuel t cache p (Span._objSize s) w l l1
               (<[ p := _head l ]> (memory w))); [|by rewrite Hidx|exact Hpush|exact Hsize|exact Hroom].
    cbv beta iota. rewrite Hidx. reflexivity.
  - unfold ConcurrentAlloc.malloc.
    assert ((MAX_BYTES <? n) = false) as -> by (apply Z.ltb_ge; lia).
    rewrite bind_run.
    rewrite (Allocate_pop_run fuel t idx _ n _ l1 p l);
      [|by apply list_lookup_insert_eq|exact Hpop].
    cbv beta iota. rewrite ret_run. cbn [fst snd].
    by rewrite list_insert_insert_eq, list_insert_id.
Qed.

(** The block size of a small request is in the class of the request. *)
Lemma objSize_class n size :
  1 ≤ n ≤ MAX_BYTES →
  size = SizeUtils.RoundUp SizeUtils.tables n →
  SizeUtils.Index SizeUtils.tables size = SizeUtils.Index SizeUtils.tables n ∧
  size ≤ MAX_BYTES.
Proof.
  intros Hn Hobj.
  destruct (Index_tables n Hn) as [[H0 _] Hlt].
  assert (Hround : SizeUtils.RoundUp SizeUtils.tables n
                   = SizeUtils.Size SizeUtils.tables (SizeUtils.Index SizeUtils.tables n)).
  { unfold SizeUtils.RoundUp.
    assert ((MAX_BYTES <? n) = false) as Hsmall by (apply Z.ltb_ge; lia).
    rewrite Hsmall. reflexivity. }
  pose proof (Size_tables_range (SizeUtils.Index SizeUtils.tables n) (conj H0 Hlt)) as Hr.
  rewrite Hobj, Hround. split; [|lia]. apply Index_Size_tables. exact (conj H0 Hlt).
Qed.

(** X19. [free] of a small block whose span was sliced for the class of [n],
    on a thread whose list of that class has room, followed by
    [malloc n]: [free] finds the size through the page map and pushes
    the block on the list, [malloc] pops it again; the block comes back,
    the thread cache is as before and only the first word of the block
    has been written.  Neither call reaches the central cache. *)
Theorem free_then_malloc_returns_block fuel idx cache p n w span s l nodes :
  1 ≤ n ≤ MAX_BYTES →
  p ≠ 0 →
  PageMap.get (pagemap w) (Z.shiftr p PAGE_SHIFT) = span → span ≠ 0 →
  spans w !! span = Some s →
  Span._objSize s = SizeUtils.RoundUp SizeUtils.tables n →
  cache !! Z.to_nat (SizeUtils.Index SizeUtils.tables n) = Some l →
  FreeList_repr (memory w) l nodes →
  _size l + 1 < wrap64 (_maxSize l + _maxNum l) →
  ∃ cache1,
    ConcurrentAlloc.free fuel SizeUtils.tables (Some cache) p w
      = Done (Some cache1) (with_memory (<[ p := _head l ]> (memory w)) w) ∧
    ConcurrentAlloc.malloc fuel SizeUtils.tables idx (Some cache1) n
        (with_memory (<[ p := _head l ]> (memory w)) w)
      = Done (p, Some cache) (with_memory (<[ p := _head l ]> (memory w)) w).
Proof.
  intros Hn Hp Hget Hspan Hs Hobj Hl Hrepr Hroom.
  destruct (objSize_class n (Span._objSize s) Hn Hobj) as [Hidx Hsmall].
  apply (free_then_malloc_run fuel SizeUtils.tables idx cache p n w span s l nodes).
  - lia.
  - exact Hidx.
  - exact Hsmall.
  - exact Hp.
  - exact Hget.
  - exact Hspan.
  - exact Hs.
  - exact Hl.
  - exact Hrepr.
  - exact Hroom.
Qed.

Lemma free_then_malloc_returns_block_witness :
  match PageMap.set PageMap.empty 1 64 with
  | Some pm =>
      ∃ cache1,
        ConcurrentAlloc.free 5 SizeUtils.tables (Some [fresh 2; fresh 2]) 8224
          {| memory := ∅;
             spans := {[ 64 := Span.set_objSize 16 Span.init ]};
             pagemap := pm; shards := []; buckets := [[]; [64]];
             os_answers := []; os_requests := []; fetch_requests := []; span_arena := 128 |}
          = Done (Some cache1)
              (with_memory (<[ 8224 := _head (fresh 2) ]> ∅)
                 {| memory := ∅;
                    spans := {[ 64 := Span.set_objSize 16 Span.init ]};
                    pagemap := pm; shards := []; buckets := [[]; [64]];
                    os_answers := []; os_requests := []; fetch_requests := [];
                    span_arena := 128 |}) ∧
        ConcurrentAlloc.malloc 5 SizeUtils.tables 0 (Some cache1) 16
            (with_memory (<[ 8224 := _head (fresh 2) ]> ∅)
               {| memory := ∅;
                  spans := {[ 64 := Span.set_objSize 16 Span.init ]};
                  pagemap := pm; shards := []; buckets := [[]; [64]];
                  os_answers := []; os_requests := []; fetch_requests := [];
                  span_arena := 128 |})
          = Done (8224, Some [fresh 2; fresh 2])
              (with_memory (<[ 8224 := _head (fresh 2) ]> ∅)
                 {| memory := ∅;
                    spans := {[ 64 := Span.set_objSize 16 Span.init ]};
                    pagemap := pm; shards := []; buckets := [[]; [64]];
                    os_answers := []; os_requests := []; fetch_requests := [];
                    span_arena := 128 |})
  | None => False
  end.
Proof.
  destruct (PageMap.set PageMap.empty 1 64) as [pm|] eqn:E; [|by vm_compute in E].
  refine (free_then_malloc_returns_block 5 0 [fresh 2; fresh 2] 8224 16
            {| memory := ∅;
               spans := {[ 64 := Span.set_objSize 16 Span.init ]};
               pagemap := pm; shards := []; buckets := [[]; [64]];
               os_answers := []; os_requests := []; fetch_requests := []; span_arena := 128 |}
            64 (Span.set_objSize 16 Span.init) (fresh 2) [] _ _ _ _ _ _ _ _ _).
  - unfold MAX_BYTES. lia.
  - lia.
  - change (Z.shiftr 8224 PAGE_SHIFT) with 1. exact (PageMapFacts.get_set_eq _ _ _ _ E).
  - lia.
  - reflexivity.
  - rewrite RoundUp_tables_16. reflexivity.
  - rewrite Index_tables_16. reflexivity.
  - repeat split.
  - vm_compute. reflexivity.
Defined.

(** [ReleaseListToSpans], [ListTooLong] and [Deallocate] use the size
    they are given for its class only. *)
Lemma ReleaseListToSpans_class fuel t start a b w :
  SizeUtils.Index t a = SizeUtils.Index t b →
  CentralCache.ReleaseListToSpans fuel t start a w
  = CentralCache.ReleaseListToSpans fuel t start b w.
Proof. unfold CentralCache.ReleaseListToSpans. by intros ->. Qed.

Lemma ListTooLong_class fuel t l a b w :
  SizeUtils.Index t a = SizeUtils.Index t b →
  ThreadCache.ListTooLong fuel t l a w = ThreadCache.ListTooLong fuel t l b w.
Proof.
  intros Hidx. unfold ThreadCache.ListTooLong.
  rewrite !(bind_run get_world). unfold get_world. cbv beta iota.
  rewrite !(bind_run (from_option _)).
  destruct (from_option _ w) as [[[[start e] l'] m] w1|]; [|done].
  rewrite !(bind_run (put_world _)).
  destruct (put_world _ w1) as [u w2|]; [|done].
  rewrite !(bind_run (CentralCache.ReleaseListToSpans _ _ _ _)).
  by rewrite (ReleaseListToSpans_class fuel t start a b w2 Hidx).
Qed.

Lemma Deallocate_class fuel t cache ptr a b w :
  SizeUtils.Index t a = SizeUtils.Index t b →
  ThreadCache.Deallocate fuel t cache ptr a w = ThreadCache.Deallocate fuel t cache ptr b w.
Proof.
  intros Hidx. unfold ThreadCache.Deallocate. destruct (ptr =? 0); [done|].
  cbv zeta. rewrite Hidx.
  rewrite !(bind_run (from_option _)).
  destruct (from_option _ w) as [l w1|]; [|done].
  rewrite !(bind_run get_world). unfold get_world. cbv beta iota.
  rewrite !(bind_run (from_option _)).
  destruct (from_option _ w1) as [pushed w2|]; [|done].
  rewrite !(bind_run (put_world _)).
  destruct (put_world _ w2) as [u w3|]; [|done].
  destruct (_ <=? _); [|done].
  rewrite !(bind_run (ThreadCache.ListTooLong _ _ _ _)).
  by rewrite (ListTooLong_class fuel t pushed.1 a b w3 Hidx).
Qed.

Lemma free_sized_class fuel t tls ptr n w span s :
  n ≤ MAX_BYTES → Span._objSize s ≤ MAX_BYTES →
  SizeUtils.Index t n = SizeUtils.Index t (Span._objSize s) →
  ptr ≠ 0 →
  PageMap.get (pagemap w) (Z.shiftr ptr PAGE_SHIFT) = span → span ≠ 0 →
  spans w !! span = Some s →
  ConcurrentAlloc.free_sized fuel t tls ptr n w = ConcurrentAlloc.free fuel t tls ptr w.
Proof.
  intros Hn Hsmall Hidx Hp Hget Hspan Hs.
  unfold ConcurrentAlloc.free_sized, ConcurrentAlloc.free.
  assert ((MAX_BYTES <? n) = false) as -> by (apply Z.ltb_ge; lia).
  assert ((ptr =? 0) = false) as -> by (by apply Z.eqb_neq).
  rewrite (bind_run (PageMap_get _)). unfold PageMap_get at 1. rewrite Hget. cbv beta iota.
  assert ((span =? 0) = false) as -> by (by apply Z.eqb_neq). cbn [negb].
  rewrite (bind_run (rd _ _)), (rd_run _ _ _ _ Hs). cbv beta iota.
  assert ((MAX_BYTES <? Span._objSize s) = false) as -> by (apply Z.ltb_ge; lia).
  cbv zeta. rewrite !(bind_run (ThreadCache.Deallocate _ _ _ _ _)).
  rewrite (Deallocate_class fuel t _ ptr n (Span._objSize s) w Hidx). reflexivity.
Qed.

(** X20. For a live small block, [free(ptr, n)] with a size [n] of the class
    the block was allocated for does what [free(ptr)] does, without the
    lookup in the page map: the size is used for its class only. *)
Theorem free_sized_agrees_with_free fuel tls ptr n w span s :
  1 ≤ n ≤ MAX_BYTES →
  ptr ≠ 0 →
  PageMap.get (pagemap w) (Z.shiftr ptr PAGE_SHIFT) = span → span ≠ 0 →
  spans w !! span = Some s →
  Span._objSize s = SizeUtils.RoundUp SizeUtils.tables n →
  ConcurrentAlloc.free_sized fuel SizeUtils.tables tls ptr n w
  = ConcurrentAlloc.free fuel SizeUtils.tables tls ptr w.
Proof.
  intros Hn Hp Hget Hspan Hs Hobj.
  destruct (objSize_class n (Span._objSize s) Hn Hobj) as [Hidx Hsmall].
  apply (free_sized_class fuel SizeUtils.tables tls ptr n w span s).
  - lia.
  - exact Hsmall.
  - symmetry. exact Hidx.
  - exact Hp.
  - exact Hget.
  - exact Hspan.
  - exact Hs.
Qed.

Lemma free_sized_agrees_with_free_witness :
  match PageMap.set PageMap.empty 1 64 with
  | Some pm =>
      ConcurrentAlloc.free_sized 5 SizeUtils.tables (Some [fresh 2; fresh 2]) 8224 16
        {| memory := ∅;
           spans := {[ 64 := Span.set_objSize 16 Span.init ]};
           pagemap := pm; shards := []; buckets := [[]; [64]];
           os_answers := []; os_requests := []; fetch_requests := []; span_arena := 128 |}
      = ConcurrentAlloc.free 5 SizeUtils.tables (Some [fresh 2; fresh 2]) 8224
          {| memory := ∅;
             spans := {[ 64 := Span.set_objSize 16 Span.init ]};
             pagemap := pm; shards := []; buckets := [[]; [64]];
             os_answers := []; os_requests := []; fetch_requests := []; span_arena := 128 |}
  | None => False
  end.
Proof.
  destruct (PageMap.set PageMap.empty 1 64) as [pm|] eqn:E; [|by vm_compute in E].
  refine (free_sized_agrees_with_free 5 (Some [fresh 2; fresh 2]) 8224 16
            {| memory := ∅;
               spans := {[ 64 := Span.set_objSize 16 Span.init ]};
               pagemap := pm; shards := []; buckets := [[]; [64]];
               os_answers := []; os_requests := []; fetch_requests := []; span_arena := 128 |}
            64 (Span.set_objSize 16 Span.init) _ _ _ _ _ _).
  - unfold MAX_BYTES. lia.
  - lia.
  - change (Z.shiftr 8224 PAGE_SHIFT) with 1. exact (PageMapFacts.get_set_eq _ _ _ _ E).
  - lia.
  - reflexivity.
  - rewrite RoundUp_tables_16. reflexivity.
Defined.

End FacadeSmall.

(** ** CentralCache: the last object of a span comes back *)

Module LastObjectFacts.
Import State Machine Logic LogicFacts HeapSpec FrameFacts OkFacts ListedFacts HeapInvFacts.
Import ColdFacts CarveFacts ReleaseSpanFacts BucketSpec.

Lemma keeps_bind {A B : Type} (P : World → Prop) (m : M A) (f : A → M B) :
  keeps P m → (∀ a, keeps P (f a)) → keeps P (m ≫= f).
Proof.
  intros Hm Hf w b w' HP (a & w1 & H1 & H2)%bind_Done.
  eapply Hf; [|exact H2]. by eapply Hm.
Qed.

Lemma keeps_loop {A : Type} (P : World → Prop) fuel (body : M (option A)) :
  keeps P body → keeps P (loop fuel body).
Proof.
  intros Hb. induction fuel as [|fuel IH]; simpl.
  - by intros w a w' _.
  - apply keeps_bind; [done|]. intros [a|]; [|done]. by intros w a' w' HP [= _ <-].
Qed.

Lemma keeps_preserves {A : Type} span (m : M A) :
  preserves buckets m → keeps (off_buckets span) m.
Proof. intros Hp w a w' HP Hrun. unfold off_buckets. by rewrite (Hp _ _ _ Hrun). Qed.

Lemma erase_off_buckets span x (bs : list (list Z)) :
  span ∈ concat ((λ l, Span.Erase l x) <$> bs) → span ∈ concat bs ∧ span ≠ x.
Proof.
  induction bs as [|l bs IH]; cbn [fmap list_fmap concat].
  - by intros ?%elem_of_nil.
  - intros [Hin|Hin]%elem_of_app.
    + apply list_elem_of_filter in Hin as [Hne Hin]. split; [|done].
      apply elem_of_app. by left.
    + destruct (IH Hin) as [Hc Hne]. split; [|done]. apply elem_of_app. by right.
Qed.

Lemma keeps_Span_Remove span x : keeps (off_buckets span) (Span_Remove x).
Proof.
  intros w a w' HP Hrun. unfold Span_Remove in Hrun.
  destruct (bool_decide _); [|done]. injection Hrun as _ <-.
  unfold off_buckets. cbn [buckets with_buckets].
  intros [Hin _]%erase_off_buckets. by apply HP.
Qed.

Lemma reclaim_small_keeps_buckets fuel count this i :
  preserves buckets (PageCacheShard.reclaim_small fuel count this i).
Proof.
  revert i. induction count as [|count IH]; intros i; cbn [PageCacheShard.reclaim_small].
  - apply preserves_ret.
  - apply preserves_bind; [frame_reclaim|]. intros _.
    apply preserves_bind; [frame_all|]. intros sh.
    destruct (_ <=? _); [apply preserves_ret|apply IH].
Qed.

Lemma ReleaseSomeSpansToSystem_keeps_buckets fuel this :
  preserves buckets (PageCacheShard.ReleaseSomeSpansToSystem fuel this).
Proof.
  unfold PageCacheShard.ReleaseSomeSpansToSystem.
  apply preserves_bind; [frame_reclaim|]. intros _.
  apply preserves_bind; [frame_all|]. intros sh.
  destruct (_ <? _); [apply reclaim_small_keeps_buckets|apply preserves_ret].
Qed.

Ltac keeps_all :=
  lazymatch goal with
  | |- keeps _ (_ ≫= _) => apply keeps_bind; [keeps_all | intros ?; keeps_all]
  | |- keeps _ (if ?b then _ else _) => destruct b; keeps_all
  | |- keeps _ (Span_Remove _) => apply keeps_Span_Remove
  | |- keeps _ (loop _ _) => apply keeps_loop; keeps_all
  | |- keeps _ (PageCacheShard.coalesce_left _ _) =>
      unfold PageCacheShard.coalesce_left; keeps_all
  | |- keeps _ (PageCacheShard.coalesce_right _ _) =>
      unfold PageCacheShard.coalesce_right; keeps_all
  | |- keeps _ (PageCacheShard.ReleaseSomeSpansToSystem _ _) =>
      apply keeps_preserves, ReleaseSomeSpansToSystem_keeps_buckets
  | |- _ => apply keeps_preserves; frame_all
  end.

(** [ReleaseSpan] links no span into a bucket of the central cache. *)
Lemma PageHeap_ReleaseSpan_off_buckets x fuel span :
  keeps (off_buckets x) (PageHeap.ReleaseSpan fuel span).
Proof.
  unfold PageHeap.ReleaseSpan, PageCacheShard.ReleaseSpan. keeps_all.
Qed.

(** One round of [ReleaseListToSpans] on the last object out of a span. *)
Lemma release_last_object fuel x w span s r w' :
  heap_ok w →
  PageMap.get (pagemap w) (Z.shiftr x PAGE_SHIFT) = span →
  spans w !! span = Some s →
  Span._useCount s = 1 → Span._isUse s = true →
  CentralCache.release_object fuel x w = Done r w' →
  r = NextObj (memory w) x ∧
  heap_ok w' ∧ field_of w' span Span._isUse = Some false ∧
  span ∈ listed w' ∧ off_buckets span w'.
Proof.
  intros Hok Hget Hs Huc Huse Hrun. unfold CentralCache.release_object in Hrun.
  step Hrun as w0 w1 H1. injection H1 as <- <-.
  step Hrun as sp w2 H2. unfold PageMap_get in H2. injection H2 as <- <-.
  rewrite Hget in Hrun.
  step Hrun as fl w3 H3. apply rd_live in H3 as [-> _].
  step Hrun as u4 w4 H4. apply set_NextObj_Done in H4 as [Hx ->].
  step Hrun as u5 w5 H5. apply wr_Done in H5 as (s5 & Hs5 & ->).
  cbn [spans with_memory] in Hs5. rewrite Hs in Hs5. injection Hs5 as <-.
  step Hrun as uc w6 H6. apply rd_Done in H6 as (-> & s6 & Hs6 & ->).
  cbn [spans with_spans] in Hs6. rewrite lookup_insert_eq in Hs6. injection Hs6 as <-.
  step Hrun as u7 w7 H7. apply wr_Done in H7 as (s7 & Hs7 & ->).
  cbn [spans with_spans] in Hs7. rewrite lookup_insert_eq in Hs7. injection Hs7 as <-.
  step Hrun as uc' w8 H8. apply rd_Done in H8 as (-> & s8 & Hs8 & ->).
  cbn [spans with_spans] in Hs8. rewrite lookup_insert_eq in Hs8. injection Hs8 as <-.
  cbn [Span._useCount Span.set_useCount Span.set_freeList] in Hrun.
  rewrite Huc in Hrun. change (wrap64 (1 - 1) =? 0) with true in Hrun. cbv iota in Hrun.
  step Hrun as u9 w9 H9. injection Hrun as <- <-. split; [done|].
  cbn [spans with_spans with_memory] in H9. rewrite insert_insert_eq in H9.
  set (s1 := Span.set_useCount (wrap64 (1 - 1)) (Span.set_freeList x s)) in H9.
  lazymatch type of H9 with _ ?W0 = _ => set (W := W0) in H9 end.
  assert (HokW : heap_ok W).
  { eapply (heap_ok_view W); [reflexivity|]. cbn [spans with_spans].
    by eapply (ok_write_flags Hok span s (λ _, s1)). }
  assert (HuW : field_of W span Span._isUse = Some true).
  { unfold field_of. cbn [spans with_spans W]. rewrite lookup_insert_eq. cbn.
    by rewrite <- Huse. }
  clearbody W. clear Hok Hs Hget.
  step H9 as u10 w10 H10.
  assert (Hoff : off_buckets span w10).
  { unfold Span_Remove in H10. destruct (bool_decide _); [|done]. injection H10 as _ <-.
    unfold off_buckets. cbn [buckets with_buckets].
    by intros [_ Hne]%erase_off_buckets. }
  destruct (Span_Remove_view span W u10 w10 _ _ _ _ eq_refl H10) as (L' & Hv & HL).
  apply filter_ne_sub in HL as [Hsub _].
  assert (Hok10 : heap_ok w10).
  { eapply heap_ok_view; [exact Hv|]. by eapply ok_sub. }
  assert (Hu10 : field_of w10 span Span._isUse = Some true).
  { unfold field_of. injection Hv as -> _ _ _. exact HuW. }
  clear Hv Hsub HokW HuW H10.
  step H9 as u11 w11 H11.
  assert (Hoff11 : off_buckets span w11).
  { eapply (keeps_preserves span (wr span (Span.set_freeList 0))); [frame_all|done..]. }
  destruct (wr_flags_ok span (Span.set_freeList 0) _ _ _ Hok10
              (λ s _, conj eq_refl eq_refl) H11)
    as (Hok11 & _ & Hu11).
  rewrite <- Hu11 in Hu10.
  split; [by eapply PageHeap_ReleaseSpan_ok|].
  destruct (PageHeap_ReleaseSpan_lists _ _ _ _ _ Hok11 Hu10 H9) as [Hidle Hlisted].
  split; [done|]. split; [done|].
  by eapply PageHeap_ReleaseSpan_off_buckets.
Qed.

(** X22. When the object that comes back is the last one out of its span
    ([_useCount] is 1), [ReleaseListToSpans] unlinks the span from the
    central cache and hands it to the page heap: whenever the call
    returns, the heap is in order, the span is no longer in use, it is
    linked in a free list of the page heap and in no bucket. *)
Theorem last_object_returns_span fuel t x size w span s w' :
  heap_ok w →
  x ≠ 0 → NextObj (memory w) x = 0 →
  PageMap.get (pagemap w) (Z.shiftr x PAGE_SHIFT) = span →
  spans w !! span = Some s →
  Span._useCount s = 1 → Span._isUse s = true →
  CentralCache.ReleaseListToSpans fuel t x size w = Done tt w' →
  heap_ok w' ∧ field_of w' span Span._isUse = Some false ∧
  span ∈ listed w' ∧ span ∉ concat (buckets w').
Proof.
  intros Hok Hx Hnext Hget Hs Huc Huse Hrun.
  unfold CentralCache.ReleaseListToSpans in Hrun.
  step Hrun as w0 w1 H1. injection H1 as <- <-.
  step Hrun as b w2 H2. destruct (buckets w !! _); [|done]. injection H2 as _ <-.
  destruct fuel as [|fuel']; [done|]. cbn [CentralCache.release_objects] in Hrun.
  assert ((x =? 0) = false) as Hxb by (by apply Z.eqb_neq). rewrite Hxb in Hrun.
  step Hrun as r w3 H3.
  destruct (release_last_object _ _ _ _ _ _ _ Hok Hget Hs Huc Huse H3)
    as (-> & Hok3 & Hu3 & Hl3 & Hoff3).
  rewrite Hnext in Hrun. destruct fuel' as [|fuel'']; [done|].
  cbn [CentralCache.release_objects Z.eqb] in Hrun. by injection Hrun as <-.
Qed.

Lemma last_object_returns_span_witness :
  match CentralCache.FetchRangeObj 600 SizeUtils.tables 0 1 16 (new_world 1 4096 [8192000]) with
  | Done r w =>
      match CentralCache.ReleaseListToSpans 5 SizeUtils.tables r.1.1 16 w with
      | Done _ w' =>
          heap_ok w' ∧
          field_of w' (PageMap.get (pagemap w) (Z.shiftr r.1.1 PAGE_SHIFT)) Span._isUse
            = Some false ∧
          PageMap.get (pagemap w) (Z.shiftr r.1.1 PAGE_SHIFT) ∈ listed w' ∧
          PageMap.get (pagemap w) (Z.shiftr r.1.1 PAGE_SHIFT) ∉ concat (buckets w')
      | Raise _ => False
      end
  | Raise _ => False
  end.
Proof.
  assert (Hcheck :
    match CentralCache.FetchRangeObj 600 SizeUtils.tables 0 1 16
            (new_world 1 4096 [8192000]) with
    | Done r w =>
        match CentralCache.ReleaseListToSpans 5 SizeUtils.tables r.1.1 16 w with
        | Done _ _ =>
            negb (r.1.1 =? 0) && (NextObj (memory w) r.1.1 =? 0)
            && match spans w !! PageMap.get (pagemap w) (Z.shiftr r.1.1 PAGE_SHIFT) with
               | Some s => (Span._useCount s =? 1) && Span._isUse s
               | None => false
               end
        | Raise _ => false
        end
    | Raise _ => false
    end = true).
  { unfold CentralCache.FetchRangeObj, CentralCache.GetOneSpan, CentralCache.ReleaseListToSpans.
    pose proof SizeUtilsFacts.Index_tables_16 as HI.
    pose proof SizeUtilsFacts.RoundUp_tables_16 as HR.
    set (i := SizeUtils.Index SizeUtils.tables 16) in *.
    set (a := SizeUtils.RoundUp SizeUtils.tables 16) in *.
    clearbody i a. subst i a. vm_compute. reflexivity. }
  destruct (CentralCache.FetchRangeObj 600 SizeUtils.tables 0 1 16
              (new_world 1 4096 [8192000])) as [r w|e] eqn:E1; [|done].
  destruct (CentralCache.ReleaseListToSpans 5 SizeUtils.tables r.1.1 16 w)
    as [[] w'|e] eqn:E2; [|done].
  apply andb_prop in Hcheck as [Hcheck Hs]. apply andb_prop in Hcheck as [Hx Hnext].
  destruct (spans w !! PageMap.get (pagemap w) (Z.shiftr r.1.1 PAGE_SHIFT)) as [s|] eqn:Es;
    [|done].
  apply andb_prop in Hs as [Huc Huse].
  apply (last_object_returns_span 5 SizeUtils.tables r.1.1 16 w _ s w').
  - exact (reachable_ok _ (reachable_FetchRangeObj _ _ _ _ _ _ _ _
             (reach_init 1 4096 [8192000]) E1)).
  - apply Z.eqb_neq. by destruct (r.1.1 =? 0).
  - by apply Z.eqb_eq.
  - reflexivity.
  - exact Es.
  - by apply Z.eqb_eq.
  - exact Huse.
  - exact E2.
Defined.

End LastObjectFacts.

(** ** The facade: a small block out of a new span *)

Module FacadeRefill.
Import State Machine Logic LogicFacts FreeList FreeListSpec FreeListFacts.
Import PageCacheFacts ListedFacts HeapInvFacts CentralCacheFacts CarveFacts.

Lemma CalculatePageNeed_pos a k : CentralCache.CalculatePageNeed a = Some k → 1 ≤ k.
Proof.
  unfold CentralCache.CalculatePageNeed.
  destruct (CentralCache.CalculateFetchBatchSize a) as [num|]; [|done].
  cbn. intros [= <-].
  pose proof (wrap64_range (num * a)) as Hr.
  pose proof (Z.shiftr_nonneg (wrap64 (num * a)) PAGE_SHIFT) as Hs.
  destruct (Z.eqb_spec (Z.shiftr (wrap64 (num * a)) PAGE_SHIFT) 0); lia.
Qed.

(** What [FetchRangeObj] leaves of the span it served from. *)
Lemma FetchRangeObj_Done fuel t idx n size w start e k w' :
  CentralCache.FetchRangeObj fuel t idx n size w = Done (start, e, k) w' →
  ∃ span w2 s2,
    CentralCache.GetOneSpan fuel t idx (SizeUtils.Index t size) size
      (with_fetch_requests ((n, size) :: fetch_requests w) w) = Done span w2 ∧
    spans w2 !! span = Some s2 ∧ start = Span._freeList s2 ∧
    pagemap w' = pagemap w2 ∧
    spans w' = <[ span := Span.set_useCount (wrap64 (Span._useCount s2 + k))
                            (Span.set_freeList (NextObj (memory w2) e) s2) ]> (spans w2).
Proof.
  intros Hrun. unfold CentralCache.FetchRangeObj in Hrun.
  step Hrun as u1 w1 H1. unfold CentralCache.log_fetch in H1. injection H1 as _ <-.
  step Hrun as span w2 H2. destruct (span =? 0); [done|].
  step Hrun as st w3 H3. apply rd_Done in H3 as (-> & s2 & Hs2 & ->).
  destruct (_ =? 0); [done|].
  step Hrun as w4 w5 H5. injection H5 as <- <-.
  step Hrun as u6 w6 H6. apply wr_Done in H6 as (s6 & Hs6 & ->).
  assert (s6 = s2) as -> by congruence.
  step Hrun as u7 w7 H7. apply set_NextObj_Done in H7 as [_ ->].
  step Hrun as uc w8 H8. apply rd_Done in H8 as (-> & s8 & Hs8 & ->).
  cbn [spans with_spans with_memory] in Hs8. rewrite lookup_insert_eq in Hs8.
  injection Hs8 as <-.
  step Hrun as u9 w9 H9. apply wr_Done in H9 as (s9 & Hs9 & ->).
  cbn [spans with_spans with_memory] in Hs9. rewrite lookup_insert_eq in Hs9.
  injection Hs9 as <-.
  injection Hrun as <- <- <- <-.
  exists span, w2, s2. split; [exact H2|]. split; [exact Hs2|]. split; [done|].
  cbn [spans pagemap with_spans with_memory Span._useCount Span.set_freeList].
  rewrite insert_insert_eq. split; [reflexivity|]. f_equal.
Qed.

(** [Allocate] with an empty list returns the first object of the batch
    it fetches; pushing the rest of the batch writes the memory only. *)
Lemma Allocate_fetch_Done fuel t idx cache size w l p cache' w' :
  cache !! Z.to_nat (SizeUtils.Index t size) = Some l → _head l = 0 →
  ThreadCache.Allocate fuel t idx cache size w = Done (p, cache') w' →
  ∃ e k w1,
    CentralCache.FetchRangeObj fuel t idx (ThreadCache.batchNum l) size w = Done (p, e, k) w1 ∧
    spans w' = spans w1 ∧ pagemap w' = pagemap w1.
Proof.
  intros Hl Hhead Hrun. unfold ThreadCache.Allocate in Hrun.
  step Hrun as l0 w0 H0. rewrite Hl in H0. injection H0 as <- <-.
  unfold FreeList.Empty in Hrun. rewrite Hhead in Hrun. cbn [Z.eqb negb] in Hrun.
  unfold ThreadCache.FetchFromCentralCache in Hrun.
  step Hrun as l0 w0 H0. rewrite Hl in H0. injection H0 as <- <-.
  step Hrun as r w1 H1. destruct r as [[start e] k].
  destruct (k <? 1); [done|]. exists e, k, w1. destruct (1 <? k).
  - step Hrun as w2 w3 H3. injection H3 as <- <-.
    step Hrun as pushed w4 H4. destruct (FreeList.PushRange _ _ _ _ _); [|done].
    injection H4 as <- <-.
    step Hrun as u5 w5 H5. injection H5 as _ <-.
    injection Hrun as <- _ <-. done.
  - injection Hrun as <- _ <-. done.
Qed.

(** X23. [malloc] of at most [MAX_BYTES] bytes, when neither the thread's
    list nor the bucket of the class has a free object: the block
    returned is the first byte of a span in use whose [_objSize] is the
    rounded size and whose first page the page map sends to the span,
    which is what [free] needs to find the size of the block again. *)
Theorem small_malloc_registers_span fuel t idx cache n w l b p tls' w' :
  n ≤ MAX_BYTES →
  cache !! Z.to_nat (SizeUtils.Index t n) = Some l → _head l = 0 →
  buckets w !! Z.to_nat (SizeUtils.Index t n) = Some b →
  (∀ it s, it ∈ b → spans w !! it = Some s → Span._freeList s = 0) →
  ConcurrentAlloc.malloc fuel t idx (Some cache) n w = Done (p, tls') w' →
  ∃ span s,
    spans w' !! span = Some s ∧
    p = wrap64 (Z.shiftl (Span._pageId s) PAGE_SHIFT) ∧
    Span._objSize s = SizeUtils.RoundUp t n ∧
    Span._isUse s = true ∧
    PageMap.get (pagemap w') (wrap64 (Span._pageId s)) = span.
Proof.
  intros Hn Hl Hhead Hb Hall Hrun. unfold ConcurrentAlloc.malloc in Hrun.
  assert ((MAX_BYTES <? n) = false) as Hsmall by (apply Z.ltb_ge; lia).
  rewrite Hsmall in Hrun.
  step Hrun as r w1 H1. destruct r as [p1 cache1]. injection Hrun as <- _ <-.
  destruct (Allocate_fetch_Done _ _ _ _ _ _ _ _ _ _ Hl Hhead H1)
    as (e & k & w2 & Hfetch & Hsp & Hpm).
  destruct (FetchRangeObj_Done _ _ _ _ _ _ _ _ _ _ Hfetch)
    as (span & w3 & s3 & Hget & Hs3 & Hstart & Hpm3 & Hsp3).
  destruct (GetOneSpan_refill_Done fuel t idx (SizeUtils.Index t n) n
              (with_fetch_requests ((ThreadCache.batchNum l, n) :: fetch_requests w) w)
              b span w3 Hb Hall Hget)
    as (kPages & w4 & s0 & w7 & tail & w8 & Hk & H4 & Hs0 & Hs' & Hpm4 & _ & _).
  apply CalculatePageNeed_pos in Hk.
  pose proof (PageHeap_NewSpan_issues fuel idx kPages
                (with_fetch_requests ((ThreadCache.batchNum l, n) :: fetch_requests w) w))
    as Hi.
  unfold wp in Hi. rewrite H4 in Hi. destruct Hi as (s1 & Hs1 & _ & Hmap).
  assert (s1 = s0) as -> by congruence.
  rewrite Hs', lookup_insert_eq in Hs3. injection Hs3 as <-.
  exists span. eexists. rewrite Hsp, Hsp3, Hpm, Hpm3, Hpm4.
  split; [apply lookup_insert_eq|].
  cbn [Span._pageId Span._objSize Span._isUse Span._freeList Span.set_useCount
       Span.set_freeList Span.set_objSize Span.set_isUse] in *.
  split_and!; [done|done|done|].
  rewrite <- (Hmap 0) by lia. by rewrite Z.add_0_r.
Qed.

Lemma small_malloc_registers_span_witness :
  match ConcurrentAlloc.malloc 600 SizeUtils.tables 0 (Some [fresh 2; fresh 2]) 16
          (new_world 1 4096 [8192000]) with
  | Done (p, tls') w' =>
      ∃ span s,
        spans w' !! span = Some s ∧
        p = wrap64 (Z.shiftl (Span._pageId s) PAGE_SHIFT) ∧
        Span._objSize s = SizeUtils.RoundUp SizeUtils.tables 16 ∧
        Span._isUse s = true ∧
        PageMap.get (pagemap w') (wrap64 (Span._pageId s)) = span
  | Raise _ => False
  end.
Proof.
  destruct (ConcurrentAlloc.malloc 600 SizeUtils.tables 0 (Some [fresh 2; fresh 2]) 16
              (new_world 1 4096 [8192000])) as [[p tls'] w'|e] eqn:E.
  - refine (small_malloc_registers_span 600 SizeUtils.tables 0 [fresh 2; fresh 2] 16
              (new_world 1 4096 [8192000]) (fresh 2) [] p tls' w' _ _ _ _ _ E).
    + unfold MAX_BYTES. lia.
    + rewrite SizeUtilsFacts.Index_tables_16. reflexivity.
    + reflexivity.
    + rewrite SizeUtilsFacts.Index_tables_16. reflexivity.
    + intros it s Hit. by apply elem_of_nil in Hit.
  - revert E.
    unfold ConcurrentAlloc.malloc, ThreadCache.Allocate, ThreadCache.FetchFromCentralCache,
      CentralCache.FetchRangeObj, CentralCache.GetOneSpan.
    rewrite !SizeUtilsFacts.Index_tables_16, !SizeUtilsFacts.RoundUp_tables_16.
    vm_compute. apply Done_not_Raise.
Defined.

End FacadeRefill.

(** ** The facade: the request for no bytes is a request of class 0 *)

Module FacadeZero.
Import State Machine Logic LogicFacts FreeList FreeListSpec FreeListFacts SizeUtilsFacts.
Import PageCacheFacts ListedFacts HeapInvFacts CentralCacheFacts CarveFacts.
Import FacadeFacts FacadeRefill.

(** What the search of a bucket answers. *)
Lemma find_span_Done l w r w' :
  CentralCache.find_span l w = Done r w' →
  w' = w ∧
  match r with
  | Some it => it ∈ l ∧ ∃ s, spans w !! it = Some s ∧ Span._freeList s ≠ 0
  | None => ∀ it s, it ∈ l → spans w !! it = Some s → Span._freeList s = 0
  end.
Proof.
  induction l as [|it l IH]; cbn [CentralCache.find_span]; intros Hrun.
  - injection Hrun as <- <-. split; [done|]. intros it s Hit. by apply elem_of_nil in Hit.
  - step Hrun as fl w1 H1. apply rd_Done in H1 as (-> & s & Hs & ->).
    destruct (Z.eqb_spec (Span._freeList s) 0) as [Hz|Hnz]; cbn [negb] in Hrun.
    + apply IH in Hrun as [-> Hr]. split; [done|]. destruct r as [it'|].
      * destruct Hr as [Hin Hr]. split; [by right|done].
      * intros it' s' [->|Hin]%elem_of_cons Hs'; [congruence|by eapply Hr].
    + injection Hrun as <- <-. split; [done|]. split; [by left|by exists s].
Qed.

(** [Allocate] writes the list of the class only. *)
Lemma Allocate_cache fuel t idx cache size w p cache' w' :
  ThreadCache.Allocate fuel t idx cache size w = Done (p, cache') w' →
  ∃ l', cache' = <[ Z.to_nat (SizeUtils.Index t size) := l' ]> cache.
Proof.
  intros Hrun. unfold ThreadCache.Allocate in Hrun.
  step Hrun as l0 w0 H0. destruct (negb (Empty l0)).
  - step Hrun as w1 w2 H2. step Hrun as popped w3 H3.
    injection Hrun as _ <- _. by eexists.
  - unfold ThreadCache.FetchFromCentralCache in Hrun.
    step Hrun as l1 w1 H1. step Hrun as r w2 H2. destruct r as [[start e] k].
    destruct (k <? 1); [done|]. destruct (1 <? k).
    + step Hrun as w3 w4 H4. step Hrun as pushed w5 H5. step Hrun as u6 w6 H6.
      injection Hrun as _ <- _. by eexists.
    + injection Hrun as _ <- _. by eexists.
Qed.

(** [Allocate] on a list that is not empty pops its head. *)
Lemma Allocate_pop_Done fuel t idx cache size w l p cache' w' :
  cache !! Z.to_nat (SizeUtils.Index t size) = Some l → _head l ≠ 0 →
  ThreadCache.Allocate fuel t idx cache size w = Done (p, cache') w' →
  p = _head l ∧ w' = w.
Proof.
  intros Hl Hhead Hrun. unfold ThreadCache.Allocate in Hrun.
  step Hrun as l0 w0 H0. rewrite Hl in H0. injection H0 as <- <-.
  unfold Empty in Hrun. destruct (Z.eqb_spec (_head l) 0); [done|]. cbn [negb] in Hrun.
  step Hrun as w1 w2 H2. injection H2 as <- <-.
  step Hrun as popped w3 H3. unfold Pop in H3.
  destruct (Z.eqb_spec (_head l) 0); [done|]. injection H3 as <- <-.
  by injection Hrun as <- _ <-.
Qed.

(** C2, amended.  [malloc(0)] takes the path of the thread cache and is
    served as a request of class 0, the class of the blocks of 8 bytes
    ([Index 0 = 0], [RoundUp 0 = 8]).  Whenever the call returns, it
    returns a block, never null, and of the thread cache only the list of
    class 0 has changed.  The block is the head of that list when the
    list is not empty, and nothing else has changed; otherwise it is the
    head of the free list of a span of the central bucket 0; and when no
    span of that bucket has a free object, it is the first byte of a span
    taken from the page heap for blocks of 8 bytes, in use and registered
    in the page map. *)
Theorem malloc_0_returns_block fuel idx tls w p tls' w' :
  ConcurrentAlloc.malloc fuel SizeUtils.tables idx tls 0 w = Done (p, tls') w' →
  SizeUtils.Index SizeUtils.tables 0 = 0 ∧ SizeUtils.RoundUp SizeUtils.tables 0 = 8 ∧
  p ≠ 0 ∧
  ∃ l l',
    default (ThreadCache.ThreadCache SizeUtils.tables) tls !! 0%nat = Some l ∧
    tls' = Some (<[ 0%nat := l' ]> (default (ThreadCache.ThreadCache SizeUtils.tables) tls)) ∧
    ((_head l ≠ 0 ∧ p = _head l ∧ w' = w) ∨
     (_head l = 0 ∧
      ∃ b span s,
        buckets w !! 0%nat = Some b ∧ span ∈ b ∧ spans w !! span = Some s ∧
        Span._freeList s ≠ 0 ∧ p = Span._freeList s) ∨
     (_head l = 0 ∧
      ∃ b span s,
        buckets w !! 0%nat = Some b ∧
        (∀ it s0, it ∈ b → spans w !! it = Some s0 → Span._freeList s0 = 0) ∧
        spans w' !! span = Some s ∧
        p = wrap64 (Z.shiftl (Span._pageId s) PAGE_SHIFT) ∧
        Span._objSize s = 8 ∧ Span._isUse s = true ∧
        PageMap.get (pagemap w') (wrap64 (Span._pageId s)) = span)).
Proof.
  intros Hrun. split; [exact Index_tables_0|]. split; [exact RoundUp_tables_0|].
  pose proof Index_tables_0 as HI. pose proof RoundUp_tables_0 as HR.
  revert Hrun HI HR. generalize SizeUtils.tables. intros t Hrun HI HR.
  unfold ConcurrentAlloc.malloc in Hrun. change (MAX_BYTES <? 0) with false in Hrun.
  cbv iota in Hrun.
  assert (Hc : match tls with Some cache => cache | None => ThreadCache.ThreadCache t end
               = default (ThreadCache.ThreadCache t) tls) by (by destruct tls).
  rewrite Hc in Hrun. clear Hc.
  set (cache := default (ThreadCache.ThreadCache t) tls) in *. clearbody cache.
  step Hrun as r w1 H1. destruct r as [p1 cache1]. injection Hrun as <- <- <-.
  split; [by eapply Allocate_block|].
  destruct (Allocate_cache _ _ _ _ _ _ _ _ _ H1) as [l' ->].
  assert (Hl : ∃ l, cache !! Z.to_nat (SizeUtils.Index t 0) = Some l).
  { unfold ThreadCache.Allocate in H1. step H1 as l0 w0 H0.
    destruct (cache !! Z.to_nat (SizeUtils.Index t 0)) as [l|]; [by exists l|done]. }
  destruct Hl as [l Hl]. exists l, l'. rewrite HI in *. change (Z.to_nat 0) with 0%nat in *.
  split; [exact Hl|]. split; [reflexivity|].
  destruct (Z.eq_dec (_head l) 0) as [Hhead|Hhead].
  2:{ left. split; [exact Hhead|].
      eapply (Allocate_pop_Done fuel t idx cache 0); [by rewrite HI|exact Hhead|exact H1]. }
  right.
  destruct (Allocate_fetch_Done fuel t idx cache 0 w l p1 (<[0%nat:=l']> cache) w1) as (e & k & w2 & Hfetch & Hsp & Hpm);
    [by rewrite HI|exact Hhead|exact H1|].
  destruct (FetchRangeObj_Done _ _ _ _ _ _ _ _ _ _ Hfetch)
    as (span & w3 & s3 & Hget & Hs3 & Hstart & Hpm3 & Hsp3).
  rewrite HI in Hget. change (Z.to_nat 0) with 0%nat in Hget.
  set (wf := with_fetch_requests ((ThreadCache.batchNum l, 0) :: fetch_requests w) w) in *.
  pose proof Hget as Hget'. unfold CentralCache.GetOneSpan in Hget'.
  step Hget' as w4 w5 H5. injection H5 as <- <-.
  step Hget' as b w5 H5.
  change (buckets wf !! Z.to_nat 0) with (buckets w !! 0%nat) in H5.
  destruct (buckets w !! 0%nat) as [b0|] eqn:Hb; [|done].
  injection H5 as <- <-.
  step Hget' as found w6 H6. apply find_span_Done in H6 as [-> Hfound].
  destruct found as [it|].
  - left. split; [exact Hhead|]. injection Hget' as <- <-.
    destruct Hfound as (Hin & s & Hs & Hfl).
    exists b0, it, s. change (spans wf) with (spans w) in *.
    assert (s3 = s) as -> by congruence. by split_and!.
  - right. split; [exact Hhead|]. clear Hget'.
    destruct (GetOneSpan_refill_Done fuel t idx 0 0 wf b0 span w3 Hb Hfound Hget)
      as (kPages & w4 & s0 & w7 & tail & w8 & Hk & H4 & Hs0 & Hs' & Hpm4 & _ & _).
    apply CalculatePageNeed_pos in Hk.
    pose proof (PageHeap_NewSpan_issues fuel idx kPages wf) as Hi.
    unfold wp in Hi. rewrite H4 in Hi. destruct Hi as (s1 & Hs1 & _ & Hmap).
    assert (s1 = s0) as -> by congruence.
    rewrite Hs', lookup_insert_eq in Hs3. injection Hs3 as <-.
    exists b0, span. eexists. rewrite Hsp, Hsp3, Hpm, Hpm3, Hpm4.
    split; [reflexivity|]. split; [exact Hfound|].
    split; [apply lookup_insert_eq|].
    cbn [Span._pageId Span._objSize Span._isUse Span._freeList Span.set_useCount
         Span.set_freeList Span.set_objSize Span.set_isUse] in *.
    split_and!; [done|done|done|].
    rewrite <- (Hmap 0) by lia. by rewrite Z.add_0_r.
Qed.

Lemma malloc_0_returns_block_witness :
  match ConcurrentAlloc.malloc 1100 SizeUtils.tables 0 None 0 (new_world 2 4096 [8192000]) with
  | Done (p, tls') w' =>
      SizeUtils.Index SizeUtils.tables 0 = 0 ∧ SizeUtils.RoundUp SizeUtils.tables 0 = 8 ∧
      p ≠ 0 ∧
      ∃ l l',
        default (ThreadCache.ThreadCache SizeUtils.tables) None !! 0%nat = Some l ∧
        tls' = Some (<[ 0%nat := l' ]>
                       (default (ThreadCache.ThreadCache SizeUtils.tables) None)) ∧
        ((_head l ≠ 0 ∧ p = _head l ∧ w' = new_world 2 4096 [8192000]) ∨
         (_head l = 0 ∧
          ∃ b span s,
            buckets (new_world 2 4096 [8192000]) !! 0%nat = Some b ∧ span ∈ b ∧
            spans (new_world 2 4096 [8192000]) !! span = Some s ∧
            Span._freeList s ≠ 0 ∧ p = Span._freeList s) ∨
         (_head l = 0 ∧
          ∃ b span s,
            buckets (new_world 2 4096 [8192000]) !! 0%nat = Some b ∧
            (∀ it s0, it ∈ b → spans (new_world 2 4096 [8192000]) !! it = Some s0 →
                      Span._freeList s0 = 0) ∧
            spans w' !! span = Some s ∧
            p = wrap64 (Z.shiftl (Span._pageId s) PAGE_SHIFT) ∧
            Span._objSize s = 8 ∧ Span._isUse s = true ∧
            PageMap.get (pagemap w') (wrap64 (Span._pageId s)) = span))
  | Raise _ => False
  end.
Proof.
  destruct (ConcurrentAlloc.malloc 1100 SizeUtils.tables 0 None 0 (new_world 2 4096 [8192000]))
    as [[p tls'] w'|e] eqn:E.
  - exact (malloc_0_returns_block 1100 0 None (new_world 2 4096 [8192000]) p tls' w' E).
  - revert E. read_tables_0. vm_compute. apply Done_not_Raise.
Defined.

End FacadeZero.

(** ** SpinMutex: mutual exclusion *)

Module SpinMutexFacts.
Import SpinMutex SpinMutexSpec.

Lemma holders_insert l i p q :
  l !! i = Some p →
  (holders (<[ i := q ]> l) + Nat.b2n (is_Held p) = holders l + Nat.b2n (is_Held q))%nat.
Proof.
  revert i. induction l as [|x l IH]; intros i Hi; [done|].
  destruct i as [|i]; cbn in Hi.
  - injection Hi as ->. unfold holders.
    change (<[ 0%nat := q ]> (p :: l)) with (q :: l). cbn [List.filter].
    destruct (is_Held p), (is_Held q); cbn [length Nat.b2n]; lia.
  - specialize (IH i Hi). unfold holders in *.
    change (<[ S i := q ]> (x :: l)) with (x :: <[ i := q ]> l). cbn [List.filter].
    destruct (is_Held x); cbn [length]; lia.
Qed.

Lemma holders_replicate n : holders (replicate n Out) = 0%nat.
Proof. induction n as [|n IH]; [done|]. exact IH. Qed.

Lemma held_counts l i : l !! i = Some Held → (1 ≤ holders l)%nat.
Proof. intros Hi. pose proof (holders_insert l i Held Out Hi) as H. cbn in H. lia. Qed.

Lemma one_holder l i j :
  (holders l ≤ 1)%nat → l !! i = Some Held → l !! j = Some Held → i = j.
Proof.
  intros Hle Hi Hj. destruct (decide (i = j)) as [|Hne]; [done|].
  pose proof (holders_insert l i Held Out Hi) as H. cbn in H.
  assert (Hj' : <[ i := Out ]> l !! j = Some Held) by (by rewrite list_lookup_insert_ne).
  apply held_counts in Hj'. lia.
Qed.

(** What every step keeps: the flag is set exactly while one thread
    holds the mutex, and the spin counters are within their bounds. *)
Lemma step_inv tid s :
  (tid < length (threads s))%nat →
  holders (threads s) = (if _flag s then 1 else 0)%nat →
  Forall bounded (threads s) →
  ∃ s', step tid s = Some s' ∧
        length (threads s') = length (threads s) ∧
        holders (threads s') = (if _flag s' then 1 else 0)%nat ∧
        Forall bounded (threads s').
Proof.
  intros Hlt Hh Hb. destruct (lookup_lt_is_Some_2 _ _ Hlt) as [p Hp].
  pose proof (proj1 (Forall_lookup _ _) Hb tid p Hp) as Hbp.
  assert (Hins : ∀ q, bounded q → Forall bounded (<[ tid := q ]> (threads s))).
  { intros q Hq. by apply Forall_insert. }
  unfold step. rewrite Hp.
  destruct p as [| |c|c|]; cbn [lock unlock bounded] in *.
  - eexists. split; [reflexivity|]. cbn [_flag threads]. rewrite length_insert.
    pose proof (holders_insert _ _ _ Fast Hp) as H. cbn in H.
    split; [done|]. split; [lia|]. by apply Hins.
  - eexists. split; [reflexivity|]. cbn [_flag threads fst snd]. rewrite length_insert.
    split; [done|]. destruct (_flag s).
    + pose proof (holders_insert _ _ _ (Spin 0) Hp) as H. cbn in H.
      split; [lia|]. apply Hins. cbn. lia.
    + pose proof (holders_insert _ _ _ Held Hp) as H. cbn in H.
      split; [lia|]. by apply Hins.
  - eexists. split; [reflexivity|]. cbn [_flag threads fst snd]. rewrite length_insert.
    split; [done|]. destruct (_flag s).
    + pose proof (holders_insert _ _ _ (Spin c) Hp) as H. cbn in H.
      split; [lia|]. by apply Hins.
    + pose proof (holders_insert _ _ _ (Retry c) Hp) as H. cbn in H.
      split; [lia|]. by apply Hins.
  - destruct (_flag s).
    + assert ((INT_MAX <=? c) = false) as -> by (apply Z.leb_gt; unfold INT_MAX; lia).
      eexists. split; [reflexivity|]. cbn [_flag threads fst snd]. rewrite length_insert.
      split; [done|].
      pose proof (holders_insert _ _ _ (Spin (if 1024 <? c + 1 then 0 else c + 1)) Hp) as H.
      cbn in H. split; [lia|]. apply Hins. cbn. destruct (Z.ltb_spec 1024 (c + 1)); lia.
    + eexists. split; [reflexivity|]. cbn [_flag threads fst snd]. rewrite length_insert.
      pose proof (holders_insert _ _ _ Held Hp) as H. cbn in H.
      split; [done|]. split; [lia|]. by apply Hins.
  - eexists. split; [reflexivity|]. cbn [_flag threads]. unfold unlock.
    rewrite length_insert.
    pose proof (holders_insert _ _ _ Out Hp) as H. cbn in H.
    pose proof (held_counts _ _ Hp) as H1.
    split; [done|]. split; [destruct (_flag s); lia|]. by apply Hins.
Qed.

Lemma step_defined tid s s' : step tid s = Some s' → (tid < length (threads s))%nat.
Proof.
  unfold step. destruct (threads s !! tid) eqn:E; [|done]. intros _.
  by eapply lookup_lt_Some.
Qed.

Lemma run_inv sched : ∀ s s',
  run sched s = Some s' →
  holders (threads s) = (if _flag s then 1 else 0)%nat → Forall bounded (threads s) →
  holders (threads s') = (if _flag s' then 1 else 0)%nat ∧ Forall bounded (threads s').
Proof.
  induction sched as [|tid rest IH]; intros s s' Hrun Hh Hb; cbn [run] in Hrun.
  - by injection Hrun as <-.
  - destruct (step tid s) as [s1|] eqn:E; [|done].
    destruct (step_inv tid s (step_defined _ _ _ E) Hh Hb) as (s2 & E2 & _ & Hh2 & Hb2).
    assert (s2 = s1) as -> by congruence. by eapply IH.
Qed.

Lemma run_total sched : ∀ s,
  Forall (λ tid, (tid < length (threads s))%nat) sched →
  holders (threads s) = (if _flag s then 1 else 0)%nat → Forall bounded (threads s) →
  is_Some (run sched s).
Proof.
  induction sched as [|tid rest IH]; intros s Hs Hh Hb; cbn [run]; [done|].
  apply Forall_cons in Hs as [Htid Hrest].
  destruct (step_inv tid s Htid Hh Hb) as (s1 & -> & Hlen & Hh1 & Hb1).
  apply IH; [by rewrite Hlen|done..].
Qed.

Lemma init_inv n :
  holders (threads (init n)) = (if _flag (init n) then 1 else 0)%nat ∧
  Forall bounded (threads (init n)).
Proof.
  split; [apply holders_replicate|]. cbn. by apply Forall_replicate.
Qed.

(** X24. Whatever the schedule of the threads that use a [SpinMutex] through
    paired [lock()] and [unlock()] calls: at most one thread is between
    the two calls, and [_flag] is set exactly when there is one. *)
Theorem SpinMutex_mutual_exclusion n sched s :
  run sched (init n) = Some s →
  (∀ i j, threads s !! i = Some Held → threads s !! j = Some Held → i = j) ∧
  (_flag s = true ↔ ∃ i, threads s !! i = Some Held).
Proof.
  intros Hrun. destruct (init_inv n) as [Hh0 Hb0].
  destruct (run_inv _ _ _ Hrun Hh0 Hb0) as [Hh _]. split.
  - intros i j. apply one_holder. rewrite Hh. destruct (_flag s); lia.
  - split.
    + intros Hf. rewrite Hf in Hh. unfold holders in Hh.
      destruct (List.filter is_Held (threads s)) as [|p rest] eqn:E; [done|].
      assert (Hin : In p (List.filter is_Held (threads s))) by (rewrite E; by left).
      apply filter_In in Hin as [Hin Hp]. destruct p; try done.
      apply list_elem_of_In, list_elem_of_lookup in Hin. exact Hin.
    + intros [i Hi]. apply held_counts in Hi. rewrite Hh in Hi.
      destruct (_flag s); [done|lia].
Qed.

Lemma SpinMutex_mutual_exclusion_witness :
  (∀ i j,
     threads {| _flag := true; threads := [Spin 0; Held] |} !! i = Some Held →
     threads {| _flag := true; threads := [Spin 0; Held] |} !! j = Some Held → i = j) ∧
  (_flag {| _flag := true; threads := [Spin 0; Held] |} = true ↔
   ∃ i, threads {| _flag := true; threads := [Spin 0; Held] |} !! i = Some Held).
Proof.
  apply (SpinMutex_mutual_exclusion 2 [0; 1; 1; 0; 0; 1; 1; 1; 0]%nat). reflexivity.
Defined.

(** X25. Under any schedule every step of [lock()] and [unlock()] is defined:
    the local [spin_count] of a waiting thread stays between 0 and 1024,
    so its increment never overflows, and no thread is lost. *)
Theorem SpinMutex_spin_count_bounded n sched :
  Forall (λ tid, (tid < n)%nat) sched →
  ∃ s, run sched (init n) = Some s ∧
       length (threads s) = n ∧
       ∀ tid c, threads s !! tid = Some (Spin c) ∨ threads s !! tid = Some (Retry c) →
                0 ≤ c ≤ 1024.
Proof.
  intros Hs. destruct (init_inv n) as [Hh0 Hb0].
  destruct (run_total sched (init n)) as [s Hrun]; [|done..|].
  { cbn. by rewrite length_replicate. }
  exists s. split; [exact Hrun|].
  destruct (run_inv _ _ _ Hrun Hh0 Hb0) as [_ Hb]. split.
  - clear Hb Hh0 Hb0. assert (Hlen : length (threads (init n)) = n)
      by (cbn; by rewrite length_replicate).
    revert Hrun Hlen. generalize (init n). clear Hs.
    induction sched as [|tid rest IH]; intros s0 Hrun Hlen; cbn [run] in Hrun.
    + by injection Hrun as <-.
    + destruct (step tid s0) as [s1|] eqn:E; [|done].
      apply (IH s1 Hrun). rewrite <- Hlen. revert E. unfold step.
      destruct (threads s0 !! tid) as [[| |c|c|]|]; try done;
        cbn [lock]; repeat case_match; intros [= <-]; cbn; by rewrite length_insert.
  - intros tid c [Hp|Hp]; exact (proj1 (Forall_lookup _ _) Hb tid _ Hp).
Qed.

Lemma SpinMutex_spin_count_bounded_witness :
  ∃ s, run [0; 1; 1; 0; 0; 1; 1; 1; 0]%nat (init 2) = Some s ∧
       length (threads s) = 2%nat ∧
       ∀ tid c, threads s !! tid = Some (Spin c) ∨ threads s !! tid = Some (Retry c) →
                0 ≤ c ≤ 1024.
Proof.
  apply (SpinMutex_spin_count_bounded 2 [0; 1; 1; 0; 0; 1; 1; 1; 0]%nat).
  repeat constructor.
Defined.

End SpinMutexFacts.

(** ** ObjectPool: recycled and fresh objects *)

Module ObjectPoolFacts.
Import State Machine Logic LogicFacts FallbackFacts HeapInvFacts.
Import ObjectPool ObjectPoolSpec.

(** X26. [FreeMemory] of a non-null object followed by [AllocateMemory]:
    the object just freed is the one returned, the pool is as it was
    before the two calls, the operating system is not asked for memory
    and only the first word of the object has been written. *)
Theorem FreeMemory_then_AllocateMemory sizeofT this obj w :
  obj ≠ 0 →
  FreeMemory this obj w
    = Done {| _memory := _memory this; _leftBytes := _leftBytes this;
              _freeList := obj; _currentBlock := _currentBlock this |}
        (with_memory (<[ obj := _freeList this ]> (memory w)) w) ∧
  AllocateMemory sizeofT
      {| _memory := _memory this; _leftBytes := _leftBytes this;
         _freeList := obj; _currentBlock := _currentBlock this |}
      (with_memory (<[ obj := _freeList this ]> (memory w)) w)
    = Done (obj, this) (with_memory (<[ obj := _freeList this ]> (memory w)) w).
Proof.
  intros Hobj. assert ((obj =? 0) = false) as Hb by (by apply Z.eqb_neq). split.
  - unfold FreeMemory. rewrite bind_run. unfold CentralCache.set_NextObj at 1.
    rewrite Hb. reflexivity.
  - unfold AllocateMemory. cbn [_freeList _memory _leftBytes _currentBlock].
    rewrite Hb. cbn [negb]. rewrite bind_run. unfold get_world at 1. cbv beta iota.
    cbn [memory with_memory]. unfold NextObj. rewrite lookup_insert_eq. cbn [default].
    by destruct this.
Qed.

Lemma FreeMemory_then_AllocateMemory_witness :
  FreeMemory empty 4096 (new_world 1 4096 [])
    = Done {| _memory := 0; _leftBytes := 0; _freeList := 4096; _currentBlock := 0 |}
        (with_memory (<[ 4096 := 0 ]> ∅) (new_world 1 4096 [])) ∧
  AllocateMemory 64
      {| _memory := 0; _leftBytes := 0; _freeList := 4096; _currentBlock := 0 |}
      (with_memory (<[ 4096 := 0 ]> ∅) (new_world 1 4096 []))
    = Done (4096, empty) (with_memory (<[ 4096 := 0 ]> ∅) (new_world 1 4096 [])).
Proof. apply (FreeMemory_then_AllocateMemory 64 empty 4096 (new_world 1 4096 [])). lia. Defined.

(** X27. [AllocateMemory] with an empty free list, for objects that fit in a
    block: the object is carved at the cursor, lies within the current
    block past the word that links the blocks, and the cursor moves past
    it.  When fewer than [sizeofT] bytes are left, and only then, a new
    block is taken from the operating system, linked in front of the
    old one, and the object is its first. *)
Theorem AllocateMemory_within_block sizeofT this w obj this' w' :
  8 ≤ sizeofT ≤ _blockSize - 8 →
  pool_ok this → _freeList this = 0 →
  Forall (λ ptr, 0 ≤ ptr ∧ ptr + _blockSize < 2 ^ 64) (os_answers w) →
  AllocateMemory sizeofT this w = Done (obj, this') w' →
  pool_ok this' ∧
  _currentBlock this' + 8 ≤ obj ∧ obj + sizeofT = _memory this' ∧
  _memory this' ≤ _currentBlock this' + _blockSize ∧
  _freeList this' = 0 ∧
  (sizeofT ≤ _leftBytes this →
   obj = _memory this ∧ _currentBlock this' = _currentBlock this ∧ w' = w) ∧
  (_leftBytes this < sizeofT →
   obj = _currentBlock this' + 8 ∧
   (∃ rest, os_answers w = _currentBlock this' :: rest ∧ os_answers w' = rest) ∧
   NextObj (memory w') (_currentBlock this') = _currentBlock this).
Proof.
  intros Hsz Hok Hfl Hos Hrun. unfold AllocateMemory in Hrun.
  rewrite Hfl in Hrun. cbn [Z.eqb negb] in Hrun. unfold pool_ok in Hok.
  unfold _blockSize in *.
  step Hrun as this1 w1 H1. injection Hrun as <- <- <-.
  cbn [_memory _leftBytes _freeList _currentBlock].
  destruct (Z.ltb_spec (_leftBytes this) sizeofT) as [Hlt|Hge].
  - step H1 as newBlock w2 H2. step H1 as u3 w3 H3. injection H1 as <- <-.
    unfold SystemAlloc in H2. destruct (os_answers w) as [|ptr rest] eqn:Hans; [done|].
    destruct (Z.eqb_spec ptr 0) as [|Hp0]; [done|].
    destruct (Z.eqb_spec ptr MAP_FAILED) as [|Hpf]; [done|]. cbn [orb] in H2.
    injection H2 as <- <-.
    unfold CentralCache.set_NextObj in H3. destruct (Z.eqb_spec ptr 0); [done|].
    injection H3 as _ <-.
    apply Forall_cons in Hos as [Hptr _].
    cbn [_memory _leftBytes _freeList _currentBlock memory os_answers with_memory with_os].
    change (wrap64 (128 * 1024 - 8)) with 131064.
    rewrite (wrap64_small (ptr + 8)) by lia.
    rewrite (wrap64_small (ptr + 8 + sizeofT)) by lia.
    rewrite (wrap64_small (131064 - sizeofT)) by lia.
    split.
    { right. cbn [_memory _leftBytes _freeList _currentBlock]. unfold _blockSize. lia. }
    split; [lia|]. split; [done|]. split; [lia|]. split; [done|].
    split; [lia|]. intros _. split; [done|]. split; [by exists rest|].
    unfold NextObj. by rewrite lookup_insert_eq.
  - injection H1 as <- <-.
    destruct Hok as [[Hc Hl]|(Hc & Hm & Hl & Hsum & Hend)]; [lia|].
    rewrite (wrap64_small (_memory this + sizeofT)) by lia.
    rewrite (wrap64_small (_leftBytes this - sizeofT)) by lia.
    split.
    { right. cbn [_memory _leftBytes _freeList _currentBlock]. unfold _blockSize. lia. }
    split; [lia|]. split; [done|]. split; [lia|]. split; [done|].
    split; [done|]. intros Hc'. lia.
Qed.

Lemma AllocateMemory_within_block_witness :
  match AllocateMemory 64 empty (new_world 1 4096 [8192000]) with
  | Done (obj, this') w' =>
      pool_ok this' ∧
      _currentBlock this' + 8 ≤ obj ∧ obj + 64 = _memory this' ∧
      _memory this' ≤ _currentBlock this' + _blockSize ∧
      _freeList this' = 0 ∧
      (64 ≤ _leftBytes empty →
       obj = _memory empty ∧ _currentBlock this' = _currentBlock empty ∧
       w' = new_world 1 4096 [8192000]) ∧
      (_leftBytes empty < 64 →
       obj = _currentBlock this' + 8 ∧
       (∃ rest, os_answers (new_world 1 4096 [8192000]) = _currentBlock this' :: rest ∧
                os_answers w' = rest) ∧
       NextObj (memory w') (_currentBlock this') = _currentBlock empty)
  | Raise _ => False
  end.
Proof.
  destruct (AllocateMemory 64 empty (new_world 1 4096 [8192000])) as [[obj this'] w'|e] eqn:E.
  - apply (AllocateMemory_within_block 64 empty (new_world 1 4096 [8192000]) obj this' w').
    + unfold _blockSize. lia.
    + left. split; reflexivity.
    + reflexivity.
    + repeat constructor; unfold _blockSize; lia.
    + exact E.
  - revert E. vm_compute. apply Done_not_Raise.
Defined.

End ObjectPoolFacts.

(** ** PageHeap: the spans in use are left alone *)

Module UntouchedFacts.
Import State Machine Logic LogicFacts HeapSpec FrameFacts OkFacts ListedFacts HeapInvFacts.
Import ColdFacts ReleaseSpanFacts BucketSpec LastObjectFacts.

(** Throughout, [sy] is a record in use at [y], which is not the span the
    page heap is working on. *)

Lemma keeps_there {A : Type} y (sy : Span.Span) (m : M A) :
  preserves spans m → keeps (λ w, spans w !! y = Some sy) m.
Proof. intros Hp w a w' HP Hrun. by rewrite (Hp _ _ _ Hrun). Qed.

Lemma keeps_wr_other y (sy : Span.Span) x assign :
  x ≠ y → keeps (λ w, spans w !! y = Some sy) (wr x assign).
Proof.
  intros Hne w a w' HP Hrun. unfold wr in Hrun.
  destruct (spans w !! x); [|done]. injection Hrun as _ <-.
  cbn [spans with_spans]. by rewrite lookup_insert_ne.
Qed.

Lemma keeps_Delete_other y (sy : Span.Span) this x :
  x ≠ y → keeps (λ w, spans w !! y = Some sy) (SpanPool_Delete this x).
Proof.
  intros Hne. unfold SpanPool_Delete. destruct (x =? 0).
  - apply keeps_there. frame_all.
  - apply keeps_bind; [|intros ?; apply keeps_there; frame_all].
    intros w a w' HP Hrun. unfold destroy_Span in Hrun.
    destruct (spans w !! x); [|done]. injection Hrun as _ <-.
    cbn [spans with_spans]. by rewrite lookup_delete_ne.
Qed.

Ltac there :=
  lazymatch goal with
  | |- keeps _ (_ ≫= _) => apply keeps_bind; [there | intros ?; there]
  | |- keeps _ (if ?b then _ else _) => destruct b; there
  | |- keeps _ (wr _ _) => apply keeps_wr_other; assumption
  | |- keeps _ (SpanPool_Delete _ _) => apply keeps_Delete_other; assumption
  | |- keeps _ (PageCacheShard.ReleaseSpanToCold _ _) =>
      unfold PageCacheShard.ReleaseSpanToCold; there
  | |- _ => apply keeps_there; frame_all
  end.

(** An idle record is not the record in use. *)
Lemma idle_other y sy x w s :
  Span._isUse sy = true →
  spans w !! y = Some sy → spans w !! x = Some s → Span._isUse s = false → x ≠ y.
Proof. intros Huse Hy Hx Hs ->. congruence. Qed.

Lemma coalesce_left_there y sy this span :
  Span._isUse sy = true → span ≠ y → keeps (λ w, spans w !! y = Some sy) (PageCacheShard.coalesce_left this span).
Proof.
  intros Huse Hne w r w' HP Hrun. unfold PageCacheShard.coalesce_left in Hrun.
  step Hrun as pid w1 H1. apply rd_live in H1 as [-> _].
  step Hrun as leftSpan w2 H2. unfold PageMap_get in H2. injection H2 as <- <-.
  destruct (_ =? 0); [by injection Hrun as _ <-|].
  step Hrun as use w3 H3. apply rd_Done in H3 as (-> & s & Hs & ->).
  destruct (Span._isUse s) eqn:Hfree; [by injection Hrun as _ <-|].
  pose proof (idle_other _ _ _ _ _ Huse HP Hs Hfree) as Hleft.
  lazymatch type of Hrun with
  | ?m _ = _ => assert (Hk : keeps (λ w, spans w !! y = Some sy) m) by there
  end.
  by eapply Hk.
Qed.

Lemma coalesce_right_there y sy this span :
  Span._isUse sy = true → span ≠ y → keeps (λ w, spans w !! y = Some sy) (PageCacheShard.coalesce_right this span).
Proof.
  intros Huse Hne w r w' HP Hrun. unfold PageCacheShard.coalesce_right in Hrun.
  step Hrun as pid w1 H1. apply rd_live in H1 as [-> _].
  step Hrun as n0 w1 H1. apply rd_live in H1 as [-> _].
  step Hrun as rightSpan w2 H2. unfold PageMap_get in H2. injection H2 as <- <-.
  destruct (_ =? 0); [by injection Hrun as _ <-|].
  step Hrun as use w3 H3. apply rd_Done in H3 as (-> & s & Hs & ->).
  destruct (Span._isUse s) eqn:Hfree; [by injection Hrun as _ <-|].
  pose proof (idle_other _ _ _ _ _ Huse HP Hs Hfree) as Hright.
  lazymatch type of Hrun with
  | ?m _ = _ => assert (Hk : keeps (λ w, spans w !! y = Some sy) m) by there
  end.
  by eapply Hk.
Qed.

(** A span popped off a free list is idle, hence another record. *)
Lemma popped_other y sy x w w3 :
  Span._isUse sy = true →
  (∀ S L P A, view w = (S, L, P, A) →
     ∃ L', view w3 = (S, L', P, A) ∧ (L ≡ₚ x :: L' ∨ x = 0 ∧ L' ⊆+ L)) →
  heap_ok w → spans w !! y = Some sy → is_Some (spans w3 !! x) →
  x ≠ y ∧ spans w3 !! y = Some sy.
Proof.
  intros Huse Hpop Hok HP Hlive.
  pose proof (pop_listed x w w3 Hpop Hok Hlive) as HL.
  destruct (Hpop _ _ _ _ eq_refl) as (L' & Hv & _). injection Hv as Hs _ _ _.
  split; [|by rewrite Hs].
  destruct Hok as [_ Hlisted _ _ _ _ _].
  destruct (Hlisted x) as (s & Hx & Hfree); [rewrite HL; by left|].
  by eapply idle_other.
Qed.

Lemma reclaim_large_body_there y sy this w r w' :
  Span._isUse sy = true → heap_ok w → spans w !! y = Some sy →
  PageCacheShard.reclaim_large_body this w = Done r w' → spans w' !! y = Some sy.
Proof.
  intros Huse Hok HP Hrun. unfold PageCacheShard.reclaim_large_body in Hrun.
  step Hrun as sh w1 H1. apply this_shard_Done in H1 as [-> Hsh].
  destruct (_ && _); [|by injection Hrun as _ <-].
  step Hrun as it w2 H2.
  assert (w2 = w) as -> by (destruct (rbegin _); [by injection H2|done]). clear H2.
  destruct (Span.Empty _).
  - step Hrun as u3 w3 H3. injection Hrun as _ <-.
    eapply (keeps_there y sy (large_erase this false it)); [frame_all|exact HP|exact H3].
  - step Hrun as span w3 H3.
    assert (Hs3 : spans w3 = spans w).
    { destruct (large_PopFront_view _ _ _ _ _ _ _ _ _ _ eq_refl H3) as (L' & Hv & _).
      by injection Hv. }
    destruct (span =? 0); [injection Hrun as _ <-; by rewrite Hs3|].
    step Hrun as u4 w4 H4. injection Hrun as _ <-.
    destruct (popped_other y sy span w w3) as [Hne HP3]; [done| |done|done| |].
    { intros S L P A Hv. by eapply large_PopFront_view. }
    { by eapply ReleaseSpanToCold_live. }
    assert (Hk : keeps (λ w, spans w !! y = Some sy)
                   (PageCacheShard.ReleaseSpanToCold this span)) by there.
    by eapply Hk.
Qed.

Lemma reclaim_small_body_there y sy this i w r w' :
  Span._isUse sy = true → heap_ok w → spans w !! y = Some sy →
  PageCacheShard.reclaim_small_body this i w = Done r w' → spans w' !! y = Some sy.
Proof.
  intros Huse Hok HP Hrun. unfold PageCacheShard.reclaim_small_body in Hrun.
  step Hrun as sh w1 H1. apply this_shard_Done in H1 as [-> _].
  step Hrun as l w2 H2. apply small_list_Done in H2 as [-> _].
  destruct (_ && _); [|by injection Hrun as _ <-].
  step Hrun as span w3 H3. step Hrun as u4 w4 H4. injection Hrun as _ <-.
  destruct (popped_other y sy span w w3) as [Hne HP3]; [done| |done|done| |].
  { intros S L P A Hv. by eapply small_PopFront_view. }
  { by eapply ReleaseSpanToCold_live. }
  assert (Hk : keeps (λ w, spans w !! y = Some sy)
                 (PageCacheShard.ReleaseSpanToCold this span)) by there.
  by eapply Hk.
Qed.

Lemma loop_there {B : Type} y (sy : Span.Span) fuel (body : M (option B)) w a w' :
  (∀ w r w', heap_ok w → body w = Done r w' → heap_ok w') →
  (∀ w r w', heap_ok w → spans w !! y = Some sy → body w = Done r w' →
             spans w' !! y = Some sy) →
  heap_ok w → spans w !! y = Some sy → loop fuel body w = Done a w' →
  heap_ok w' ∧ spans w' !! y = Some sy.
Proof.
  intros Hbok Hbody Hok HP Hrun.
  apply (loop_Done (λ w0, heap_ok w0 ∧ spans w0 !! y = Some sy)
           (λ _ w0, heap_ok w0 ∧ spans w0 !! y = Some sy) _ _ _ _ _) in Hrun;
    [done| |done].
  intros w0 r w0' [Hok0 HP0] Hb.
  assert (heap_ok w0' ∧ spans w0' !! y = Some sy) by (split; eauto).
  by destruct r.
Qed.

Lemma reclaim_small_there y sy fuel count this i w u w' :
  Span._isUse sy = true → heap_ok w → spans w !! y = Some sy →
  PageCacheShard.reclaim_small fuel count this i w = Done u w' → spans w' !! y = Some sy.
Proof.
  intros Huse. revert i w. induction count as [|count IH]; intros i w Hok HP Hrun.
  - by injection Hrun as _ <-.
  - cbn [PageCacheShard.reclaim_small] in Hrun.
    step Hrun as u1 w1 H1.
    apply (loop_there y sy _ _ _ _ _ (reclaim_small_body_ok this i)
             (λ w r w', reclaim_small_body_there y sy this i w r w' Huse) Hok HP) in H1 as [Hok1 HP1].
    step Hrun as sh w2 H2. apply this_shard_Done in H2 as [-> _].
    destruct (_ <=? _); [by injection Hrun as _ <-|]. by eapply IH.
Qed.

Lemma ReleaseSomeSpansToSystem_there y sy fuel this w u w' :
  Span._isUse sy = true → heap_ok w → spans w !! y = Some sy →
  PageCacheShard.ReleaseSomeSpansToSystem fuel this w = Done u w' →
  spans w' !! y = Some sy.
Proof.
  intros Huse Hok HP Hrun. unfold PageCacheShard.ReleaseSomeSpansToSystem in Hrun.
  step Hrun as u1 w1 H1.
  apply (loop_there y sy _ _ _ _ _ (reclaim_large_body_ok this)
           (λ w r w', reclaim_large_body_there y sy this w r w' Huse) Hok HP) in H1 as [Hok1 HP1].
  step Hrun as sh w2 H2. apply this_shard_Done in H2 as [-> _].
  destruct (_ <? _); [|by injection Hrun as _ <-]. by eapply reclaim_small_there.
Qed.

(** [after H HP]: the record at [y] after the step [H], from [HP] before it. *)
Ltac after H HP :=
  cbv beta in HP;
  lazymatch type of H with
  | ?m ?w = Done _ ?w' =>
      lazymatch type of HP with
      | spans _ !! ?y = Some ?sy =>
          let Hk := fresh in
          assert (Hk : keeps (λ w, spans w !! y = Some sy) m) by there;
          apply (λ HP0, Hk _ _ _ HP0 H) in HP; clear Hk; cbv beta in HP
      end
  end.

Lemma ReleaseSpan_there y sy fuel this span w u w' :
  Span._isUse sy = true → span ≠ y → inuse span w → spans w !! y = Some sy →
  PageCacheShard.ReleaseSpan fuel this span w = Done u w' →
  spans w' !! y = Some sy.
Proof.
  intros Huse Hne Hin HP Hrun. unfold PageCacheShard.ReleaseSpan in Hrun.
  step Hrun as u1 w1 H1.
  pose proof (keeps_loop _ fuel _ (coalesce_left_there y sy this span Huse Hne) _ _ _ HP H1)
    as HP1.
  apply (loop_inuse _ _ _ _ _ _ (coalesce_left_ok this span) Hin) in H1.
  step Hrun as u2 w2 H2.
  pose proof (keeps_loop _ fuel _ (coalesce_right_there y sy this span Huse Hne) _ _ _ HP1 H2)
    as HP2.
  apply (loop_inuse _ _ _ _ _ _ (coalesce_right_ok this span) H1) in H2.
  clear Hin H1 HP HP1 w w1.
  step Hrun as u3 w3 H3. after H3 HP2. apply (wr_release _ _ _ _ H2) in H3.
  step Hrun as u4 w4 H4. after H4 HP2. apply (wr_idle_ok _ _ _ _ _ H3) in H4; [|done].
  clear H2 H3 w2 w3.
  step Hrun as pid w5 H5. apply rd_live in H5 as [-> _].
  step Hrun as u6 w6 H6. after H6 HP2. keep H4 H6. clear H6 w4.
  step Hrun as pid' w7 H7. apply rd_live in H7 as [-> _].
  step Hrun as n w8 H8. apply rd_live in H8 as [-> _].
  step Hrun as u9 w9 H9. after H9 HP2. keep H4 H9. clear H9 w6.
  step Hrun as n' w10 H10. apply rd_live in H10 as [-> _].
  step Hrun as u11 w11 H11. after H11 HP2.
  assert (Hok : heap_ok w11).
  { destruct (n' <? NPAGES).
    - step H11 as m w12 H12. apply rd_live in H12 as [-> _].
      by eapply small_PushFront_idle.
    - step H11 as m w12 H12. apply rd_live in H12 as [-> _].
      by eapply large_PushFront_idle. }
  clear H4 H11 w9.
  step Hrun as n'' w13 H13. apply rd_live in H13 as [-> _].
  step Hrun as u14 w14 H14. after H14 HP2. keep Hok H14. clear H14 w11.
  step Hrun as sh w15 H15. apply this_shard_Done in H15 as [-> _].
  destruct (_ <? _); [|by injection Hrun as _ <-].
  by eapply ReleaseSomeSpansToSystem_there.
Qed.

(** *** Issuing *)

(** A record the pool hands out was dead, hence another record. *)
Lemma SpanPool_New_other y (sy : Span.Span) this w obj w' :
  heap_ok w → spans w !! y = Some sy → SpanPool_New this w = Done obj w' →
  obj ≠ y ∧ spans w' !! y = Some sy.
Proof.
  intros Hok HP Hrun.
  destruct (SpanPool_New_view this w obj w' _ _ _ _ eq_refl Hrun) as (P' & A' & Hv & Hnew).
  destruct (ok_new obj P' A' Hok Hnew) as (_ & _ & Hfresh).
  assert (obj ≠ y) by (intros ->; congruence). split; [done|].
  injection Hv as -> _ _ _. by rewrite lookup_insert_ne.
Qed.

Lemma split_there y (sy : Span.Span) this (rest : Z → M unit) w u w' :
  heap_ok w → spans w !! y = Some sy →
  (∀ split, split ≠ y → keeps (λ w, spans w !! y = Some sy) (rest split)) →
  (split ← SpanPool_New this; rest split) w = Done u w' →
  spans w' !! y = Some sy.
Proof.
  intros Hok HP Hrest Hrun. step Hrun as split w1 H1.
  destruct (SpanPool_New_other _ _ _ _ _ _ Hok HP H1) as [Hne HP1].
  by eapply (Hrest split Hne).
Qed.

Ltac result Hrun :=
  repeat (apply bind_Done in Hrun as (? & ? & _ & Hrun)).

Lemma AllocFromHotList_there y sy this list k w r w' :
  Span._isUse sy = true → heap_ok w → spans w !! y = Some sy →
  PageCacheShard.AllocFromHotList this list k w = Done r w' →
  r ≠ y ∧ spans w' !! y = Some sy.
Proof.
  intros Huse Hok HP Hrun. unfold PageCacheShard.AllocFromHotList in Hrun.
  step Hrun as span w1 H1.
  step Hrun as n w2 H2. apply rd_live in H2 as [-> Hlive].
  destruct (popped_other y sy span w w1 Huse) as [Hne HP1]; [|done|done|done|].
  { intros S L P A Hv. by eapply small_PopFront_view. }
  apply (small_PopFront_held _ _ _ _ _ _ Hok) in H1 as [_ Hheld].
  destruct (Hheld Hlive) as [Hh _]. clear Hheld Hlive Hok HP w.
  step Hrun as u3 w3 H3. after H3 HP1. keep Hh H3. clear H3 w1.
  step Hrun as n' w4 H4. apply rd_live in H4 as [-> _].
  step Hrun as u5 w5 H5.
  assert (HP5 : spans w5 !! y = Some sy).
  { destruct (k <? n'); [|by injection H5 as _ <-].
    destruct Hh as (Hok3 & _).
    refine (split_there y sy this _ w3 _ _ Hok3 HP1 _ H5).
    intros split Hsplit. there. }
  clear H5 HP1 Hh. after Hrun HP5. result Hrun. by injection Hrun as <- _.
Qed.

Lemma AllocFromColdList_there y sy this list k w r w' :
  Span._isUse sy = true → heap_ok w → spans w !! y = Some sy →
  PageCacheShard.AllocFromColdList this list k w = Done r w' →
  r ≠ y ∧ spans w' !! y = Some sy.
Proof.
  intros Huse Hok HP Hrun. unfold PageCacheShard.AllocFromColdList in Hrun.
  step Hrun as span w1 H1.
  step Hrun as n w2 H2. apply rd_live in H2 as [-> Hlive].
  destruct (popped_other y sy span w w1 Huse) as [Hne HP1]; [|done|done|done|].
  { intros S L P A Hv. by eapply small_PopFront_view. }
  apply (small_PopFront_held _ _ _ _ _ _ Hok) in H1 as [_ Hheld].
  destruct (Hheld Hlive) as [Hh _]. clear Hheld Hlive Hok HP w.
  step Hrun as u5 w5 H5.
  assert (HP5 : spans w5 !! y = Some sy).
  { destruct (k <? n); [|by injection H5 as _ <-].
    destruct Hh as (Hok3 & _).
    refine (split_there y sy this _ w1 _ _ Hok3 HP1 _ H5).
    intros split Hsplit. there. }
  clear H5 HP1 Hh. after Hrun HP5. result Hrun. by injection Hrun as <- _.
Qed.

Lemma AllocFromMap_there y sy this map it k isCold w r w' :
  Span._isUse sy = true → heap_ok w → spans w !! y = Some sy →
  PageCacheShard.AllocFromMap this map it k isCold w = Done r w' →
  r ≠ y ∧ spans w' !! y = Some sy.
Proof.
  intros Huse Hok HP Hrun. unfold PageCacheShard.AllocFromMap in Hrun.
  step Hrun as span w1 H1.
  assert (Hs1 : spans w1 = spans w).
  { destruct (large_PopFront_view _ _ _ _ _ _ _ _ _ _ eq_refl H1) as (L' & Hv & _).
    by injection Hv. }
  destruct (span =? 0).
  { step Hrun as u2 w2 H2. injection Hrun as <- <-.
    assert (Hy : y ≠ 0).
    { destruct Hok as [_ _ _ _ _ Hlive _]. apply Hlive in HP. lia. }
    split; [done|]. rewrite <- Hs1 in HP. by after H2 HP. }
  step Hrun as u2 w2 H2. view_of H2 Hv2.
  step Hrun as n w3 H3. apply rd_live in H3 as [-> Hlive].
  rewrite (view_spans _ _ Hv2) in Hlive.
  destruct (popped_other y sy span w w1 Huse) as [Hne HP1]; [|done|done|done|].
  { intros S L P A Hv. by eapply large_PopFront_view. }
  apply (large_PopFront_held _ _ _ _ _ _ Hok) in H1 as [Hok1 Hheld].
  destruct (Hheld Hlive) as [Hh _].
  apply (held_keep _ _ _ Hv2) in Hh. rewrite <- (view_spans _ _ Hv2) in HP1.
  clear Hheld Hlive Hok1 Hv2 H2 Hok HP Hs1 w w1.
  step Hrun as u5 w5 H5.
  assert (HP5 : spans w5 !! y = Some sy).
  { destruct (k <? n); [|by injection H5 as _ <-].
    destruct Hh as (Hok3 & _).
    refine (split_there y sy this _ w2 _ _ Hok3 HP1 _ H5).
    intros split Hsplit. there. }
  clear H5 HP1 Hh. after Hrun HP5. result Hrun. by injection Hrun as <- _.
Qed.

Lemma NewSpan_hot_there y sy this k w r w' :
  Span._isUse sy = true → heap_ok w → spans w !! y = Some sy →
  PageCacheShard.NewSpan_hot this k w = Done r w' →
  r ≠ PageCacheShard.Returns y ∧ spans w' !! y = Some sy.
Proof.
  intros Huse Hok HP Hrun. unfold PageCacheShard.NewSpan_hot in Hrun. destruct (k <? NPAGES).
  - step Hrun as l w1 H1. after H1 HP. keep Hok H1. clear H1 w. destruct (negb _).
    + step Hrun as span w2 H2. injection Hrun as <- <-.
      destruct (AllocFromHotList_there _ _ _ _ _ _ _ _ Huse Hok HP H2). split; [|done].
      by intros [= ->].
    + step Hrun as found w2 H2. after H2 HP. keep Hok H2. clear H2 w1.
      destruct found as [i|].
      * step Hrun as span w3 H3. injection Hrun as <- <-.
        destruct (AllocFromHotList_there _ _ _ _ _ _ _ _ Huse Hok HP H3). split; [|done].
        by intros [= ->].
      * by injection Hrun as <- <-.
  - step Hrun as sh w1 H1. after H1 HP. keep Hok H1. clear H1 w.
    destruct (lower_bound _ _) as [it|]; [|by injection Hrun as <- <-].
    step Hrun as ret w2 H2.
    destruct (AllocFromMap_there _ _ _ _ _ _ _ _ _ _ Huse Hok HP H2) as [Hret HP2].
    destruct (ret =? 0); injection Hrun as <- <-; (split; [|done]); [done|].
    by intros [= ->].
Qed.

Lemma NewSpan_cold_there y sy this k w r w' :
  Span._isUse sy = true → heap_ok w → spans w !! y = Some sy →
  PageCacheShard.NewSpan_cold this k w = Done r w' →
  r ≠ PageCacheShard.Returns y ∧ spans w' !! y = Some sy.
Proof.
  intros Huse Hok HP Hrun. unfold PageCacheShard.NewSpan_cold in Hrun.
  step Hrun as r1 w1 H1.
  assert (Hi : heap_ok w1 ∧ r1 ≠ PageCacheShard.Returns y ∧ spans w1 !! y = Some sy).
  { destruct (k <? NPAGES); [|by injection H1 as <- <-].
    step H1 as l w2 H2. after H2 HP. keep Hok H2. clear H2 w. destruct (negb _).
    + step H1 as span w3 H3. injection H1 as <- <-.
      destruct (AllocFromColdList_there _ _ _ _ _ _ _ _ Huse Hok HP H3).
      destruct (AllocFromColdList_ok _ _ _ _ _ _ Hok H3). split; [done|]. split; [|done].
      by intros [= ->].
    + step H1 as found w3 H3. after H3 HP. keep Hok H3. clear H3 w2. destruct found as [i|].
      * step H1 as span w4 H4. injection H1 as <- <-.
        destruct (AllocFromColdList_there _ _ _ _ _ _ _ _ Huse Hok HP H4).
        destruct (AllocFromColdList_ok _ _ _ _ _ _ Hok H4). split; [done|]. split; [|done].
        by intros [= ->].
      * by injection H1 as <- <-. }
  clear Hok HP H1 w. destruct Hi as (Hok & Hr1 & HP).
  destruct r1 as [span| |]; try (by injection Hrun as <- <-).
  step Hrun as sh w2 H2. after H2 HP. keep Hok H2. clear H2 w1.
  destruct (negb _); [|by injection Hrun as <- <-].
  destruct (lower_bound _ _) as [it|]; [|by injection Hrun as <- <-].
  step Hrun as ret w3 H3.
  destruct (AllocFromMap_there _ _ _ _ _ _ _ _ _ _ Huse Hok HP H3) as [Hret HP3].
  destruct (ret =? 0); injection Hrun as <- <-; (split; [|done]); [done|].
  by intros [= ->].
Qed.

Lemma NewSpan_system_there y sy this k w r w' :
  heap_ok w → spans w !! y = Some sy →
  PageCacheShard.NewSpan_system this k w = Done r w' →
  r ≠ PageCacheShard.Returns y ∧ spans w' !! y = Some sy.
Proof.
  intros Hok HP Hrun. unfold PageCacheShard.NewSpan_system in Hrun. destruct (NPAGES <=? k).
  - step Hrun as ptr w1 H1. after H1 HP. keep Hok H1. clear H1 w.
    step Hrun as span w2 H2.
    destruct (SpanPool_New_other _ _ _ _ _ _ Hok HP H2) as [Hne HP2].
    after Hrun HP2. result Hrun. injection Hrun as <- _. split; [|done]. by intros [= ->].
  - step Hrun as ptr w1 H1. after H1 HP. keep Hok H1. clear H1 w.
    step Hrun as big w2 H2.
    destruct (SpanPool_New_other _ _ _ _ _ _ Hok HP H2) as [Hne HP2].
    after Hrun HP2. result Hrun. by injection Hrun as <- _.
Qed.

Lemma NewSpan_body_there y sy this k w r w' :
  Span._isUse sy = true → heap_ok w → spans w !! y = Some sy →
  PageCacheShard.NewSpan_body this k w = Done r w' →
  r ≠ Some y ∧ spans w' !! y = Some sy.
Proof.
  intros Huse Hok HP Hrun. unfold PageCacheShard.NewSpan_body in Hrun.
  step Hrun as hot w1 H1.
  destruct (NewSpan_hot_there _ _ _ _ _ _ _ Huse Hok HP H1) as [Hr1 HP1].
  apply (NewSpan_hot_ok _ _ _ _ _ Hok) in H1 as [Hok1 _].
  destruct hot as [span| |].
  { injection Hrun as <- <-. split; [|done]. intros [= ->]. done. }
  { by injection Hrun as <- <-. }
  step Hrun as cold w2 H2.
  destruct (NewSpan_cold_there _ _ _ _ _ _ _ Huse Hok1 HP1 H2) as [Hr2 HP2].
  apply (NewSpan_cold_ok _ _ _ _ _ Hok1) in H2 as [Hok2 _].
  destruct cold as [span| |].
  { injection Hrun as <- <-. split; [|done]. intros [= ->]. done. }
  { by injection Hrun as <- <-. }
  step Hrun as sys w3 H3.
  destruct (NewSpan_system_there _ _ _ _ _ _ _ Hok2 HP2 H3) as [Hr3 HP3].
  destruct sys as [span| |]; injection Hrun as <- <-; (split; [|done]); try done.
  intros [= ->]. done.
Qed.

(** X28. [ReleaseSpan] of a span in use never touches another span in use:
    whatever it coalesces with the span and whatever it moves to the
    cold lists, the record of every other span in use is afterwards
    what it was before, field by field. *)
Theorem ReleaseSpan_leaves_spans_in_use fuel span w w' y sy :
  heap_ok w →
  field_of w span Span._isUse = Some true →
  y ≠ span → spans w !! y = Some sy → Span._isUse sy = true →
  PageHeap.ReleaseSpan fuel span w = Done tt w' →
  spans w' !! y = Some sy.
Proof.
  intros Hok Hu Hne HP Huse Hrun. pose proof Hok as [_ Hlisted _ _ _ _ _].
  unfold PageHeap.ReleaseSpan in Hrun.
  destruct (span =? 0); [by injection Hrun as <-|].
  step Hrun as idx w1 H1. apply rd_live in H1 as [-> _].
  step Hrun as w2 w3 H3. injection H3 as <- <-.
  destruct (_ <=? _); [done|].
  eapply (ReleaseSpan_there y sy); [exact Huse| | |exact HP|exact Hrun]; [done|].
  split_and!; [done| |done].
  intros Hl. destruct (Hlisted span Hl) as (s & Hs & Hfalse).
  unfold field_of in Hu. rewrite Hs in Hu. cbn in Hu. congruence.
Qed.

Lemma ReleaseSpan_leaves_spans_in_use_witness :
  match PageHeap.NewSpan 2 0 1 (new_world 1 4096 [8192000]) with
  | Done a w1 =>
      match PageHeap.NewSpan 2 0 1 w1 with
      | Done b w2 =>
          match PageHeap.ReleaseSpan 5 a w2, spans w2 !! b with
          | Done _ w3, Some sb => spans w3 !! b = Some sb
          | _, _ => False
          end
      | Raise _ => False
      end
  | Raise _ => False
  end.
Proof.
  assert (Hcheck :
    match PageHeap.NewSpan 2 0 1 (new_world 1 4096 [8192000]) with
    | Done a w1 =>
        match PageHeap.NewSpan 2 0 1 w1 with
        | Done b w2 =>
            match PageHeap.ReleaseSpan 5 a w2, spans w2 !! b, spans w2 !! a with
            | Done _ _, Some sb, Some sa =>
                negb (b =? a) && Span._isUse sa && Span._isUse sb
            | _, _, _ => false
            end
        | Raise _ => false
        end
    | Raise _ => false
    end = true) by (vm_compute; reflexivity).
  destruct (PageHeap.NewSpan 2 0 1 (new_world 1 4096 [8192000])) as [a w1|e] eqn:E1; [|done].
  destruct (PageHeap.NewSpan 2 0 1 w1) as [b w2|e] eqn:E2; [|done].
  destruct (PageHeap.ReleaseSpan 5 a w2) as [[] w3|e] eqn:E3; [|done].
  destruct (spans w2 !! b) as [sb|] eqn:Eb; [|done].
  destruct (spans w2 !! a) as [sa|] eqn:Ea; [|done].
  apply andb_prop in Hcheck as [Hcheck Hsb]. apply andb_prop in Hcheck as [Hne Hsa].
  apply (ReleaseSpan_leaves_spans_in_use 5 a w2 w3 b sb).
  - exact (reachable_ok _ (reach_NewSpan _ _ _ _ _ _
             (reach_NewSpan _ _ _ _ _ _ (reach_init 1 4096 [8192000]) E1) E2)).
  - unfold field_of. rewrite Ea. cbn. by rewrite Hsa.
  - apply Z.eqb_neq. by destruct (b =? a).
  - exact Eb.
  - exact Hsb.
  - exact E3.
Defined.

(** X29. [NewSpan] never returns a span that is already in use, and the
    record of every span in use is afterwards what it was before: the
    spans it pops, splits and creates are idle or new ones. *)
Theorem NewSpan_leaves_spans_in_use fuel idx k w span w' y sy :
  heap_ok w →
  spans w !! y = Some sy → Span._isUse sy = true →
  PageHeap.NewSpan fuel idx k w = Done span w' →
  span ≠ y ∧ spans w' !! y = Some sy.
Proof.
  intros Hok HP Huse Hrun. unfold PageHeap.NewSpan in Hrun.
  step Hrun as sp w1 H1. unfold PageCacheShard.NewSpan in H1.
  apply (loop_Done (λ w0, heap_ok w0 ∧ spans w0 !! y = Some sy)
           (λ sp w0, sp ≠ y ∧ spans w0 !! y = Some sy) _ _ _ _ _) in H1;
    [| |done]; cycle 1.
  { intros w0 r w0' [Hok0 HP0] Hbody.
    destruct (NewSpan_body_there _ _ _ _ _ _ _ Huse Hok0 HP0 Hbody) as [Hr HP0'].
    destruct (NewSpan_body_ok _ _ _ _ _ Hok0 Hbody) as [Hok0' _].
    destruct r as [a|]; [|done]. split; [|done]. by intros ->. }
  destruct H1 as [Hne HP1].
  step Hrun as u2 w2 H2. injection Hrun as <- <-. split; [done|].
  destruct (sp =? 0); [by injection H2 as _ <-|]. by after H2 HP1.
Qed.

Lemma NewSpan_leaves_spans_in_use_witness :
  match PageHeap.NewSpan 2 0 1 (new_world 1 4096 [8192000]) with
  | Done a w1 =>
      match PageHeap.NewSpan 2 0 1 w1, spans w1 !! a with
      | Done b w2, Some sa => b ≠ a ∧ spans w2 !! a = Some sa
      | _, _ => False
      end
  | Raise _ => False
  end.
Proof.
  assert (Hcheck :
    match PageHeap.NewSpan 2 0 1 (new_world 1 4096 [8192000]) with
    | Done a w1 =>
        match PageHeap.NewSpan 2 0 1 w1, spans w1 !! a with
        | Done _ _, Some sa => Span._isUse sa
        | _, _ => false
        end
    | Raise _ => false
    end = true) by (vm_compute; reflexivity).
  destruct (PageHeap.NewSpan 2 0 1 (new_world 1 4096 [8192000])) as [a w1|e] eqn:E1; [|done].
  destruct (PageHeap.NewSpan 2 0 1 w1) as [b w2|e] eqn:E2; [|done].
  destruct (spans w1 !! a) as [sa|] eqn:Ea; [|done].
  apply (NewSpan_leaves_spans_in_use 2 0 1 w1 b w2 a sa).
  - exact (reachable_ok _ (reach_NewSpan _ _ _ _ _ _ (reach_init 1 4096 [8192000]) E1)).
  - exact Ea.
  - exact Hcheck.
  - exact E2.
Defined.

End UntouchedFacts.
